(* ===== verification/_CoqProject ===== *)
-Q . S2P
Prelude.v
GoStrings.v
GoTime.v
Value.v
Floats.v
Effects.v
Parallel.v
Kube.v
NetURL.v
Redact.v
Cache.v
CacheConc.v
Pages.v
Json.v
Unmarshal.v
NumberText.v
Shortest.v
RoundTrip.v
Groups.v
Instances.v
DebugPod.v
Glob.v
Args.v
Policy.v
Disruption.v
DisruptionConc.v
Handlers.v
Answers.v
Tools.v
Server.v
EndToEnd.v
DebugServer.v
Answered.v
ServerConc.v
Client.v
Main.v
Shutdown.v
