(* ===== verification/Prelude.v ===== *)
(** * openshift-mcp: verification development

    openshift-mcp is a Go server that shows an OpenShift cluster to AI agents
    over the Model Context Protocol.  Its endpoint /mcp (or stdin and stdout)
    serves read-only tools; an optional second endpoint, /debug/mcp, starts
    short-lived debug pods as the person a request names.  This library models
    the program file by file and proves what its users rely on: the read-only
    endpoint only reads, debug pods are driven only by the person they belong
    to, credentials do not leave the cluster in answers, the cache never mixes
    up calls, and the tools answer what their descriptions say.

    ** How the program is modelled

    A handler is a program over requests ([Effects]): the requests of [Kube]
    are the API calls, the readings of the clock and the ticks of a timer, and
    the environment answers each with any reply of its type.  [runs p tr a]
    says that [p] can answer [a] with the exchange [tr]; a theorem about every
    run of a handler therefore holds for every cluster, every failure of the
    API and every clock.  Errors are Go's [(value, error)] pairs as [result].
    Integers are [Z] with wrap-around written where the source can overflow,
    strings are bytes, [any] is [Value.value].  State (the cache, the group
    cache) is passed through.  Where goroutines share state, the model is a
    step relation: [CacheConc] for the cache, [ServerConc] for the calls of
    the server over it, [Parallel] for error groups, [Shutdown] for the two
    goroutines that end the HTTP server.

    ** The files, and the source each one models

    - Language and standard library, as far as the program uses them:
      [GoStrings] (strings, runes), [GoTime] (integers, durations, dates,
      float64 arithmetic in durations), [Value] (dynamic values, maps),
      [Floats] (decimal text of a float64), [Json] (encoding), [Unmarshal]
      (decoding), [NumberText], [RoundTrip] (what is written reads back),
      [Shortest] (every finite float64 has a text of at most 17 digits),
      [NetURL] (net/url), [Glob] (filepath.Match).
    - [Effects]: programs, runs and their laws; [Parallel]: groups of
      goroutines, by the documented contract of errgroup; [Kube]: the API's
      objects and requests; [Instances]: concrete interfaces for examples.
    - [Redact]: internal/mcp/redact.go.  [Pages]: internal/k8s/list.go.
    - [Cache], [CacheConc]: internal/mcp/cache.go, the cache with its pointers
      and the concurrent calls of [do].
    - [DebugPod]: internal/debugpod/debugpod.go.  Configuration, the check of
      the caller, Start, Exec, Finish, List, the capped output.  [Groups]: its
      group cache and the decoding of the group list.
    - [Args]: the decoded arguments of a call (server.go).
    - [Handlers]: internal/mcp/handlers.go.  [Policy]: internal/mcp/policy.go.
      [Disruption], [DisruptionConc]: internal/mcp/audit.go.
    - [Answers]: the JSON of what the handlers return, from the struct tags and
      map literals of handlers.go, policy.go and audit.go.
    - [Tools]: internal/mcp/tools.go.  [Server]: internal/mcp/server.go,
      [ServerConc] its calls as goroutines.  [DebugServer]: internal/mcp/debug.go.
    - [Client]: internal/k8s/client.go.  [Main]: cmd/openshift-mcp/main.go and
      internal/version/version.go.  [Shutdown]: the end of runHTTP in main.go.
    - [EndToEnd]: get_resource from the reply of the API server to what the
      client reads, across [Redact], [Handlers], [Answers] and [Unmarshal].
      [Answered]: every call of a tool of either endpoint has an answer.

    Definitions keep the names of the source; a loop of a function that is a
    definition of its own is named after what it does.

    ** How the parts fit

    [Main.main] builds the clients ([Client.New]), then runs the server of
    [Server.NewServer] over stdio, or [Main.serve], which routes /mcp to that
    server and /debug/mcp to [DebugServer.DebugHTTPHandler].  A tool of the
    table ([Tools.buildTools]) goes through [Server.call_tool]: the raw
    arguments are decoded ([Args.call_args]), the cache is asked, the handler
    runs, and its answer becomes text ([Answers.MarshalIndent]).  A debug tool
    goes through [DebugServer.add_debug] to the interface [debugRunner], whose
    implementation [DebugServer.runner] is the four operations of [DebugPod].

    ** What the theorems show

    - The whole program: [debug_endpoint_guarded] and [tools_read_only] say
      who can cause which request; they are proved from the theorems of the
      parts through [only], "every request this program can make".
      [tools_answer] says that calls are answered, through [answers_unless],
      "out of fuel only after such an exchange", and [approx], "the same
      program with more fuel".
    - Debug pods: [operations_act_as_caller], [exec_only_own_pod],
      [job_pod_owned], [Start_result], [Exec_time_limit],
      [limitBuffer_keeps], [groupsFor_refresh], [ConfigFromEnv_valid].
    - Credentials: [redactObject_computes_mask] refines the in-place walk to a
      description without mutation or order, from which [redactObject_no_leak]
      (the result does not depend on the credentials: [twin] relates objects
      that are equal but for them) and [redactObject_keeps] (nothing else is
      changed, at any position) follow; [redactString_url] says what becomes of
      a URL with a password, over the rules of net/url;
      [handleListCertificates_public] and [get_resource_seen] carry this to
      answers, the second as far as the text and the values the client parses.
      What counts as a credential is [credential], [flag_credential] and
      [url_credential]; strings in a list under a sensitive name are not one.
    - The cache: [resultCache_refines] (the linked list implements a list with
      expiry); [do_succeeds_once] for concurrent calls: as long as nothing
      expires or is evicted, a key's function succeeds once.  For the server's use
      of it, [concurrent_answers_own]: calls at the same time get their own
      tool's answers, [calls_end]: none waits or goes on for ever, and
      [calls_are_schedule]: calls one after the other, the form the handlers'
      theorems speak of, are one of the schedules.
    - Text at the boundary: [arguments_roundtrip] (what a client sends is what
      a handler's getters return), [answer_reads_back] (what a handler returns
      is what a client reads, and that only NaN and the infinities make an
      answer fail), [handlers_read_schema] (handlers and schemas agree).
    - The tools: [ListPages_complete], [ListCustom_first_served],
      [handlePodLogs_bounded], [ruleApplies_spec], [ruleApplies_private],
      [nsMatches_patterns], [handleListPolicies_rules],
      [handleGetPolicyReport_counts] (both against relations that describe one
      rule and one result, [describes] and [reported]), [scanPods_exact],
      [imageInstances_sound], [resolveOwners_order], [audit_schedules].
    - Start and end: [New_clients]; [signal_ends], [exit_status_decided] and
      [closer_leaves_none] for the end of the HTTP server.

    ** Bounds and fuel

    The recursive redaction walk gets the nesting depth of its object as fuel,
    and is proved right with it.  Paged lists and the polls of Start take fuel
    as a parameter; used up, the program is [OutOfFuel], which has no run.
    [tools_answer] and [ListPages_complete] show that enough fuel gives the
    answer, and that more does not change it; the safety theorems hold for
    every fuel.  Calls at the same time end unless a list of the cluster used
    its fuel up ([calls_end]).  Decoding JSON is bounded by the length of its
    text and by the decoder's limit of 10000 levels, which is a hypothesis of
    the round trips.  The integer theorem of [arguments_roundtrip] stops at 2^53, where float64 stops being exact.  The
    search for the shortest text of a float64 tries up to 17 digits, which
    [Shortest] proves enough, and reads each text back before it is taken.  [signal_ends] bounds the steps the two
    goroutines of [Shutdown] take after a signal.

    ** Interfaces

    Code outside the repository is a class, with laws where the program relies
    on them: [Unicode] and [Printable] (case tables), [SliceSort] (sort.Slice
    permutes and orders), [Unstructured], [Selectors], [Quantities],
    [GVRText], [Certs] (PEM and X.509), [ClientGo], [SDK] (the MCP library: it
    reaches the cluster only through the registered tools).  Choices made
    outside the program are classes as well: [LocalZone] (the process's time
    zone) and [Builder] (how the decoder keeps an object's members).

    ** Not modelled

    Logging (pure I/O); the streams of an exec (SPDY, WebSocket), which are
    one request here; the cancellation of a request's context except where the
    source looks at it; the MCP protocol itself and net/http beyond the routes
    and the contract of Shutdown; iteration order of maps where the source
    sorts afterwards. *)

From stdpp Require Export base tactics list strings gmap pretty sorting.
From Stdlib Require Export ZArith Lia.
From Stdlib Require Import Ascii.

#[export] Set Default Goal Selector "!".

(** ** Hint databases and tactics of the development *)

Create HintDb mcp.
Create Rewrite HintDb mcp_str.

(** Split the innermost [match] or [if] of the goal, keeping its equation. *)
Ltac split_match :=
  match goal with
  | |- context [match ?x with _ => _ end] =>
      lazymatch x with
      | context [match _ with _ => _ end] => fail
      | _ => destruct x eqn:?
      end
  end.

(** The same in a hypothesis. *)
Ltac split_match_in H :=
  match type of H with
  | context [match ?x with _ => _ end] =>
      lazymatch x with
      | context [match _ with _ => _ end] => fail
      | _ => destruct x eqn:?
      end
  end.

(** Case analysis to the end, then congruence and arithmetic. *)
Ltac crush := repeat (split_match; simplify_eq/=); try done; try lia.

(** [lia] with division and modulo by constants. *)
Ltac div_lia := Z.to_euclidean_division_equations; lia.

(** ** Results: Go's [(value, error)] pairs *)

Inductive result (E A : Type) : Type :=
| Ok (a : A)
| Err (e : E).

Arguments Ok {E A} a.
Arguments Err {E A} e.

Definition rbind {E A B} (r : result E A) (k : A → result E B) : result E B :=
  match r with Ok a => k a | Err e => Err e end.

Definition is_ok {E A} (r : result E A) : bool :=
  match r with Ok _ => true | Err _ => false end.

(** ** Go's order on strings (bytewise, lexicographic) *)

Fixpoint str_lt (s t : string) : bool :=
  match s, t with
  | _, EmptyString => false
  | EmptyString, String _ _ => true
  | String a s', String b t' =>
      if N.ltb (N_of_ascii a) (N_of_ascii b) then true
      else if N.ltb (N_of_ascii b) (N_of_ascii a) then false
      else str_lt s' t'
  end.

(** ** Sorting: [sort.SliceStable] and [sort.Slice]

    The comparison is the [less] closure of the Go call, as a boolean function
    on elements. *)

Section insertion.
Context {A : Type} (less : A → A → bool).

Fixpoint sorted_insert (x : A) (l : list A) : list A :=
  match l with
  | [] => [x]
  | y :: l' => if less y x then y :: sorted_insert x l' else x :: y :: l'
  end.

Fixpoint stable_sort (l : list A) : list A :=
  match l with
  | [] => []
  | x :: l' => sorted_insert x (stable_sort l')
  end.

(** No later element is less than an earlier one. *)
Definition in_order : list A → Prop := StronglySorted (λ x y, less y x = false).
End insertion.

(** What the sort package asks of [less]: a strict weak ordering. *)
Class StrictWeak {A} (less : A → A → bool) : Prop := {
  sw_asym : ∀ x y, less x y = true → less y x = false;
  sw_neg_trans : ∀ x y z, less x y = false → less y z = false → less x z = false;
}.

(** [sort.Slice] gives no stability guarantee: all a caller may use is that
    the result is an ordered permutation. *)
Class SliceSort := {
  slice_sort : ∀ {A}, (A → A → bool) → list A → list A;
  slice_sort_perm : ∀ A (less : A → A → bool) l, slice_sort less l ≡ₚ l;
  slice_sort_ordered : ∀ A (less : A → A → bool) l,
    StrictWeak less → in_order less (slice_sort less l);
}.

(** Lexicographic composition, as in
    [if f(a) != f(b) { return f(a) < f(b) }; return next(a, b)]. *)
Definition lex_by {A} (f : A → string) (next : A → A → bool) (x y : A) : bool :=
  if decide (f x = f y) then next x y else str_lt (f x) (f y).

(** ** Lemmas on strings *)

Lemma str_lt_irrefl s : str_lt s s = false.
Proof. induction s as [|a s IH]; simpl; [done|]. by rewrite N.ltb_irrefl. Qed.

Lemma str_lt_asym s t : str_lt s t = true → str_lt t s = false.
Proof.
  revert t; induction s as [|a s IH]; intros [|b t]; simpl; try done.
  destruct (N.ltb_spec (N_of_ascii a) (N_of_ascii b)),
    (N.ltb_spec (N_of_ascii b) (N_of_ascii a)); try done; try lia. apply IH.
Qed.

Lemma str_lt_total s t : str_lt s t = false → str_lt t s = false → s = t.
Proof.
  revert t; induction s as [|a s IH]; intros [|b t]; simpl; try done.
  destruct (N.ltb_spec (N_of_ascii a) (N_of_ascii b)),
    (N.ltb_spec (N_of_ascii b) (N_of_ascii a)); try done; try lia.
  intros H1 H2. f_equal; [|by apply IH].
  rewrite <- (ascii_N_embedding a), <- (ascii_N_embedding b). f_equal; lia.
Qed.

Lemma str_lt_trans s t u : str_lt s t = true → str_lt t u = true → str_lt s u = true.
Proof.
  revert t u; induction s as [|a s IH]; intros [|b t] [|c u]; simpl; try done.
  destruct (N.ltb_spec (N_of_ascii a) (N_of_ascii b)),
    (N.ltb_spec (N_of_ascii b) (N_of_ascii a)),
    (N.ltb_spec (N_of_ascii b) (N_of_ascii c)),
    (N.ltb_spec (N_of_ascii c) (N_of_ascii b)),
    (N.ltb_spec (N_of_ascii a) (N_of_ascii c)),
    (N.ltb_spec (N_of_ascii c) (N_of_ascii a)); try done; try lia. apply IH.
Qed.

#[export] Hint Rewrite str_lt_irrefl : mcp_str.

(** ** Strict weak orders *)

#[export] Instance str_lt_weak : StrictWeak str_lt.
Proof.
  split; [apply str_lt_asym|]. intros x y z Hxy Hyz.
  destruct (str_lt x z) eqn:Hxz; [|done].
  destruct (str_lt y x) eqn:Hyx.
  - by rewrite (str_lt_trans y x z) in Hyz.
  - by rewrite (str_lt_total x y Hxy Hyx), Hyz in Hxz.
Qed.

#[export] Instance Zltb_weak : StrictWeak Z.ltb.
Proof. split; intros; lia. Qed.

Lemma weak_on {A B} (f : A → B) (less : B → B → bool) :
  StrictWeak less → StrictWeak (λ x y, less (f x) (f y)).
Proof.
  intros [Ha Ht]; split; [by intros; apply Ha|].
  intros x y z H1 H2. by apply (Ht (f x) (f y) (f z)).
Qed.

Lemma weak_flip {A} (less : A → A → bool) :
  StrictWeak less → StrictWeak (λ x y, less y x).
Proof. intros [Ha Ht]; split; [by intros; apply Ha|by intros; eapply Ht]. Qed.

Lemma lex_by_weak {A} (f : A → string) (next : A → A → bool) :
  StrictWeak next → StrictWeak (lex_by f next).
Proof.
  intros [Ha Ht]; split; unfold lex_by.
  - intros x y. repeat case_decide; try congruence; [apply Ha|apply str_lt_asym].
  - intros x y z. repeat case_decide; intros L1 L2; try congruence.
    + by eapply Ht.
    + exfalso. assert (f x = f y); [|congruence].
      apply str_lt_total; [done|congruence].
    + by apply (sw_neg_trans (less:=str_lt)) with (f y).
Qed.

(** ** The stable sort: a permutation, ordered, and stable *)

Section sort_lemmas.
Context {A : Type} (less : A → A → bool).

(** What is inserted comes after all that is less, and before the rest. *)
Lemma sorted_insert_app x l l' : Forall (λ y, less y x = true) l → Forall (λ y, less y x = false) l' →
  sorted_insert less x (l ++ l') = l ++ x :: l'.
Proof.
  intros Hl Hl'. induction Hl as [|y l Hy _ IH]; simpl; [|by rewrite Hy, IH].
  destruct l' as [|z l']; simpl; [done|]. by rewrite (Forall_inv Hl').
Qed.

Lemma sorted_insert_perm x l : sorted_insert less x l ≡ₚ x :: l.
Proof.
  induction l as [|y l IH]; simpl; [done|]. destruct (less y x); [|done].
  by rewrite IH, Permutation_swap.
Qed.

Lemma stable_sort_perm l : stable_sort less l ≡ₚ l.
Proof. induction l as [|x l IH]; simpl; [done|]. by rewrite sorted_insert_perm, IH. Qed.

Lemma stable_sort_length l : length (stable_sort less l) = length l.
Proof. apply Permutation_length, stable_sort_perm. Qed.

Lemma stable_sort_in x l : x ∈ stable_sort less l ↔ x ∈ l.
Proof. by rewrite stable_sort_perm. Qed.

Context `{HW : !StrictWeak less}.

Lemma sorted_insert_ordered x l : in_order less l → in_order less (sorted_insert less x l).
Proof.
  induction 1 as [|y l Hl IH Hy]; simpl; [repeat constructor|].
  destruct (less y x) eqn:Hyx.
  - constructor; [done|]. rewrite sorted_insert_perm. constructor; [|done]. by apply sw_asym.
  - constructor; [by constructor|]. constructor; [done|].
    eapply Forall_impl; [exact Hy|]. intros z Hz. by apply (sw_neg_trans _ y).
Qed.

Lemma stable_sort_ordered l : in_order less (stable_sort less l).
Proof. induction l; simpl; [constructor|]. by apply sorted_insert_ordered. Qed.

(** Elements of one equivalence class keep their relative order. *)
Lemma sorted_insert_class (P : A → bool) x l :
  (∀ y, P x → P y → less y x = false) →
  List.filter P (sorted_insert less x l) = List.filter P (x :: l).
Proof.
  intros HP. induction l as [|y l IH]; simpl; [done|].
  destruct (less y x) eqn:Hyx; simpl; [|done]. rewrite IH. simpl.
  destruct (P x) eqn:Px, (P y) eqn:Py; try done.
  rewrite (HP y) in Hyx; [done|by apply Is_true_eq_left..].
Qed.

Lemma stable_sort_class (P : A → bool) l :
  (∀ x y, P x → P y → less y x = false) →
  List.filter P (stable_sort less l) = List.filter P l.
Proof.
  intros HP. induction l as [|x l IH]; simpl; [done|].
  rewrite sorted_insert_class by auto. simpl. by rewrite IH.
Qed.

End sort_lemmas.

(** Insertion sort meets the contract of [sort.Slice]. *)
#[export] Instance insertion_slice_sort : SliceSort := {
  slice_sort := @stable_sort;
  slice_sort_perm := @stable_sort_perm;
  slice_sort_ordered := λ A less l HW, @stable_sort_ordered A less HW l;
}.

#[export] Hint Resolve stable_sort_perm stable_sort_ordered lex_by_weak weak_on weak_flip
  str_lt_weak Zltb_weak : mcp.

(** ** Sums over lists *)

Lemma sum_list_ext {A} (f g : A → nat) l :
  (∀ x, x ∈ l → f x = g x) → sum_list_with f l = sum_list_with g l.
Proof.
  induction l as [|x l IH]; intros H; simpl; [done|].
  rewrite H by left. rewrite IH; [done|]. intros. apply H. by right.
Qed.

Lemma sum_list_add {A} (f g : A → nat) l :
  sum_list_with (λ x, f x + g x)%nat l = (sum_list_with f l + sum_list_with g l)%nat.
Proof. induction l as [|x l IH]; simpl; lia. Qed.

Lemma sum_list_zero {A} (f : A → nat) l :
  sum_list_with f l = 0%nat ↔ ∀ x, x ∈ l → f x = 0%nat.
Proof.
  induction l as [|y l IH]; simpl; [split; [by intros _ x ?%not_elem_of_nil|done]|].
  rewrite Nat.eq_add_0, IH. split.
  - intros [Hy Hl] x [->|Hx]%elem_of_cons; auto.
  - intros H. split; [apply H; left|]. intros x Hx. apply H. by right.
Qed.

Lemma sum_list_map {A B} (f : B → nat) (g : A → B) l :
  sum_list_with f (map g l) = sum_list_with (λ x, f (g x)) l.
Proof. induction l as [|x l IH]; simpl; [done|]. by rewrite IH. Qed.

Lemma sum_list_perm {A} (f : A → nat) l l' :
  l ≡ₚ l' → sum_list_with f l = sum_list_with f l'.
Proof. induction 1; simpl; lia. Qed.

#[export] Instance sum_list_with_perm {A} (f : A → nat) :
  Proper ((≡ₚ) ==> eq) (sum_list_with f).
Proof. intros l l'. apply sum_list_perm. Qed.

(** ** Termination of several parts that take turns *)

Section turns.
Context {A : Type} (R : A → A → Prop).

(** One part goes down. *)
Definition one_down (m' m : gmap nat A) : Prop := ∃ i x y, m !! i = Some x ∧ R y x ∧ m' = <[i := y]> m.

Lemma one_down_insert i x m : m !! i = None → Acc R x → Acc one_down m → Acc one_down (<[i := x]> m).
Proof.
  intros Hi Hx. revert m Hi. induction Hx as [x _ IHx]. intros m Hi Hm. pose proof Hm as Hacc.
  induction Hm as [m _ IHm]. constructor. intros m' (j & a & b & Hj & Hr & ->). destruct (decide (i = j)) as [<-|Hn].
  - rewrite lookup_insert_eq in Hj. injection Hj as <-. rewrite insert_insert_eq. by apply IHx.
  - rewrite lookup_insert_ne in Hj by done. rewrite insert_insert_ne by done.
    assert (Hd : one_down (<[j := b]> m) m) by (by exists j, a, b).
    apply IHm; [done|by rewrite lookup_insert_ne|by eapply Acc_inv].
Qed.

Lemma one_down_wf : well_founded R → well_founded one_down.
Proof.
  intros HR m. induction m as [|i x m Hi IH] using map_ind.
  - constructor. intros m' (j & a & b & Hj & _). by rewrite lookup_empty in Hj.
  - apply one_down_insert; [exact Hi|apply HR|exact IH].
Qed.

End turns.
