(* ===== verification/GoStrings.v ===== *)
(** * Go strings

    A Go string is a sequence of bytes; [string] is used byte for byte.  This
    file models what the program uses of the language and of package
    [strings]: decoding to runes as [range] and [\[\]rune(s)] do, encoding
    runes back, and the search, cut, trim, fold and join functions.  The case
    tables of package [unicode] above the ASCII range are an interface
    ([Unicode]); no theorem depends on their contents. *)

From S2P Require Import Prelude.
From Stdlib Require Import Ascii.
Local Open Scope stdpp_scope.
Local Open Scope Z_scope.

#[global] Arguments String.append : simpl nomatch.

(** ** Bytes and runes *)

Definition byte_z (a : ascii) : Z := Z.of_N (N_of_ascii a).
Definition z_byte (z : Z) : ascii := ascii_of_N (Z.to_N z).

Definition between (lo hi x : Z) : bool := (lo <=? x) && (x <=? hi).

(** utf8.RuneError *)
Definition rune_error : Z := 65533.

Definition valid_rune (r : Z) : bool := between 0 55295 r || between 57344 1114111 r.

Definition cont (a : ascii) : bool := between 128 191 (byte_z a).

(** The second byte's range, from the first (utf8's acceptRanges). *)
Definition second_lo (b0 : Z) : Z :=
  if b0 =? 224 then 160 else if b0 =? 240 then 144 else 128.
Definition second_hi (b0 : Z) : Z :=
  if b0 =? 237 then 159 else if b0 =? 244 then 143 else 191.
Definition second (b0 : Z) (a : ascii) : bool :=
  between (second_lo b0) (second_hi b0) (byte_z a).

(** The runes of a string with the bytes each takes; an invalid byte is
    [rune_error] with width one. *)
Fixpoint decode (s : string) : list (Z * string) :=
  match s with
  | EmptyString => []
  | String a s1 =>
      let b0 := byte_z a in
      if b0 <? 128 then (b0, String a "") :: decode s1
      else if between 194 223 b0 then
        match s1 with
        | String b s2 =>
            if cont b
            then ((b0 - 192) * 64 + (byte_z b - 128), String a (String b "")) :: decode s2
            else (rune_error, String a "") :: decode s1
        | EmptyString => (rune_error, String a "") :: decode s1
        end
      else if between 224 239 b0 then
        match s1 with
        | String b (String c s3) =>
            if second b0 b && cont c
            then ((b0 - 224) * 4096 + (byte_z b - 128) * 64 + (byte_z c - 128),
                  String a (String b (String c ""))) :: decode s3
            else (rune_error, String a "") :: decode s1
        | _ => (rune_error, String a "") :: decode s1
        end
      else if between 240 244 b0 then
        match s1 with
        | String b (String c (String d s4)) =>
            if second b0 b && cont c && cont d
            then ((b0 - 240) * 262144 + (byte_z b - 128) * 4096
                    + (byte_z c - 128) * 64 + (byte_z d - 128),
                  String a (String b (String c (String d "")))) :: decode s4
            else (rune_error, String a "") :: decode s1
        | _ => (rune_error, String a "") :: decode s1
        end
      else (rune_error, String a "") :: decode s1
  end.

(** [\[\]rune(s)] *)
Definition runes (s : string) : list Z := map fst (decode s).

(** utf8.AppendRune *)
Definition encode_rune (r : Z) : string :=
  if between 0 127 r then String (z_byte r) ""
  else if between 128 2047 r then
    String (z_byte (192 + r / 64)) (String (z_byte (128 + r mod 64)) "")
  else if negb (valid_rune r) then
    String (z_byte 239) (String (z_byte 191) (String (z_byte 189) ""))
  else if r <? 65536 then
    String (z_byte (224 + r / 4096)) (String (z_byte (128 + r / 64 mod 64))
      (String (z_byte (128 + r mod 64)) ""))
  else
    String (z_byte (240 + r / 262144)) (String (z_byte (128 + r / 4096 mod 64))
      (String (z_byte (128 + r / 64 mod 64)) (String (z_byte (128 + r mod 64)) ""))).

(** [string(rs)] for a rune slice. *)
Fixpoint of_runes (rs : list Z) : string :=
  match rs with [] => "" | r :: rs' => encode_rune r +:+ of_runes rs' end.

Fixpoint cat (l : list string) : string :=
  match l with [] => "" | s :: l' => s +:+ cat l' end.

(** ** Package strings *)

Definition HasPrefix (s p : string) : bool := String.prefix p s.

#[global] Arguments HasPrefix : simpl never.

Fixpoint str_drop (n : nat) (s : string) : string :=
  match n, s with S n', String _ s' => str_drop n' s' | _, _ => s end.

Fixpoint str_take (n : nat) (s : string) : string :=
  match n, s with S n', String a s' => String a (str_take n' s') | _, _ => "" end.

Definition TrimPrefix (s p : string) : string :=
  if HasPrefix s p then str_drop (String.length p) s else s.

(** strings.CutPrefix *)
Definition CutPrefix (s p : string) : string * bool :=
  if HasPrefix s p then (str_drop (String.length p) s, true) else (s, false).

Fixpoint Contains (s sub : string) : bool :=
  HasPrefix s sub ||
  match s with EmptyString => false | String _ s' => Contains s' sub end.

(** strings.Cut: before, after, found. *)
Fixpoint Cut (s sep : string) : string * string * bool :=
  if HasPrefix s sep then ("", str_drop (String.length sep) s, true)
  else match s with
       | EmptyString => ("", "", false)
       | String a s' => let '(b, r, f) := Cut s' sep in (String a b, r, f)
       end.

(** What follows the last occurrence of a byte, when there is one: the slice
    [s\[LastIndex(s, c)+1:\]]. *)
Fixpoint after_last (c : ascii) (s : string) : option string :=
  match s with
  | EmptyString => None
  | String a s' =>
      match after_last c s' with
      | Some r => Some r
      | None => if decide (a = c) then Some s' else None
      end
  end.

(** strings.Split for a one-byte separator. *)
Fixpoint Split (s : string) (c : ascii) : list string :=
  match s with
  | EmptyString => [""]
  | String a s' =>
      if decide (a = c) then "" :: Split s' c
      else match Split s' c with
           | x :: l => String a x :: l
           | [] => [String a ""]
           end
  end.

Definition Join (l : list string) (sep : string) : string := String.concat sep l.

(** unicode.IsSpace *)
Definition is_space (r : Z) : bool :=
  between 9 13 r || (r =? 32) || (r =? 133) || (r =? 160) || (r =? 5760)
  || between 8192 8202 r || (r =? 8232) || (r =? 8233) || (r =? 8239)
  || (r =? 8287) || (r =? 12288).

Fixpoint drop_spaces (l : list (Z * string)) : list (Z * string) :=
  match l with
  | [] => []
  | (r, raw) :: l' => if is_space r then drop_spaces l' else l
  end.

Definition TrimSpace (s : string) : string :=
  cat (map snd (rev (drop_spaces (rev (drop_spaces (decode s)))))).

(** The tables of package [unicode] for runes outside ASCII: [unicode.ToLower]
    and equality under simple folding. *)
Class Unicode := {
  unicode_lower : Z → Z;
  unicode_fold : Z → Z → bool;
}.

Definition ascii_lower (r : Z) : Z := if between 65 90 r then r + 32 else r.

Definition rune_lower `{Unicode} (r : Z) : Z :=
  if r <? 128 then ascii_lower r else unicode_lower r.

(** strings.ToLower *)
Definition ToLower `{Unicode} (s : string) : string := of_runes (map rune_lower (runes s)).

Definition fold_eq `{Unicode} (r1 r2 : Z) : bool :=
  if (r1 <? 128) && (r2 <? 128) then ascii_lower r1 =? ascii_lower r2
  else (r1 =? r2) || unicode_fold r1 r2.

Fixpoint folds `{Unicode} (l1 l2 : list Z) : bool :=
  match l1, l2 with
  | [], [] => true
  | r1 :: l1', r2 :: l2' => fold_eq r1 r2 && folds l1' l2'
  | _, _ => false
  end.

(** strings.EqualFold *)
Definition EqualFold `{Unicode} (s t : string) : bool := folds (runes s) (runes t).

(** strings.Replace(s, old, new, 1) for a non-empty [old]. *)
Definition replace_first (s old new : string) : string :=
  let '(b, r, f) := Cut s old in if f then b +:+ new +:+ r else s.

(** ** Bytes *)

(** *** strconv.Quote, and fmt's %q *)

(** unicode.IsPrint above ASCII. *)
Class Printable := { unicode_print : Z → bool }.

Definition hex_digit (z : Z) : string := String (z_byte (if z <? 10 then 48 + z else 87 + z)) "".

Fixpoint hex (digits : nat) (z : Z) : string :=
  match digits with O => "" | S d => hex d (z / 16) +:+ hex_digit (z mod 16) end.

Definition backslash : string := String (z_byte 92) "".

Definition quote_rune `{Printable} (r : Z) (raw : string) : string :=
  if (r =? rune_error) && (String.length raw =? 1)%nat then
    backslash +:+ "x" +:+ match raw with String a _ => hex 2 (byte_z a) | _ => "" end
  else if (r =? 34) || (r =? 92) then backslash +:+ raw
  else if between 32 126 r || ((128 <=? r) && unicode_print r) then raw
  else if r =? 7 then backslash +:+ "a" else if r =? 8 then backslash +:+ "b"
  else if r =? 12 then backslash +:+ "f" else if r =? 10 then backslash +:+ "n"
  else if r =? 13 then backslash +:+ "r" else if r =? 9 then backslash +:+ "t"
  else if r =? 11 then backslash +:+ "v"
  else if (r <? 32) || (r =? 127) then backslash +:+ "x" +:+ hex 2 r
  else if r <? 65536 then backslash +:+ "u" +:+ hex 4 r
  else backslash +:+ "U" +:+ hex 8 r.

Definition Quote `{Printable} (s : string) : string :=
  let q := String (z_byte 34) "" in
  q +:+ cat (map (λ p, quote_rune p.1 p.2) (decode s)) +:+ q.

Lemma byte_z_range a : 0 ≤ byte_z a < 256.
Proof.
  unfold byte_z. destruct a as [[] [] [] [] [] [] [] []]; vm_compute; split; congruence.
Qed.

Lemma byte_z_of z : 0 ≤ z < 256 → byte_z (z_byte z) = z.
Proof.
  intros Hz. unfold byte_z, z_byte. rewrite N_ascii_embedding by lia. lia.
Qed.

Lemma z_byte_of a : z_byte (byte_z a) = a.
Proof. unfold byte_z, z_byte. by rewrite N2Z.id, ascii_N_embedding. Qed.

(** ** Concatenation, prefixes, cutting *)

Lemma sapp_nil_r (s : string) : s +:+ "" = s.
Proof. induction s as [|a s IH]; [done|]. simpl. by rewrite IH. Qed.

Lemma sapp_assoc (s t u : string) : (s +:+ t) +:+ u = s +:+ (t +:+ u).
Proof. induction s as [|a s IH]; [done|]. simpl. by rewrite IH. Qed.

Lemma sapp_length (s t : string) :
  String.length (s +:+ t) = (String.length s + String.length t)%nat.
Proof. induction s as [|a s IH]; [done|]. simpl. by rewrite IH. Qed.

#[export] Hint Rewrite sapp_nil_r sapp_assoc sapp_length : mcp_str.

Lemma HasPrefix_spec s p : HasPrefix s p = true ↔ ∃ t, s = p +:+ t.
Proof.
  unfold HasPrefix. revert s. induction p as [|a p IH]; intros s; simpl.
  { split; [by exists s|by destruct s]. }
  destruct s as [|b s]; simpl; [by split; [|intros [??]]|].
  destruct (ascii_dec a b) as [->|Hab].
  - rewrite IH. split; intros [t Ht]; exists t; [by rewrite Ht|by injection Ht].
  - split; [done|]. by intros [t [= ? ?]].
Qed.

Lemma HasPrefix_app p t : HasPrefix (p +:+ t) p = true.
Proof. apply HasPrefix_spec. by exists t. Qed.

Lemma str_drop_app p t : str_drop (String.length p) (p +:+ t) = t.
Proof. by induction p. Qed.

Lemma TrimPrefix_app p t : TrimPrefix (p +:+ t) p = t.
Proof. unfold TrimPrefix. by rewrite HasPrefix_app, str_drop_app. Qed.

Lemma HasPrefix_trans s p q : HasPrefix s p = true → HasPrefix p q = true → HasPrefix s q = true.
Proof.
  rewrite !HasPrefix_spec. intros [t ->] [u ->]. exists (u +:+ t). by rewrite sapp_assoc.
Qed.

Lemma Contains_spec s sub : Contains s sub = true ↔ ∃ a b, s = a +:+ sub +:+ b.
Proof.
  induction s as [|c s IH].
  - cbn [Contains]. rewrite orb_false_r, HasPrefix_spec. split.
    + intros [t Ht]. by exists "", t.
    + intros (a & b & Heq). destruct a; [|done]. by exists b.
  - cbn [Contains]. rewrite orb_true_iff, HasPrefix_spec, IH. split.
    + intros [[t ->]|(a & b & ->)]; [by exists "", t|by exists (String c a), b].
    + intros ([|d a] & b & Heq); [left; by exists b|].
      injection Heq as -> ->. right. by exists a, b.
Qed.

Lemma Cut_found s sep b r : Cut s sep = (b, r, true) → s = b +:+ sep +:+ r.
Proof.
  revert b. induction s as [|c s IH]; intros b; cbn [Cut].
  - destruct (HasPrefix "" sep) eqn:HP; [|done]. apply HasPrefix_spec in HP as [t Ht].
    destruct sep; simplify_eq/=. by intros [= <- <-].
  - destruct (HasPrefix (String c s) sep) eqn:HP.
    + apply HasPrefix_spec in HP as [t Ht]. rewrite Ht, str_drop_app. by intros [= <- <-].
    + destruct (Cut s sep) as [[b' r'] f]. intros [= <- <- ->]. simpl. f_equal. by apply IH.
Qed.

Lemma Cut_not_found s sep b r : Cut s sep = (b, r, false) → b = s ∧ r = "".
Proof.
  revert b. induction s as [|c s IH]; intros b; cbn [Cut].
  - destruct (HasPrefix "" sep); [done|]. by intros [= <- <-].
  - destruct (HasPrefix (String c s) sep); [done|].
    destruct (Cut s sep) as [[b' r'] f]. intros [= <- <- ->].
    by destruct (IH b' eq_refl) as [-> ->].
Qed.

(** Cutting at the first occurrence: a part without the separator byte in
    front of it is found again. *)
Fixpoint lacks (c : ascii) (s : string) : bool :=
  match s with EmptyString => true | String a s' => negb (bool_decide (a = c)) && lacks c s' end.

Lemma lacks_app c s t : lacks c (s +:+ t) = lacks c s && lacks c t.
Proof. induction s as [|a s IH]; simpl; [done|]. by rewrite IH, andb_assoc. Qed.

Lemma HasPrefix_byte c s a : HasPrefix (String a s) (String c "") = bool_decide (a = c).
Proof.
  unfold HasPrefix. simpl. destruct (ascii_dec c a) as [->|H].
  - rewrite bool_decide_true by done. by destruct s.
  - by rewrite bool_decide_false.
Qed.

Lemma Cut_byte_lacks s c b r f : Cut s (String c "") = (b, r, f) → lacks c b = true.
Proof.
  revert b r f. induction s as [|a s IH]; intros b r f.
  { simpl. by intros [= <- _ _]. }
  cbn [Cut]. rewrite HasPrefix_byte. case_bool_decide as Hac; [by intros [= <- _ _]|].
  destruct (Cut s (String c "")) as [[b' r'] f'] eqn:HC. intros [= <- _ _]. simpl.
  rewrite bool_decide_false by done. simpl. by eapply IH.
Qed.

Lemma Cut_byte b c r : lacks c b = true → Cut (b +:+ String c r) (String c "") = (b, r, true).
Proof.
  induction b as [|a b IH]; cbn [lacks String.append Cut].
  - intros _. rewrite HasPrefix_byte. rewrite bool_decide_true by done. by destruct r.
  - rewrite andb_true_iff, negb_true_iff. intros [Ha Hb].
    rewrite HasPrefix_byte, Ha, IH by done. done.
Qed.

(** ** Runes: decoding and encoding *)

(** The bytes of the decoded pieces are the string again. *)
Lemma decode_cat s : cat (map snd (decode s)) = s.
Proof.
  induction s as [s IH] using (induction_ltof1 _ String.length). unfold ltof in IH.
  destruct s as [|a s1]; [done|]. cbn [decode].
  repeat split_match; subst; cbn [map snd cat String.append]; rewrite IH by (simpl; lia); done.
Qed.

Ltac range_cases :=
  unfold valid_rune, second, second_lo, second_hi, cont, between in *;
  repeat match goal with
  | H : (_ && _) = true |- _ => apply andb_true_iff in H as [? ?]
  | H : context [if ?c then _ else _] |- _ => destruct c eqn:?
  | |- context [if ?c then _ else _] => destruct c eqn:?
  end; try lia.

Lemma decode_valid s : Forall (λ p, valid_rune p.1 = true) (decode s).
Proof.
  induction s as [s IH] using (induction_ltof1 _ String.length). unfold ltof in IH.
  destruct s as [|a s1]; [constructor|]. cbn [decode].
  assert (Hb := byte_z_range a).
  repeat split_match; subst; (constructor; [|apply IH; simpl; lia]); cbn [fst]; try done;
    range_cases.
Qed.

Lemma runes_valid s : Forall (λ r, valid_rune r = true) (runes s).
Proof. unfold runes. apply Forall_map, decode_valid. Qed.

(** One lemma per encoded length, on the values of the bytes. *)
Lemma decode_1 b0 s : 0 ≤ b0 < 128 →
  decode (String (z_byte b0) s) = (b0, String (z_byte b0) "") :: decode s.
Proof. intros H. cbn [decode]. rewrite byte_z_of by lia. by destruct (Z.ltb_spec b0 128); [|lia]. Qed.

Lemma decode_2 b0 b1 s : 194 ≤ b0 ≤ 223 → 128 ≤ b1 ≤ 191 →
  decode (String (z_byte b0) (String (z_byte b1) s)) =
  ((b0 - 192) * 64 + (b1 - 128), String (z_byte b0) (String (z_byte b1) "")) :: decode s.
Proof.
  intros H0 H1. cbn [decode]. unfold cont, between. rewrite !byte_z_of by lia.
  replace (b0 <? 128) with false by lia.
  replace ((194 <=? b0) && (b0 <=? 223)) with true by lia.
  by replace ((128 <=? b1) && (b1 <=? 191)) with true by lia.
Qed.

Lemma decode_3 b0 b1 b2 s : 224 ≤ b0 ≤ 239 → second_lo b0 ≤ b1 ≤ second_hi b0 →
  128 ≤ b1 ≤ 191 → 128 ≤ b2 ≤ 191 →
  decode (String (z_byte b0) (String (z_byte b1) (String (z_byte b2) s))) =
  ((b0 - 224) * 4096 + (b1 - 128) * 64 + (b2 - 128),
   String (z_byte b0) (String (z_byte b1) (String (z_byte b2) ""))) :: decode s.
Proof.
  intros H0 H1 H1' H2. cbn [decode]. unfold second, cont, between. rewrite !byte_z_of by lia.
  replace (b0 <? 128) with false by lia.
  replace ((194 <=? b0) && (b0 <=? 223)) with false by lia.
  replace ((224 <=? b0) && (b0 <=? 239)) with true by lia.
  replace ((second_lo b0 <=? b1) && (b1 <=? second_hi b0)) with true by lia.
  by replace ((128 <=? b2) && (b2 <=? 191)) with true by lia.
Qed.

Lemma decode_4 b0 b1 b2 b3 s : 240 ≤ b0 ≤ 244 → second_lo b0 ≤ b1 ≤ second_hi b0 →
  128 ≤ b1 ≤ 191 → 128 ≤ b2 ≤ 191 → 128 ≤ b3 ≤ 191 →
  decode (String (z_byte b0) (String (z_byte b1) (String (z_byte b2) (String (z_byte b3) s)))) =
  ((b0 - 240) * 262144 + (b1 - 128) * 4096 + (b2 - 128) * 64 + (b3 - 128),
   String (z_byte b0) (String (z_byte b1) (String (z_byte b2) (String (z_byte b3) ""))))
    :: decode s.
Proof.
  intros H0 H1 H1' H2 H3. cbn [decode]. unfold second, cont, between. rewrite !byte_z_of by lia.
  replace (b0 <? 128) with false by lia.
  replace ((194 <=? b0) && (b0 <=? 223)) with false by lia.
  replace ((224 <=? b0) && (b0 <=? 239)) with false by lia.
  replace ((240 <=? b0) && (b0 <=? 244)) with true by lia.
  replace ((second_lo b0 <=? b1) && (b1 <=? second_hi b0)) with true by lia.
  replace ((128 <=? b2) && (b2 <=? 191)) with true by lia.
  by replace ((128 <=? b3) && (b3 <=? 191)) with true by lia.
Qed.

Lemma decode_encode r s : valid_rune r = true →
  decode (encode_rune r +:+ s) = (r, encode_rune r) :: decode s.
Proof.
  intros Hr. unfold encode_rune. rewrite Hr. cbn [negb].
  unfold valid_rune, between in *.
  assert (r / 64 / 64 = r / 4096) by (rewrite Z.div_div by lia; done).
  assert (r / 4096 / 64 = r / 262144) by (rewrite Z.div_div by lia; done).
  destruct ((0 <=? r) && (r <=? 127)) eqn:H1; [apply decode_1; lia|].
  destruct ((128 <=? r) && (r <=? 2047)) eqn:H2;
    [|destruct (r <? 65536) eqn:H3]; cbn [String.append].
  - rewrite decode_2 by div_lia. f_equal. f_equal. div_lia.
  - rewrite decode_3; [f_equal; f_equal; div_lia|div_lia| |div_lia..].
    unfold second_lo, second_hi. repeat case_match; div_lia.
  - rewrite decode_4; [f_equal; f_equal; div_lia|div_lia| |div_lia..].
    unfold second_lo, second_hi. repeat case_match; div_lia.
Qed.

(** Encoding runes and decoding them again loses nothing. *)
Lemma runes_of_runes rs :
  Forall (λ r, valid_rune r = true) rs → runes (of_runes rs) = rs.
Proof.
  induction 1 as [|r rs Hr _ IH]; [done|]. unfold runes in *. cbn [of_runes].
  rewrite decode_encode by done. cbn [map fst]. by rewrite IH.
Qed.

(** An ASCII byte never continues an encoding, so decoding splits in front of
    one. *)
Lemma cont_ascii c : byte_z c < 128 → cont c = false.
Proof. unfold cont, between. lia. Qed.

Lemma second_ascii b0 c : byte_z c < 128 → second b0 c = false.
Proof. unfold second, second_lo, between. crush. Qed.

Lemma decode_byte c s : byte_z c < 128 → decode (String c s) = (byte_z c, String c "") :: decode s.
Proof. intros Hc. cbn [decode]. by destruct (Z.ltb_spec (byte_z c) 128); [|lia]. Qed.

(** One decoding step, and the same step in front of an ASCII byte. *)
Lemma decode_step a s c t : byte_z c < 128 → ∃ r raw s',
  String a s = raw +:+ s' ∧ raw ≠ "" ∧
  decode (String a s) = (r, raw) :: decode s' ∧
  decode (String a s +:+ String c t) = (r, raw) :: decode (s' +:+ String c t).
Proof.
  intros Hc.
  assert (Hbad : ∀ r, ∃ r' raw s', String a s = raw +:+ s' ∧ raw ≠ "" ∧
    (r, String a "") :: decode s = (r', raw) :: decode s' ∧
    (r, String a "") :: decode (s +:+ String c t) = (r', raw) :: decode (s' +:+ String c t)).
  { intros r. by exists r, (String a ""), s. }
  cbn [String.append decode].
  destruct (byte_z a <? 128); [apply Hbad|].
  destruct (between 194 223 (byte_z a)).
  { destruct s as [|b s2]; cbn [String.append]; [rewrite cont_ascii by done; apply Hbad|].
    destruct (cont b); [|apply Hbad]. by eexists _, (String a (String b "")), s2. }
  destruct (between 224 239 (byte_z a)).
  { destruct s as [|b [|b2 s3]]; cbn [String.append].
    - destruct t; [|rewrite second_ascii by done]; apply Hbad.
    - rewrite (cont_ascii c), andb_false_r by done. apply Hbad.
    - destruct (second (byte_z a) b && cont b2); [|apply Hbad].
      by eexists _, (String a (String b (String b2 ""))), s3. }
  destruct (between 240 244 (byte_z a)); [|apply Hbad].
  destruct s as [|b [|b2 [|b3 s4]]]; cbn [String.append].
  - destruct t as [|? [|??]]; [..|rewrite second_ascii by done]; apply Hbad.
  - destruct t; [|rewrite (cont_ascii c), andb_false_r by done]; apply Hbad.
  - rewrite (cont_ascii c), andb_false_r by done. apply Hbad.
  - destruct (second (byte_z a) b && cont b2 && cont b3); [|apply Hbad].
    by eexists _, (String a (String b (String b2 (String b3 "")))), s4.
Qed.

Lemma decode_app_ascii s c t : byte_z c < 128 →
  decode (s +:+ String c t) = decode s ++ decode (String c t).
Proof.
  intros Hc. induction s as [s IH] using (induction_ltof1 _ String.length). unfold ltof in IH.
  destruct s as [|a s]; [done|].
  destruct (decode_step a s c t Hc) as (r & raw & s' & Hs & Hraw & -> & ->).
  rewrite IH; [done|]. rewrite Hs, sapp_length. destruct raw; simpl; [done|lia].
Qed.

(** ** Trimming *)

Definition plain (c : ascii) : Prop := byte_z c < 128 ∧ is_space (byte_z c) = false.

(** A string that begins and ends with ASCII bytes other than spaces is
    already trimmed. *)
Lemma TrimSpace_id a m b : plain a → plain b →
  TrimSpace (String a (m +:+ String b "")) = String a (m +:+ String b "").
Proof.
  intros [Ha1 Ha2] [Hb1 Hb2]. unfold TrimSpace.
  rewrite decode_byte, decode_app_ascii, (decode_byte b) by done. cbn [drop_spaces].
  rewrite Ha2. rewrite app_comm_cons, rev_app_distr. cbn [rev decode app drop_spaces]. rewrite Hb2.
  cbn [rev]. rewrite rev_app_distr, rev_involutive.
  assert (Hcat := decode_cat (String a (m +:+ String b ""))).
  rewrite decode_byte, decode_app_ascii, (decode_byte b) in Hcat by done. done.
Qed.

(** What encoding makes of a value that is not a rune. *)
Definition clamp (r : Z) : Z := if valid_rune r then r else rune_error.

Lemma decode_encode_clamp r s :
  decode (encode_rune r +:+ s) = (clamp r, encode_rune r) :: decode s.
Proof.
  unfold clamp. destruct (valid_rune r) eqn:Hr; [by apply decode_encode|].
  assert (He : encode_rune r = encode_rune rune_error).
  { unfold encode_rune at 1. rewrite Hr. unfold valid_rune in Hr.
    destruct (between 0 127 r) eqn:H1; [unfold between in *; lia|].
    destruct (between 128 2047 r) eqn:H2; [unfold between in *; lia|]. reflexivity. }
  rewrite He. by apply decode_encode.
Qed.

Lemma runes_of_runes_clamp rs : runes (of_runes rs) = map clamp rs.
Proof.
  unfold runes. induction rs as [|r rs IH]; [done|]. cbn [of_runes].
  rewrite decode_encode_clamp. cbn [map fst]. by rewrite IH.
Qed.

Lemma of_runes_app rs rs' : of_runes (rs ++ rs') = of_runes rs +:+ of_runes rs'.
Proof. induction rs as [|r rs IH]; [done|]. cbn [of_runes app]. by rewrite IH, sapp_assoc. Qed.

Lemma runes_app_ascii s c t : byte_z c < 128 → runes (s +:+ String c t) = runes s ++ byte_z c :: runes t.
Proof. intros Hc. unfold runes. by rewrite decode_app_ascii, decode_byte, map_app by done. Qed.
