(* ===== verification/GoTime.v ===== *)
(** * Go integers, durations and clock times

    What the program uses of packages [time] and [strconv]: 64-bit wrap-around,
    [Atoi], durations as nanosecond counts with their text form, parser and
    [Seconds], and clock times as nanoseconds since 1970.  The float64
    arithmetic inside [Seconds] and [ParseDuration] is done on exact fractions
    rounded to 53 bits, half to even; the values stay inside the normal
    range of the format. *)

From S2P Require Import Prelude GoStrings.
From Stdlib Require Import Ascii.
Local Open Scope Z_scope.

(** ** Integers *)

Definition maxInt64 : Z := 9223372036854775807.
Definition minInt64 : Z := -9223372036854775808.

(** Two's complement wrap-around at [w] bits. *)
Definition wrap (w : Z) (z : Z) : Z := (z + 2 ^ (w - 1)) mod 2 ^ w - 2 ^ (w - 1).
Definition int64 : Z → Z := wrap 64.
Definition int32 : Z → Z := wrap 32.

(** Decimal text: strconv.Itoa, and fmt's %d. *)
Definition Itoa (z : Z) : string := pretty z.

Definition digit (a : ascii) : option Z :=
  if between 48 57 (byte_z a) then Some (byte_z a - 48) else None.

Fixpoint digits_value (s : string) (acc : Z) : option Z :=
  match s with
  | EmptyString => Some acc
  | String a s' => match digit a with Some d => digits_value s' (acc * 10 + d) | None => None end
  end.

(** strconv.Atoi: an optional sign, decimal digits, the range of int. *)
Definition Atoi (s : string) : option Z :=
  let '(neg, body) :=
    match s with
    | String a s' =>
        if byte_z a =? 45 then (true, s') else if byte_z a =? 43 then (false, s') else (false, s)
    | EmptyString => (false, s)
    end in
  match body with
  | EmptyString => None
  | _ =>
      match digits_value body 0 with
      | Some v => let z := if neg : bool then - v else v in
          if between minInt64 maxInt64 z then Some z else None
      | None => None
      end
  end.

(** ** Double precision

    A value is a fraction [(n, d)] with [0 ≤ n] and [0 < d]. *)

(** The nearest integer to [n / d], half to even. *)
Definition rne (n d : Z) : Z :=
  let q := n / d in
  let r := 2 * (n mod d) in
  if r <? d then q else if d <? r then q + 1 else if Z.even q then q else q + 1.

Definition scale2 (k : Z) (x : Z * Z) : Z * Z :=
  if 0 <=? k then (x.1, x.2 * 2 ^ k) else (x.1 * 2 ^ (- k), x.2).

(** The nearest multiple of [2^k] to a fraction, as a multiple. *)
Definition rne_at (k : Z) (x : Z * Z) : Z := let y := scale2 k x in rne y.1 y.2.

(** The nearest double. *)
Definition round64 (x : Z * Z) : Z * Z :=
  if x.1 =? 0 then (0, 1) else
  let k0 := Z.log2 x.1 - Z.log2 x.2 - 53 in
  let y := scale2 k0 x in
  let k := if y.1 / y.2 <? 2 ^ 53 then k0 else k0 + 1 in
  let m := rne_at k x in
  if 0 <=? k then (m * 2 ^ k, 1) else (m, 2 ^ (- k)).

Definition fadd (x y : Z * Z) : Z * Z := round64 (x.1 * y.2 + y.1 * x.2, x.2 * y.2).
Definition fmul (x y : Z * Z) : Z * Z := round64 (x.1 * y.1, x.2 * y.2).
Definition fdiv (x y : Z * Z) : Z * Z := round64 (x.1 * y.2, x.2 * y.1).
Definition ftrunc (x : Z * Z) : Z := x.1 / x.2.
Definition of_int (z : Z) : Z * Z := round64 (z, 1).

(** ** Durations: int64 nanoseconds *)

Definition Microsecond : Z := 1000.
Definition Millisecond : Z := 1000000.
Definition Second : Z := 1000000000.
Definition Minute : Z := 60000000000.
Definition Hour : Z := 3600000000000.

(** [float64(d / unit) + float64(d % unit) / scale], for [0 ≤ d]. *)
Definition in_units (unit d : Z) : Z * Z :=
  fadd (of_int (d / unit)) (fdiv (of_int (d mod unit)) (of_int unit)).

(** [int(d.Seconds())], [int(d.Minutes())], [int(d.Hours())]: conversion
    truncates, and the methods are odd functions. *)
Definition int_units (unit d : Z) : Z :=
  if 0 <=? d then ftrunc (in_units unit d) else - ftrunc (in_units unit (- d)).
Definition int_Seconds : Z → Z := int_units Second.
Definition int_Minutes : Z → Z := int_units Minute.
Definition int_Hours : Z → Z := int_units Hour.

(** The fraction digits of [v / 10^prec] without trailing zeros, and the rest. *)
Fixpoint fmt_frac (v : Z) (prec : nat) (started : bool) (tail : string) : string * Z :=
  match prec with
  | O => (if started then "." +:+ tail else tail, v)
  | S p =>
      let d := v mod 10 in
      let started' := started || negb (d =? 0) in
      fmt_frac (v / 10) p started' (if started' then Itoa d +:+ tail else tail)
  end.

Definition Duration_String (d : Z) : string :=
  let neg := d <? 0 in
  let u := Z.abs d in
  let body :=
    if u =? 0 then "0s"
    else if u <? Second then
      let '(prec, unit) :=
        if u <? Microsecond then (0%nat, "ns")
        else if u <? Millisecond then (3%nat, String (z_byte 194) (String (z_byte 181) "s"))
        else (6%nat, "ms") in
      let '(frac, v) := fmt_frac u prec false "" in Itoa v +:+ frac +:+ unit
    else
      let '(frac, v) := fmt_frac u 9 false "" in
      let secs := Itoa (v mod 60) +:+ frac +:+ "s" in
      let m := v / 60 in
      if m =? 0 then secs else
      let mins := Itoa (m mod 60) +:+ "m" +:+ secs in
      let h := m / 60 in
      if h =? 0 then mins else Itoa h +:+ "h" +:+ mins in
  if neg then "-" +:+ body else body.

(** *** time.ParseDuration *)

Definition is_digit (a : ascii) : bool := between 48 57 (byte_z a).

(** The leading digits as an integer, or [None] past 2^63. *)
Fixpoint leadingInt (s : string) (x : Z) : option (Z * string) :=
  match s with
  | EmptyString => Some (x, s)
  | String a s' =>
      if is_digit a then
        if 2 ^ 63 / 10 <? x then None
        else let y := x * 10 + (byte_z a - 48) in
             if 2 ^ 63 <? y then None else leadingInt s' y
      else Some (x, s)
  end.

(** The leading digits as a fraction [x / scale]; further digits are dropped
    once they would overflow. *)
Fixpoint leadingFraction (s : string) (x scale : Z) (overflow : bool) : Z * Z * string :=
  match s with
  | EmptyString => (x, scale, s)
  | String a s' =>
      if is_digit a then
        if overflow || ((2 ^ 63 - 1) / 10 <? x) then leadingFraction s' x scale true
        else let y := x * 10 + (byte_z a - 48) in
             if 2 ^ 63 <? y then leadingFraction s' x scale true
             else leadingFraction s' y (scale * 10) false
      else (x, scale, s)
  end.

(** The unit: everything up to the next digit or dot. *)
Fixpoint span_unit (s : string) : string * string :=
  match s with
  | EmptyString => ("", "")
  | String a s' =>
      if (byte_z a =? 46) || is_digit a then ("", s)
      else let '(u, r) := span_unit s' in (String a u, r)
  end.

Definition unitMap (u : string) : option Z :=
  if decide (u = "ns") then Some 1
  else if decide (u = "us") then Some Microsecond
  else if decide (u = String (z_byte 194) (String (z_byte 181) "s")) then Some Microsecond
  else if decide (u = String (z_byte 206) (String (z_byte 188) "s")) then Some Microsecond
  else if decide (u = "ms") then Some Millisecond
  else if decide (u = "s") then Some Second
  else if decide (u = "m") then Some Minute
  else if decide (u = "h") then Some Hour
  else None.

(** One component such as ["1.5h"], with what follows it. *)
Definition parse_component (s : string) : option (Z * string) :=
  match leadingInt s 0 with
  | None => None
  | Some (v, s1) =>
      let pre := negb (String.length s1 =? String.length s)%nat in
      let '(f, scale, s2, post) :=
        match s1 with
        | String a s' =>
            if byte_z a =? 46 then
              let '(f, scale, s2) := leadingFraction s' 0 1 false in
              (f, scale, s2, negb (String.length s2 =? String.length s')%nat)
            else (0, 1, s1, false)
        | EmptyString => (0, 1, s1, false)
        end in
      if negb pre && negb post then None else
      let '(u, s3) := span_unit s2 in
      match u with EmptyString => None | _ =>
        match unitMap u with
        | None => None
        | Some unit =>
            if 2 ^ 63 / unit <? v then None else
            let v' := v * unit + (if 0 <? f then ftrunc (fmul (of_int f) (fdiv (of_int unit) (of_int scale))) else 0) in
            if 2 ^ 63 <? v' then None else Some (v', s3)
        end
      end
  end.

Fixpoint parse_components (fuel : nat) (s : string) (d : Z) : option Z :=
  match s with
  | EmptyString => Some d
  | _ =>
      match fuel with
      | O => None
      | S fuel' =>
          match parse_component s with
          | None => None
          | Some (v, s') => if 2 ^ 63 <? d + v then None else parse_components fuel' s' (d + v)
          end
      end
  end.

(** A component takes at least one byte, so the length is enough fuel. *)
Definition ParseDuration (orig : string) : option Z :=
  let '(neg, s) :=
    match orig with
    | String a s' =>
        if byte_z a =? 45 then (true, s') else if byte_z a =? 43 then (false, s') else (false, orig)
    | EmptyString => (false, orig)
    end in
  if decide (s = "0") then Some 0
  else if decide (s = "") then None
  else match parse_components (String.length s) s 0 with
       | None => None
       | Some d => if neg : bool then Some (- d) else if maxInt64 <? d then None else Some d
       end.

(** ** Clock times: nanoseconds since 1970; the zero Time is year 1 *)

Definition zero_time : Z := -62135596800 * Second.
Definition IsZero (t : Z) : bool := t =? zero_time.

(** [t.Sub(u)] saturates at the ends of int64. *)
Definition Sub (t u : Z) : Z := Z.max minInt64 (Z.min maxInt64 (t - u)).

(** *** Format(time.RFC3339), in UTC *)

Definition pad (n : nat) (z : Z) : string :=
  let s := Itoa z in Nat.iter (n - String.length s) (String (z_byte 48)) s.

(** The civil date of a day count since 1970: year, month, day. *)
Definition civil (days : Z) : Z * Z * Z :=
  let z := days + 719468 in
  let era := z / 146097 in
  let doe := z mod 146097 in
  let yoe := (doe - doe / 1460 + doe / 36524 - doe / 146096) / 365 in
  let doy := doe - (365 * yoe + yoe / 4 - yoe / 100) in
  let mp := (5 * doy + 2) / 153 in
  let d := doy - (153 * mp + 2) / 5 + 1 in
  let m := if mp <? 10 then mp + 3 else mp - 9 in
  (yoe + era * 400 + (if m <=? 2 then 1 else 0), m, d).

Definition date_time (secs : Z) : string :=
  let '(y, m, d) := civil (secs / 86400) in
  let s := secs mod 86400 in
  pad 4 y +:+ "-" +:+ pad 2 m +:+ "-" +:+ pad 2 d +:+ "T" +:+
  pad 2 (s / 3600) +:+ ":" +:+ pad 2 (s / 60 mod 60) +:+ ":" +:+ pad 2 (s mod 60).

Definition RFC3339 (t : Z) : string := date_time (t / Second) +:+ "Z".

(** *** Time.MarshalJSON, [off] seconds east of UTC: RFC 3339 with the
    nanoseconds that are not zero; a year without four digits and a zone of a
    day or more are errors. *)
Definition zone_text (off : Z) : string :=
  if off =? 0 then "Z"
  else
    let zone := Z.quot off 60 in
    (if zone <? 0 then "-" else "+") +:+ pad 2 (Z.abs zone / 60) +:+ ":" +:+ pad 2 (Z.abs zone mod 60).

Definition Time_MarshalJSON (off t : Z) : option string :=
  let secs := t / Second + off in
  let '(y, _, _) := civil (secs / 86400) in
  if (0 <=? y) && (y <=? 9999) && (Z.abs (Z.quot off 60) / 60 <? 24)
  then Some (date_time secs +:+ (fmt_frac (t mod Second) 9 false "").1 +:+ zone_text off) else None.

Example dates : map RFC3339 [0; 951782400 * Second; 1709251199 * Second; 4102444800 * Second; - Second] =
  ["1970-01-01T00:00:00Z"; "2000-02-29T00:00:00Z"; "2024-02-29T23:59:59Z"; "2100-01-01T00:00:00Z"; "1969-12-31T23:59:59Z"].
Proof. by vm_compute. Qed.

Example times : map (λ p, Time_MarshalJSON p.1 p.2) [(0, 1500 * Millisecond); (12600, 0); (-16200, 1); (86400, 0); (0, zero_time); (0, 253402300800 * Second)] =
  [Some "1970-01-01T00:00:01.5Z"; Some "1970-01-01T03:30:00+03:30"; Some "1969-12-31T19:30:00.000000001-04:30"; None;
   Some "0001-01-01T00:00:00Z"; None].
Proof. by vm_compute. Qed.

(** ** Lemmas *)

Lemma wrap_range w z : 0 < w → - 2 ^ (w - 1) ≤ wrap w z < 2 ^ (w - 1).
Proof.
  intros Hw. unfold wrap. assert (H2 : 2 ^ w = 2 * 2 ^ (w - 1)).
  { rewrite <- Z.pow_succ_r by lia. f_equal; lia. }
  pose proof (Z.mod_pos_bound (z + 2 ^ (w - 1)) (2 ^ w)). lia.
Qed.

Lemma wrap_id w z : 0 < w → - 2 ^ (w - 1) ≤ z < 2 ^ (w - 1) → wrap w z = z.
Proof.
  intros Hw Hz. unfold wrap. assert (H2 : 2 ^ w = 2 * 2 ^ (w - 1)).
  { rewrite <- Z.pow_succ_r by lia. f_equal; lia. }
  rewrite Z.mod_small; lia.
Qed.

Lemma int64_range z : minInt64 ≤ int64 z ≤ maxInt64.
Proof. pose proof (wrap_range 64 z). unfold int64, minInt64, maxInt64. lia. Qed.

Lemma int64_id z : minInt64 ≤ z ≤ maxInt64 → int64 z = z.
Proof. unfold int64, minInt64, maxInt64. intros. apply wrap_id; lia. Qed.

Lemma rne_lower b n d : 0 < d → b * d ≤ n → b ≤ rne n d.
Proof.
  intros Hd Hb. unfold rne. assert (b ≤ n / d) by (apply Z.div_le_lower_bound; lia).
  repeat case_match; lia.
Qed.

Lemma rne_upper b n d : 0 < d → n ≤ b * d → rne n d ≤ b.
Proof.
  intros Hd Hb. unfold rne. pose proof (Z.div_mod n d ltac:(lia)).
  pose proof (Z.mod_pos_bound n d Hd).
  destruct (decide (n = b * d)) as [->|Hne].
  - rewrite Z.mod_mul, Z.div_mul by lia. by rewrite (proj2 (Z.ltb_lt (2 * 0) d)) by lia.
  - assert (n / d < b) by (apply Z.div_lt_upper_bound; lia). repeat case_match; lia.
Qed.

(** The value of a fraction lies between two integers. *)
Definition fbetween (lo hi : Z) (x : Z * Z) : Prop := 0 < x.2 ∧ lo * x.2 ≤ x.1 ≤ hi * x.2.

(** The same between multiples of [1 / 2^j]. *)
Definition fwithin (j lo hi : Z) (x : Z * Z) : Prop := 0 < x.2 ∧ lo * x.2 ≤ x.1 * 2 ^ j ≤ hi * x.2.

Lemma fwithin_0 lo hi x : fwithin 0 lo hi x ↔ fbetween lo hi x.
Proof. unfold fwithin, fbetween. change (2 ^ 0) with 1. by rewrite Z.mul_1_r. Qed.

Lemma rne_at_within j k x lo hi : 0 ≤ j → k ≤ - j → fwithin j lo hi x → fwithin j lo hi (rne_at k x, 2 ^ (- k)).
Proof.
  intros Hj Hk (Hd & Hlo & Hhi). unfold rne_at, scale2.
  assert (Hp : 2 ^ (- k) = 2 ^ j * 2 ^ (- k - j)) by (rewrite <- Z.pow_add_r by lia; f_equal; lia).
  assert (0 < 2 ^ (- k - j)) by (apply Z.pow_pos_nonneg; lia). assert (0 < 2 ^ j) by (apply Z.pow_pos_nonneg; lia).
  set (c := 2 ^ (- k - j)) in *. set (b := 2 ^ j) in *.
  assert (Hy : (if 0 <=? k then (x.1, x.2 * 2 ^ k) else (x.1 * 2 ^ (- k), x.2)) = (x.1 * (b * c), x.2)).
  { destruct (Z.leb_spec 0 k); [|by rewrite Hp].
    assert (k = 0 ∧ j = 0) as [-> ->] by lia. unfold b, c. change (2 ^ (- 0 - 0)) with 1. change (2 ^ 0) with 1. by rewrite !Z.mul_1_r. }
  rewrite Hy, Hp. split; cbn [fst snd]; [nia|].
  assert (lo * c ≤ rne (x.1 * (b * c)) x.2) by (apply rne_lower; nia).
  assert (rne (x.1 * (b * c)) x.2 ≤ hi * c) by (apply rne_upper; nia). nia.
Qed.

(** Rounding to 53 bits keeps a value between the multiples around it. *)
Lemma round64_within j x lo hi : 0 ≤ j → 0 ≤ lo → hi < 2 ^ 52 → fwithin j lo hi x → fwithin j lo hi (round64 x).
Proof.
  intros Hj Hlo Hhi Hx. pose proof Hx as (Hd & H1 & H2). unfold round64.
  assert (Hpj : 0 < 2 ^ j) by (apply Z.pow_pos_nonneg; lia).
  destruct (Z.eqb_spec x.1 0) as [H0|H0].
  { split; [done|]. cbn [fst snd]. nia. }
  assert (Hlog : Z.log2 x.1 + j ≤ Z.log2 x.2 + 52).
  { rewrite (Z.add_comm _ 52), (Z.add_comm _ j), <- !Z.log2_mul_pow2 by nia. apply Z.log2_le_mono. nia. }
  set (k0 := Z.log2 x.1 - Z.log2 x.2 - 53). assert (Hk0 : k0 ≤ - 1 - j) by lia.
  set (k := if _ <? _ then k0 else k0 + 1).
  assert (Hk : k ≤ - j) by (unfold k; case_match; lia).
  pose proof (rne_at_within j k x lo hi Hj Hk Hx) as Hr.
  destruct (Z.leb_spec 0 k) as [Hk'|Hk']; [|done].
  assert (k = 0) as -> by lia. change (2 ^ 0) with 1. rewrite Z.mul_1_r. exact Hr.
Qed.

Lemma round64_between x lo hi : 0 ≤ lo → hi < 2 ^ 52 → fbetween lo hi x → fbetween lo hi (round64 x).
Proof. rewrite <- !fwithin_0. intros. by apply round64_within. Qed.

Lemma of_int_between z : 0 ≤ z < 2 ^ 52 → fbetween z z (of_int z).
Proof. intros Hz. apply round64_between; [lia..|]. split; simpl; lia. Qed.

Lemma ftrunc_between lo hi x : fbetween lo hi x → lo ≤ ftrunc x ≤ hi.
Proof.
  intros (Hd & Hlo & Hhi). unfold ftrunc. split; [apply Z.div_le_lower_bound; lia|].
  apply Z.lt_succ_r, Z.div_lt_upper_bound; lia.
Qed.

Lemma ftrunc_within j b q x : 0 < b → b = 2 ^ j → fwithin j (q * b) (q * b + (b - 1)) x → ftrunc x = q.
Proof.
  intros Hb -> (Hd & Hlo & Hhi). unfold ftrunc. symmetry. apply (Z.div_unique _ _ _ (x.1 - q * x.2)); [left|lia].
  set (b := 2 ^ j) in *. split; nia.
Qed.

(** Whole units are kept; a remainder adds at most one. *)
Lemma int_units_bounds unit d : 0 < unit < 2 ^ 52 → 0 ≤ d → d / unit < 2 ^ 51 →
  d / unit ≤ int_units unit d ≤ d / unit + 1.
Proof.
  intros Hu Hd Hq. unfold int_units, in_units. rewrite (proj2 (Z.leb_le 0 d)) by done.
  assert (0 ≤ d / unit) by (apply Z.div_pos; lia).
  pose proof (Z.mod_pos_bound d unit ltac:(lia)) as Hm.
  apply ftrunc_between. unfold fadd, fdiv.
  destruct (of_int_between (d / unit) ltac:(lia)) as (A1 & A2 & A3).
  destruct (of_int_between (d mod unit) ltac:(lia)) as (B1 & B2 & B3).
  destruct (of_int_between unit ltac:(lia)) as (C1 & C2 & C3).
  set (a := of_int (d / unit)) in *. set (b := of_int (d mod unit)) in *. set (c := of_int unit) in *.
  assert (Hf : fbetween 0 1 (round64 (b.1 * c.2, b.2 * c.1))).
  { assert (Eb : b.1 = d mod unit * b.2) by lia. assert (Ec : c.1 = unit * c.2) by lia.
    assert (0 < b.2 * c.2) by (by apply Z.mul_pos_pos).
    apply round64_between; [lia..|]. split; cbn [fst snd]; rewrite ?Eb, ?Ec; nia. }
  set (f := round64 _) in *. destruct Hf as (F1 & F2 & F3).
  assert (Ea : a.1 = d / unit * a.2) by lia.
  assert (0 < a.2 * f.2) by (by apply Z.mul_pos_pos).
  apply round64_between; [lia..|]. split; cbn [fst snd]; [done|]. rewrite Ea. nia.
Qed.

(** A remainder of a second adds nothing, as long as the seconds are fewer than
    2^22, about 48 days. *)
Lemma int_units_exact unit d : 0 < unit < 2 ^ 30 → 0 ≤ d → d / unit < 2 ^ 22 → int_units unit d = d / unit.
Proof.
  intros Hu Hd Hq. unfold int_units, in_units. rewrite (proj2 (Z.leb_le 0 d)) by done.
  assert (0 ≤ d / unit) by (apply Z.div_pos; lia).
  pose proof (Z.mod_pos_bound d unit ltac:(lia)) as Hm. unfold fadd, fdiv.
  destruct (of_int_between (d / unit) ltac:(lia)) as (A1 & A2 & A3).
  destruct (of_int_between (d mod unit) ltac:(lia)) as (B1 & B2 & B3).
  destruct (of_int_between unit ltac:(lia)) as (C1 & C2 & C3).
  set (a := of_int (d / unit)) in *. set (b := of_int (d mod unit)) in *. set (c := of_int unit) in *.
  assert (Ea : a.1 = d / unit * a.2) by lia. assert (Eb : b.1 = d mod unit * b.2) by lia.
  assert (Ec : c.1 = unit * c.2) by lia.
  assert (Hf : fwithin 30 0 (2 ^ 30 - 1) (round64 (b.1 * c.2, b.2 * c.1))).
  { assert (0 < b.2 * c.2) by (by apply Z.mul_pos_pos).
    apply round64_within; [lia..|]. split; cbn [fst snd]; rewrite ?Eb, ?Ec; [nia|].
    assert (d mod unit * 2 ^ 30 ≤ (2 ^ 30 - 1) * unit) by lia. nia. }
  set (f := round64 _) in *. destruct Hf as (F1 & F2 & F3).
  assert (0 < a.2 * f.2) by (by apply Z.mul_pos_pos).
  assert (Hsum : fwithin 30 (d / unit * 2 ^ 30) (d / unit * 2 ^ 30 + (2 ^ 30 - 1)) (round64 (a.1 * f.2 + f.1 * a.2, a.2 * f.2))).
  { apply round64_within; [lia..|]. split; cbn [fst snd]; [done|]. rewrite Ea. nia. }
  by apply (ftrunc_within 30 (2 ^ 30)).
Qed.

Lemma int_units_whole unit d : 0 < unit < 2 ^ 52 → 0 ≤ d → d / unit < 2 ^ 51 → d mod unit = 0 →
  int_units unit d = d / unit.
Proof.
  intros Hu Hd Hq Hm. unfold int_units, in_units. rewrite (proj2 (Z.leb_le 0 d)) by done.
  assert (0 ≤ d / unit) by (apply Z.div_pos; lia). rewrite Hm.
  assert (Hz : ∀ lo hi x, fbetween lo hi x → lo = hi → ftrunc x = hi).
  { intros lo hi x Hx%ftrunc_between ->. lia. }
  apply (Hz (d / unit)); [|done]. unfold fadd, fdiv.
  destruct (of_int_between (d / unit) ltac:(lia)) as (A1 & A2 & A3).
  set (a := of_int (d / unit)) in *. change (of_int 0) with (0, 1). cbn [fst snd].
  change (round64 (0 * _, _)) with (0, 1). cbn [fst snd].
  apply round64_between; [lia..|]. split; cbn [fst snd]; lia.
Qed.

Example seconds_examples :
  map int_Seconds [0; 1; Second - 1; Second; 90 * Second; Minute + Millisecond; - (3 * Second) - 5; maxInt64]
  = [0; 0; 0; 1; 90; 60; -3; 9223372036].
Proof. by vm_compute. Qed.

Example duration_text :
  map Duration_String [0; 5; 1500; 2500000; Second; 930 * Second; Hour; 90 * Minute + 500 * Millisecond; - Second]
  = ["0s"; "5ns"; "1.5" +:+ String (z_byte 194) (String (z_byte 181) "s"); "2.5ms"; "1s"; "15m30s"; "1h0m0s"; "1h30m0.5s"; "-1s"].
Proof. by vm_compute. Qed.

Example duration_parse :
  map ParseDuration ["15m"; "1h30m"; "1.5s"; "0"; "-2s"; ""; "5"; "2 s"; ".5m"; "."; "99999999999h"]
  = [Some (15 * Minute); Some (90 * Minute); Some 1500000000; Some 0; Some (-2 * Second); None; None; None;
     Some (30 * Second); None; None].
Proof. by vm_compute. Qed.
