(* ===== verification/Value.v ===== *)
(** * Dynamic values

    Go's [any] restricted to what decoded JSON and the handlers' results hold:
    the cases of the type switches in the source.  A Go map is an association
    list with distinct keys; its order stands for the (unspecified) iteration
    order of [range]. *)

From S2P Require Import Prelude GoStrings.
From Stdlib Require Export SpecFloat.
Local Open Scope Z_scope.

(** ** Maps *)

Section gomap.
Context {A : Type}.

Fixpoint mget (k : string) (m : list (string * A)) : option A :=
  match m with
  | [] => None
  | (k', x) :: m' => if decide (k' = k) then Some x else mget k m'
  end.

(** [m\[k\] = x]: in place when the key is there. *)
Fixpoint mset (k : string) (x : A) (m : list (string * A)) : list (string * A) :=
  match m with
  | [] => [(k, x)]
  | (k', y) :: m' => if decide (k' = k) then (k', x) :: m' else (k', y) :: mset k x m'
  end.

Definition mkeys (m : list (string * A)) : list string := map fst m.

Lemma mget_In k x m : mget k m = Some x → (k, x) ∈ m.
Proof.
  induction m as [|[k' y] m IH]; simpl; [done|].
  case_decide as Hk; [intros [= ->]; subst; left|right; auto].
Qed.

Lemma In_mget k x m : NoDup (mkeys m) → (k, x) ∈ m → mget k m = Some x.
Proof.
  induction m as [|[k' y] m IH]; simpl; [by intros _ ?%not_elem_of_nil|].
  rewrite NoDup_cons. intros [Hk' Hm] [[= -> ->]|Hin]%elem_of_cons; [by rewrite decide_True|].
  rewrite decide_False; [by apply IH|]. intros ->. apply Hk'.
  apply (list_elem_of_fmap_2 fst) in Hin. done.
Qed.

Lemma mget_mset k k' x m :
  mget k (mset k' x m) = if decide (k' = k) then Some x else mget k m.
Proof.
  induction m as [|[k2 y] m IH]; simpl; [done|].
  repeat case_decide; simplify_eq/=; rewrite ?decide_True, ?decide_False by done; try done.
Qed.

Lemma mkeys_mset k x m : is_Some (mget k m) → mkeys (mset k x m) = mkeys m.
Proof.
  induction m as [|[k' y] m IH]; simpl; [by intros [? [=]]|].
  case_decide; simpl; [done|]. intros H'. by rewrite IH.
Qed.

End gomap.

#[export] Hint Resolve mget_In : mcp.

(** ** Values *)

Inductive int_kind := Kint | Kint32 | Kint64.

Unset Elimination Schemes.
Inductive value : Type :=
| VNil
| VBool (b : bool)
| VInt (k : int_kind) (z : Z)
| VFloat (f : spec_float)
| VStr (s : string)
| VList (l : list value)
| VObj (m : list (string * value)).
Set Elimination Schemes.

(** [map\[string\]any] *)
Abbreviation obj := (list (string * value)).

Definition value_ind (P : value → Prop)
    (Hnil : P VNil) (Hbool : ∀ b, P (VBool b)) (Hint : ∀ k z, P (VInt k z))
    (Hfloat : ∀ f, P (VFloat f)) (Hstr : ∀ s, P (VStr s))
    (Hlist : ∀ l, Forall P l → P (VList l))
    (Hobj : ∀ m, Forall (λ e, P e.2) m → P (VObj m)) : ∀ v, P v :=
  fix go v :=
    match v with
    | VNil => Hnil
    | VBool b => Hbool b
    | VInt k z => Hint k z
    | VFloat f => Hfloat f
    | VStr s => Hstr s
    | VList l => Hlist l
        ((fix gol (l : list value) : Forall P l :=
          match l with [] => Forall_nil_2 P | x :: l' => Forall_cons_2 P x l' (go x) (gol l') end) l)
    | VObj m => Hobj m
        ((fix gom (m : obj) : Forall (λ e, P e.2) m :=
          match m with
          | [] => Forall_nil_2 _
          | e :: m' => Forall_cons_2 (λ e, P e.2) e m' (go e.2) (gom m')
          end) m)
    end.

(** [m\[k\]] *)
Definition vget (m : obj) (k : string) : value := default VNil (mget k m).

(** [v, ok := x.(T)] for the types the source asserts. *)
Definition as_str (v : value) : option string := match v with VStr s => Some s | _ => None end.
Definition as_bool (v : value) : option bool := match v with VBool b => Some b | _ => None end.
Definition as_list (v : value) : option (list value) := match v with VList l => Some l | _ => None end.
Definition as_obj (v : value) : option obj := match v with VObj m => Some m | _ => None end.

(** [s, _ := x.(string)] and [l, _ := x.(\[\]any)] *)
Definition str_or_empty (v : value) : string := default "" (as_str v).
Definition list_or_nil (v : value) : list value := default [] (as_list v).
Definition obj_or_nil (v : value) : obj := default [] (as_obj v).

(** Nesting depth; the recursive walks of the source are bounded by it. *)
Fixpoint depth (v : value) : nat :=
  match v with
  | VList l => S (fold_right Nat.max 0%nat (map depth l))
  | VObj m => S ((fix go (m : obj) := match m with [] => 0%nat | e :: m' => Nat.max (depth e.2) (go m') end) m)
  | _ => 0%nat
  end.

Definition depth_fields (m : obj) : nat := fold_right Nat.max 0%nat (map (λ e, depth e.2) m).

(** Keys are distinct in every map. *)
Inductive wf : value → Prop :=
| wf_nil : wf VNil
| wf_bool b : wf (VBool b)
| wf_int k z : wf (VInt k z)
| wf_float f : wf (VFloat f)
| wf_str s : wf (VStr s)
| wf_list l : Forall wf l → wf (VList l)
| wf_obj m : NoDup (mkeys m) → Forall (λ e, wf e.2) m → wf (VObj m).

(** A value found anywhere inside another. *)
Inductive inside (x : value) : value → Prop :=
| inside_here : inside x x
| inside_list l y : y ∈ l → inside x y → inside x (VList l)
| inside_obj m k y : (k, y) ∈ m → inside x y → inside x (VObj m).

Lemma depth_obj m : depth (VObj m) = S (depth_fields m).
Proof. simpl. f_equal. induction m as [|e m IH]; simpl; [done|]. by rewrite IH. Qed.

Lemma fold_max_le {A} (f : A → nat) l d :
  (fold_right Nat.max 0 (map f l) ≤ d)%nat ↔ Forall (λ x, (f x ≤ d)%nat) l.
Proof.
  induction l as [|x l IH]; simpl; [split; [constructor|lia]|].
  rewrite Forall_cons, <- IH. lia.
Qed.

(** Boolean check of [wf], for concrete objects. *)
Fixpoint wf_check (v : value) : bool :=
  match v with
  | VList l => forallb wf_check l
  | VObj m => bool_decide (NoDup (mkeys m)) &&
      (fix go (m : obj) := match m with [] => true | e :: m' => wf_check e.2 && go m' end) m
  | _ => true
  end.

Lemma wf_check_sound v : wf_check v = true → wf v.
Proof.
  induction v as [| | | | |l IH|m IH] using value_ind; try constructor.
  - simpl in H. rewrite forallb_forall in H. apply Forall_forall. intros x Hx.
    rewrite Forall_forall in IH. apply IH; [done|]. by apply H, list_elem_of_In.
  - simpl in H. apply andb_true_iff in H as [H _]. by apply bool_decide_eq_true in H.
  - simpl in H. apply andb_true_iff in H as [_ H].
    induction IH as [|e m He Hm IH]; constructor; apply andb_true_iff in H as [H1 H2]; auto.
Qed.

#[export] Hint Constructors wf inside : mcp.

(** With distinct keys an update in place touches one entry and no other. *)
Lemma mset_map {A} (k : string) (x : A) (m : list (string * A)) :
  NoDup (mkeys m) → is_Some (mget k m) →
  mset k x m = map (λ e, if decide (e.1 = k) then (e.1, x) else e) m.
Proof.
  induction m as [|[k' y] m IH]; simpl; [by intros _ [? [=]]|].
  rewrite NoDup_cons. intros [Hk' Hm] Hk. case_decide as Hd; f_equal; [|by apply IH].
  subst. symmetry. rewrite <- (map_id m) at 2. apply map_ext_in.
  intros e He. rewrite decide_False; [done|]. intros <-. apply Hk'.
  apply list_elem_of_In, in_map, He.
Qed.

Lemma mkeys_map {A B} (f : string * A → B) (m : list (string * A)) :
  mkeys (map (λ e, (e.1, f e)) m) = mkeys m.
Proof. unfold mkeys. rewrite map_map. by apply map_ext. Qed.

(** One entry holds a key. *)
Lemma sum_one_key {A} (k : string) (c : string * A → nat) (m : list (string * A)) :
  NoDup (mkeys m) →
  sum_list_with (λ e, if decide (e.1 = k) then c e else 0)%nat m =
  match mget k m with Some x => c (k, x) | None => 0%nat end.
Proof.
  induction m as [|[k' y] m IH]; simpl; [done|].
  rewrite NoDup_cons. intros [Hk' Hm]. rewrite IH by done. case_decide as Hd; [subst|done].
  destruct (mget k m) eqn:Hg; [|lia]. apply mget_In in Hg.
  exfalso. apply Hk'. by apply (list_elem_of_fmap_2 fst) in Hg.
Qed.

(** ** Positions *)

(** A position of a value: the keys and indices that lead to it. *)
Inductive place := Key (k : string) | Index (i : nat).

Fixpoint at_path (p : list place) (v : value) : option value :=
  match p with
  | [] => Some v
  | Key k :: p' => match v with VObj m => x ← mget k m; at_path p' x | _ => None end
  | Index i :: p' => match v with VList l => x ← l !! i; at_path p' x | _ => None end
  end.

Definition atomic (v : value) : bool := match v with VList _ | VObj _ => false | _ => true end.

(** What stands at one position before and after: nothing on both sides, maps
    with the same keys, lists of the same length, or no map and no list. *)
Definition same_layout (x y : option value) : Prop :=
  match x, y with
  | None, None => True
  | Some (VObj m), Some (VObj m') => mkeys m' = mkeys m
  | Some (VList l), Some (VList l') => length l' = length l
  | Some x, Some y => atomic x = true ∧ atomic y = true
  | _, _ => False
  end.

Lemma same_layout_refl x : same_layout x x.
Proof. by destruct x as [[]|]. Qed.

Lemma at_path_atomic p v : atomic v = true → at_path p v = if p is [] then Some v else None.
Proof. by destruct p as [|[] p], v. Qed.

Lemma same_layout_atomic p x y : atomic x = true → atomic y = true → same_layout (at_path p x) (at_path p y).
Proof. intros Hx Hy. rewrite !at_path_atomic by done. destruct p; [|done]. by destruct x, y. Qed.

Lemma mget_map (f : string * value → value) k (m : obj) :
  mget k (map (λ e, (e.1, f e)) m) = (λ x, f (k, x)) <$> mget k m.
Proof. induction m as [|[k' x] m IH]; simpl; [done|]. case_decide as Hk; [by subst|done]. Qed.

(** The same value up to the order of map fields. *)
Inductive veq : value → value → Prop :=
| veq_nil : veq VNil VNil
| veq_bool b : veq (VBool b) (VBool b)
| veq_int k z : veq (VInt k z) (VInt k z)
| veq_float f : veq (VFloat f) (VFloat f)
| veq_str s : veq (VStr s) (VStr s)
| veq_list l l' : Forall2 veq l l' → veq (VList l) (VList l')
| veq_obj m m1 m' :
    m ≡ₚ m1 → Forall2 (λ e e', e.1 = e'.1 ∧ veq e.2 e'.2) m1 m' →
    veq (VObj m) (VObj m').

#[export] Instance mkeys_perm {A} : Proper ((≡ₚ) ==> (≡ₚ)) (@mkeys A).
Proof. intros m m' H. unfold mkeys. by apply Permutation_map. Qed.

Lemma mget_perm {A} (k : string) (m m' : list (string * A)) :
  NoDup (mkeys m) → m ≡ₚ m' → mget k m = mget k m'.
Proof.
  intros Hm Hp. assert (Hm' : NoDup (mkeys m')) by (by rewrite <- Hp).
  destruct (mget k m) as [x|] eqn:Hx; symmetry.
  - apply In_mget; [done|]. rewrite <- Hp. by apply mget_In.
  - destruct (mget k m') as [y|] eqn:Hy; [|done]. apply mget_In in Hy.
    rewrite <- Hp in Hy. apply In_mget in Hy; [|done]. congruence.
Qed.

Lemma mget_Forall2 {A} (R : A → A → Prop) k (m m' : list (string * A)) :
  Forall2 (λ e e', e.1 = e'.1 ∧ R e.2 e'.2) m m' →
  option_Forall2 R (mget k m) (mget k m').
Proof.
  induction 1 as [|[k1 x] [k2 y] m m' [Hk HR] _ IH]; simpl in *; [constructor|].
  subst. case_decide; [by constructor|done].
Qed.

#[export] Instance veq_refl : Reflexive veq.
Proof.
  intros v. induction v as [| | | | |l IH|m IH] using value_ind; try constructor.
  - induction IH; constructor; auto.
  - eapply veq_obj; [done|]. induction IH; constructor; auto.
Qed.
