(* ===== verification/Floats.v ===== *)
(** * Decimal text of float64 (strconv, encoding/json, fmt)

    Reading a decimal number as the nearest float64, and writing a float64 with
    the fewest digits that read back as it, the closest of those to its value:
    what strconv.FormatFloat does for precision -1.  No float64 takes more than
    17 digits ([Shortest]).  encoding/json and fmt's %v choose between the forms with and
    without an exponent. *)

From S2P Require Import Prelude GoStrings GoTime Value.
From Stdlib Require Import Ascii.
Local Open Scope Z_scope.

#[export] Instance spec_float_eq_dec : EqDecision spec_float.
Proof. solve_decision. Defined.

(** The float nearest to [m * b^e] with a sign; out of range is an error. *)
Definition nearest_in (prec emax b : Z) (neg : bool) (m e : Z) : option spec_float :=
  match m with
  | Zpos p =>
      let f := if 0 <=? e then binary_normalize prec emax (cond_Zopp neg (Zpos p * b ^ e)) 0 neg
               else SFdiv prec emax (S754_finite neg p 0) (S754_finite false (Z.to_pos (b ^ (- e))) 0) in
      match f with S754_infinity _ | S754_nan => None | f => Some f end
  | _ => Some (S754_zero neg)
  end.

(** The float64 nearest to [m * 10^e]. *)
Definition nearest : bool → Z → Z → option spec_float := nearest_in 53 1024 10.

(** ** The shortest decimal *)

Definition ndigits (z : Z) : Z := Z.of_nat (String.length (Itoa z)).

(** [m * 2^e] as a fraction. *)
Definition ratio (m : positive) (e : Z) : Z * Z := if 0 <=? e then (Zpos m * 2 ^ e, 1) else (Zpos m, 2 ^ (- e)).

(** The place of the decimal point: [10^(p-1) <= n/d < 10^p]. *)
Definition point (n d : Z) : Z := if d <=? n then ndigits (n / d) else 1 - ndigits ((d - 1) / n).

(** [z * 10^x], without the zero of a 10. *)
Definition carry (z x : Z) : Z * Z := if z =? 10 then (1, x + 1) else (z, x).

Definition reads_as (neg : bool) (f : spec_float) (dec : Z * Z) : bool :=
  (0 <? dec.1) && bool_decide (nearest neg dec.1 dec.2 = Some f).

(** The multiple of [10^x] closest to [n/d] (of two as close, the even one) if
    it reads as [f], else the one on the other side of [n/d] if that does. *)
Definition decimal_at (neg : bool) (f : spec_float) (n d x : Z) : option (Z * Z) :=
  let num := n * 10 ^ Z.max 0 (- x) in
  let den := d * 10 ^ Z.max 0 x in
  let low := num / den in
  let r := num mod den in
  let up := (den <? 2 * r) || ((den =? 2 * r) && Z.odd low) in
  let closer := carry (if up then low + 1 else low) x in
  let other := carry (if up then low else low + 1) x in
  if reads_as neg f closer then Some closer else if reads_as neg f other then Some other else None.

(** The first number of digits for which there is one. *)
Fixpoint shortest_from (tries : nat) (neg : bool) (f : spec_float) (n d x : Z) : option (Z * Z) :=
  match tries with
  | O => None
  | S tries' =>
      match decimal_at neg f n d x with Some dec => Some dec | None => shortest_from tries' neg f n d (x - 1) end
  end.

Definition shortest (neg : bool) (m : positive) (e : Z) : option (Z * Z) :=
  let '(n, d) := ratio m e in shortest_from 17 neg (S754_finite neg m e) n d (point n d - 1).

(** ** Text *)

Definition sign_text (neg : bool) : string := if neg then "-" else "".
Definition zeros (n : Z) : string := cat (replicate (Z.to_nat n) "0").

(** %f: [D * 10^x] without an exponent. *)
Definition fixed_text (D x : Z) : string :=
  let ds := Itoa D in
  let dp := ndigits D + x in
  if 0 <=? x then ds +:+ zeros x
  else if 0 <? dp then str_take (Z.to_nat dp) ds +:+ "." +:+ str_drop (Z.to_nat dp) ds
  else "0." +:+ zeros (- dp) +:+ ds.

(** %e: an exponent of two digits at least; [clean] drops the zero in front of
    a negative one, as encoding/json does. *)
Definition exp_text (clean : bool) (D x : Z) : string :=
  let ds := Itoa D in
  let e := ndigits D + x - 1 in
  let t := Itoa (Z.abs e) in
  str_take 1 ds +:+ (if 1 <? ndigits D then "." +:+ str_drop 1 ds else "") +:+
  "e" +:+ (if e <? 0 then "-" else "+") +:+ (if (String.length t <? 2)%nat && negb (clean && (e <? 0)) then "0" +:+ t else t).

(** The bounds between the two forms in encoding/json, 1e-6 and 1e21. *)
Definition json_small : spec_float := Eval vm_compute in default S754_nan (nearest false 1 (-6)).
Definition json_large : spec_float := Eval vm_compute in default S754_nan (nearest false 1 21).

(** encoding/json: NaN and the infinities have no text. *)
Definition float_text (f : spec_float) : option string :=
  match f with
  | S754_zero neg => Some (sign_text neg +:+ "0")
  | S754_finite neg m e =>
      match shortest neg m e with
      | Some (D, x) =>
          let big := SFltb (SFabs f) json_small || negb (SFltb (SFabs f) json_large) in
          Some (sign_text neg +:+ (if big then exp_text true D x else fixed_text D x))
      | None => None
      end
  | _ => None
  end.

(** fmt's %v: %g with the fewest digits, which has an exponent below 1e-4 and
    from 1e6 on. *)
Definition float_v (f : spec_float) : string :=
  match f with
  | S754_zero neg => sign_text neg +:+ "0"
  | S754_finite neg m e =>
      match shortest neg m e with
      | Some (D, x) =>
          let exp := ndigits D + x - 1 in
          sign_text neg +:+ (if (exp <? -4) || (6 <=? exp) then exp_text false D x else fixed_text D x)
      | None => ""
      end
  | S754_infinity neg => if neg then "-Inf" else "+Inf"
  | S754_nan => "NaN"
  end.

Definition float_of (m e : Z) : spec_float := default S754_nan (nearest (m <? 0) (Z.abs m) e).

Example float_texts : map (λ p, float_text (float_of p.1 p.2))
    [(1, 0); (-15, -1); (1, -1); (3, -1); (1, 21); (123456789, 13); (1, -6); (1, -7); (-25, -8); (100, 0); (1234567890123456789, 0);
     (1, 23); (5, -324); (10, -324); (17976931348623157, 292); (112589990684262425, -2); (5684341886080801, -29)]
  = map Some ["1"; "-1.5"; "0.1"; "0.3"; "1e+21"; "1.23456789e+21"; "0.000001"; "1e-7"; "-2.5e-7"; "100"; "1234567890123456800";
     "1e+23"; "5e-324"; "1e-323"; "1.7976931348623157e+308"; "1125899906842624.2"; "5.684341886080801e-14"].
Proof. by vm_compute. Qed.

Example float_vs : map (λ p, float_v (float_of p.1 p.2)) [(1, 6); (123456, 0); (1, -5); (-1, -4); (0, 0); (1234567, 0)]
  = ["1e+06"; "123456"; "1e-05"; "-0.0001"; "0"; "1.234567e+06"].
Proof. by vm_compute. Qed.

(** ** strconv.ParseFloat(s, 32) *)

Definition lower (a : ascii) : Z := Z.lor (byte_z a) 32.
Definition is_byte (c : Z) (a : ascii) : bool := byte_z a =? c.

Definition digit_in (hex : bool) (a : ascii) : option Z :=
  if between 48 57 (byte_z a) then Some (byte_z a - 48)
  else if hex && between 97 102 (lower a) then Some (lower a - 87) else None.

(** The digits with at most one point, underscores skipped: the number they
    make, how many stand after the point, whether there are any, and the rest. *)
Fixpoint mantissa (hex dot : bool) (s : string) (m frac : Z) (seen : bool) : Z * Z * bool * string :=
  match s with
  | EmptyString => (m, frac, seen, s)
  | String a s' =>
      if is_byte 95 a then mantissa hex dot s' m frac seen
      else if is_byte 46 a then if dot then (m, frac, seen, s) else mantissa hex true s' m frac seen
      else match digit_in hex a with
           | Some d => mantissa hex dot s' (m * (if hex then 16 else 10) + d) (if dot then frac + 1 else frac) true
           | None => (m, frac, seen, s)
           end
  end.

(** The digits of an exponent to the end of the text; a large one stops
    growing. *)
Fixpoint exponent (s : string) (e : Z) : option Z :=
  match s with
  | EmptyString => Some e
  | String a s' =>
      if is_byte 95 a then exponent s' e
      else match digit_in false a with Some d => exponent s' (if e <? 10000 then e * 10 + d else e) | None => None end
  end.

(** The exponent after the digits, which hexadecimal needs. *)
Definition exponent_part (hex : bool) (s : string) : option Z :=
  match s with
  | EmptyString => if hex then None else Some 0
  | String a s' =>
      if lower a =? (if hex then 112 else 101) then
        let '(neg, s'') := match s' with
          | String b r => if is_byte 43 b then (false, r) else if is_byte 45 b then (true, r) else (false, s')
          | EmptyString => (false, s')
          end in
        match s'' with
        | String d _ => if between 48 57 (byte_z d) then (λ e, if neg then - e else e) <$> exponent s'' 0 else None
        | EmptyString => None
        end
      else None
  end.

Inductive saw := SawStart | SawDigit | SawUnderscore | SawOther.

(** Underscores stand between digits, or after a base's prefix. *)
Fixpoint underscores_ok (hex : bool) (s : string) (before : saw) : bool :=
  match s with
  | EmptyString => match before with SawUnderscore => false | _ => true end
  | String a s' =>
      if match digit_in hex a with Some _ => true | None => false end then underscores_ok hex s' SawDigit
      else if is_byte 95 a then match before with SawDigit => underscores_ok hex s' SawUnderscore | _ => false end
      else match before with SawUnderscore => false | _ => underscores_ok hex s' SawOther end
  end.

Definition has_underscore (s : string) : bool := negb (lacks "_" s).

(** 0b, 0o or 0x: what follows it, and whether the digits are hexadecimal. *)
Definition base_prefix (s : string) : option (bool * string) :=
  match s with
  | String z (String b r) =>
      if is_byte 48 z && ((lower b =? 98) || (lower b =? 111) || (lower b =? 120)) then Some (lower b =? 120, r) else None
  | _ => None
  end.

Definition underscoreOK (s : string) : bool :=
  match base_prefix s with Some (hex, r) => underscores_ok hex r SawDigit | None => underscores_ok false s SawStart end.

Definition cut_sign (s : string) : bool * string :=
  match s with
  | String a s' => if is_byte 43 a then (false, s') else if is_byte 45 a then (true, s') else (false, s)
  | EmptyString => (false, s)
  end.

(** Text of letters in any case. *)
Definition is_word (word s : string) : bool :=
  bool_decide (map lower (String.list_ascii_of_string s) = map byte_z (String.list_ascii_of_string word)).

(** readFloat and the rounding to 24 bits, of the text after its sign. *)
Definition read_number (neg : bool) (s : string) : option spec_float :=
  let '(hex, body) := match base_prefix s with Some (true, String a r) => (true, String a r) | _ => (false, s) end in
  let '(m, frac, seen, rest) := mantissa hex false body 0 0 false in
  if negb seen then None
  else
    match exponent_part hex rest with
    | None => None
    | Some e =>
        if has_underscore s && negb (underscoreOK s) then None
        else if hex then nearest_in 24 128 2 neg m (e - 4 * frac) else nearest_in 24 128 10 neg m (e - frac)
    end.

(** A float32, unless the text is not a number or is out of range. *)
Definition ParseFloat32 (s : string) : option spec_float :=
  let '(neg, r) := cut_sign s in
  if is_word "inf" r || is_word "infinity" r then Some (S754_infinity neg)
  else if is_word "nan" s then Some S754_nan
  else read_number neg r.

Definition float32_of (m e : Z) : option spec_float := nearest_in 24 128 10 (m <? 0) (Z.abs m) e.

Example float_parses : map ParseFloat32
    ["50"; "-1.5"; "1e3"; ".5"; "5."; "0x1p-2"; "0X_1.8p1"; "1_23.50_0_0e+1_2"; "+Inf"; "-infinity"; "NaN"; "1e-50"; "16777217";
     ""; "."; "1e"; "1e+"; "0x1"; "0x"; "1__0"; "_1"; "1_"; "1e39"; "1.5.2"; "nano"; "+nan"; "5qps"; "1e400"; "--1"]
  = [float32_of 50 0; float32_of (-15) (-1); float32_of 1000 0; float32_of 5 (-1); float32_of 5 0; float32_of 25 (-2); float32_of 3 0;
     float32_of 1235 11; Some (S754_infinity false); Some (S754_infinity true); Some S754_nan; Some (S754_zero false); float32_of 16777216 0;
     None; None; None; None; None; None; None; None; None; None; None; None; None; None; None; None].
Proof. by vm_compute. Qed.
