(* ===== verification/Effects.v ===== *)
(** * Programs that talk to the outside

    A handler is a program over requests: it returns, or makes a request and
    continues with the reply.  [runs p tr a] says that [p] can answer [a]
    after exchanging exactly the requests and replies of [tr]; [asks P h p]
    that every request [p] can ever make, whatever the replies, satisfies [P]
    given the exchange so far.  [interp] runs a program against a concrete
    environment. *)

From S2P Require Import Prelude.

Section prog.
Context {Q : Type} {R : Q → Type}.

(** [OutOfFuel] ends a loop whose fuel is used up: it answers nothing. *)
Inductive prog (A : Type) : Type :=
| Ret (a : A)
| Call (q : Q) (k : R q → prog A)
| OutOfFuel.

Arguments Ret {A} a.
Arguments Call {A} q k.
Arguments OutOfFuel {A}.

Fixpoint bind {A B} (p : prog A) (f : A → prog B) : prog B :=
  match p with
  | Ret a => f a
  | Call q k => Call q (λ r, bind (k r) f)
  | OutOfFuel => OutOfFuel
  end.

Definition call (q : Q) : prog (R q) := Call q Ret.

(** Go's [if err != nil { return ..., err }]. *)
Definition try {E A B} (p : prog (result E A)) (f : A → prog (result E B)) : prog (result E B) :=
  bind p (λ r, match r with Ok a => f a | Err e => Ret (Err e) end).

Record event := Event { asked : Q; replied : R asked }.

Fixpoint runs {A} (p : prog A) (tr : list event) (a : A) : Prop :=
  match p with
  | Ret x => tr = [] ∧ x = a
  | Call q k => ∃ r tr', tr = Event q r :: tr' ∧ runs (k r) tr' a
  | OutOfFuel => False
  end.

Fixpoint asks {A} (P : list event → Q → Prop) (h : list event) (p : prog A) : Prop :=
  match p with
  | Ret _ | OutOfFuel => True
  | Call q k => P h q ∧ ∀ r, asks P (h ++ [Event q r]) (k r)
  end.

(** Every request satisfies a predicate of its own. *)
Definition only {A} (P : Q → Prop) (p : prog A) : Prop := asks (λ _, P) [] p.

Fixpoint interp {S A} (env : S → ∀ q, R q * S) (s : S) (p : prog A) : option (A * list event * S) :=
  match p with
  | Ret a => Some (a, [], s)
  | Call q k =>
      let '(r, s') := env s q in
      match interp env s' (k r) with
      | Some (a, tr, s'') => Some (a, Event q r :: tr, s'')
      | None => None
      end
  | OutOfFuel => None
  end.

(** The exchange after which [p] is out of fuel. *)
Fixpoint gives_up {A} (p : prog A) (tr : list event) : Prop :=
  match p with
  | Ret _ => False
  | Call q k => ∃ r tr', tr = Event q r :: tr' ∧ gives_up (k r) tr'
  | OutOfFuel => tr = []
  end.

(** Out of fuel only at the end of an exchange with [P]. *)
Definition answers_unless {A} (P : list event → Prop) (p : prog A) : Prop :=
  ∀ tr, gives_up p tr → ∃ tr1 tr2, tr = tr1 ++ tr2 ∧ P tr2.

(** The replies of an exchange are those of an environment. *)
Fixpoint follows {S} (env : S → ∀ q, R q * S) (s : S) (tr : list event) : Prop :=
  match tr with [] => True | e :: tr' => (env s (asked e)).1 = replied e ∧ follows env (env s (asked e)).2 tr' end.

(** [p'] does what [p] does, and may go on where [p] is out of fuel. *)
Inductive approx {A} : prog A → prog A → Prop :=
| approx_fuel p : approx OutOfFuel p
| approx_ret a : approx (Ret a) (Ret a)
| approx_call q k k' : (∀ r, approx (k r) (k' r)) → approx (Call q k) (Call q k').

(** ** Laws *)

Lemma bind_ret_r {A} (p : prog A) (a : A) tr : runs (bind p Ret) tr a ↔ runs p tr a.
Proof. revert tr. induction p as [x|q k IH|]; intros tr; simpl; [done| |done]. by setoid_rewrite IH. Qed.

Lemma runs_bind {A B} (p : prog A) (f : A → prog B) tr b :
  runs (bind p f) tr b ↔ ∃ tr1 tr2 a, tr = tr1 ++ tr2 ∧ runs p tr1 a ∧ runs (f a) tr2 b.
Proof.
  revert tr. induction p as [x|q k IH|]; intros tr; simpl.
  - split; [intros H; by exists [], tr, x|by intros (? & ? & ? & -> & [-> ->] & H)].
  - split.
    + intros (r & tr' & -> & H). apply IH in H as (tr1 & tr2 & a & -> & H1 & H2).
      exists (Event q r :: tr1), tr2, a. split; [done|]. split; [|done]. by exists r, tr1.
    + intros (tr1 & tr2 & a & -> & (r & tr' & -> & H1) & H2). exists r, (tr' ++ tr2).
      split; [done|]. apply IH. by exists tr', tr2, a.
  - split; [done|by intros (? & ? & ? & _ & [] & _)].
Qed.

Lemma runs_ret {A} (x a : A) tr : runs (Ret x) tr a ↔ tr = [] ∧ x = a.
Proof. done. Qed.

Lemma runs_call q (r : R q) tr : runs (call q) tr r ↔ tr = [Event q r].
Proof.
  simpl. split.
  - by intros (r' & tr' & -> & -> & <-).
  - intros ->. by exists r, [].
Qed.

Lemma runs_try {E A B} (p : prog (result E A)) (f : A → prog (result E B)) tr b :
  runs (try p f) tr b ↔
    (∃ tr1 tr2 a, tr = tr1 ++ tr2 ∧ runs p tr1 (Ok a) ∧ runs (f a) tr2 b) ∨
    (∃ e, runs p tr (Err e) ∧ b = Err e).
Proof.
  unfold try. rewrite runs_bind. split.
  - intros (tr1 & tr2 & [a|e] & -> & H1 & H2); [left; by exists tr1, tr2, a|].
    right. destruct H2 as [-> <-]. exists e. by rewrite app_nil_r.
  - intros [(tr1 & tr2 & a & -> & H1 & H2)|(e & H & ->)]; [by exists tr1, tr2, (Ok a)|].
    exists tr, [], (Err e). by rewrite app_nil_r.
Qed.

Lemma asks_weaken {A} (P P' : list event → Q → Prop) h (p : prog A) :
  (∀ h' q, P (h ++ h') q → P' (h ++ h') q) → asks P h p → asks P' h p.
Proof.
  revert h. induction p as [x|q k IH|]; intros h HP; simpl; [done| |done].
  intros [H1 H2]. split.
  - specialize (HP [] q). rewrite app_nil_r in HP. auto.
  - intros r. apply IH; [|done]. intros h' q'. rewrite <- app_assoc. apply HP.
Qed.

Lemma asks_bind {A B} P h (p : prog A) (f : A → prog B) :
  asks P h p → (∀ tr a, runs p tr a → asks P (h ++ tr) (f a)) → asks P h (bind p f).
Proof.
  revert h. induction p as [x|q k IH|]; intros h Hp Hf; simpl in *.
  - specialize (Hf [] x). rewrite app_nil_r in Hf. auto.
  - destruct Hp as [H1 H2]. split; [done|]. intros r. apply IH; [done|].
    intros tr a Hr. rewrite <- app_assoc. apply Hf. by exists r, tr.
  - done.
Qed.

Lemma asks_try {E A B} P h (p : prog (result E A)) (f : A → prog (result E B)) :
  asks P h p → (∀ tr a, runs p tr (Ok a) → asks P (h ++ tr) (f a)) → asks P h (try p f).
Proof.
  intros Hp Hf. apply asks_bind; [done|]. intros tr [a|e] Hr; [by apply Hf|done].
Qed.

(** What was asked during a run satisfied the predicate at that point. *)
Lemma asks_runs {A} P h (p : prog A) tr a : asks P h p → runs p tr a →
  ∀ tr1 e tr2, tr = tr1 ++ e :: tr2 → P (h ++ tr1) (asked e).
Proof.
  revert h tr. induction p as [x|q k IH|]; intros h tr; simpl.
  - intros _ [-> _] tr1 e tr2 Heq. by destruct tr1.
  - intros [H1 H2] (r & tr' & -> & Hr) [|e0 tr1] e tr2 Heq; simplify_eq/=; [by rewrite app_nil_r|].
    rewrite cons_middle, app_assoc. by eapply IH.
  - done.
Qed.

Lemma only_asks {A} P h (p : prog A) : only P p ↔ asks (λ _, P) h p.
Proof.
  unfold only. generalize (@nil event) as h'. revert h.
  induction p as [x|q k IH|]; intros h h'; simpl; [done| |done].
  split; intros [H1 H2]; (split; [done|]); intros r; by eapply IH.
Qed.

Lemma only_ret {A} P (a : A) : only P (Ret a).
Proof. done. Qed.

Lemma only_fuel {A} P : only P (@OutOfFuel A).
Proof. done. Qed.

Lemma only_call P q : P q → only P (call q).
Proof. by split. Qed.

Lemma only_bind {A B} P (p : prog A) (f : A → prog B) :
  only P p → (∀ a, only P (f a)) → only P (bind p f).
Proof. intros Hp Hf. apply asks_bind; [done|]. intros tr a _. apply only_asks, Hf. Qed.

(** A program that asks only so much with a continuation asks no more without. *)
Lemma only_bind_inv {A B} P (p : prog A) (f : A → prog B) : only P (bind p f) → only P p.
Proof.
  unfold only. generalize (@nil event) as h.
  induction p as [x|q k IH|]; intros h; simpl; [done| |done]. intros [H1 H2]. split; [done|]. eauto.
Qed.

Lemma only_try {E A B} P (p : prog (result E A)) (f : A → prog (result E B)) :
  only P p → (∀ a, only P (f a)) → only P (try p f).
Proof. intros Hp Hf. apply only_bind; [done|]. by intros []. Qed.

Lemma only_weaken {A} (P P' : Q → Prop) (p : prog A) : (∀ q, P q → P' q) → only P p → only P' p.
Proof. intros H. apply asks_weaken. auto. Qed.

Lemma only_runs {A} P (p : prog A) tr a e : only P p → runs p tr a → e ∈ tr → P (asked e).
Proof.
  intros Ho Hr He. apply list_elem_of_split in He as (tr1 & tr2 & ->).
  exact (asks_runs _ [] p _ a Ho Hr tr1 e tr2 eq_refl).
Qed.

Lemma interp_runs {S A} (env : S → ∀ q, R q * S) s (p : prog A) a tr s' :
  interp env s p = Some (a, tr, s') → runs p tr a.
Proof.
  revert s tr. induction p as [x|q k IH|]; intros s tr; simpl.
  - by intros [= -> <- ->].
  - destruct (env s q) as [r s1] eqn:He. destruct (interp env s1 (k r)) as [[[a' tr'] s2]|] eqn:Hi; [|done].
    intros [= -> <- ->]. exists r, tr'. split; [done|]. by apply (IH r s1).
  - done.
Qed.

(** *** Fuel *)

(** In an environment a program answers, or runs out of fuel there. *)
Lemma interp_or_gives_up {S A} (env : S → ∀ q, R q * S) s (p : prog A) :
  is_Some (interp env s p) ∨ ∃ tr, gives_up p tr ∧ follows env s tr.
Proof.
  revert s. induction p as [x|q k IH|]; intros s; simpl; [left; by eexists| |right; by exists []].
  destruct (env s q) as [r s'] eqn:He. destruct (IH r s') as [[[[a tr] s''] Hi]|(tr & Hg & Hf)].
  - left. rewrite Hi. by eexists.
  - right. exists (Event q r :: tr). split; [by exists r, tr|]. simpl. by rewrite He.
Qed.

Lemma follows_app {S} (env : S → ∀ q, R q * S) s tr1 tr2 : follows env s (tr1 ++ tr2) →
  follows env s tr1 ∧ ∃ s', follows env s' tr2.
Proof.
  revert s. induction tr1 as [|e tr1 IH]; intros s; simpl; [by eauto|]. intros [He (H1 & s' & H2)%IH]. by eauto.
Qed.

Lemma gives_up_bind {A B} (p : prog A) (f : A → prog B) tr :
  gives_up (bind p f) tr ↔ gives_up p tr ∨ ∃ tr1 tr2 a, tr = tr1 ++ tr2 ∧ runs p tr1 a ∧ gives_up (f a) tr2.
Proof.
  revert tr. induction p as [x|q k IH|]; intros tr; simpl.
  - split; [intros Hg; right; by exists [], tr, x|]. by intros [[]|(? & ? & ? & -> & [-> ->] & Hg)].
  - split.
    + intros (r & tr' & -> & [Hg|(tr1 & tr2 & a & -> & Hr & Hg)]%IH); [left; by exists r, tr'|].
      right. exists (Event q r :: tr1), tr2, a. split; [done|]. split; [|done]. by exists r, tr1.
    + intros [(r & tr' & -> & Hg)|(tr1 & tr2 & a & -> & (r & tr' & -> & Hr) & Hg)].
      * exists r, tr'. split; [done|]. apply IH. by left.
      * exists r, (tr' ++ tr2). split; [done|]. apply IH. right. by exists tr', tr2, a.
  - split; [by left|]. by intros [->|(? & ? & ? & _ & [] & _)].
Qed.

Lemma unless_ret {A} P (a : A) : answers_unless P (Ret a).
Proof. by intros tr []. Qed.

Lemma unless_call P q : answers_unless P (call q).
Proof. by intros tr (r & tr' & -> & []). Qed.

Lemma unless_bind {A B} P (p : prog A) (f : A → prog B) :
  answers_unless P p → (∀ a, answers_unless P (f a)) → answers_unless P (bind p f).
Proof.
  intros Hp Hf tr [Hg|(tr1 & tr2 & a & -> & _ & Hg)]%gives_up_bind; [by apply Hp|].
  apply Hf in Hg as (tr3 & tr4 & -> & HP). exists (tr1 ++ tr3), tr4. by rewrite <- app_assoc.
Qed.

Lemma unless_try {E A B} P (p : prog (result E A)) (f : A → prog (result E B)) :
  answers_unless P p → (∀ a, answers_unless P (f a)) → answers_unless P (try p f).
Proof. intros Hp Hf. apply unless_bind; [done|]. intros []; [done|apply unless_ret]. Qed.

(** An environment without such exchanges gets an answer. *)
Lemma unless_answers {S A} P (env : S → ∀ q, R q * S) s (p : prog A) : answers_unless P p →
  (∀ tr1 tr2, follows env s (tr1 ++ tr2) → ¬ P tr2) → is_Some (interp env s p).
Proof.
  intros Hp Henv. destruct (interp_or_gives_up env s p) as [Hi|(tr & (tr1 & tr2 & -> & HP)%Hp & Hf)]; [done|].
  by destruct (Henv tr1 tr2).
Qed.

#[export] Instance approx_reflexive {A} : Reflexive (@approx A).
Proof. intros p. induction p; by constructor. Qed.

(** What answers does not change with more fuel. *)
Lemma approx_interp {S A} (env : S → ∀ q, R q * S) s (p p' : prog A) out :
  approx p p' → interp env s p = Some out → interp env s p' = Some out.
Proof.
  intros Ha. revert s out. induction Ha as [p|a|q k k' _ IH]; intros s out; simpl; [done..|].
  destruct (env s q) as [r s']. destruct (interp env s' (k r)) as [[[a tr] s'']|] eqn:Hi; [|done].
  by rewrite (IH r s' _ Hi).
Qed.

#[export] Instance approx_bind {A B} : Proper (approx ==> pointwise_relation A approx ==> approx) (@bind A B).
Proof.
  intros p p' Hp f f' Hf. induction Hp as [p|a|q k k' _ IH]; simpl; [constructor|apply Hf|by constructor].
Qed.

#[export] Instance approx_try {E A B} :
  Proper (approx ==> pointwise_relation A approx ==> approx) (@try E A B).
Proof. intros p p' Hp f f' Hf. unfold try. apply approx_bind; [done|]. intros []; [apply Hf|done]. Qed.

(** What a program can become by one request. *)
Definition next_of {A} (p' p : prog A) : Prop := match p with Call q k => ∃ r, p' = k r | _ => False end.

Lemma next_of_wf {A} : well_founded (@next_of A).
Proof. intros p. induction p as [x|q k IH|]; constructor; [done| |done]. by intros p' [r ->]. Qed.

End prog.

Arguments prog Q R A : clear implicits.
Arguments Ret {Q R A} a.
Arguments Call {Q R A} q k.
Arguments OutOfFuel {Q R A}.
Arguments event Q R : clear implicits.

Declare Scope mcp_scope.
Delimit Scope mcp_scope with mcp.
Notation "'let!' x := p 'in' q" := (bind p (λ x, q))
  (at level 200, x pattern, p at level 100, q at level 200, right associativity) : mcp_scope.
Notation "'let?' x := p 'in' q" := (try p (λ x, q))
  (at level 200, x pattern, p at level 100, q at level 200, right associativity) : mcp_scope.

(** Every request of a program, by following its structure. *)
Ltac only_step :=
  first
    [ apply only_ret | apply only_fuel
    | apply only_try; [|intros ?] | apply only_bind; [|intros ?]
    | apply only_call | progress case_match | progress case_decide ].
