(* ===== verification/Parallel.v ===== *)
(** * Goroutines that run together (golang.org/x/sync/errgroup)

    A group starts functions at once and waits for all of them: their requests
    interleave in any order, the first error is what Wait returns, and it
    cancels the context of the others, whose results are then not looked at.
    A group is a step relation over the programs of [Effects]; the theorems
    relate it to running the functions one after the other. *)

From S2P Require Import Prelude Effects.

Section group.
Context {Q : Type} {R : Q → Type} {E U : Type}.
Abbreviation goroutine := (@prog Q R (result E U)).
Abbreviation trace := (list (@event Q R)).

(** A goroutine that was cancelled is [Stopped]. *)
Inductive proc := Running (p : goroutine) | Done (r : result E U) | Stopped.

Record group := mkGroup { procs : list proc; first : option E }.

Inductive gstep : group → trace → group → Prop :=
| g_request i q k r g : procs g !! i = Some (Running (Call q k)) →
    gstep g [Event q r] (mkGroup (<[i := Running (k r)]> (procs g)) (first g))
| g_return i r g : procs g !! i = Some (Running (Ret r)) →
    gstep g [] (mkGroup (<[i := Done r]> (procs g))
      (match first g, r with None, Err e => Some e | f, _ => f end))
| g_cancelled i p e g : procs g !! i = Some (Running p) → first g = Some e →
    gstep g [] (mkGroup (<[i := Stopped]> (procs g)) (first g)).

(** Steps, oldest first. *)
Inductive gruns : group → trace → group → Prop :=
| gruns_refl g : gruns g [] g
| gruns_step g tr g' tr' g'' : gruns g tr g' → gstep g' tr' g'' → gruns g (tr ++ tr') g''.

Definition running (p : proc) : bool := match p with Running _ => true | _ => false end.

Definition start (ps : list goroutine) : group := mkGroup (map Running ps) None.

(** [g.Wait()] after [g.Go] of each function: what they exchanged, and the
    first error or every result. *)
Definition waits (ps : list goroutine) (tr : trace) (res : result E (list U)) : Prop :=
  ∃ g, gruns (start ps) tr g ∧ forallb (negb ∘ running) (procs g) = true ∧
    match first g, res with
    | Some e, Err e' => e = e'
    | None, Ok us => procs g = map (λ u, Done (Ok u)) us
    | _, _ => False
    end.

(** The functions one after the other; the first error ends them. *)
Fixpoint in_turn (ps : list goroutine) : @prog Q R (result E (list U)) :=
  match ps with
  | [] => Ret (Ok [])
  | p :: ps' => try p (λ u, try (in_turn ps') (λ us, Ret (Ok (u :: us))))
  end.

Lemma only_in_turn P ps : Forall (only P) ps → only P (in_turn ps).
Proof.
  induction 1 as [|p ps Hp _ IH]; [done|]. cbn [in_turn]. apply only_try; [done|]. intros u. by apply only_try.
Qed.

(** ** A goroutine's own exchange *)

(** [p] gets to [p'] by the exchange. *)
Inductive leads (p : goroutine) : trace → goroutine → Prop :=
| leads_refl : leads p [] p
| leads_step tr q k r : leads p tr (Call q k) → leads p (tr ++ [Event q r]) (k r).

Lemma leads_call q k r tr p : leads (k r) tr p → leads (Call q k) (Event q r :: tr) p.
Proof.
  induction 1 as [|tr q' k' r' _ IH]; [exact (leads_step _ [] q k r (leads_refl _))|].
  change (Event q r :: tr ++ [Event q' r']) with ((Event q r :: tr) ++ [Event q' r']). by constructor.
Qed.

Lemma leads_runs p tr p' tr' a : leads p tr p' → runs p' tr' a → runs p (tr ++ tr') a.
Proof.
  intros Hl. revert tr'. induction Hl as [|tr q k r _ IH]; intros tr' Hr; [done|].
  rewrite <- app_assoc. apply IH. by exists r, tr'.
Qed.

Lemma leads_ret p tr r : leads p tr (Ret r) → runs p tr r.
Proof. intros Hl. rewrite <- (app_nil_r tr). by eapply leads_runs. Qed.

Lemma runs_leads p tr r : runs p tr r → leads p tr (Ret r).
Proof.
  revert tr. induction p as [x|q k IH|]; intros tr; simpl; [intros [-> ->]; constructor| |done].
  intros (r' & tr' & -> & Hr). by apply leads_call, IH.
Qed.

Lemma leads_gives_up p tr p' tr' : leads p tr p' → gives_up p' tr' → gives_up p (tr ++ tr').
Proof.
  intros Hl. revert tr'. induction Hl as [|tr q k r _ IH]; intros tr' Hg; [done|].
  rewrite <- app_assoc. apply IH. by exists r, tr'.
Qed.

Lemma leads_only P p tr p' : only P p → leads p tr p' → Forall (λ e, P (asked e)) tr ∧ only P p'.
Proof.
  intros Hp. induction 1 as [|tr q k r _ [IH1 IH2]]; [done|]. destruct IH2 as [Hq Hk]. split.
  - apply Forall_app. split; [done|]. by constructor.
  - specialize (Hk r). by apply only_asks in Hk.
Qed.
(** ** What a group has done so far *)

Definition own (p : goroutine) (t : trace) (c : proc) : Prop :=
  match c with Running p' => leads p t p' | Done r => runs p t r | Stopped => ∃ p', leads p t p' end.

(** The exchange is a shuffle of what each goroutine exchanged by itself; the
    first error is one that a goroutine returned. *)
Definition shuffle (ps : list goroutine) (tr : trace) (g : group) : Prop :=
  ∃ ts, tr ≡ₚ concat ts ∧ Forall3 own ps ts (procs g) ∧
    match first g with
    | None => Forall (λ c, match c with Stopped | Done (Err _) => False | _ => True end) (procs g)
    | Some e => Done (Err e) ∈ procs g
    end.

Lemma concat_insert i (t : trace) new (ts : list trace) : ts !! i = Some t →
  concat (<[i := t ++ new]> ts) ≡ₚ concat ts ++ new.
Proof.
  revert i. induction ts as [|t' ts IH]; intros [|i]; cbn; [done..| |].
  - intros [= ->]. rewrite <- !app_assoc. f_equiv. apply Permutation_app_comm.
  - intros Ht. rewrite IH by done. by rewrite app_assoc.
Qed.

Lemma Forall3_insert_own ps ts cs i p t c : Forall3 own ps ts cs → ps !! i = Some p → own p t c →
  Forall3 own ps (<[i := t]> ts) (<[i := c]> cs).
Proof.
  intros Hf. revert i. induction Hf as [|p' t' c' ps ts cs Ho Hf IH]; intros [|i]; cbn; try done.
  - intros [= ->] Hn. by constructor.
  - intros Hi Hn. constructor; [done|by apply IH].
Qed.

Lemma shuffle_start ps : shuffle ps [] (start ps).
Proof.
  exists (map (λ _, []) ps). split_and!.
  - by induction ps.
  - cbn. induction ps; constructor; [constructor|done].
  - cbn. induction ps; by constructor.
Qed.

Lemma shuffle_step ps tr g tr' g' : shuffle ps tr g → gstep g tr' g' → shuffle ps (tr ++ tr') g'.
Proof.
  intros (ts & Htr & Hf & Hfirst) Hs.
  assert (Hown : ∀ i c, procs g !! i = Some c → ∃ p t, ps !! i = Some p ∧ ts !! i = Some t ∧ own p t c).
  { intros i c Hi. by destruct (Forall3_lookup_r _ _ _ _ _ _ Hf Hi) as (p & t & ? & ? & ?); exists p, t. }
  assert (Hother : ∀ i c e, procs g !! i = Some (Running c) → Done (Err e) ∈ procs g → ∀ c', Done (Err e) ∈ <[i := c']> (procs g)).
  { intros i c e Hi (j & Hj)%list_elem_of_lookup c'. apply list_elem_of_lookup. exists j.
    rewrite list_lookup_insert_ne; [done|]. intros ->. congruence. }
  inversion Hs as [i q k r g0 Hi|i r g0 Hi|i p e g0 Hi He]; subst g0 g' tr'; cbn [procs first];
    destruct (Hown _ _ Hi) as (p0 & t & Hp & Ht & Ho); cbn [own] in Ho.
  - exists (<[i := t ++ [Event q r]]> ts). split_and!.
    + by rewrite concat_insert, Htr.
    + eapply Forall3_insert_own; [done..|]. by constructor.
    + destruct (first g) as [e|]; [by eapply Hother|]. by apply Forall_insert.
  - exists (<[i := t ++ []]> ts). cbn [procs]. split_and!.
    + by rewrite concat_insert, Htr.
    + eapply Forall3_insert_own; [done..|]. rewrite app_nil_r. by apply leads_ret.
    + destruct (first g) as [e|]; [by eapply Hother|]. destruct r as [u|e]; [by apply Forall_insert|].
      apply list_elem_of_lookup. exists i. apply list_lookup_insert_eq. by eapply lookup_lt_Some.
  - exists (<[i := t ++ []]> ts). cbn [procs]. split_and!.
    + by rewrite concat_insert, Htr.
    + eapply Forall3_insert_own; [done..|]. rewrite app_nil_r. by exists p.
    + rewrite He in *. by eapply Hother.
Qed.

Lemma shuffle_runs ps tr g : gruns (start ps) tr g → shuffle ps tr g.
Proof.
  remember (start ps) as g0 eqn:Hg. induction 1 as [|g tr g' tr' g'' _ IH Hs]; subst; [apply shuffle_start|].
  eapply shuffle_step; [by apply IH|done].
Qed.

(** ** Waiting *)

Lemma waits_ok ps tr us : waits ps tr (Ok us) → ∃ ts, tr ≡ₚ concat ts ∧ Forall3 (λ p t u, runs p t (Ok u)) ps ts us.
Proof.
  intros (g & Hg%shuffle_runs & _ & Hr). destruct (first g); [done|]. destruct Hg as (ts & Htr & Hf & _).
  exists ts. split; [done|]. rewrite Hr in Hf. clear -Hf. remember (map _ us) as cs eqn:Hcs.
  revert us Hcs. induction Hf as [|p t c ps ts cs Ho Hf IH]; intros [|u us] Hcs; try done; [constructor|].
  injection Hcs as -> ->. constructor; [done|by apply IH].
Qed.

Lemma in_turn_runs ps ts us : Forall3 (λ p t u, runs p t (Ok u)) ps ts us → runs (in_turn ps) (concat ts) (Ok us).
Proof.
  induction 1 as [|p t u ps ts us Hp Hf IH]; cbn [in_turn concat]; [done|].
  apply runs_try. left. exists t, (concat ts), u. split_and!; [done..|].
  apply runs_try. left. exists (concat ts), [], us. by rewrite app_nil_r.
Qed.

(** Without an error, a group does what its functions do one after the other:
    the same requests and replies up to order, and the same results. *)
Lemma waits_in_turn ps tr us : waits ps tr (Ok us) → ∃ tr', tr' ≡ₚ tr ∧ runs (in_turn ps) tr' (Ok us).
Proof. intros (ts & Htr & Hf)%waits_ok. exists (concat ts). split; [done|]. by apply in_turn_runs. Qed.

(** An error of a group is one that a function returned in a run of its own,
    part of what the group exchanged. *)
Lemma waits_err ps tr e : waits ps tr (Err e) → ∃ p t, p ∈ ps ∧ runs p t (Err e) ∧ t ⊆+ tr.
Proof.
  intros (g & (ts & Htr & Hf & He)%shuffle_runs & _ & Hr). destruct (first g) as [e'|]; [|done]. subst e'.
  apply list_elem_of_lookup in He as [i Hi]. destruct (Forall3_lookup_r _ _ _ _ _ _ Hf Hi) as (p & t & Hp & Ht & Ho).
  exists p, t. split_and!; [by eapply list_elem_of_lookup_2|done|]. rewrite Htr. clear -Ht.
  revert i Ht. induction ts as [|t' ts IH]; intros [|i]; cbn; [done..|intros [= ->]; apply submseteq_inserts_r|].
  - done.
  - intros Hi. apply submseteq_inserts_l. by eapply IH.
Qed.

(** A group asks only what its functions ask. *)
Lemma waits_only P ps tr res e : Forall (only P) ps → waits ps tr res → e ∈ tr → P (asked e).
Proof.
  intros Hps (g & (ts & Htr & Hf & _)%shuffle_runs & _) He. rewrite Htr in He.
  assert (Hts : Forall (Forall (λ e, P (asked e))) ts).
  { clear -Hf Hps. induction Hf as [|p t c ps ts cs Ho Hf IH]; [constructor|]. inversion Hps; subst.
    constructor; [|by apply IH]. destruct c as [p'|r|]; cbn in Ho.
    - by eapply leads_only.
    - by eapply leads_only; [|apply runs_leads].
    - destruct Ho as [p' Ho]. by eapply leads_only. }
  apply list_elem_of_In, in_concat in He as (t & Ht & He). rewrite Forall_forall in Hts.
  specialize (Hts t (proj2 (list_elem_of_In _ _) Ht)). rewrite Forall_forall in Hts. by apply Hts, list_elem_of_In.
Qed.

(** ** One schedule *)

Lemma gruns_trans g tr g' tr' g'' : gruns g tr g' → gruns g' tr' g'' → gruns g (tr ++ tr') g''.
Proof.
  intros H1 H2. revert H1. induction H2 as [|g1 tr1 g2 tr2 g3 _ IH Hs]; intros H1; [by rewrite app_nil_r|].
  rewrite app_assoc. eapply gruns_step; [by apply IH|done].
Qed.

Lemma gruns_one g tr g' : gstep g tr g' → gruns g tr g'.
Proof. intros Hs. exact (gruns_step g [] g tr g' (gruns_refl g) Hs). Qed.

Lemma gruns_alone i p g tr r : procs g !! i = Some (Running p) → runs p tr r →
  gruns g tr (mkGroup (<[i := Done r]> (procs g)) (match first g, r with None, Err e => Some e | f, _ => f end)).
Proof.
  revert g tr. induction p as [x|q k IH|]; intros g tr Hi; cbn [runs]; [|intros (r' & tr' & -> & Hr)|done].
  - intros [-> ->]. by apply gruns_one, g_return.
  - change (Event q r' :: tr') with ([Event q r'] ++ tr'). eapply gruns_trans; [by eapply gruns_one, g_request|].
    refine (eq_rect _ (gruns _ _) (IH r' _ tr' _ Hr) _ _); cbn [procs first].
    + apply list_lookup_insert_eq. by eapply lookup_lt_Some.
    + by rewrite list_insert_insert_eq.
Qed.

Lemma gruns_stop cs ps e : gruns (mkGroup (cs ++ map Running ps) (Some e)) [] (mkGroup (cs ++ map (λ _, Stopped) ps) (Some e)).
Proof.
  revert cs. induction ps as [|p ps IH]; intros cs; [constructor|]. cbn [map].
  apply (gruns_trans _ [] (mkGroup (cs ++ Stopped :: map Running ps) (Some e)) []).
  - apply gruns_one.
    assert (Hi : (cs ++ Running p :: map Running ps) !! (length cs + 0) = Some (Running p)) by (by rewrite lookup_app_r, Nat.add_0_r, Nat.sub_diag by lia).
    pose proof (g_cancelled _ p e (mkGroup (cs ++ Running p :: map Running ps) (Some e)) Hi eq_refl) as Hs.
    cbn [procs first] in Hs. by rewrite insert_app_r in Hs.
  - rewrite !(cons_middle Stopped), !app_assoc. apply IH.
Qed.

Definition oks (us : list U) : list proc := map (λ u, Done (Ok u)) us.

(** The next function runs alone, after those that are done. *)
Lemma gruns_next us p ps tr r : runs p tr r →
  gruns (mkGroup (oks us ++ Running p :: map Running ps) None) tr
    (mkGroup (oks us ++ Done r :: map Running ps) (match r with Err e => Some e | Ok _ => None end)).
Proof.
  intros Hr. assert (Hi : (oks us ++ Running p :: map Running ps) !! (length (oks us) + 0) = Some (Running p)).
  { by rewrite lookup_app_r, Nat.add_0_r, Nat.sub_diag by lia. }
  pose proof (gruns_alone _ p (mkGroup (oks us ++ Running p :: map Running ps) None) tr r Hi Hr) as Hg.
  cbn [procs first] in Hg. rewrite insert_app_r in Hg. by destruct r.
Qed.

Lemma finished_oks us cs : forallb (negb ∘ running) (oks us ++ cs) = forallb (negb ∘ running) cs.
Proof. rewrite forallb_app. by replace (forallb _ (oks us)) with true by (by induction us). Qed.

Lemma in_turn_group ps us0 tr res : runs (in_turn ps) tr res →
  ∃ g, gruns (mkGroup (oks us0 ++ map Running ps) None) tr g ∧ forallb (negb ∘ running) (procs g) = true ∧
    match first g, res with
    | Some e, Err e' => e = e'
    | None, Ok us => procs g = oks (us0 ++ us)
    | _, _ => False
    end.
Proof.
  revert us0 tr res. induction ps as [|p ps IH]; intros us0 tr res; cbn [in_turn map].
  { intros [-> <-]. eexists. split; [constructor|]. cbn [procs first]. rewrite finished_oks. by rewrite !app_nil_r. }
  intros [(tr1 & tr2 & u & -> & Hp & Hr)|(e & Hp & ->)]%runs_try; apply (gruns_next us0 p ps) in Hp.
  - assert (Hres : ∃ res', runs (in_turn ps) tr2 res' ∧ res = match res' with Ok us => Ok (u :: us) | Err e => Err e end).
    { apply runs_try in Hr as [(tr3 & tr4 & us & -> & Hr & [-> <-])|(e & Hr & ->)]; rewrite ?app_nil_r; eauto. }
    destruct Hres as (res' & Hr' & ->). destruct (IH (us0 ++ [u]) tr2 res' Hr') as (g & Hg & Hfin & Hm).
    exists g. split_and!; [|done|].
    + eapply gruns_trans; [exact Hp|]. unfold oks in *. rewrite map_app, <- app_assoc in Hg. exact Hg.
    + destruct (first g), res'; try done. by rewrite <- app_assoc in Hm.
  - eexists. split_and!; [rewrite <- (app_nil_r tr); eapply gruns_trans; [exact Hp|]| |].
    + rewrite cons_middle, app_assoc. apply gruns_stop.
    + cbn [procs]. rewrite <- app_assoc, finished_oks. cbn. clear. by induction ps.
    + done.
Qed.

(** Running the functions one after the other is one way the group can go, the
    others being stopped before they ask anything when one fails. *)
Lemma in_turn_waits ps tr res : runs (in_turn ps) tr res → waits ps tr res.
Proof. exact (in_turn_group ps [] tr res). Qed.

End group.
