(* ===== verification/Kube.v ===== *)
(** * The Kubernetes API as the program sees it

    The objects, with the fields the source reads, and the requests it makes.
    Clients, transport and the API server are not part of the program: a
    request is answered by the environment with any reply of its type.  What
    client libraries compute from an object (its controller reference, the
    text and value of a quantity) is a field of the object. *)

From S2P Require Import Prelude GoStrings GoTime Value.
From S2P Require Export Effects.
Local Open Scope Z_scope.

(** ** Errors *)

(** An error answered by the API server, with the verdicts of package
    apimachinery's [errors] on it and its Status message. *)
Record api_status := mkStatus {
  st_notFound : bool;
  st_forbidden : bool;
  st_alreadyExists : bool;
  st_invalid : bool;
  st_message : string;
}.

Inductive error :=
| ErrText (text : string)                       (* errors.New, and fmt.Errorf without %w *)
| ErrWrap (before : string) (e : error) (after : string)   (* fmt.Errorf with %w *)
| ErrJoin (l : list error)                      (* errors.Join of a non-empty list *)
| ErrAPI (st : api_status).

(** [err.Error()] *)
Fixpoint error_text (e : error) : string :=
  match e with
  | ErrText s => s
  | ErrWrap b e a => b +:+ error_text e +:+ a
  | ErrJoin l => Join (map error_text l) (String (z_byte 10) "")
  | ErrAPI st => st_message st
  end.

(** errors.As for an APIStatus: the first one down the chain, depth first. *)
Fixpoint as_status (e : error) : option api_status :=
  match e with
  | ErrText _ => None
  | ErrWrap _ e _ => as_status e
  | ErrJoin l => (fix go l := match l with
                  | [] => None
                  | x :: l' => match as_status x with Some st => Some st | None => go l' end
                  end) l
  | ErrAPI st => Some st
  end.

Definition verdict (f : api_status → bool) (e : error) : bool :=
  match as_status e with Some st => f st | None => false end.
Definition IsNotFound : error → bool := verdict st_notFound.
Definition IsForbidden : error → bool := verdict st_forbidden.
Definition IsAlreadyExists : error → bool := verdict st_alreadyExists.
Definition IsInvalid : error → bool := verdict st_invalid.

(** ** Objects *)

(** [map\[string\]string]; a nil map is the empty list. *)
Abbreviation labels := (list (string * string)).
Definition lget (m : labels) (k : string) : string := default "" (mget k m).

Record OwnerReference := mkOwner { or_apiVersion : string; or_kind : string; or_name : string; or_uid : string }.

Record ObjectMeta := mkMeta {
  Name : string;
  Namespace : string;
  Labels : labels;
  Annotations : labels;
  UID : string;
  CreationTimestamp : Z;
  DeletionTimestamp : option Z;
  ControllerOf : option OwnerReference;   (* metav1.GetControllerOfNoCopy *)
}.

(** resource.Quantity: its String, Value and MilliValue. *)
Record Quantity := mkQuantity { q_text : string; q_value : Z; q_milli : Z }.
Abbreviation ResourceList := (list (string * Quantity)).

Record Condition := mkCondition { c_type : string; c_status : string; c_reason : string; c_message : string }.

Record ContainerState := mkContainerState {
  Running : option Z;                       (* StartedAt *)
  Waiting : option (string * string);       (* Reason, Message *)
  Terminated : option (string * Z);         (* Reason, ExitCode *)
}.

Record ContainerStatus := mkContainerStatus {
  cs_name : string; cs_ready : bool; cs_restarts : Z;
  cs_state : ContainerState; cs_last : ContainerState;
}.

Record Container := mkContainer {
  ct_name : string; ct_image : string; ct_requests : ResourceList; ct_limits : ResourceList;
}.

Record Pod := mkPod {
  pod_meta : ObjectMeta;
  pod_nodeName : string;
  pod_containers : list Container;
  pod_phase : string;
  pod_reason : string;
  pod_ip : string;
  pod_qos : string;
  pod_conditions : list Condition;
  pod_statuses : list ContainerStatus;
}.

Record Event := mkEvent {
  ev_meta : ObjectMeta;
  ev_type : string; ev_reason : string; ev_message : string; ev_count : Z;
  ev_kind : string; ev_name : string;        (* InvolvedObject *)
  ev_last : Z; ev_time : Z;                  (* LastTimestamp, EventTime *)
}.

(** metav1.LabelSelector; an expression is key, operator, values. *)
Record LabelSelector := mkSelector {
  matchLabels : labels;
  matchExpressions : list (string * string * list string);
}.

(** corev1.PodTemplateSpec: its labels and its containers' images. *)
Record PodTemplate := mkTemplate { t_labels : labels; t_images : list string }.

Record Deployment := mkDeployment {
  d_meta : ObjectMeta; d_replicas : option Z; d_selector : option LabelSelector; d_template : PodTemplate;
  d_ready : Z; d_updated : Z; d_available : Z; d_unavailable : Z; d_conditions : list Condition;
}.

Record StatefulSet := mkStatefulSet {
  s_meta : ObjectMeta; s_replicas : option Z; s_selector : option LabelSelector; s_template : PodTemplate;
  s_ready : Z; s_updated : Z; s_current : Z; s_conditions : list Condition;
}.

Record DaemonSet := mkDaemonSet {
  ds_meta : ObjectMeta; ds_selector : option LabelSelector;
  ds_desired : Z; ds_ready : Z; ds_available : Z; ds_misscheduled : Z; ds_conditions : list Condition;
}.

(** intstr.IntOrString *)
Inductive IntOrString := IntVal (z : Z) | StrVal (s : string).

Record PodDisruptionBudget := mkPDB {
  pdb_meta : ObjectMeta; pdb_minAvailable : option IntOrString; pdb_maxUnavailable : option IntOrString;
  pdb_policy : option string;              (* UnhealthyPodEvictionPolicy *)
  pdb_selector : option LabelSelector;
  pdb_expected : Z; pdb_healthy : Z; pdb_desired : Z; pdb_allowed : Z;
}.

(** [p_target] is TargetPort.String(). *)
Record ServicePort := mkPort { p_port : Z; p_target : string; p_protocol : string }.

Record Service := mkService {
  svc_meta : ObjectMeta; svc_type : string; svc_clusterIP : string;
  svc_ports : list ServicePort; svc_selector : labels;
}.

Record Endpoint := mkEndpoint { ep_addresses : list string; ep_ready : option bool; ep_target : option (string * string) }.
Record EndpointSlice := mkSlice { sl_endpoints : list Endpoint }.

Record Claim := mkClaim {
  pvc_meta : ObjectMeta; pvc_phase : string; pvc_capacity : ResourceList;
  pvc_class : option string; pvc_volume : string;
}.

Record ResourceQuota := mkQuota { rq_name : string; rq_hard : ResourceList; rq_used : ResourceList }.

Record LimitItem := mkLimit { li_type : string; li_default : ResourceList; li_request : ResourceList; li_max : ResourceList }.
Record LimitRange := mkLimitRange { lr_name : string; lr_limits : list LimitItem }.

Record Node := mkNode {
  n_meta : ObjectMeta; n_conditions : list Condition; n_taints : list (string * string * string);
  n_kubelet : string; n_osImage : string; n_kernel : string; n_runtime : string;
  n_capacity : ResourceList; n_allocatable : ResourceList;
}.

Record Secret := mkSecret { sec_name : string; sec_data : list (string * string) }.

(** ** The Job a debug pod is *)

Record JobContainer := mkJobContainer {
  jc_name : string; jc_image : string; jc_pullPolicy : string; jc_command : list string;
  jc_requests : ResourceList; jc_limits : ResourceList;
  jc_allowPrivilegeEscalation : option bool; jc_dropCapabilities : list string;
}.

Record JobPod := mkJobPod {
  jp_restartPolicy : string;
  jp_automountServiceAccountToken : option bool;
  jp_enableServiceLinks : option bool;
  jp_terminationGracePeriodSeconds : option Z;
  jp_priorityClassName : string;
  jp_runAsNonRoot : option bool;
  jp_seccomp : string;
  jp_containers : list JobContainer;
}.

Record JobSpec := mkJob {
  j_generateName : string; j_labels : labels; j_annotations : labels;
  j_activeDeadlineSeconds : option Z; j_ttlSecondsAfterFinished : option Z; j_backoffLimit : option Z;
  j_podLabels : labels; j_podAnnotations : labels; j_pod : JobPod;
}.

(** ** Requests *)

(** Whom a request acts as: the server's own account, or an impersonated user. *)
Inductive identity := Server | As (user : string) (groups : list string).

Record ListOptions := mkOpts { LabelSel : string; FieldSel : string; Limit : Z; Continue : string }.
Definition no_opts : ListOptions := mkOpts "" "" 0 "".

Record GVR := mkGVR { Group : string; Version : string; Resource : string }.

Inductive kind :=
| KPods | KEvents | KDeployments | KStatefulSets | KDaemonSets | KReplicaSets | KNamespaces | KNodes
| KServices | KEndpointSlices | KClaims | KQuotas | KLimitRanges | KSecrets | KPDBs.

Definition object (k : kind) : Type :=
  match k with
  | KPods => Pod | KEvents => Event | KDeployments => Deployment | KStatefulSets => StatefulSet
  | KDaemonSets => DaemonSet | KReplicaSets | KNamespaces => ObjectMeta | KNodes => Node
  | KServices => Service | KEndpointSlices => EndpointSlice | KClaims => Claim
  | KQuotas => ResourceQuota | KLimitRanges => LimitRange | KSecrets => Secret
  | KPDBs => PodDisruptionBudget
  end.

Record PodLogOptions := mkLogOptions { log_container : string; log_tail : Z; log_previous : bool }.

Inductive request :=
| Get (who : identity) (k : kind) (ns name : string)
| List (who : identity) (k : kind) (ns : string) (opts : ListOptions)
| DynGet (who : identity) (r : GVR) (ns name : string)
| DynList (who : identity) (r : GVR) (ns : string) (opts : ListOptions)
| GetLogs (who : identity) (ns name : string) (opts : PodLogOptions)
| GetRaw (who : identity) (path : string)
| CreateJob (who : identity) (ns : string) (job : JobSpec)
| NewClient (who : identity)               (* kubernetes.NewForConfig *)
| ExecPod (who : identity) (ns pod ctr : string) (cmd : list string) (limit : Z)
| Now                                      (* time.Now() *)
| Tick.                                    (* a ticker, or the context's end *)

(** A command's outcome: the error of building the executor, or else the
    chunks of output the stream wrote and the error it ended with; and whether
    the context had ended by then. *)
Record exec_reply := mkExec {
  ex_build : option error;
  ex_chunks : list string;
  ex_err : option error;
  ex_expired : bool;
}.

Record CreatedJob := mkCreated { cj_name : string; cj_created : Z }.

Definition reply (q : request) : Type :=
  match q with
  | Get _ k _ _ => result error (object k)
  | List _ k _ _ => result error (list (object k) * string)
  | DynGet _ _ _ _ => result error obj
  | DynList _ _ _ _ => result error (list obj * string)
  | GetLogs _ _ _ _ | GetRaw _ _ => result error string
  | CreateJob _ _ _ => result error CreatedJob
  | NewClient _ => option error
  | ExecPod _ _ _ _ _ _ => exec_reply
  | Now => Z
  | Tick => bool                           (* true: the context is done *)
  end.

Abbreviation io := (prog request reply).

(** The requests that only read. *)
Definition reads (q : request) : bool :=
  match q with
  | Get _ _ _ _ | List _ _ _ _ | DynGet _ _ _ _ | DynList _ _ _ _ | GetLogs _ _ _ _ | GetRaw _ _
  | Now | Tick => true
  | CreateJob _ _ _ | NewClient _ | ExecPod _ _ _ _ _ _ => false
  end.

Definition who (q : request) : option identity :=
  match q with
  | Get w _ _ _ | List w _ _ _ | DynGet w _ _ _ | DynList w _ _ _ | GetLogs w _ _ _ | GetRaw w _
  | CreateJob w _ _ | NewClient w | ExecPod w _ _ _ _ _ => Some w
  | Now | Tick => None
  end.

Definition do_get (w : identity) (k : kind) (ns name : string) : io (result error (object k)) :=
  call (Get w k ns name).
Definition do_list (w : identity) (k : kind) (ns : string) (o : ListOptions)
    : io (result error (list (object k) * string)) := call (List w k ns o).
Definition do_dynget (w : identity) (r : GVR) (ns name : string) : io (result error obj) :=
  call (DynGet w r ns name).
Definition do_dynlist (w : identity) (r : GVR) (ns : string) (o : ListOptions)
    : io (result error (list obj * string)) := call (DynList w r ns o).
Definition now : io Z := call Now.

(** fmt.Errorf("prefix: %w", err) *)
Definition wrap_err (prefix : string) (e : error) : error := ErrWrap (prefix +:+ ": ") e "".

(** [if err != nil { return nil, fmt.Errorf("prefix: %w", err) }] *)
Definition wrap_result {A} (prefix : string) (r : result error A) : result error A :=
  match r with Ok a => Ok a | Err e => Err (wrap_err prefix e) end.

Lemma as_status_wrap b e a : as_status (ErrWrap b e a) = as_status e.
Proof. done. Qed.

#[export] Hint Rewrite as_status_wrap : mcp_str.

(** schema.GroupVersionResource.String, of package apimachinery. *)
Class GVRText := { gvr_String : GVR → string }.

Lemma runs_do_get w k ns name tr r :
  runs (do_get w k ns name) tr r ↔ tr = [Effects.Event (Get w k ns name) (r : reply (Get w k ns name))].
Proof. exact (runs_call (Get w k ns name) r tr). Qed.

Lemma runs_do_list w k ns o tr r :
  runs (do_list w k ns o) tr r ↔ tr = [Effects.Event (List w k ns o) (r : reply (List w k ns o))].
Proof. exact (runs_call (List w k ns o) r tr). Qed.

Lemma runs_do_dynlist w g ns o tr r :
  runs (do_dynlist w g ns o) tr r ↔ tr = [Effects.Event (DynList w g ns o) (r : reply (DynList w g ns o))].
Proof. exact (runs_call (DynList w g ns o) r tr). Qed.

(** ** Functions of the client libraries on data *)

(** Package unstructured.  [None] is "not found, or not of that type": the
    source never tells the two apart. *)
Class Unstructured := {
  NestedFieldNoCopy : obj → list string → option value;
  NestedMap : obj → list string → option obj;
  NestedSlice : obj → list string → option (list value);
  NestedString : obj → list string → option string;
  RemoveNestedField : obj → list string → obj;
  GetName : obj → string;
  GetNamespace : obj → string;
  GetKind : obj → string;
  GetUID : obj → string;
  GetAnnotations : obj → labels;
  GetCreationTimestamp : obj → Z;
}.

(** labels.Selector *)
Record Selector := mkSel { Matches : labels → bool; sel_String : string }.

(** metav1.LabelSelectorAsSelector, which fails on an invalid selector, and
    the conversion of a selector written in a custom resource. *)
Class Selectors := {
  LabelSelectorAsSelector : option LabelSelector → option Selector;
  FromUnstructured : obj → option LabelSelector;
}.

(** resource.ParseQuantity and MustParse. *)
Class Quantities := {
  ParseQuantity : string → result error Quantity;
  MustParse : string → Quantity;
  MustParse_spec s q : ParseQuantity s = Ok q → MustParse s = q;
}.
