(* ===== verification/NetURL.v ===== *)
(** * URLs (package net/url)

    What the redaction of internal/mcp/redact.go uses of net/url: [Parse] with
    its escapes, authority, port and user rules, [UserPassword], the printing
    of a [URL] and [QueryEscape], as in the release of Go that go.mod names. *)

From S2P Require Import Prelude GoStrings.
From Stdlib Require Import Ascii.
Local Open Scope Z_scope.

(** ** Bytes *)

Definition one_of (a : ascii) (set : string) : bool := negb (lacks a set).

Definition alphanumeric (a : ascii) : bool :=
  between 97 122 (byte_z a) || between 65 90 (byte_z a) || between 48 57 (byte_z a).

Definition lower_byte (a : ascii) : ascii := z_byte (ascii_lower (byte_z a)).

Fixpoint all_bytes (f : ascii → bool) (s : string) : bool :=
  match s with EmptyString => true | String a s' => f a && all_bytes f s' end.

Fixpoint map_bytes (f : ascii → string) (s : string) : string :=
  match s with EmptyString => "" | String a s' => f a +:+ map_bytes f s' end.

(** What stands before and after the last occurrence of a byte. *)
Fixpoint cut_last (c : ascii) (s : string) : option (string * string) :=
  match s with
  | EmptyString => None
  | String a s' =>
      match cut_last c s' with
      | Some (b, r) => Some (String a b, r)
      | None => if decide (a = c) then Some ("", s') else None
      end
  end.

(** ** Escapes *)

Inductive encoding := encodePath | encodeHost | encodeZone | encodeUserPassword | encodeQueryComponent | encodeFragment.

Definition is_host (mode : encoding) : bool := match mode with encodeHost | encodeZone => true | _ => false end.

Definition shouldEscape (a : ascii) (mode : encoding) : bool :=
  if alphanumeric a then false
  else if is_host mode && (one_of a "!$&'()*+,;=:[]<>" || (byte_z a =? 34)) then false
  else if one_of a "-_.~" then false
  else
    let other := match mode with encodeFragment => negb (one_of a "!()*") | _ => true end in
    if one_of a "$&+,/:;=?@" then
      match mode with
      | encodePath => bool_decide (a = "?"%char)
      | encodeUserPassword => one_of a "@/?:"
      | encodeQueryComponent => true
      | encodeFragment => false
      | _ => other
      end
    else other.

Definition ishex (a : ascii) : bool := between 48 57 (byte_z a) || between 97 102 (byte_z a) || between 65 70 (byte_z a).

Definition unhex (a : ascii) : Z :=
  if between 48 57 (byte_z a) then byte_z a - 48
  else if between 97 102 (byte_z a) then byte_z a - 87 else byte_z a - 55.

(** An escape that the host, or the zone of an address, may hold. *)
Definition escape_allowed (mode : encoding) (h l : ascii) : bool :=
  let percent := bool_decide (h = "2"%char) && bool_decide (l = "5"%char) in
  let v := unhex h * 16 + unhex l in
  match mode with
  | encodeHost => (8 <=? unhex h) || percent
  | encodeZone => percent || (v =? 32) || negb (shouldEscape (z_byte v) encodeHost)
  | _ => true
  end.

Fixpoint unescape (mode : encoding) (s : string) : option string :=
  match s with
  | EmptyString => Some ""
  | String a s1 =>
      if decide (a = "%"%char) then
        match s1 with
        | String h (String l s2) =>
            if ishex h && ishex l && escape_allowed mode h l
            then String (z_byte (unhex h * 16 + unhex l)) <$> unescape mode s2 else None
        | _ => None
        end
      else if is_host mode && (byte_z a <? 128) && shouldEscape a mode then None
      else
        let out := if decide (a = "+"%char) then match mode with encodeQueryComponent => " "%char | _ => a end else a in
        String out <$> unescape mode s1
  end.

Definition upper_hex (z : Z) : ascii := z_byte (if z <? 10 then 48 + z else 55 + z).

Definition escape_byte (mode : encoding) (a : ascii) : string :=
  if shouldEscape a mode then
    match mode with
    | encodeQueryComponent => if decide (a = " "%char) then "+" else String "%" (String (upper_hex (byte_z a / 16)) (String (upper_hex (byte_z a mod 16)) ""))
    | _ => String "%" (String (upper_hex (byte_z a / 16)) (String (upper_hex (byte_z a mod 16)) ""))
    end
  else String a "".

Definition escape (mode : encoding) (s : string) : string := map_bytes (escape_byte mode) s.

Definition QueryEscape (s : string) : string := escape encodeQueryComponent s.

Definition validEncoded (mode : encoding) (s : string) : bool :=
  all_bytes (λ a, one_of a "!$&'()*+,;=:@[]%" || negb (shouldEscape a mode)) s.

(** ** URLs *)

(** The user of a URL is its name and, when it is set, the password. *)
Record URL := mkURL {
  Scheme : string; Opaque : string; User : option (string * option string); Host : string;
  Path : string; RawPath : string; OmitHost : bool; ForceQuery : bool; RawQuery : string;
  Fragment : string; RawFragment : string
}.

(** A scheme before a colon, and the rest. *)
Fixpoint scheme_from (first : bool) (s : string) : option (option string * string) :=
  match s with
  | EmptyString => Some (None, "")
  | String a s' =>
      if between 97 122 (byte_z a) || between 65 90 (byte_z a) || (negb first && (between 48 57 (byte_z a) || one_of a "+-.")) then
        match scheme_from false s' with
        | Some (Some b, r) => Some (Some (String a b), r)
        | r => r
        end
      else if decide (a = ":"%char) then if first then None else Some (Some "", s')
      else Some (None, "")
  end.

(** getScheme: without a scheme the rest is everything. *)
Definition getScheme (s : string) : option (string * string) :=
  match scheme_from true s with
  | None => None
  | Some (Some b, r) => Some (b, r)
  | Some (None, _) => Some ("", s)
  end.

Definition is_decimal (a : ascii) : bool := between 48 57 (byte_z a).

Definition validOptionalPort (port : string) : bool :=
  match port with EmptyString => true | String a ds => bool_decide (a = ":"%char) && all_bytes is_decimal ds end.

Definition validUserinfo (s : string) : bool := all_bytes (λ a, alphanumeric a || one_of a "-._:~!$&'()*+,;=%@") s.

Definition parseHost (host : string) : option string :=
  if HasPrefix host "[" then
    match cut_last "]" host with
    | None => None
    | Some (inside, port) =>
        if negb (validOptionalPort port) then None
        else
          match Cut inside "%25" with
          | (h1, zone, true) =>
              match unescape encodeHost h1, unescape encodeZone ("%25" +:+ zone), unescape encodeHost ("]" +:+ port) with
              | Some h1, Some h2, Some h3 => Some (h1 +:+ h2 +:+ h3)
              | _, _, _ => None
              end
          | _ => unescape encodeHost host
          end
    end
  else
    match cut_last ":" host with
    | Some (_, port) => if validOptionalPort (":" +:+ port) then unescape encodeHost host else None
    | None => unescape encodeHost host
    end.

Definition parseUserinfo (s : string) : option (string * option string) :=
  if negb (validUserinfo s) then None
  else if negb (Contains s ":") then
    match unescape encodeUserPassword s with Some name => Some (name, None) | None => None end
  else
    let '(name, password, _) := Cut s ":" in
    match unescape encodeUserPassword name, unescape encodeUserPassword password with
    | Some name, Some password => Some (name, Some password)
    | _, _ => None
    end.

Definition parseAuthority (authority : string) : option (option (string * option string) * string) :=
  match cut_last "@" authority with
  | None => match parseHost authority with Some host => Some (None, host) | None => None end
  | Some (info, host) =>
      match parseHost host, parseUserinfo info with
      | Some host, Some user => Some (Some user, host)
      | _, _ => None
      end
  end.

(** [setPath] and [setFragment]: the text without escapes, and the text as it
    was when escaping again would not give it back. *)
Definition set_escaped (mode : encoding) (s : string) : option (string * string) :=
  match unescape mode s with
  | Some plain => Some (plain, if bool_decide (s = escape mode plain) then "" else s)
  | None => None
  end.

Definition control (a : ascii) : bool := (byte_z a <? 32) || (byte_z a =? 127).

(** A query after the first question mark; a lone one at the end is kept. *)
Definition cut_query (rest : string) : string * string * bool :=
  match Cut rest "?" with
  | (before, EmptyString, true) => (before, "", true)
  | (before, after, _) => (before, after, false)
  end.

Definition cut_authority (s : string) : string * string :=
  let '(authority, rest, found) := Cut s "/" in (authority, if found : bool then "/" +:+ rest else "").

Definition is_empty (s : string) : bool := bool_decide (s = "").

(** The part of [parse] after the query is cut off. *)
Definition parse_rest (scheme query : string) (force : bool) (rest : string) : option URL :=
  if negb (HasPrefix rest "/") && negb (is_empty scheme) then Some (mkURL scheme rest None "" "" "" false force query "" "")
  else if negb (HasPrefix rest "/") && Contains (Cut rest "/").1.1 ":" then None
  else
    match (if (negb (is_empty scheme) || negb (HasPrefix rest "///")) && HasPrefix rest "//"
           then let '(authority, path) := cut_authority (str_drop 2 rest) in
                match parseAuthority authority with Some (user, host) => Some (user, host, path, false) | None => None end
           else Some (None, "", rest, negb (is_empty scheme) && HasPrefix rest "/")) with
    | None => None
    | Some (user, host, path, omit) =>
        match set_escaped encodePath path with
        | Some (path, raw) => Some (mkURL scheme "" user host path raw omit force query "" "")
        | None => None
        end
    end.

Definition parse_url (s : string) : option URL :=
  if negb (all_bytes (λ a, negb (control a)) s) then None
  else if bool_decide (s = "*") then Some (mkURL "" "" None "" "*" "" false false "" "" "")
  else
    match getScheme s with
    | None => None
    | Some (scheme, rest) =>
        let '(rest, query, force) := cut_query rest in
        parse_rest (map_bytes (λ a, String (lower_byte a) "") scheme) query force rest
    end.

(** url.Parse *)
Definition Parse (s : string) : option URL :=
  let '(u, frag, _) := Cut s "#" in
  match parse_url u with
  | None => None
  | Some url =>
      if bool_decide (frag = "") then Some url
      else match set_escaped encodeFragment frag with
           | Some (fragment, raw) =>
               Some (mkURL (Scheme url) (Opaque url) (User url) (Host url) (Path url) (RawPath url) (OmitHost url)
                       (ForceQuery url) (RawQuery url) fragment raw)
           | None => None
           end
  end.

(** [u.User = url.UserPassword(name, password)] *)
Definition set_UserPassword (name password : string) (u : URL) : URL :=
  mkURL (Scheme u) (Opaque u) (Some (name, Some password)) (Host u) (Path u) (RawPath u) (OmitHost u)
    (ForceQuery u) (RawQuery u) (Fragment u) (RawFragment u).

(** Whether the text a part was parsed from still stands for it. *)
Definition kept_as_read (mode : encoding) (plain raw : string) : bool :=
  negb (bool_decide (raw = "")) && validEncoded mode raw && bool_decide (unescape mode raw = Some plain).

Definition EscapedPath (u : URL) : string :=
  if kept_as_read encodePath (Path u) (RawPath u) then RawPath u
  else if bool_decide (Path u = "*") then "*"
  else escape encodePath (Path u).

Definition EscapedFragment (u : URL) : string :=
  if kept_as_read encodeFragment (Fragment u) (RawFragment u) then RawFragment u
  else escape encodeFragment (Fragment u).

Definition Userinfo_String (user : string * option string) : string :=
  escape encodeUserPassword user.1 +:+ match user.2 with Some p => ":" +:+ escape encodeUserPassword p | None => "" end.

Definition authority_String (u : URL) : string :=
  if is_empty (Scheme u) && is_empty (Host u) && negb (bool_decide (is_Some (User u))) then ""
  else if OmitHost u && is_empty (Host u) && negb (bool_decide (is_Some (User u))) then ""
  else
    (if is_empty (Host u) && is_empty (Path u) && negb (bool_decide (is_Some (User u))) then "" else "//") +:+
    match User u with Some user => Userinfo_String user +:+ "@" | None => "" end +:+
    escape encodeHost (Host u).

(** URL.String *)
Definition URL_String (u : URL) : string :=
  let scheme := if is_empty (Scheme u) then "" else Scheme u +:+ ":" in
  let body :=
    if negb (is_empty (Opaque u)) then Opaque u
    else
      let path := EscapedPath u in
      let before := authority_String u in
      let slash := if negb (is_empty path) && negb (HasPrefix path "/") && negb (is_empty (Host u)) then "/" else "" in
      let dot := if is_empty (scheme +:+ before +:+ slash) && Contains (Cut path "/").1.1 ":" then "./" else "" in
      before +:+ slash +:+ dot +:+ path in
  scheme +:+ body +:+
  (if ForceQuery u || negb (is_empty (RawQuery u)) then "?" +:+ RawQuery u else "") +:+
  (if is_empty (Fragment u) then "" else "#" +:+ EscapedFragment u).

Example URL_examples : map (λ s, URL_String <$> Parse s)
    ["HTTP://Example.com:80/a b?q=1#f"; "https://u:p%40ss@[fe80::1%25en0]:8080/x%2Fy?"; "mailto:a@b"; "/p?x"; "a:b/c"; "//h"; "*"; "";
     "https://u:p@h:port/"; "http://a b/"; "x/y:z"; "1:x"; ":x"; "http://h/%zz"; "https://u:p^@h/"; "http://h/a?b#c d"; "s:///p"]
  = [Some "http://Example.com:80/a%20b?q=1#f"; Some "https://u:p%40ss@[fe80::1%25en0]:8080/x%2Fy?"; Some "mailto:a@b"; Some "/p?x";
     Some "a:b/c"; Some "//h"; Some "*"; Some "";
     None; None; Some "x/y:z"; None; None; None; None; Some "http://h/a?b#c%20d"; Some "s:///p"].
Proof. by vm_compute. Qed.

(** ** Lemmas on bytes *)

Definition all_ascii : list ascii := map ascii_of_nat (seq 0 256).

Lemma ascii_check (f : ascii → bool) : forallb f all_ascii = true → ∀ a, f a = true.
Proof.
  intros Hf a. rewrite forallb_forall in Hf. apply Hf. unfold all_ascii.
  rewrite <- (ascii_nat_embedding a). apply in_map, in_seq. pose proof (nat_ascii_bounded a). lia.
Qed.

(** A fact about every byte, by looking at all of them. *)
Ltac every_byte a :=
  revert a;
  match goal with |- ∀ a, @?P a = true → @?Q a = true => let b := fresh in let Hb := fresh in let Hf := fresh in
    enough (∀ a, implb (P a) (Q a) = true) as Hf;
    [intros b Hb; specialize (Hf b); cbv beta in Hf; rewrite Hb in Hf; exact Hf|apply ascii_check; by vm_compute] end.

Lemma all_bytes_app f s t : all_bytes f (s +:+ t) = all_bytes f s && all_bytes f t.
Proof. induction s as [|a s IH]; cbn; [done|]. by rewrite IH, andb_assoc. Qed.

Lemma all_bytes_impl (f g : ascii → bool) s : (∀ a, f a = true → g a = true) → all_bytes f s = true → all_bytes g s = true.
Proof. intros Hfg. induction s as [|a s IH]; cbn; [done|]. intros [Ha Hs]%andb_true_iff. by rewrite (Hfg a Ha), IH. Qed.

Lemma bytes_lack f c s : f c = false → all_bytes f s = true → lacks c s = true.
Proof.
  intros Hc. induction s as [|a s IH]; cbn; [done|]. intros [Ha Hs]%andb_true_iff. rewrite IH by done.
  case_bool_decide; [congruence|done].
Qed.

Lemma Cut_lacks c s : lacks c s = true → Cut s (String c "") = (s, "", false).
Proof.
  induction s as [|a s IH]; cbn [lacks]; [done|]. intros [Ha Hs]%andb_true_iff. apply negb_true_iff in Ha.
  cbn [Cut]. by rewrite HasPrefix_byte, Ha, IH.
Qed.

(** The first byte of the separator marks its first occurrence. *)
Lemma Cut_first c sep b r : lacks c b = true → Cut (b +:+ String c sep +:+ r) (String c sep) = (b, r, true).
Proof.
  induction b as [|a b IH]; cbn [lacks].
  - intros _. cbn [String.append]. unfold Cut. change (String c (sep +:+ r)) with (String c sep +:+ r).
    rewrite HasPrefix_app, str_drop_app. done.
  - intros [Ha Hb]%andb_true_iff. apply negb_true_iff, bool_decide_eq_false in Ha. cbn [String.append Cut].
    assert (∀ x, HasPrefix (String a x) (String c sep) = false) as ->.
    { intros x. apply not_true_iff_false. intros [t Ht]%HasPrefix_spec. by injection Ht. }
    cbn [String.append] in IH. by rewrite IH.
Qed.

Lemma cut_last_none c s : lacks c s = true → cut_last c s = None.
Proof.
  induction s as [|a s IH]; cbn; [done|]. intros [Ha Hs]%andb_true_iff. rewrite IH by done.
  apply negb_true_iff, bool_decide_eq_false in Ha. by rewrite decide_False.
Qed.

Lemma cut_last_app c b r : lacks c r = true → cut_last c (b +:+ String c r) = Some (b, r).
Proof.
  intros Hr. induction b as [|a b IH]; cbn; [|by rewrite IH].
  by rewrite cut_last_none, decide_True.
Qed.

(** ** Text that needs no escapes *)

Definition verbatim (mode : encoding) : string → bool := all_bytes (λ a, negb (shouldEscape a mode)).

Lemma escape_verbatim mode s : verbatim mode s = true → escape mode s = s.
Proof.
  induction s as [|a s IH]; cbn; [done|]. intros [Ha Hs]%andb_true_iff. apply negb_true_iff in Ha.
  unfold escape in IH. by rewrite IH, (ltac:(unfold escape_byte; by rewrite Ha) : escape_byte mode a = String a "").
Qed.

Lemma unescape_verbatim mode s : mode ≠ encodeQueryComponent → verbatim mode s = true → unescape mode s = Some s.
Proof.
  intros Hm. induction s as [|a s IH]; cbn; [done|]. intros [Ha Hs]%andb_true_iff. apply negb_true_iff in Ha.
  rewrite decide_False by (intros ->; by destruct mode). rewrite Ha, andb_false_r, IH by done.
  cbn. case_decide; [|done]. by destruct mode.
Qed.

Definition graphic (a : ascii) : bool := between 33 126 (byte_z a).

Lemma verbatim_graphic mode s : verbatim mode s = true → all_bytes graphic s = true.
Proof. apply all_bytes_impl. intros a. destruct mode; every_byte a. Qed.

Lemma graphic_not_control s : all_bytes graphic s = true → all_bytes (λ a, negb (control a)) s = true.
Proof. apply all_bytes_impl. intros a. every_byte a. Qed.

Lemma drop_spaces_none l : Forall (λ p, is_space p.1 = false) l → drop_spaces l = l.
Proof. destruct 1 as [|[r raw] l Hr _]; [done|]. cbn in *. by rewrite Hr. Qed.

Lemma decode_graphic s : all_bytes graphic s = true → Forall (λ p, is_space p.1 = false) (decode s).
Proof.
  induction s as [|a s IH]; [constructor|]. cbn [all_bytes]. intros [Ha Hs]%andb_true_iff.
  rewrite decode_byte by (unfold graphic, between in Ha; lia). constructor; [|by apply IH]. cbn [fst].
  apply negb_true_iff. revert Ha. every_byte a.
Qed.

Lemma TrimSpace_graphic s : all_bytes graphic s = true → TrimSpace s = s.
Proof.
  intros Hs%decode_graphic. unfold TrimSpace.
  rewrite (drop_spaces_none (decode s)) by done.
  rewrite drop_spaces_none by (by apply Forall_rev). by rewrite rev_involutive, decode_cat.
Qed.

(** ** A URL with a user and a password *)

Definition lowercase (a : ascii) : bool := between 97 122 (byte_z a).

Definition scheme_ok (s : string) : bool :=
  match s with
  | String a s' => lowercase a && all_bytes (λ a, lowercase a || is_decimal a || one_of a "+-.") s'
  | EmptyString => false
  end.

Definition url_text (scheme info host path query : string) : string :=
  scheme +:+ "://" +:+ info +:+ "@" +:+ host +:+ path +:+ (if is_empty query then "" else "?" +:+ query).

(** Every part but the password stands for itself; the password is any text a
    URL can hold there. *)
Record plain_url (scheme user pass host path query : string) : Prop := {
  pu_scheme : scheme_ok scheme = true;
  pu_user : verbatim encodeUserPassword user = true;
  pu_pass : validUserinfo pass = true;
  pu_escapes : is_Some (unescape encodeUserPassword pass);
  pu_host : verbatim encodeHost host = true;
  pu_port : parseHost host = Some host;
  pu_path : verbatim encodePath path = true;
  pu_slash : path = "" ∨ HasPrefix path "/" = true;
  pu_query : all_bytes (λ a, graphic a && negb (bool_decide (a = "#"%char))) query = true
}.

Lemma scheme_from_app s r : all_bytes (λ a, lowercase a || is_decimal a || one_of a "+-.") s = true →
  scheme_from false (s +:+ String ":" r) = Some (Some s, r).
Proof.
  induction s as [|a s IH]; cbn [all_bytes String.append]; [done|]. intros [Ha Hs]%andb_true_iff.
  cbn [scheme_from negb andb]. rewrite IH by done. unfold lowercase, is_decimal in Ha.
  by assert (between 97 122 (byte_z a) || between 65 90 (byte_z a) || (between 48 57 (byte_z a) || one_of a "+-.") = true) as -> by
    (rewrite !orb_true_iff in *; tauto).
Qed.

Lemma getScheme_app s r : scheme_ok s = true → getScheme (s +:+ String ":" r) = Some (s, r).
Proof.
  destruct s as [|a s]; [done|]. cbn [scheme_ok]. intros [Ha Hs]%andb_true_iff. unfold getScheme.
  cbn [String.append scheme_from]. unfold lowercase in Ha. rewrite Ha. cbn [orb].
  by rewrite scheme_from_app.
Qed.

Lemma scheme_lower s : scheme_ok s = true → map_bytes (λ a, String (lower_byte a) "") s = s.
Proof.
  assert (Hb : ∀ a, lowercase a || is_decimal a || one_of a "+-." = true → lower_byte a = a).
  { intros a Ha. apply (bool_decide_eq_true_1 _). revert Ha. every_byte a. }
  assert (Hall : ∀ s, all_bytes (λ a, lowercase a || is_decimal a || one_of a "+-.") s = true →
    map_bytes (λ a, String (lower_byte a) "") s = s).
  { intros s'. induction s' as [|a s' IH]; cbn; [done|]. intros [Ha Hs]%andb_true_iff. by rewrite Hb, IH. }
  destruct s as [|a s]; [done|]. cbn [scheme_ok map_bytes]. intros [Ha Hs]%andb_true_iff.
  by rewrite (Hall s Hs), (Hb a) by (by rewrite Ha).
Qed.

Lemma scheme_nonempty s r : scheme_ok s = true → is_empty s = false ∧ s +:+ String ":" r ≠ "*".
Proof. destruct s as [|a [|b s]]; done. Qed.

Lemma scheme_graphic s : scheme_ok s = true → all_bytes graphic s = true.
Proof.
  destruct s as [|a s]; [done|]. cbn [scheme_ok all_bytes]. intros [Ha Hs]%andb_true_iff.
  rewrite andb_true_iff. split; [revert Ha; every_byte a|].
  revert Hs. apply all_bytes_impl. intros b. every_byte b.
Qed.

Lemma userinfo_graphic s : validUserinfo s = true → all_bytes graphic s = true.
Proof. apply all_bytes_impl. intros a. every_byte a. Qed.

Lemma user_valid s : verbatim encodeUserPassword s = true → validUserinfo s = true.
Proof. apply all_bytes_impl. intros a. every_byte a. Qed.

(** A byte that text cannot hold is not in it. *)
Lemma verbatim_lacks mode c s : shouldEscape c mode = true → verbatim mode s = true → lacks c s = true.
Proof. intros Hc. apply (bytes_lack (λ a, negb (shouldEscape a mode))). by rewrite Hc. Qed.

Lemma userinfo_lacks c s : alphanumeric c || one_of c "-._:~!$&'()*+,;=%@" = false → validUserinfo s = true → lacks c s = true.
Proof. apply (bytes_lack (λ a, alphanumeric a || one_of a "-._:~!$&'()*+,;=%@")). Qed.

Lemma scheme_lacks c s : lowercase c || is_decimal c || one_of c "+-." = false → scheme_ok s = true → lacks c s = true.
Proof.
  intros Hc. destruct s as [|a s]; [done|]. cbn [scheme_ok lacks]. intros [Ha Hs]%andb_true_iff.
  rewrite (bytes_lack (λ a, lowercase a || is_decimal a || one_of a "+-.") _ _ Hc Hs). case_bool_decide as He; [|done]. subst. by rewrite Ha in Hc.
Qed.

Section parse_plain.
Context (scheme user pass host path query : string) (Hu : plain_url scheme user pass host path query).

Definition info : string := user +:+ ":" +:+ pass.

Lemma info_valid : validUserinfo info = true.
Proof.
  unfold info, validUserinfo. rewrite !all_bytes_app. pose proof (user_valid _ (pu_user _ _ _ _ _ _ Hu)) as H.
  pose proof (pu_pass _ _ _ _ _ _ Hu) as H'. unfold validUserinfo in *. by rewrite H, H'.
Qed.

Lemma parseUserinfo_plain : ∃ p, unescape encodeUserPassword pass = Some p ∧ parseUserinfo info = Some (user, Some p).
Proof.
  destruct (pu_escapes _ _ _ _ _ _ Hu) as [p Hp]. exists p. split; [done|]. unfold parseUserinfo. rewrite info_valid. cbn [negb].
  assert (Contains info ":" = true) as -> by (apply Contains_spec; by exists user, pass). cbn [negb].
  unfold info. change (":" +:+ pass) with (String ":" pass).
  rewrite (Cut_byte user ":" pass) by (eapply verbatim_lacks, pu_user; [|done]; done).
  rewrite (unescape_verbatim _ user) by (done || apply Hu). by rewrite Hp.
Qed.

Lemma host_lacks c : shouldEscape c encodeHost = true → lacks c host = true.
Proof. intros Hc. by apply (verbatim_lacks encodeHost), Hu. Qed.

Lemma parseAuthority_plain : ∃ p, parseAuthority (info +:+ String "@" host) = Some (Some (user, Some p), host).
Proof.
  destruct parseUserinfo_plain as (p & _ & Hp). exists p. unfold parseAuthority.
  rewrite cut_last_app by (by apply host_lacks). by rewrite (pu_port _ _ _ _ _ _ Hu), Hp.
Qed.

Lemma authority_lacks c : alphanumeric c || one_of c "-._:~!$&'()*+,;=%@" = false → shouldEscape c encodeHost = true →
  c ≠ "@"%char → lacks c (info +:+ String "@" host) = true.
Proof.
  intros H1 H2 H3. rewrite lacks_app, (userinfo_lacks _ _ H1 info_valid). cbn [lacks]. rewrite host_lacks by done.
  by rewrite bool_decide_false.
Qed.

Lemma cut_authority_plain : cut_authority ((info +:+ String "@" host) +:+ path) = (info +:+ String "@" host, path).
Proof.
  assert (Hl : lacks "/" (info +:+ String "@" host) = true) by (by apply authority_lacks). unfold cut_authority.
  destruct (pu_slash _ _ _ _ _ _ Hu) as [->|[t ->]%HasPrefix_spec].
  - rewrite sapp_nil_r. change "/"%string with (String "/" ""). by rewrite Cut_lacks.
  - change ("/" +:+ t) with (String "/" t). by rewrite (Cut_byte _ "/" t).
Qed.

Definition query_part : string := if is_empty query then "" else "?" +:+ query.

Lemma query_graphic : all_bytes graphic query = true.
Proof. eapply all_bytes_impl, pu_query, Hu. by intros a [Ha _]%andb_true_iff. Qed.

Lemma cut_query_plain rest : lacks "?" rest = true → cut_query (rest +:+ query_part) = (rest, query, false).
Proof.
  intros Hr. unfold cut_query, query_part, is_empty. case_bool_decide as Hq; [subst|].
  - rewrite sapp_nil_r. change "?"%string with (String "?" ""). by rewrite Cut_lacks.
  - change ("?" +:+ query) with (String "?" query). rewrite Cut_byte by done. by destruct query.
Qed.

Definition authority : string := info +:+ String "@" host.

Lemma authority_graphic : all_bytes graphic authority = true.
Proof.
  unfold authority. rewrite all_bytes_app. cbn [all_bytes].
  by rewrite (userinfo_graphic _ info_valid), (verbatim_graphic _ _ (pu_host _ _ _ _ _ _ Hu)).
Qed.

Lemma text_shape : url_text scheme info host path query = scheme +:+ String ":" ((("//" +:+ authority) +:+ path) +:+ query_part).
Proof. unfold url_text, authority, query_part. cbn [String.append]. rewrite !sapp_assoc. cbn [String.append]. done. Qed.

Lemma text_graphic : all_bytes graphic (url_text scheme info host path query) = true.
Proof.
  rewrite text_shape, !all_bytes_app. cbn [all_bytes]. rewrite !all_bytes_app, (scheme_graphic _ (pu_scheme _ _ _ _ _ _ Hu)).
  cbn [all_bytes]. rewrite authority_graphic, (verbatim_graphic _ _ (pu_path _ _ _ _ _ _ Hu)).
  unfold query_part. destruct (is_empty query); [done|]. rewrite all_bytes_app, query_graphic. done.
Qed.

Lemma text_lacks_hash : lacks "#" (url_text scheme info host path query) = true.
Proof.
  rewrite text_shape, lacks_app. cbn [lacks]. rewrite !lacks_app. rewrite (scheme_lacks "#") by (done || apply Hu).
  cbn [String.append lacks]. unfold authority. rewrite authority_lacks by done.
  rewrite (verbatim_lacks encodePath) by (done || apply Hu). unfold query_part.
  destruct (is_empty query); [done|]. cbn [String.append lacks].
  rewrite (bytes_lack (λ a, graphic a && negb (bool_decide (a = "#"%char)))) by (done || apply Hu). done.
Qed.

Lemma parse_rest_plain : ∃ p, parse_rest scheme query false (("//" +:+ authority) +:+ path) =
  Some (mkURL scheme "" (Some (user, Some p)) host path "" false false query "" "").
Proof.
  destruct parseAuthority_plain as [p Hp]. exists p.
  unfold parse_rest. rewrite (proj1 (scheme_nonempty scheme "" (pu_scheme _ _ _ _ _ _ Hu))), sapp_assoc.
  assert (HasPrefix ("//" +:+ authority +:+ path) "/" = true) as -> by (apply HasPrefix_spec; by eexists).
  rewrite HasPrefix_app. cbn [negb andb orb]. change 2%nat with (String.length "//"). rewrite str_drop_app.
  unfold authority. rewrite cut_authority_plain, Hp. unfold set_escaped.
  rewrite unescape_verbatim, escape_verbatim by (done || apply Hu). by rewrite bool_decide_true.
Qed.

Lemma rest_lacks_question : lacks "?" (("//" +:+ authority) +:+ path) = true.
Proof.
  rewrite !lacks_app. unfold authority. rewrite authority_lacks by done.
  by rewrite (verbatim_lacks encodePath _ path) by (done || apply Hu).
Qed.

Lemma Parse_plain : ∃ p, Parse (url_text scheme info host path query) =
  Some (mkURL scheme "" (Some (user, Some p)) host path "" false false query "" "").
Proof.
  destruct parse_rest_plain as [p Hp]. exists p. unfold Parse.
  change "#"%string with (String "#" ""). rewrite Cut_lacks by apply text_lacks_hash. unfold parse_url.
  rewrite graphic_not_control by apply text_graphic. cbn [negb]. rewrite text_shape.
  rewrite bool_decide_false by (apply scheme_nonempty, Hu).
  rewrite getScheme_app by apply Hu. rewrite cut_query_plain by apply rest_lacks_question.
  rewrite scheme_lower, Hp by apply Hu. done.
Qed.

(** With another password the URL prints as it was written. *)
Lemma URL_String_plain p new : URL_String (set_UserPassword user new (mkURL scheme "" (Some (user, Some p)) host path "" false false query "" "")) =
  url_text scheme (user +:+ ":" +:+ escape encodeUserPassword new) host path query.
Proof.
  set (u := set_UserPassword _ _ _).
  assert (Hp : EscapedPath u = path).
  { unfold EscapedPath. change (kept_as_read _ _ _) with false. change (Path u) with path. cbv beta iota.
    rewrite escape_verbatim by apply Hu. rewrite bool_decide_false; [done|].
    by destruct (pu_slash _ _ _ _ _ _ Hu) as [->|[t ->]%HasPrefix_spec]. }
  assert (Ha : authority_String u = "//" +:+ (user +:+ ":" +:+ escape encodeUserPassword new) +:+ "@" +:+ host).
  { unfold authority_String. change (User u) with (Some (user, Some new)). change (Host u) with host.
    change (bool_decide (is_Some (Some (user, Some new)))) with true. cbn [negb]. rewrite !andb_false_r. unfold Userinfo_String. cbn [fst snd].
    rewrite (escape_verbatim _ user), (escape_verbatim _ host) by apply Hu. by rewrite !sapp_assoc. }
  assert (Hslash : negb (is_empty path) && negb (HasPrefix path "/") = false).
  { destruct (pu_slash _ _ _ _ _ _ Hu) as [-> | ->]; [done|]. by rewrite andb_false_r. }
  unfold URL_String. change (Opaque u) with "". change (Scheme u) with scheme. change (Host u) with host.
  change (ForceQuery u) with false. change (RawQuery u) with query. change (Fragment u) with "".
  rewrite Hp, Ha, Hslash. rewrite (proj1 (scheme_nonempty scheme "" (pu_scheme _ _ _ _ _ _ Hu))).
  assert (Hne : ∀ x, is_empty ((scheme +:+ ":") +:+ x) = false).
  { intros x. unfold is_empty. apply bool_decide_eq_false. rewrite sapp_assoc. by destruct scheme. }
  rewrite Hne. change (is_empty "") with true. cbn [negb andb orb]. unfold url_text.
  rewrite !sapp_nil_r, !sapp_assoc. cbn [String.append]. by destruct (is_empty query).
Qed.

End parse_plain.

(** ** Text that is not a URL with a user *)

Lemma Cut_head a s c : a ≠ c → ∃ b r f, Cut (String a s) (String c "") = (String a b, r, f).
Proof.
  intros Hac. cbn [Cut]. rewrite HasPrefix_byte, bool_decide_false by done.
  destruct (Cut s _) as [[b r] f]. by eexists _, _, _.
Qed.

Lemma Cut_head' a s c b r f : a ≠ c → Cut (String a s) (String c "") = (b, r, f) → ∃ b', b = String a b'.
Proof. intros Hac. destruct (Cut_head a s c Hac) as (b0 & r0 & f0 & ->). intros [= <- _ _]. by eexists. Qed.

Lemma cut_query_head a s : a ≠ "?"%char → ∃ b query force, cut_query (String a s) = (String a b, query, force).
Proof.
  intros Ha. unfold cut_query. destruct (Cut_head a s "?" Ha) as (b & r & f & ->). destruct r, f; by eexists _, _, _.
Qed.

(** A text that begins with a hyphen has no scheme, so no user either. *)
Lemma hyphen_no_user s url : Parse (String "-" s) = Some url → User url = None.
Proof.
  unfold Parse. destruct (Cut (String "-" s) "#") as [[u frag] f] eqn:Hc.
  apply Cut_head' in Hc as [s' ->]; [|done]. destruct (parse_url (String "-" s')) as [url'|] eqn:Hp; [|done].
  assert (User url' = None) as Hu.
  { unfold parse_url in Hp. destruct (negb _); [done|]. rewrite bool_decide_false in Hp by done.
    change (getScheme (String "-" s')) with (Some ("", String "-" s')) in Hp. cbv beta iota in Hp.
    destruct (cut_query_head "-" s') as (b & query & force & Hq); [done|]. rewrite Hq in Hp.
    unfold parse_rest in Hp. cbn [map_bytes] in Hp. rewrite !HasPrefix_byte in Hp. cbn [negb andb] in Hp.
    change (is_empty "") with true in Hp. cbn [negb andb orb] in Hp.
    destruct (Contains _ _); [done|]. change (HasPrefix (String "-" b) "//") with false in Hp.
    change (HasPrefix (String "-" b) "///") with false in Hp. cbn [negb andb] in Hp.
    destruct (set_escaped encodePath (String "-" b)) as [[path raw]|]; [|done]. by injection Hp as <-. }
  case_bool_decide; [by intros [= <-]|]. destruct (set_escaped _ _) as [[fragment raw]|]; [|done]. by intros [= <-].
Qed.
