(* ===== verification/Cache.v ===== *)
(** * The result cache (internal/mcp/cache.go)

    [resultCache] is modelled with its pointers: [items] maps a key to an
    element of the recency list [order], elements live in a heap, and an
    element removed from the list keeps its value, as container/list elements
    do.  Times are nanoseconds; every operation takes the reading of
    [time.Now()] it makes.  The abstract cache is a list of entries, most
    recent first. *)

From S2P Require Import Prelude.
Local Open Scope Z_scope.

Record cacheEntry := mkEntry { key : string; val : string; expires : Z }.

Record resultCache := mkCache {
  ttl : Z;
  max : Z;
  items : gmap string nat;
  order : list nat;             (* front = most recently used *)
  heap : gmap nat cacheEntry;
  fresh : nat;                  (* the next element to allocate *)
}.

Definition newResultCache (ttl max : Z) : resultCache :=
  {| ttl := ttl; max := max; items := ∅; order := []; heap := ∅; fresh := 0 |}.

(** [el.Value], which is never nil. *)
Definition element (c : resultCache) (el : nat) : cacheEntry :=
  default (mkEntry "" "" 0) (heap c !! el).

(** container/list: Remove, MoveToFront, PushFront, Back. *)
Definition list_remove (el : nat) (l : list nat) : list nat :=
  List.filter (λ x, negb (Nat.eqb x el)) l.

Definition move_to_front (el : nat) (c : resultCache) : resultCache :=
  mkCache (ttl c) (max c) (items c) (el :: list_remove el (order c)) (heap c) (fresh c).

Definition push_front (e : cacheEntry) (c : resultCache) : nat * resultCache :=
  (fresh c, mkCache (ttl c) (max c) (items c) (fresh c :: order c)
              (<[fresh c := e]> (heap c)) (S (fresh c))).

Definition back (c : resultCache) : option nat := last (order c).

Definition removeElement (el : option nat) (c : resultCache) : resultCache :=
  match el with
  | None => c
  | Some el =>
      mkCache (ttl c) (max c) (delete (key (element c el)) (items c))
        (list_remove el (order c)) (heap c) (fresh c)
  end.

Definition get (now : Z) (k : string) (c : resultCache) : (string * bool) * resultCache :=
  match items c !! k with
  | None => (("", false), c)
  | Some el =>
      let e := element c el in
      if expires e <? now then (("", false), removeElement (Some el) c)
      else ((val e, true), move_to_front el c)
  end.

(** [for c.order.Len() > c.max { c.removeElement(c.order.Back()) }] *)
Fixpoint evict (fuel : nat) (c : resultCache) : resultCache :=
  match fuel with
  | O => c
  | S fuel' =>
      if max c <? Z.of_nat (length (order c))
      then evict fuel' (removeElement (back c) c) else c
  end.

Definition put (now : Z) (k v : string) (c : resultCache) : resultCache :=
  match items c !! k with
  | Some el =>
      move_to_front el
        (mkCache (ttl c) (max c) (items c) (order c)
           (<[el := mkEntry (key (element c el)) v (now + ttl c)]> (heap c)) (fresh c))
  | None =>
      let '(el, c1) := push_front (mkEntry k v (now + ttl c)) c in
      let c2 := mkCache (ttl c1) (max c1) (<[k := el]> (items c1)) (order c1) (heap c1) (fresh c1) in
      evict (length (order c2)) c2
  end.

(** ** The abstract cache *)

Definition spec_find (k : string) (l : list cacheEntry) : option cacheEntry :=
  find (λ e, bool_decide (key e = k)) l.

Definition spec_remove (k : string) (l : list cacheEntry) : list cacheEntry :=
  List.filter (λ e, negb (bool_decide (key e = k))) l.

Definition spec_get (now : Z) (k : string) (l : list cacheEntry) : (string * bool) * list cacheEntry :=
  match spec_find k l with
  | None => (("", false), l)
  | Some e =>
      if expires e <? now then (("", false), spec_remove k l)
      else ((val e, true), e :: spec_remove k l)
  end.

Definition spec_put (ttl max now : Z) (k v : string) (l : list cacheEntry) : list cacheEntry :=
  take (Z.to_nat max) (mkEntry k v (now + ttl) :: spec_remove k l).

(** The entries of a cache, most recent first. *)
Definition entries (c : resultCache) : list cacheEntry := map (element c) (order c).

(** Items and list agree, in both directions. *)
Record cache_wf (c : resultCache) : Prop := {
  wf_nodup : NoDup (order c);
  wf_alloc : ∀ el, el ∈ order c → (el < fresh c)%nat ∧ is_Some (heap c !! el);
  wf_items : ∀ k el, items c !! k = Some el ↔ el ∈ order c ∧ key (element c el) = k;
}.

(** ... and the list is within bounds. *)
Definition cache_ok (c : resultCache) : Prop :=
  cache_wf c ∧ Z.of_nat (length (order c)) ≤ max c.

(** ** Operations in sequence *)

Inductive op := OpGet (now : Z) (k : string) | OpPut (now : Z) (k v : string).

Definition step_op (o : op) (c : resultCache) : option string * resultCache :=
  match o with
  | OpGet now k => let '((v, ok), c') := get now k c in (if ok : bool then Some v else None, c')
  | OpPut now k v => (None, put now k v c)
  end.

Fixpoint run_ops (os : list op) (c : resultCache) : list (option string) * resultCache :=
  match os with
  | [] => ([], c)
  | o :: os' =>
      let '(r, c1) := step_op o c in
      let '(rs, c2) := run_ops os' c1 in (r :: rs, c2)
  end.

Definition spec_step (ttl max : Z) (o : op) (l : list cacheEntry) : option string * list cacheEntry :=
  match o with
  | OpGet now k => let '((v, ok), l') := spec_get now k l in (if ok : bool then Some v else None, l')
  | OpPut now k v => (None, spec_put ttl max now k v l)
  end.

Fixpoint spec_run (ttl max : Z) (os : list op) (l : list cacheEntry)
    : list (option string) * list cacheEntry :=
  match os with
  | [] => ([], l)
  | o :: os' =>
      let '(r, l1) := spec_step ttl max o l in
      let '(rs, l2) := spec_run ttl max os' l1 in (r :: rs, l2)
  end.

Definition op_key (o : op) : string := match o with OpGet _ k => k | OpPut _ k _ => k end.

(** ** Lemmas: the concrete cache implements the abstract one *)

Section refinement.

Lemma elem_list_remove el x l : x ∈ list_remove el l ↔ x ∈ l ∧ x ≠ el.
Proof.
  unfold list_remove. rewrite !list_elem_of_In, filter_In, negb_true_iff, Nat.eqb_neq. done.
Qed.

Lemma list_remove_nodup el l : NoDup l → NoDup (list_remove el l).
Proof. intros. apply NoDup_ListNoDup, List.NoDup_filter. by apply NoDup_ListNoDup. Qed.

Lemma list_remove_notin el l : el ∉ l → list_remove el l = l.
Proof.
  induction l as [|x l IH]; [done|]. rewrite not_elem_of_cons. intros [Hx Hl]. simpl.
  destruct (Nat.eqb_spec x el); [by subst|]. simpl. f_equal. by apply IH.
Qed.

Lemma list_remove_length el l : NoDup l → el ∈ l → S (length (list_remove el l)) = length l.
Proof.
  induction 1 as [|x l Hx Hl IH]; [by intros ?%not_elem_of_nil|]. simpl.
  destruct (Nat.eqb_spec x el) as [->|Hne]; simpl.
  - intros _. f_equal. by apply f_equal, list_remove_notin.
  - intros [->|Hel]%elem_of_cons; [done|]. f_equal. by apply IH.
Qed.

Lemma element_inj c el el' : cache_wf c → el ∈ order c → el' ∈ order c →
  key (element c el) = key (element c el') → el = el'.
Proof.
  intros Hok H1 H2 Hk.
  assert (Ha : items c !! key (element c el) = Some el) by by apply (wf_items _ Hok).
  assert (Hb : items c !! key (element c el) = Some el') by by apply (wf_items _ Hok).
  congruence.
Qed.

(** Removing an element removes its key's entry. *)
Lemma entries_remove_in c el l : cache_wf c → el ∈ order c → (∀ x, x ∈ l → x ∈ order c) →
  map (element c) (list_remove el l) = spec_remove (key (element c el)) (map (element c) l).
Proof.
  intros Hok Hel. induction l as [|x l IH]; intros Hall; [done|]. simpl.
  destruct (Nat.eqb_spec x el) as [->|Hne]; simpl.
  - rewrite bool_decide_true by done. apply IH. intros y Hy. apply Hall. by right.
  - rewrite bool_decide_false; simpl; [f_equal; apply IH; intros; apply Hall; by right|].
    intros Hk. apply Hne. eapply element_inj; eauto. apply Hall. left.
Qed.

Lemma entries_remove c el : cache_wf c → el ∈ order c →
  map (element c) (list_remove el (order c)) = spec_remove (key (element c el)) (entries c).
Proof. intros. by apply entries_remove_in. Qed.

(** The index finds what the list holds. *)
Lemma spec_find_Some k e l : spec_find k l = Some e → e ∈ l ∧ key e = k.
Proof.
  unfold spec_find. intros [Hin Hk]%find_some.
  by rewrite list_elem_of_In, <- (bool_decide_eq_true (key e = k)).
Qed.

Lemma spec_find_None k l : spec_find k l = None ↔ ∀ e, e ∈ l → key e ≠ k.
Proof.
  unfold spec_find. split.
  - intros Hn e He Hk. apply list_elem_of_In in He. eapply find_none in Hn; [|done].
    by rewrite bool_decide_true in Hn.
  - intros H. destruct (find _ l) eqn:Hf; [|done]. apply spec_find_Some in Hf as [He Hk].
    by apply H in He.
Qed.

Lemma spec_find_items c k : cache_wf c → spec_find k (entries c) = element c <$> items c !! k.
Proof.
  intros Hok. destruct (items c !! k) as [el|] eqn:Hk; simpl.
  - apply (wf_items _ Hok) in Hk as [Hel Hkey].
    destruct (spec_find k (entries c)) as [e|] eqn:Hf.
    + apply spec_find_Some in Hf as [He Hke]. apply list_elem_of_fmap in He as (el' & -> & Hel').
      f_equal. f_equal. eapply element_inj; eauto. congruence.
    + rewrite spec_find_None in Hf. destruct (Hf (element c el)); [|done].
      by apply list_elem_of_fmap_2.
  - apply spec_find_None. intros e (el & -> & Hel)%list_elem_of_fmap Hke.
    assert (items c !! k = Some el) by by apply (wf_items _ Hok). congruence.
Qed.

Lemma removeElement_ok c el : cache_wf c → el ∈ order c →
  cache_wf (removeElement (Some el) c) ∧
  entries (removeElement (Some el) c) = spec_remove (key (element c el)) (entries c).
Proof.
  intros Hok Hel. split; [|exact (entries_remove c el Hok Hel)].
  destruct Hok as [Hnd Hal Hit]. split; simpl.
  - by apply list_remove_nodup.
  - intros x [Hx _]%elem_list_remove. by apply Hal.
  - intros k x. change (element _ x) with (element c x). rewrite elem_list_remove.
    assert (Hown : items c !! key (element c el) = Some el) by by apply Hit.
    rewrite lookup_delete_Some, Hit. split.
    + intros (Hne & Hx & Hk). repeat split; try done. intros ->. congruence.
    + intros ((Hx & Hne) & Hk). repeat split; try done. intros Heq.
      assert (items c !! k = Some x) by by apply Hit. congruence.
Qed.

Lemma move_to_front_ok c el : cache_wf c → el ∈ order c →
  cache_wf (move_to_front el c) ∧ length (order (move_to_front el c)) = length (order c) ∧
  entries (move_to_front el c) = element c el :: spec_remove (key (element c el)) (entries c).
Proof.
  intros Hok Hel. split; [|split; [by apply list_remove_length; [apply Hok|]|]].
  - destruct Hok as [Hnd Hal Hit]. split; simpl.
    + apply NoDup_cons; split; [by intros [_ ?]%elem_list_remove|by apply list_remove_nodup].
    + intros x [->|[Hx _]%elem_list_remove]%elem_of_cons; by apply Hal.
    + intros k x. change (element _ x) with (element c x).
      rewrite Hit, elem_of_cons, elem_list_remove. clear Hal Hnd Hit.
      destruct (decide (x = el)) as [->|]; intuition congruence.
  - unfold entries at 1. simpl. f_equal. exact (entries_remove c el Hok Hel).
Qed.

(** Writing to an element's value. *)
Definition set_val (el : nat) (e : cacheEntry) (c : resultCache) : resultCache :=
  mkCache (ttl c) (max c) (items c) (order c) (<[el := e]> (heap c)) (fresh c).

Lemma element_set_val c el e x :
  element (set_val el e c) x = if decide (el = x) then e else element c x.
Proof. unfold element, set_val. simpl. rewrite lookup_insert. by case_decide. Qed.

Lemma set_val_ok c el e : cache_wf c → el ∈ order c → key e = key (element c el) →
  cache_wf (set_val el e c).
Proof.
  intros [Hnd Hal Hit] Hel Hk. split; simpl; [done| |].
  - intros x Hx. split; [by apply Hal|]. rewrite lookup_insert. case_decide; [by eexists|by apply Hal].
  - intros k x. rewrite element_set_val. case_decide; [subst|done]. by rewrite Hit, Hk.
Qed.

Lemma spec_remove_set_val c el e : cache_wf c → el ∈ order c → key e = key (element c el) →
  spec_remove (key e) (entries (set_val el e c)) = spec_remove (key e) (entries c).
Proof.
  intros Hok Hel Hk. unfold entries. simpl.
  assert (Hsame : ∀ x, key (element c x) ≠ key e → element (set_val el e c) x = element c x).
  { intros x. rewrite element_set_val. case_decide; [by subst|done]. }
  assert (Hkey : ∀ x, key (element (set_val el e c) x) = key (element c x)).
  { intros x. rewrite element_set_val. case_decide; [by subst|done]. }
  clear Hel. induction (order c) as [|x l IH]; [done|]. simpl. rewrite Hkey.
  case_bool_decide as Hx; simpl; [exact IH|]. rewrite Hsame by done. f_equal. exact IH.
Qed.

(** A new element at the front. *)
Lemma insert_ok c k e : cache_wf c → items c !! k = None → key e = k →
  let c1 := (push_front e c).2 in
  let c2 := mkCache (ttl c) (max c) (<[k := fresh c]> (items c)) (order c1) (heap c1) (fresh c1) in
  cache_wf c2 ∧ entries c2 = e :: entries c.
Proof.
  intros [Hnd Hal Hit] Hk He. simpl.
  assert (Hnew : fresh c ∉ order c) by (intros Hin%Hal; lia).
  assert (Hel : ∀ x, x ∈ order c → default (mkEntry "" "" 0) (<[fresh c:=e]> (heap c) !! x) = element c x).
  { intros x Hx. rewrite lookup_insert_ne; [done|]. by intros <-. }
  split; [split; simpl|].
  - by apply NoDup_cons.
  - intros x Hx. rewrite lookup_insert. case_decide; [subst; split; [lia|by eexists]|].
    apply elem_of_cons in Hx as [->|Hx]; [done|]. split; [|by apply Hal].
    apply Hal in Hx as [? _]. lia.
  - intros k' x. unfold element at 1. simpl. rewrite elem_of_cons, lookup_insert_Some, Hit.
    destruct (decide (x = fresh c)) as [->|Hne].
    + rewrite lookup_insert_eq. simpl. rewrite He. clear Hal Hit Hel Hnd. naive_solver.
    + split.
      * intros [[<- <-]|(Hk' & Hx & Hkx)]; [done|]. rewrite Hel by done. auto.
      * intros [[->|Hx] Hkx]; [done|]. rewrite Hel in Hkx by done. right. repeat split; try done.
        intros <-. assert (items c !! k = Some x) by by apply Hit. congruence.
  - unfold entries, element at 1. simpl. rewrite lookup_insert_eq. simpl. f_equal.
    apply map_ext_in. intros x Hx%list_elem_of_In. unfold element at 1. simpl. by apply Hel.
Qed.

(** Removing the back element drops the last entry. *)
Lemma remove_back c l el : cache_wf c → order c = l ++ [el] →
  cache_wf (removeElement (back c) c) ∧ order (removeElement (back c) c) = l ∧
  entries (removeElement (back c) c) = map (element c) l.
Proof.
  intros Hok Ho. assert (Hb : back c = Some el) by (unfold back; by rewrite Ho, last_snoc).
  assert (Hel : el ∈ order c) by (rewrite Ho; set_solver).
  rewrite Hb. destruct (removeElement_ok c el Hok Hel) as [Hok' _].
  split; [done|]. assert (Hl : list_remove el (order c) = l).
  { destruct Hok as [Hnd _ _]. rewrite Ho in *. apply NoDup_app in Hnd as (_ & Hdis & _).
    unfold list_remove. rewrite List.filter_app. simpl. rewrite Nat.eqb_refl. simpl.
    rewrite app_nil_r. apply list_remove_notin. intros Hin. apply (Hdis el Hin). by left. }
  split; [exact Hl|]. unfold entries. simpl. by rewrite Hl.
Qed.

(** The eviction loop ends within the list's length and keeps the most recent
    entries. *)
Lemma evict_ok fuel c : cache_wf c → 0 ≤ max c → (length (order c) ≤ fuel)%nat →
  cache_ok (evict fuel c) ∧ max (evict fuel c) = max c ∧ ttl (evict fuel c) = ttl c ∧
  entries (evict fuel c) = take (Z.to_nat (max c)) (entries c).
Proof.
  revert c. induction fuel as [|fuel IH]; intros c Hok Hm Hlen; cbn [evict].
  { assert (Hnil : order c = []) by (destruct (order c); simpl in *; [done|lia]).
    unfold cache_ok, entries. rewrite Hnil. simpl map. rewrite take_nil. split; [split; [done|simpl; lia]|done]. }
  destruct (Z.ltb_spec (max c) (Z.of_nat (length (order c)))) as [Hlt|Hge].
  - destruct (exists_last (l:=order c)) as (l & el & Ho); [intros Hn; rewrite Hn in Hlt; simpl in *; lia|].
    destruct (remove_back c l el Hok Ho) as (Hok' & Hl & He).
    assert (Hkeep : max (removeElement (back c) c) = max c ∧ ttl (removeElement (back c) c) = ttl c)
      by by destruct (back c).
    destruct Hkeep as [Hmax Httl]. rewrite Ho, length_app in *. simpl in *.
    destruct (IH (removeElement (back c) c) Hok') as (H1 & -> & -> & ->); [lia|rewrite Hl; lia|].
    rewrite Hmax, Httl, He. split; [exact H1|]. split; [done|]. split; [done|].
    unfold entries. rewrite Ho, map_app. rewrite take_app_le; [done|]. rewrite length_map. lia.
  - split; [done|]. split; [done|]. split; [done|]. rewrite take_ge; [done|]. unfold entries. rewrite length_map. lia.
Qed.

Lemma entries_length c : length (entries c) = length (order c).
Proof. apply length_map. Qed.

Lemma spec_remove_absent k l : (∀ e, e ∈ l → key e ≠ k) → spec_remove k l = l.
Proof.
  induction l as [|e l IH]; intros H; [done|]. simpl.
  rewrite bool_decide_false by (apply H; left). simpl. f_equal.
  apply IH. intros e' He'. apply H. by right.
Qed.

(** ** One operation *)

Lemma get_refines now k c : cache_ok c →
  let '(r, c') := get now k c in
  cache_ok c' ∧ max c' = max c ∧ ttl c' = ttl c ∧
  spec_get now k (entries c) = (r, entries c').
Proof.
  intros [Hok Hlen]. unfold get, spec_get. rewrite spec_find_items by done.
  destruct (items c !! k) as [el|] eqn:Hk; simpl; [|by split_and!].
  apply (wf_items _ Hok) in Hk as [Hel <-]. destruct (expires (element c el) <? now).
  - destruct (removeElement_ok c el Hok Hel) as [Hok' He]. split; [split; [done|]|split; [done|split; [done|by f_equal]]].
    simpl. assert (H := list_remove_length el (order c) (wf_nodup _ Hok) Hel). lia.
  - destruct (move_to_front_ok c el Hok Hel) as (Hok' & Hl & He).
    split; [split; [done|by rewrite Hl]|split; [done|split; [done|by f_equal]]].
Qed.

Lemma put_refines now k v c : cache_ok c →
  cache_ok (put now k v c) ∧ max (put now k v c) = max c ∧ ttl (put now k v c) = ttl c ∧
  entries (put now k v c) = spec_put (ttl c) (max c) now k v (entries c).
Proof.
  intros [Hok Hlen]. assert (Hf := spec_find_items c k Hok). unfold put, spec_put.
  destruct (items c !! k) as [el|] eqn:Hk.
  - apply (wf_items _ Hok) in Hk as [Hel <-]. clear Hf.
    set (e := mkEntry (key (element c el)) v (now + ttl c)).
    change (mkCache _ _ _ _ _ _) with (set_val el e c).
    destruct (move_to_front_ok (set_val el e c) el) as (Hok' & Hl & He);
      [by apply set_val_ok|done|].
    split; [split; [done|by rewrite Hl]|split; [done|split; [done|]]]. rewrite He, element_set_val, decide_True by done.
    rewrite spec_remove_set_val by done. rewrite take_ge; [done|].
    simpl. change (key e) with (key (element c el)). rewrite <- entries_remove by done.
    rewrite length_map. assert (H := list_remove_length el (order c) (wf_nodup _ Hok) Hel). lia.
  - simpl in Hf. rewrite spec_find_None in Hf. rewrite spec_remove_absent by done.
    destruct (insert_ok c k (mkEntry k v (now + ttl c)) Hok Hk eq_refl) as [Hok2 He].
    cbn [push_front fst snd ttl max items order heap fresh] in Hok2, He |- *.
    set (c2 := mkCache _ _ _ _ _ _) in *.
    destruct (evict_ok (length (order c2)) c2 Hok2) as (H1 & H2 & H3 & H4); [simpl; lia|done|].
    change (fresh c :: order c) with (order c2).
    split; [done|split; [done|split; [done|]]]. by rewrite H4, He.
Qed.

Lemma elem_spec_remove e k l : e ∈ spec_remove k l ↔ e ∈ l ∧ key e ≠ k.
Proof.
  unfold spec_remove. rewrite !list_elem_of_In, filter_In, negb_true_iff, bool_decide_eq_false. done.
Qed.

(** What the cache operations add to the entries. *)
Lemma get_entries now k c : cache_ok c → cache_ok (get now k c).2 ∧
  (∀ e, e ∈ entries (get now k c).2 → e ∈ entries c) ∧
  (∀ v, (get now k c).1 = (v, true) → ∃ e, e ∈ entries c ∧ key e = k ∧ val e = v).
Proof.
  intros Hok. assert (H := get_refines now k c Hok). destruct (get now k c) as [r c'].
  destruct H as (Hok' & _ & _ & Hg). cbn [fst snd]. split; [done|]. unfold spec_get in Hg.
  destruct (spec_find k (entries c)) as [e|] eqn:Hf.
  - apply spec_find_Some in Hf as [Hin Hk]. destruct (expires e <? now); simplify_eq.
    + split; [|done]. rewrite <- H0. by intros e' [? _]%elem_spec_remove.
    + split; [|intros v [= <-]; by exists e]. rewrite <- H0.
      by intros e' [->|[? _]%elem_spec_remove]%elem_of_cons.
  - simplify_eq. split; [|done]. by rewrite <- H0.
Qed.

Lemma put_entries now k v c : cache_ok c → cache_ok (put now k v c) ∧
  (∀ e, e ∈ entries (put now k v c) → (key e = k ∧ val e = v) ∨ e ∈ entries c).
Proof.
  intros Hok. destruct (put_refines now k v c Hok) as (Hok' & _ & _ & ->). split; [done|].
  intros e He. apply elem_of_take in He as (i & He & _). apply list_elem_of_lookup_2 in He.
  apply elem_of_cons in He as [->|[? _]%elem_spec_remove]; [by left|by right].
Qed.

(** A key that was looked up in vain is not held, and one that was put is. *)
Lemma get_miss now k c v c' : cache_ok c → get now k c = ((v, false), c') → ∀ e, e ∈ entries c' → key e ≠ k.
Proof.
  intros Hok Hg e He. assert (H := get_refines now k c Hok). rewrite Hg in H. destruct H as (_ & _ & _ & Hs).
  unfold spec_get in Hs. destruct (spec_find k (entries c)) as [e0|] eqn:Hf.
  - destruct (expires e0 <? now); [|done]. injection Hs as _ Hs. rewrite <- Hs in He.
    by apply elem_spec_remove in He as [_ ?].
  - injection Hs as _ Hs. rewrite <- Hs in He. by apply (proj1 (spec_find_None k _) Hf).
Qed.

Lemma put_held now k v c : cache_ok c → 0 < max c → ∃ e, e ∈ entries (put now k v c) ∧ key e = k.
Proof.
  intros Hok Hm. destruct (put_refines now k v c Hok) as (_ & _ & _ & ->). unfold spec_put.
  exists (mkEntry k v (now + ttl c)). split; [|done]. destruct (Z.to_nat (max c)) eqn:Hn; [lia|]. by left.
Qed.

Lemma new_ok ttl max : 0 ≤ max → cache_ok (newResultCache ttl max).
Proof.
  intros Hm. split; [split; simpl|done].
  - constructor.
  - by intros el ?%not_elem_of_nil.
  - intros k el. rewrite lookup_empty. split; [done|]. by intros [?%not_elem_of_nil _].
Qed.

Lemma step_refines o c : cache_ok c →
  let '(r, c') := step_op o c in
  cache_ok c' ∧ max c' = max c ∧ ttl c' = ttl c ∧
  spec_step (ttl c) (max c) o (entries c) = (r, entries c').
Proof.
  intros Hok. destruct o as [now k|now k v]; simpl.
  - assert (H := get_refines now k c Hok). destruct (get now k c) as [[v ok] c'].
    destruct H as (H1 & H2 & H3 & ->). done.
  - destruct (put_refines now k v c Hok) as (H1 & H2 & H3 & ->). done.
Qed.

Lemma run_refines os c : cache_ok c →
  let '(rs, c') := run_ops os c in
  cache_ok c' ∧ max c' = max c ∧ ttl c' = ttl c ∧
  spec_run (ttl c) (max c) os (entries c) = (rs, entries c').
Proof.
  revert c. induction os as [|o os IH]; intros c Hok; simpl; [by split_and!|].
  assert (H := step_refines o c Hok). destruct (step_op o c) as [r c1].
  destruct H as (H1 & Hm & Ht & ->). specialize (IH c1 H1).
  destruct (run_ops os c1) as [rs c2]. rewrite Hm, Ht in IH. destruct IH as (H2 & H3 & H4 & ->).
  split_and!; done.
Qed.

(** ** Recency in the abstract cache *)

(** The state [l] still holds the entry [e], and what is in front of it are
    keys among [ks]. *)
Definition held (e : cacheEntry) (ks : gset string) (l : list cacheEntry) : Prop :=
  ∃ l1 l2, l = l1 ++ e :: l2 ∧ NoDup (map key l1) ∧
    ∀ e', e' ∈ l1 → key e' ≠ key e ∧ key e' ∈ ks.

Lemma held_find e (ks : gset string) l : held e ks l → spec_find (key e) l = Some e.
Proof.
  intros (l1 & l2 & -> & _ & Hne). unfold spec_find.
  induction l1 as [|x l1 IH]; simpl; [by rewrite bool_decide_true|].
  rewrite bool_decide_false by (apply Hne; left). apply IH. intros. apply Hne. by right.
Qed.

Lemma held_length e (ks : gset string) l1 : NoDup (map key l1) → (∀ e', e' ∈ l1 → key e' ≠ key e ∧ key e' ∈ ks) →
  (length l1 ≤ size ks)%nat.
Proof.
  intros Hnd Hks. rewrite <- (length_map key).
  rewrite <- (size_list_to_set (C:=gset string) (map key l1)) by done.
  apply subseteq_size. intros k Hk. apply elem_of_list_to_set in Hk.
  apply list_elem_of_fmap in Hk as (e' & -> & He'). by apply Hks.
Qed.

Lemma nodup_spec_remove k l : NoDup (map key l) → NoDup (map key (spec_remove k l)).
Proof.
  induction l as [|x l IH]; simpl; [done|]. rewrite NoDup_cons. intros [Hx Hl].
  case_bool_decide; simpl; [by apply IH|]. apply NoDup_cons. split; [|by apply IH].
  intros (e & He & Hin)%list_elem_of_fmap. apply elem_spec_remove in Hin as [Hin _].
  apply Hx. rewrite He. by apply list_elem_of_fmap_2.
Qed.

Lemma held_remove e (ks : gset string) k l : held e ks l → k ≠ key e → held e ks (spec_remove k l).
Proof.
  intros (l1 & l2 & -> & Hnd & Hne) Hk. exists (spec_remove k l1), (spec_remove k l2).
  split_and!.
  - unfold spec_remove. rewrite List.filter_app. simpl. by rewrite bool_decide_false.
  - by apply nodup_spec_remove.
  - intros e' [He' _]%elem_spec_remove. by apply Hne.
Qed.

Lemma held_cons e (ks : gset string) x l : held e ks (spec_remove (key x) l) → key x ≠ key e → key x ∈ ks →
  held e ks (x :: spec_remove (key x) l).
Proof.
  intros (l1 & l2 & Hl & Hnd & Hne) Hx Hks. exists (x :: l1), l2. rewrite Hl. split_and!; [done| |].
  - simpl. apply NoDup_cons. split; [|done]. intros (e' & He' & Hin)%list_elem_of_fmap.
    assert (He : e' ∈ spec_remove (key x) l) by (rewrite Hl; set_solver).
    apply elem_spec_remove in He as [_ He]. congruence.
  - intros e' [->|He']%elem_of_cons; [done|by apply Hne].
Qed.

(** A step on another key keeps the entry, as long as fewer keys than the
    cache's capacity have been touched. *)
Lemma held_step ttl max o e (ks : gset string) l : held e ks l → op_key o ≠ key e → op_key o ∈ ks →
  (size ks < Z.to_nat max)%nat → held e ks (snd (spec_step ttl max o l)).
Proof.
  intros Hh Hk Hks Hsz. destruct o as [now k|now k v]; simpl in *.
  - unfold spec_get. destruct (spec_find k l) as [x|] eqn:Hf; [|done].
    apply spec_find_Some in Hf as [_ <-]. destruct (expires x <? now); simpl; [by apply held_remove|].
    apply held_cons; [by apply held_remove|done|done].
  - unfold spec_put. set (x := mkEntry k v (now + ttl)).
    destruct (held_cons e ks x l) as (l1 & l2 & Hl & Hnd & Hne); [by apply held_remove|done|done|].
    change (spec_remove k l) with (spec_remove (key x) l). rewrite Hl.
    assert (Hlen := held_length e ks l1 Hnd Hne).
    exists l1, (take (Z.to_nat max - S (length l1))%nat l2). split_and!; [|done|done].
    rewrite take_app_ge by lia. f_equal.
    replace (Z.to_nat max - length l1)%nat with (S (Z.to_nat max - S (length l1))) by lia. done.
Qed.

Lemma held_run ttl max os e (ks : gset string) l : held e ks l →
  (∀ o, o ∈ os → op_key o ≠ key e ∧ op_key o ∈ ks) → (size ks < Z.to_nat max)%nat →
  held e ks (snd (spec_run ttl max os l)).
Proof.
  revert l. induction os as [|o os IH]; intros l Hh Hos Hsz; [done|]. cbn [spec_run].
  destruct (Hos o) as [H1 H2]; [left|].
  assert (Hh' := held_step ttl max o e ks l Hh H1 H2 Hsz).
  destruct (spec_step ttl max o l) as [r l1]. simpl in Hh'.
  assert (IH' := IH l1 Hh' (λ o' Ho, Hos o' (list_elem_of_further _ _ _ Ho)) Hsz).
  by destruct (spec_run ttl max os l1).
Qed.

(** ** Where entries come from *)

(** Every entry is the last [put] of its key. *)
Definition justified (ttl : Z) (h : list op) (l : list cacheEntry) : Prop :=
  ∀ e, e ∈ l → ∃ h1 t h2, h = h1 ++ OpPut t (key e) (val e) :: h2 ∧
    expires e = t + ttl ∧ ∀ t' v', OpPut t' (key e) v' ∉ h2.

Lemma justified_more ttl h l l' o : justified ttl h l →
  (∀ e, e ∈ l' → e ∈ l ∧ ∀ t' v', o ≠ OpPut t' (key e) v') → justified ttl (h ++ [o]) l'.
Proof.
  intros Hj Hl' e He. destruct (Hl' e He) as [Hin Ho]. destruct (Hj e Hin) as (h1 & t & h2 & -> & Hx & Hn).
  exists h1, t, (h2 ++ [o]). split_and!; [by rewrite <- app_assoc|done|].
  intros t' v' [Hi|Hi%list_elem_of_singleton]%elem_of_app; [by eapply Hn|by eapply Ho].
Qed.

Lemma justified_step ttl max h o l : justified ttl h l →
  justified ttl (h ++ [o]) (snd (spec_step ttl max o l)).
Proof.
  intros Hj. destruct o as [now k|now k v]; simpl.
  - apply (justified_more ttl h l); [done|]. intros e He. split; [|done]. revert He.
    unfold spec_get. destruct (spec_find k l) as [x|] eqn:Hf; [|done].
    apply spec_find_Some in Hf as [Hx _].
    destruct (expires x <? now); simpl; [by intros [? _]%elem_spec_remove|].
    by intros [->|[? _]%elem_spec_remove]%elem_of_cons.
  - intros e He. apply elem_of_take in He as (i & He & _). apply list_elem_of_lookup_2 in He.
    apply elem_of_cons in He as [->|He].
    + exists h, now, []. split_and!; try done. by intros ? ? ?%not_elem_of_nil.
    + apply (justified_more ttl h l (spec_remove k l)); [done| |done].
      intros e' [Hin Hk]%elem_spec_remove. split; [done|]. by intros t' v' [= _ -> _].
Qed.

Lemma justified_run ttl max os h l : justified ttl h l →
  justified ttl (h ++ os) (snd (spec_run ttl max os l)).
Proof.
  revert h l. induction os as [|o os IH]; intros h l Hj; [by rewrite app_nil_r|]. cbn [spec_run].
  assert (Hj' := justified_step ttl max h o l Hj).
  destruct (spec_step ttl max o l) as [r l1]. cbn [snd] in Hj'. specialize (IH _ _ Hj').
  rewrite <- app_assoc in IH. cbn [app] in IH. by destruct (spec_run ttl max os l1).
Qed.

End refinement.

(** ** Properties *)

(** C9: Refinement: any sequence of gets and puts on the pointer structure
    returns what the abstract recency list returns, keeps index and list in
    agreement, and never holds more than [max] entries. *)
Theorem resultCache_refines ttl max os : 0 ≤ max →
  let '(rs, c) := run_ops os (newResultCache ttl max) in
  (rs, entries c) = spec_run ttl max os [] ∧ cache_ok c ∧ Z.of_nat (length (order c)) ≤ max.
Proof.
  intros Hm. assert (H := run_refines os _ (new_ok ttl max Hm)).
  destruct (run_ops os (newResultCache ttl max)) as [rs c]. simpl in H.
  destruct H as (Hok & Hmax & _ & Hrun). split_and!; [symmetry; exact Hrun|done|].
  rewrite <- Hmax. apply Hok.
Qed.

(** A stored result is served until it expires, as long as fewer distinct
    other keys than the capacity are used in between: the least recently used
    entry is the one evicted. *)
Theorem resultCache_hit c t k v os now (ks : gset string) : cache_ok c →
  (∀ o, o ∈ os → op_key o ≠ k ∧ op_key o ∈ ks) → Z.of_nat (size ks) < max c →
  now ≤ t + ttl c →
  fst (get now k (snd (run_ops os (put t k v c)))) = (v, true).
Proof.
  intros Hok Hos Hks Hnow. destruct (put_refines t k v c Hok) as (Hok1 & Hm & Ht & He).
  assert (Hrun := run_refines os _ Hok1). destruct (run_ops os (put t k v c)) as [rs c2].
  destruct Hrun as (Hok2 & Hm2 & Ht2 & Hs). cbn [snd].
  assert (Hget := get_refines now k c2 Hok2). destruct (get now k c2) as [r c3].
  destruct Hget as (_ & _ & _ & Hg). cbn [fst].
  set (e := mkEntry k v (t + ttl c)).
  assert (Hheld : held e ks (entries c2)).
  { assert (Hc2 : entries c2 = snd (spec_run (ttl c) (max c) os (entries (put t k v c))))
      by (rewrite <- Hm, <- Ht, Hs; done).
    rewrite Hc2. apply held_run; [|done|lia]. rewrite He. exists [], (take (pred (Z.to_nat (max c))) (spec_remove k (entries c))).
    split_and!; [|constructor|by intros ? ?%not_elem_of_nil]. unfold spec_put, e.
    by replace (Z.to_nat (max c)) with (S (pred (Z.to_nat (max c)))) by lia. }
  apply held_find in Hheld. change (key e) with k in Hheld.
  unfold spec_get in Hg. rewrite Hheld in Hg. simpl in Hg.
  destruct (Z.ltb_spec (t + ttl c) now); [lia|]. congruence.
Qed.

(** A hit is never stale or mixed up: the value returned is the one of the
    last [put] of that very key, made at most [ttl] before. *)
Theorem resultCache_sound ttl max os now k v : 0 ≤ max →
  fst (get now k (snd (run_ops os (newResultCache ttl max)))) = (v, true) →
  ∃ h1 t h2, os = h1 ++ OpPut t k v :: h2 ∧ now ≤ t + ttl ∧ ∀ t' v', OpPut t' k v' ∉ h2.
Proof.
  intros Hm Hget. assert (H := run_refines os _ (new_ok ttl max Hm)).
  destruct (run_ops os (newResultCache ttl max)) as [rs c]. cbn [snd] in Hget.
  destruct H as (Hok & _ & _ & Hrun). simpl in Hrun.
  assert (Hj : justified ttl os (entries c)).
  { change (entries (newResultCache ttl max)) with (@nil cacheEntry) in Hrun.
    replace (entries c) with (snd (spec_run ttl max os [])) by (by rewrite Hrun).
    apply (justified_run ttl max os [] []). by intros e ?%not_elem_of_nil. }
  assert (Hg := get_refines now k c Hok). destruct (get now k c) as [r c3]. cbn [fst] in Hget. subst r.
  destruct Hg as (_ & _ & _ & Hg). unfold spec_get in Hg.
  destruct (spec_find k (entries c)) as [e|] eqn:Hf; [|done].
  apply spec_find_Some in Hf as [Hin <-].
  destruct (Z.ltb_spec (expires e) now) as [|Hex]; simplify_eq.
  destruct (Hj e Hin) as (h1 & t & h2 & -> & Hx & Hn). exists h1, t, h2. split_and!; [done|lia|done].
Qed.

(** ** Witnesses *)

Definition sample_ops : list op :=
  [OpPut 0 "a" "1"; OpPut 1 "b" "2"; OpGet 2 "a"; OpPut 3 "c" "3"; OpGet 4 "b"; OpGet 5 "a"; OpGet 90 "c"].

Lemma resultCache_refines_witness :
  0 ≤ 2 ∧ fst (run_ops sample_ops (newResultCache 10 2)) =
    [None; None; Some "1"; None; None; Some "1"; None] ∧
  fst (run_ops sample_ops (newResultCache 10 2)) = fst (spec_run 10 2 sample_ops []).
Proof.
  split; [lia|]. split; [by vm_compute|].
  assert (H := resultCache_refines 10 2 sample_ops ltac:(lia)).
  destruct (run_ops sample_ops (newResultCache 10 2)) as [rs c]. destruct H as [H _].
  by rewrite <- H.
Defined.

Lemma resultCache_hit_witness :
  fst (get 9 "a" (snd (run_ops [OpPut 1 "b" "2"; OpGet 3 "b"] (put 0 "a" "1" (newResultCache 10 2))))) =
  ("1", true).
Proof.
  apply (resultCache_hit _ 0 "a" "1" _ 9 {["b"]}).
  - apply new_ok. lia.
  - intros o [->|[->|[]%not_elem_of_nil]%elem_of_cons]%elem_of_cons; by vm_compute.
  - by vm_compute.
  - by vm_compute.
Defined.

Lemma resultCache_sound_witness :
  ∃ h1 t h2, [OpPut 0 "a" "0"; OpPut 1 "a" "1"] = h1 ++ OpPut t "a" "1" :: h2 ∧ 5 ≤ t + 10 ∧
    ∀ t' v', OpPut t' "a" v' ∉ h2.
Proof.
  apply (resultCache_sound 10 2 [OpPut 0 "a" "0"; OpPut 1 "a" "1"] 5 "a" "1"); by vm_compute.
Defined.
