(* ===== verification/CacheConc.v ===== *)
(** * Concurrent calls to the cache (resultCache.do)

    [do] is run by any number of goroutines at once.  [get] and [put] hold the
    mutex, so each is one step; between them other goroutines may run.  A
    state holds the cache, the group's calls in flight and the goroutines;
    [step] has one rule per action of the source.  The singleflight group is
    third-party: [admits] is its decision to run the function or to make the
    caller wait, and [admits_spec] its documented contract.  The state also
    carries a log of what the functions returned, which no rule reads. *)

From S2P Require Import Prelude Cache.
Local Open Scope Z_scope.

Section conc.
Context {error : Type}.

(** What a call to [do] returns. *)
Definition outcome : Type := result error string.

(** Where a goroutine stands inside [do]; the number names its call in the
    group. *)
Inductive phase :=
| Enter                             (* before the first get *)
| Missed                            (* before group.Do *)
| Leading (call : nat)              (* in the function passed to Do, before its get *)
| Computing (call : nat)            (* running fn *)
| Storing (call : nat) (out : string)      (* fn returned out; before put *)
| Returning (call : nat) (res : outcome)   (* the function returned res *)
| Waiting (call : nat)              (* joined another goroutine's call *)
| Finished (res : outcome).

Record state := mkState {
  cache : resultCache;
  flights : gmap string nat;                       (* the group's map, by key *)
  calls : gmap nat (string * option outcome);      (* key, and the result once published *)
  threads : gmap nat (string * phase);
  next_call : nat;
  log : list (string * outcome);
}.

Definition with_thread (t : nat) (k : string) (p : phase) (s : state) : state :=
  mkState (cache s) (flights s) (calls s) (<[t := (k, p)]> (threads s)) (next_call s) (log s).

Definition with_cache (c : resultCache) (s : state) : state :=
  mkState c (flights s) (calls s) (threads s) (next_call s) (log s).

Definition with_log (e : string * outcome) (s : state) : state :=
  mkState (cache s) (flights s) (calls s) (threads s) (next_call s) (log s ++ [e]).

(** group.Do admits the caller as the one that runs the function. *)
Definition open_call (t : nat) (k : string) (s : state) : state :=
  mkState (cache s) (<[k := next_call s]> (flights s))
    (<[next_call s := (k, None)]> (calls s))
    (<[t := (k, Leading (next_call s))]> (threads s)) (S (next_call s)) (log s).

(** group.Do publishes the result and forgets the call. *)
Definition close_call (t : nat) (k : string) (c : nat) (res : outcome) (s : state) : state :=
  mkState (cache s) (delete k (flights s)) (<[c := (k, Some res)]> (calls s))
    (<[t := (k, Finished res)]> (threads s)) (next_call s) (log s).

Variable admits : gmap string nat → string → bool.

(** One step of goroutine [t]; [now] is the clock reading of the operation. *)
Inductive step (t : nat) : state → state → Prop :=
| step_call k s :
    threads s !! t = None → step t s (with_thread t k Enter s)
| step_hit k now v c' s :
    threads s !! t = Some (k, Enter) → get now k (cache s) = ((v, true), c') →
    step t s (with_thread t k (Finished (Ok v)) (with_cache c' s))
| step_miss k now v c' s :
    threads s !! t = Some (k, Enter) → get now k (cache s) = ((v, false), c') →
    step t s (with_thread t k Missed (with_cache c' s))
| step_lead k s :
    threads s !! t = Some (k, Missed) → admits (flights s) k = true →
    step t s (open_call t k s)
| step_join k c s :
    threads s !! t = Some (k, Missed) → admits (flights s) k = false →
    flights s !! k = Some c → step t s (with_thread t k (Waiting c) s)
| step_lead_hit k call now v c' s :
    threads s !! t = Some (k, Leading call) → get now k (cache s) = ((v, true), c') →
    step t s (with_thread t k (Returning call (Ok v)) (with_cache c' s))
| step_lead_miss k call now v c' s :
    threads s !! t = Some (k, Leading call) → get now k (cache s) = ((v, false), c') →
    step t s (with_thread t k (Computing call) (with_cache c' s))
| step_fn_ok k call out s :
    threads s !! t = Some (k, Computing call) →
    step t s (with_thread t k (Storing call out) (with_log (k, Ok out) s))
| step_fn_err k call e s :
    threads s !! t = Some (k, Computing call) →
    step t s (with_thread t k (Returning call (Err e)) (with_log (k, Err e) s))
| step_put k call out now s :
    threads s !! t = Some (k, Storing call out) →
    step t s (with_thread t k (Returning call (Ok out)) (with_cache (put now k out (cache s)) s))
| step_publish k call res s :
    threads s !! t = Some (k, Returning call res) →
    step t s (close_call t k call res s)
| step_wake k call k' res s :
    threads s !! t = Some (k, Waiting call) → calls s !! call = Some (k', Some res) →
    step t s (with_thread t k (Finished res) s).

Definition any_step (s s' : state) : Prop := ∃ t, step t s s'.

Definition initial (c : resultCache) : state := mkState c ∅ ∅ ∅ 0 [].

Definition reachable (ttl max : Z) (s : state) : Prop :=
  rtc any_step (initial (newResultCache ttl max)) s.

(** The call a goroutine runs the function for. *)
Definition runs (p : phase) : option nat :=
  match p with
  | Leading c | Computing c | Storing c _ | Returning c _ => Some c
  | _ => None
  end.

(** ** The invariant *)

Definition phase_ok (s : state) (k : string) (p : phase) : Prop :=
  match p with
  | Enter | Missed => True
  | Leading c | Computing c => flights s !! k = Some c
  | Storing c out => flights s !! k = Some c ∧ (k, Ok out) ∈ log s
  | Returning c res => flights s !! k = Some c ∧ (k, res) ∈ log s
  | Waiting c =>
      flights s !! k = Some c ∨ ∃ res, calls s !! c = Some (k, Some res)
  | Finished res => (k, res) ∈ log s
  end.

Record inv (s : state) : Prop := {
  inv_cache : cache_ok (cache s);
  inv_entries : ∀ e, e ∈ entries (cache s) → (key e, Ok (val e)) ∈ log s;
  inv_phases : ∀ t k p, threads s !! t = Some (k, p) → phase_ok s k p;
  inv_unique : ∀ t1 t2 k1 k2 p1 p2 c, threads s !! t1 = Some (k1, p1) →
    threads s !! t2 = Some (k2, p2) → runs p1 = Some c → runs p2 = Some c → t1 = t2;
  inv_flights : ∀ k c, flights s !! k = Some c →
    calls s !! c = Some (k, None) ∧ ∃ t p, threads s !! t = Some (k, p) ∧ runs p = Some c;
  inv_calls : ∀ c k res, calls s !! c = Some (k, Some res) → (k, res) ∈ log s;
  inv_fresh : ∀ c, is_Some (calls s !! c) → (c < next_call s)%nat;
}.

Lemma phase_ok_more s s' k p : phase_ok s k p → flights s' = flights s → calls s' = calls s →
  (∀ x, x ∈ log s → x ∈ log s') → phase_ok s' k p.
Proof. intros Hp Hf Hc Hl. destruct p; simpl in *; rewrite ?Hf, ?Hc; naive_solver. Qed.

Lemma runs_flight s k p c : phase_ok s k p → runs p = Some c → flights s !! k = Some c.
Proof. destruct p; simpl; intros H [= <-]; (apply H || exact H). Qed.

(** Steps that leave the group alone: the goroutine moves on without changing
    the call it runs for. *)
Lemma inv_move s s' t k p : inv s →
  (∀ k' p', threads s !! t = Some (k', p') → k' = k ∧ runs p' = runs p) →
  (threads s !! t = None → runs p = None) →
  flights s' = flights s → calls s' = calls s → next_call s' = next_call s →
  threads s' = <[t := (k, p)]> (threads s) →
  (∀ x, x ∈ log s → x ∈ log s') →
  cache_ok (cache s') → (∀ e, e ∈ entries (cache s') → (key e, Ok (val e)) ∈ log s') →
  phase_ok s' k p → inv s'.
Proof.
  intros [Hc He Hp Hu Hf Hca Hfr] Hold Hnew Efl Eca En Eth Hlog Hc' He' Hp'.
  assert (Hruns : ∀ t' k' p' c, threads s' !! t' = Some (k', p') → runs p' = Some c →
    ∃ p'', threads s !! t' = Some (k', p'') ∧ runs p'' = Some c).
  { intros t' k' p' c. rewrite Eth, lookup_insert_Some. intros [[<- [= <- <-]]|[_ H]] Hr; [|by eauto].
    destruct (threads s !! t) as [[k0 p0]|] eqn:Ht; [|by rewrite Hnew in Hr].
    destruct (Hold k0 p0) as [-> Hr0]; [done|]. exists p0. by rewrite Hr0. }
  split; try done.
  - intros t' k' p'. rewrite Eth, lookup_insert_Some. intros [[<- [= <- <-]]|[_ H]]; [done|].
    eapply phase_ok_more; eauto.
  - intros t1 t2 k1 k2 p1 p2 c H1 H2 R1 R2.
    destruct (Hruns _ _ _ _ H1 R1) as (q1 & G1 & S1), (Hruns _ _ _ _ H2 R2) as (q2 & G2 & S2).
    eapply Hu; eauto.
  - intros k' c. rewrite Efl, Eca, Eth. intros Hk. destruct (Hf k' c Hk) as (Hcc & t' & p' & Ht' & Hr').
    split; [done|]. destruct (decide (t = t')) as [<-|Hne].
    + exists t, p. destruct (Hold _ _ Ht') as [-> Hr]. by rewrite lookup_insert_eq, <- Hr.
    + exists t', p'. by rewrite lookup_insert_ne.
  - intros c k' res. rewrite Eca. intros H. by apply Hlog, (Hca c).
  - intros c. rewrite Eca, En. apply Hfr.
Qed.

Hypothesis admits_spec : ∀ fl k, admits fl k = true ↔ fl !! k = None.

Lemma inv_open s t k : inv s → threads s !! t = Some (k, Missed) → flights s !! k = None →
  inv (open_call t k s).
Proof.
  intros [Hc He Hp Hu Hf Hca Hfr] Ht Hk.
  assert (Hnew : ∀ k' c, flights s !! k' = Some c → c ≠ next_call s).
  { intros k' c Hfl ->. apply Hf in Hfl as [Hcc _]. assert (H : is_Some (calls s !! next_call s)) by eauto.
    apply Hfr in H. lia. }
  assert (Hrun : ∀ t' k' p', threads s !! t' = Some (k', p') → runs p' ≠ Some (next_call s)).
  { intros t' k' p' H Hr. apply Hp in H. by apply (Hnew k' (next_call s) (runs_flight s k' p' _ H Hr)). }
  split; simpl; try done.
  - intros t' k' p'. rewrite lookup_insert_Some. intros [[<- [= <- <-]]|[Hne H]].
    { simpl. by rewrite lookup_insert_eq. }
    assert (Hfl : ∀ c, flights s !! k' = Some c → <[k:=next_call s]> (flights s) !! k' = Some c).
    { intros c Hc'. rewrite lookup_insert_ne; [done|]. intros ->. congruence. }
    apply Hp in H. destruct p' as [| |c'|c'|c' ?|c' ?|c'|]; simpl in *;
      try first [done|by apply Hfl|by split; [apply Hfl, H|apply H]].
    destruct H as [H|[res H]]; [left; by apply Hfl|right]. exists res.
    rewrite lookup_insert_ne; [done|]. intros <-. assert (Hs : is_Some (calls s !! next_call s)) by eauto.
    apply Hfr in Hs. lia.
  - intros t1 t2 k1 k2 p1 p2 c. rewrite !lookup_insert_Some.
    intros [[<- [= <- <-]]|[_ H1]] [[<- [= <- <-]]|[_ H2]] R1 R2; simplify_eq/=; try done.
    + by apply Hrun in H2.
    + by apply Hrun in H1.
    + eapply Hu; eauto.
  - intros k' c. rewrite lookup_insert_Some. intros [[<- <-]|[Hne Hfl]].
    + rewrite lookup_insert_eq. split; [done|]. exists t, (Leading (next_call s)). by rewrite lookup_insert_eq.
    + destruct (Hf k' c Hfl) as (Hcc & t' & p' & Ht' & Hr'). split.
      * rewrite lookup_insert_ne; [done|]. intros <-. by apply (Hnew k' (next_call s)).
      * exists t', p'. rewrite lookup_insert_ne; [done|]. intros ->. simplify_eq/=.
  - intros c k' res. rewrite lookup_insert_Some. intros [[_ [=]]|[_ H]]. by apply (Hca c).
  - intros c. rewrite lookup_insert. case_decide; [lia|]. intros H'%Hfr. lia.
Qed.

Lemma inv_close s t k c res : inv s → threads s !! t = Some (k, Returning c res) →
  inv (close_call t k c res s).
Proof.
  intros [Hc He Hp Hu Hf Hca Hfr] Ht. destruct (Hp _ _ _ Ht) as [Hfl Hlog].
  destruct (Hf k c Hfl) as [Hcc _].
  assert (Hother : ∀ k' c', k' ≠ k → flights s !! k' = Some c' → c' ≠ c).
  { intros k' c' Hne Hk' ->. apply Hf in Hk' as [Hk' _]. congruence. }
  split; simpl; try done.
  - intros t' k' p'. rewrite lookup_insert_Some. intros [[<- [= <- <-]]|[Hne H]]; [done|].
    assert (Hkeep : ∀ c', runs p' = Some c' → flights s !! k' = Some c' →
      delete k (flights s) !! k' = Some c').
    { intros c' Hr Hk'. rewrite lookup_delete_ne; [done|]. intros <-. simplify_eq.
      apply Hne. by eapply Hu. }
    assert (Hp' := Hp _ _ _ H). destruct p' as [| |c'|c'|c' ?|c' ?|c'|]; simpl in *;
      try first [done|by apply Hkeep|by split; [apply Hkeep; [done|apply Hp']|apply Hp']].
    destruct (decide (c' = c)) as [->|Hcne].
    + right. exists res. rewrite lookup_insert_eq. destruct Hp' as [Hk'|[r Hr]]; [|congruence].
      apply Hf in Hk' as [Hk' _]. congruence.
    + destruct Hp' as [Hk'|[r Hr]].
      * left. rewrite lookup_delete_ne; [done|]. intros <-. congruence.
      * right. exists r. by rewrite lookup_insert_ne.
  - intros t1 t2 k1 k2 p1 p2 c'. rewrite !lookup_insert_Some.
    intros [[<- [= <- <-]]|[_ H1]] [[<- [= <- <-]]|[_ H2]] R1 R2; simplify_eq/=; try done.
    eapply Hu; eauto.
  - intros k' c'. rewrite lookup_delete_Some. intros [Hne Hk'].
    destruct (Hf k' c' Hk') as (Hcc' & t' & p' & Ht' & Hr'). split.
    + rewrite lookup_insert_ne; [done|]. intros <-. by eapply Hother.
    + exists t', p'. rewrite lookup_insert_ne; [done|]. intros <-. congruence.
  - intros c' k' r. rewrite lookup_insert_Some. intros [[<- [= <- <-]]|[_ H]]; [done|by apply (Hca c')].
  - intros c'. rewrite lookup_insert. case_decide; [subst; intros _; apply Hfr; eauto|apply Hfr].
Qed.

(** ** Every reachable state is well formed *)

Lemma inv_step s s' : inv s → any_step s s' → inv s'.
Proof.
  intros Hi [t Hs]. pose proof Hi as [Hc He Hp _ _ Hca _].
  destruct Hs as [k s Ht|k now v c' s Ht Hg|k now v c' s Ht Hg|k s Ht Ha|k c s Ht Ha Hfl
    |k call now v c' s Ht Hg|k call now v c' s Ht Hg|k call out s Ht|k call e s Ht
    |k call out now s Ht|k call res s Ht|k call k' res s Ht Hcall].
  4: by apply inv_open, admits_spec.
  10: by eapply inv_close.
  all: try (pose proof (Hp _ _ _ Ht) as Hph; simpl in Hph).
  all: try (pose proof (get_entries now k (cache s) Hc) as (Hc' & Hin & Hv); rewrite Hg in Hc', Hin, Hv;
    cbn [fst snd] in Hc', Hin, Hv).
  all: try (pose proof (put_entries now k out (cache s) Hc) as (Hc' & Hin)).
  all: lazymatch goal with |- inv (with_thread ?t ?k ?p _) =>
    eapply (inv_move _ _ t k p); try exact Hi; try reflexivity; try done; simpl end.
  all: try (by intros; simplify_eq).
  all: try (by intros x Hx; apply elem_of_app; left).
  all: try (by intros e' H; apply He, Hin).
  all: try (by intros e' H; apply elem_of_app; left; apply He).
  all: try (destruct (Hv v eq_refl) as (e' & Hine & <- & <-); first [by apply He|by split; [apply Hph|apply He]]).
  all: try (split; [apply Hph|apply elem_of_app; right; by left]).
  - by left.
  - intros e' [[-> ->]|H]%Hin; [apply Hph|by apply He].
  - destruct Hph as [Hfl|[r Hr]]; [|apply (Hca call); congruence].
    apply Hi in Hfl as [Hn _]. congruence.
Qed.

Lemma inv_initial ttl max : 0 ≤ max → inv (initial (newResultCache ttl max)).
Proof.
  intros Hm. split; simpl; try (by intros; simplify_map_eq).
  - by apply new_ok.
  - intros e H. by apply not_elem_of_nil in H.
Qed.

Lemma inv_reachable ttl max s : 0 ≤ max → reachable ttl max s → inv s.
Proof.
  intros Hm H. assert (Hi := inv_initial ttl max Hm). unfold reachable in H.
  induction H as [|x y z Hxy _ IH]; [done|]. by eapply IH, inv_step.
Qed.

(** ** Progress *)

(** A step of a goroutine that is inside [do]. *)
Definition busy (s s' : state) : Prop := ∃ t, is_Some (threads s !! t) ∧ step t s s'.

Definition finished (p : phase) : Prop := match p with Finished _ => True | _ => False end.

Definition all_finished (s : state) : Prop :=
  ∀ t k p, threads s !! t = Some (k, p) → finished p.

(** Steps a goroutine may still take. *)
Definition rank (p : phase) : nat :=
  match p with
  | Enter => 6 | Missed => 5 | Leading _ => 4 | Computing _ => 3
  | Storing _ _ => 2 | Returning _ _ | Waiting _ => 1 | Finished _ => 0
  end.

Definition work (s : state) : nat :=
  sum_list_with (λ e, rank e.2.2) (map_to_list (threads s)).

Lemma rank_le p : (rank p ≤ 6)%nat.
Proof. destruct p; simpl; lia. Qed.

Lemma work_le s : (work s ≤ 6 * size (threads s))%nat.
Proof.
  unfold work. rewrite <- length_map_to_list. induction (map_to_list (threads s)) as [|e l IH]; simpl; [lia|].
  pose proof (rank_le e.2.2). lia.
Qed.

Lemma work_move s s' t x y : threads s !! t = Some x → threads s' = <[t := y]> (threads s) →
  (rank y.2 < rank x.2)%nat → (work s' < work s)%nat.
Proof.
  intros Hx Hs' Hr. unfold work. rewrite Hs', <- insert_delete_eq.
  rewrite <- (insert_delete_id (threads s) t x Hx) at 2.
  rewrite !map_to_list_insert by apply lookup_delete_eq. simpl. lia.
Qed.

Lemma busy_work s s' : busy s s' → (work s' < work s)%nat.
Proof.
  intros (t & Ht & Hs). destruct Hs; try (eapply work_move; [done|done|simpl; lia]).
  rewrite H in Ht. by destruct Ht.
Qed.

Lemma busy_bound n s s' : nsteps busy n s s' → (n + work s' ≤ work s)%nat.
Proof. induction 1 as [|n x y z Hxy _ IH]; [lia|]. apply busy_work in Hxy. lia. Qed.

(** The goroutine that runs the function is never blocked. *)
Lemma leader_moves s t k p c : threads s !! t = Some (k, p) → runs p = Some c → ∃ s', step t s s'.
Proof.
  intros Ht. destruct p; simpl; intros [= ->].
  - destruct (get 0 k (cache s)) as [[v []] c'] eqn:Hg; eexists; [by eapply step_lead_hit|by eapply step_lead_miss].
  - eexists. by eapply (step_fn_ok _ _ _ EmptyString).
  - eexists. by eapply (step_put _ _ _ _ 0).
  - eexists. by apply step_publish.
Qed.

Lemma some_moves s t k p : inv s → threads s !! t = Some (k, p) → ¬ finished p → ∃ s', busy s s'.
Proof.
  intros Hi Ht Hp.
  assert (Hsome : is_Some (threads s !! t)) by eauto.
  destruct (runs p) as [c|] eqn:Hr.
  { destruct (leader_moves s t k p c Ht Hr) as [s' Hs]. by exists s', t. }
  destruct p as [| |c|c|c ?|c ?|c|]; try done.
  - destruct (get 0 k (cache s)) as [[v []] c'] eqn:Hg;
      eexists _, t; (split; [done|]); [by eapply step_hit|by eapply step_miss].
  - destruct (admits (flights s) k) eqn:Ha.
    + eexists _, t. split; [done|]. by apply step_lead.
    + destruct (flights s !! k) as [c|] eqn:Hfl; [|by apply admits_spec in Hfl; congruence].
      eexists _, t. split; [done|]. by eapply step_join.
  - destruct (inv_phases s Hi _ _ _ Ht) as [Hfl|[r Hc]].
    + apply (inv_flights s Hi) in Hfl as (_ & t' & p' & Ht' & Hr').
      destruct (leader_moves s t' k p' c Ht' Hr') as [s' Hs]. exists s', t'. split; [by eauto|done].
    + eexists _, t. split; [done|]. by eapply step_wake.
Qed.

Lemma busy_any s s' : rtc busy s s' → rtc any_step s s'.
Proof. apply rtc_subrel. intros x y (t & _ & H). by exists t. Qed.

(** ** The properties *)

(** At any moment at most one goroutine runs the function of a key. *)
Lemma one_runner s t1 t2 k p1 p2 c1 c2 : inv s →
  threads s !! t1 = Some (k, p1) → threads s !! t2 = Some (k, p2) →
  runs p1 = Some c1 → runs p2 = Some c2 → t1 = t2.
Proof.
  intros Hi H1 H2 R1 R2.
  assert (F1 := runs_flight _ _ _ _ (inv_phases s Hi _ _ _ H1) R1).
  assert (F2 := runs_flight _ _ _ _ (inv_phases s Hi _ _ _ H2) R2).
  rewrite F1 in F2. injection F2 as <-. by eapply (inv_unique s Hi).
Qed.

(** *** One success for each key *)

Definition cached (k : string) (s : state) : Prop := ∃ e, e ∈ entries (cache s) ∧ key e = k.

(** A step in which no result is lost: none expires and none is evicted. *)
Definition keeping_step (s s' : state) : Prop := any_step s s' ∧ ∀ k, cached k s → cached k s'.

Definition is_success (k : string) (e : string * outcome) : bool :=
  bool_decide (e.1 = k) && match e.2 with Ok _ => true | Err _ => false end.

(** The runs of the function of [k] that returned a result. *)
Definition successes (k : string) (s : state) : list (string * outcome) := List.filter (is_success k) (log s).

Record once (k : string) (s : state) : Prop := {
  on_most : (length (successes k s) ≤ 1)%nat;
  on_kept : successes k s ≠ [] → cached k s ∨ ∃ t c out, threads s !! t = Some (k, Storing c out);
  on_first t c : threads s !! t = Some (k, Computing c) → successes k s = [];
}.

(** A step that leaves the log alone, and starts no function of [k]. *)
Lemma once_same k s s' t k0 p : once k s → (∀ k, cached k s → cached k s') →
  log s' = log s → threads s' = <[t := (k0, p)]> (threads s) →
  (∀ c, k0 = k → p = Computing c → successes k s = []) →
  (∀ c out, threads s !! t = Some (k, Storing c out) → cached k s') →
  once k s'.
Proof.
  intros [Hm Hk Hf] Hkeep Hl Ht Hp Hst. assert (Hs : successes k s' = successes k s) by (unfold successes; by rewrite Hl).
  split; rewrite ?Hs; [done| |].
  - intros Hne. destruct (Hk Hne) as [Hc|(t' & c & out & Ht')]; [left; by apply Hkeep|].
    destruct (decide (t' = t)) as [->|Hn]; [left; by eapply Hst|right]. exists t', c, out. by rewrite Ht, lookup_insert_ne.
  - intros t' c. rewrite Ht. destruct (decide (t' = t)) as [->|Hn].
    + rewrite lookup_insert_eq. intros [= -> ->]. by eapply Hp.
    + rewrite lookup_insert_ne by done. apply Hf.
Qed.

(** The function of [k0] has returned. *)
Lemma once_returned k s t k0 c p res : inv s → once k s → threads s !! t = Some (k0, Computing c) →
  (∀ out, res = Ok out → p = Storing c out) → (∀ c', p ≠ Computing c') →
  once k (with_thread t k0 p (with_log (k0, res) s)).
Proof.
  intros Hi Ho Ht Hp Hnc. pose proof Ho as [Hm Hk Hf].
  assert (Hsucc : successes k (with_thread t k0 p (with_log (k0, res) s)) =
    successes k s ++ (if is_success k (k0, res) then [(k0, res)] else [])).
  { unfold successes. cbn [log with_thread with_log]. rewrite List.filter_app. cbn [List.filter]. by destruct (is_success _ _). }
  destruct (is_success k (k0, res)) eqn:Hr.
  - unfold is_success in Hr. cbn in Hr. apply andb_true_iff in Hr as [Hk0 Hr]. apply bool_decide_eq_true in Hk0. subst k0.
    destruct res as [out|]; [|done].
    rewrite (Hf _ _ Ht) in Hsucc. cbn [app] in Hsucc. split; rewrite Hsucc; [done| |].
    + intros _. right. exists t, c, out. cbn. by rewrite lookup_insert_eq, (Hp out).
    + intros t' c'. cbn. destruct (decide (t' = t)) as [->|Hn].
      * rewrite lookup_insert_eq. intros [= Heq]. by destruct (Hnc c').
      * rewrite lookup_insert_ne by done. intros Ht'. destruct Hn. by eapply one_runner.
  - rewrite app_nil_r in Hsucc. split; rewrite Hsucc; [done| |].
    + intros Hne. destruct (Hk Hne) as [Hc|(t' & c' & out & Ht')]; [by left|right]. exists t', c', out. cbn.
      rewrite lookup_insert_ne; [done|]. intros <-. simplify_eq.
    + intros t' c'. cbn. destruct (decide (t' = t)) as [->|Hn].
      * rewrite lookup_insert_eq. intros [= _ Heq]. by destruct (Hnc c').
      * rewrite lookup_insert_ne by done. apply Hf.
Qed.

Lemma once_step k s s' : inv s → 0 < max (cache s) → once k s → keeping_step s s' → once k s'.
Proof.
  intros Hi Hmax Ho [[t Hs] Hkeep].
  destruct Hs as [k0 s Ht|k0 now v c' s Ht Hg|k0 now v c' s Ht Hg|k0 s Ht Ha|k0 c s Ht Ha Hfl
    |k0 call now v c' s Ht Hg|k0 call now v c' s Ht Hg|k0 call out s Ht|k0 call e s Ht
    |k0 call out now s Ht|k0 call res s Ht|k0 call k' res s Ht Hcall].
  8: by eapply once_returned; [done..|naive_solver|].
  8: by eapply once_returned.
  all: eapply (once_same k _ _ t k0); [exact Ho|exact Hkeep|reflexivity|reflexivity| |]; try (by intros; simplify_eq).
  - (* the second look, within the flight *)
    intros c -> [= <-]. destruct (successes k s) as [|x l] eqn:Hsucc; [done|exfalso].
    assert (Hmiss : ¬ cached k (with_thread t k (Computing call) (with_cache c' s))).
    { intros (e & He & Hk). by eapply get_miss; [apply Hi|exact Hg|exact He|]. }
    destruct (on_kept _ _ Ho) as [Hc|(t' & c & out & Ht')]; [by rewrite Hsucc|by apply Hmiss, Hkeep|].
    assert (t = t') as <- by (by eapply (one_runner s)). congruence.
  - intros c out' Hst. rewrite Ht in Hst. injection Hst as -> <- <-. cbn. apply put_held; [apply Hi|done].
Qed.

Lemma step_max t s s' : inv s → step t s s' → max (cache s') = max (cache s).
Proof.
  intros Hi Hs. destruct Hs; cbn; try done;
    try (match goal with Hg : get ?now ?k ?c = _ |- _ =>
      pose proof (get_refines now k c (inv_cache _ Hi)) as Hr; rewrite Hg in Hr; apply Hr end).
  apply (put_refines now k out (cache s)). apply Hi.
Qed.

Lemma reach_once ttl max s k : 0 < max → rtc keeping_step (initial (newResultCache ttl max)) s → inv s ∧ once k s ∧ Cache.max (cache s) = max.
Proof.
  intros Hm Hr. assert (Hi : inv (initial (newResultCache ttl max))) by (apply inv_initial; lia).
  assert (Ho : once k (initial (newResultCache ttl max))) by (split; cbn; [lia|done|by intros; simplify_map_eq]).
  assert (Hx : Cache.max (cache (initial (newResultCache ttl max))) = max) by done.
  revert Hi Ho Hx. induction Hr as [|x y z Hxy _ IH]; intros Hi Ho Hx; [done|]. apply IH.
  - by eapply inv_step, Hxy.
  - by eapply once_step; [..|exact Hxy]; [|lia|].
  - destruct Hxy as [[t Hs] _]. by rewrite (step_max t x y Hi Hs).
Qed.

(** C26: The work for a key is done once.  Whatever the number of goroutines
    that call [resultCache.do] and however they interleave, as long as no
    result expires or is evicted the function of a key returns a result at
    most once, and everyone who got a result for the key got that one.  (A
    goroutine that missed the cache before the result was stored, and comes to
    the group after the call for it has ended, looks again and finds it.)
    Errors are not stored: after one the function may run again. *)
Theorem do_succeeds_once ttl max s k : 0 < max → rtc keeping_step (initial (newResultCache ttl max)) s →
  (length (successes k s) ≤ 1)%nat ∧
  ∀ t1 t2 v1 v2, threads s !! t1 = Some (k, Finished (Ok v1)) → threads s !! t2 = Some (k, Finished (Ok v2)) → v1 = v2.
Proof.
  intros Hm Hr. destruct (reach_once ttl max s k Hm Hr) as (Hi & [Hone _ _] & _). split; [done|].
  assert (Hin : ∀ t v, threads s !! t = Some (k, Finished (Ok v)) → (k, Ok v) ∈ successes k s).
  { intros t v Ht. pose proof (inv_phases s Hi _ _ _ Ht) as Hl. cbn in Hl. unfold successes.
    apply list_elem_of_In, filter_In. split; [by apply list_elem_of_In|]. unfold is_success. cbn. by rewrite bool_decide_true. }
  intros t1 t2 v1 v2 H1%Hin H2%Hin. destruct (successes k s) as [|x [|y l]]; cbn in Hone; [|set_solver|lia].
  by apply not_elem_of_nil in H1.
Qed.

(** Whatever the interleaving, what [resultCache.do] returns for a key was
    returned by a run of the function for that very key, and the cache holds
    only successful results of such runs: errors are never cached. *)
Theorem do_provenance ttl max s : 0 ≤ max → reachable ttl max s →
  (∀ t k res, threads s !! t = Some (k, Finished res) → (k, res) ∈ log s) ∧
  (∀ e, e ∈ entries (cache s) → (key e, Ok (val e)) ∈ log s).
Proof.
  intros Hm Hr. apply inv_reachable in Hr; [|done]. split.
  - intros t k res. apply (inv_phases s Hr).
  - apply (inv_entries s Hr).
Qed.

(** No deadlock and no livelock in [resultCache.do]: whatever the
    scheduler does, the goroutines inside it take at most six steps each, and
    where none can take another step every one of them has returned. *)
Theorem do_completes ttl max s : 0 ≤ max → reachable ttl max s →
  (∀ n s', nsteps busy n s s' → (n ≤ 6 * size (threads s))%nat) ∧
  (∀ s', rtc busy s s' → (∀ s'', ¬ busy s' s'') → all_finished s').
Proof.
  intros Hm Hr. split.
  - intros n s' H%busy_bound. pose proof (work_le s). lia.
  - intros s' Hs Hstuck t k p Ht.
    assert (Hi : inv s').
    { apply (inv_reachable ttl max); [done|]. eapply rtc_trans; [exact Hr|by apply busy_any]. }
    destruct p; try done;
      (destruct (some_moves s' t k _ Hi Ht) as [s'' Hb]; [by intros []|by apply Hstuck in Hb]).
Qed.

End conc.

(** ** Witnesses: two goroutines ask for one key, the second joins the first *)

Definition one_at_a_time (fl : gmap string nat) (k : string) : bool := bool_decide (fl !! k = None).

Lemma one_at_a_time_spec fl k : one_at_a_time fl k = true ↔ fl !! k = None.
Proof. apply bool_decide_eq_true. Qed.

Definition two_calls : state (error := unit) :=
  let c := newResultCache 10 2 in
  mkState c {["k" := 0%nat]} {[0%nat := ("k", None)]}
    {[0%nat := ("k", Computing 0); 1%nat := ("k", Waiting 0)]} 1 [].

Lemma two_calls_reachable : reachable one_at_a_time 10 2 two_calls.
Proof.
  assert (Hg : get 0 "k" (newResultCache 10 2) = ((EmptyString, false), newResultCache 10 2)) by reflexivity.
  unfold reachable. set (c := newResultCache 10 2) in *.
  eapply rtc_l; [exists 0%nat; by apply (step_call _ _ "k")|].
  eapply rtc_l; [exists 0%nat; by eapply (step_miss _ _ "k" 0)|].
  eapply rtc_l; [exists 0%nat; by apply (step_lead _ _ "k")|].
  eapply rtc_l; [exists 0%nat; by eapply (step_lead_miss _ _ "k" 0 0)|].
  eapply rtc_l; [exists 1%nat; by apply (step_call _ _ "k")|].
  eapply rtc_l; [exists 1%nat; by eapply (step_miss _ _ "k" 0)|].
  eapply rtc_l; [exists 1%nat; by eapply (step_join _ _ "k" 0)|].
  apply rtc_refl.
Qed.

(** The leader's function has returned and both goroutines have been served. *)
Definition both_served : state (error := unit) :=
  let c := put 0 "k" "v" (newResultCache 10 2) in
  mkState c ∅ {[0%nat := ("k", Some (Ok "v"))]}
    {[0%nat := ("k", Finished (Ok "v")); 1%nat := ("k", Finished (Ok "v"))]} 1 [("k", Ok "v")].

Lemma two_calls_served : rtc (busy one_at_a_time) two_calls both_served.
Proof.
  unfold two_calls, both_served. set (c := newResultCache 10 2).
  eapply rtc_l; [exists 0%nat; split; [by eexists|by apply (step_fn_ok _ _ "k" 0 "v")]|].
  eapply rtc_l; [exists 0%nat; split; [by eexists|by apply (step_put _ _ "k" 0 "v" 0)]|].
  eapply rtc_l; [exists 0%nat; split; [by eexists|by apply (step_publish _ _ "k" 0 (Ok "v"))]|].
  eapply rtc_l; [exists 1%nat; split; [by eexists|by apply (step_wake _ _ "k" 0 "k" (Ok "v"))]|].
  apply rtc_refl.
Qed.

(** A third goroutine that missed before the result was stored leads a call of
    its own after the first, looks again, and is served the stored result. *)
Definition late_state (c : resultCache) : state (error := unit) :=
  mkState c ∅ {[0%nat := ("k", Some (Ok "v")); 1%nat := ("k", Some (Ok "v"))]}
    {[0%nat := ("k", Finished (Ok "v")); 1%nat := ("k", Finished (Ok "v")); 2%nat := ("k", Finished (Ok "v"))]} 2 [("k", Ok "v")].

Definition late_served : state (error := unit) := late_state (get 1 "k" (put 0 "k" "v" (newResultCache 10 2))).2.

(** A step that does not touch the cache keeps what it holds. *)
Lemma keeps_same (s s' : state (error := unit)) t : step one_at_a_time t s s' → cache s' = cache s → keeping_step one_at_a_time s s'.
Proof. intros Hs Hc. split; [by exists t|]. unfold cached. by rewrite Hc. Qed.

Abbreviation keeping := (rtc (keeping_step one_at_a_time)).

(** The first goroutine runs the function, the second waits for it, and the
    third has missed the cache; then the first two have returned. *)
Definition late_in (c : resultCache) : state (error := unit) :=
  mkState c {["k" := 0%nat]} {[0%nat := ("k", None)]}
    {[0%nat := ("k", Computing 0); 1%nat := ("k", Waiting 0); 2%nat := ("k", Missed)]} 1 [].
Definition late_next (c : resultCache) : state (error := unit) :=
  mkState c ∅ {[0%nat := ("k", Some (Ok "v"))]}
    {[0%nat := ("k", Finished (Ok "v")); 1%nat := ("k", Finished (Ok "v")); 2%nat := ("k", Missed)]} 1 [("k", Ok "v")].

Section late.
Context (c0 c1 c2 : resultCache) (Hg : get 0 "k" c0 = ((EmptyString, false), c0)) (Hp : put 0 "k" "v" c0 = c1).
Context (Hg1 : get 1 "k" c1 = (("v", true), c2)) (He0 : entries c0 = []) (He2 : entries c2 = entries c1).

Lemma late_enters : keeping (initial c0) (late_in c0).
Proof.
  unfold late_in.
  eapply rtc_l; [eapply (keeps_same _ _ 0); [by apply (step_call _ _ "k")|done]|].
  eapply rtc_l; [eapply (keeps_same _ _ 0); [by eapply (step_miss _ _ "k" 0)|done]|].
  eapply rtc_l; [eapply (keeps_same _ _ 0); [by apply (step_lead _ _ "k")|done]|].
  eapply rtc_l; [eapply (keeps_same _ _ 0); [by eapply (step_lead_miss _ _ "k" 0 0)|done]|].
  eapply rtc_l; [eapply (keeps_same _ _ 1); [by apply (step_call _ _ "k")|done]|].
  eapply rtc_l; [eapply (keeps_same _ _ 1); [by eapply (step_miss _ _ "k" 0)|done]|].
  eapply rtc_l; [eapply (keeps_same _ _ 1); [by eapply (step_join _ _ "k" 0)|done]|].
  eapply rtc_l; [eapply (keeps_same _ _ 2); [by apply (step_call _ _ "k")|done]|].
  eapply rtc_l; [eapply (keeps_same _ _ 2); [by eapply (step_miss _ _ "k" 0)|done]|].
  apply rtc_refl.
Qed.

Lemma late_returns : keeping (late_in c0) (late_next c1).
Proof.
  unfold late_in, late_next.
  eapply rtc_l; [eapply (keeps_same _ _ 0); [by apply (step_fn_ok _ _ "k" 0 "v")|done]|].
  eapply rtc_l; [split; [exists 0%nat; by apply (step_put _ _ "k" 0 "v" 0)|]|].
  { intros k (e & He & _). cbn in He. rewrite He0 in He. by apply not_elem_of_nil in He. }
  unfold with_cache at 1. cbn [with_log with_thread cache]. rewrite Hp.
  eapply rtc_l; [eapply (keeps_same _ _ 0); [by apply (step_publish _ _ "k" 0 (Ok "v"))|done]|].
  eapply rtc_l; [eapply (keeps_same _ _ 1); [by apply (step_wake _ _ "k" 0 "k" (Ok "v"))|done]|].
  apply rtc_refl.
Qed.

Lemma late_hits : keeping (late_next c1) (late_state c2).
Proof.
  unfold late_next, late_state.
  eapply rtc_l; [eapply (keeps_same _ _ 2); [by apply (step_lead _ _ "k")|done]|].
  eapply rtc_l; [split; [exists 2%nat; by apply (step_lead_hit _ _ "k" 1 1 "v" c2)|]|].
  { intros k. unfold cached. cbn. by rewrite He2. }
  eapply rtc_l; [eapply (keeps_same _ _ 2); [by apply (step_publish _ _ "k" 1 (Ok "v"))|done]|].
  apply rtc_refl.
Qed.

Lemma late_run_from : keeping (initial c0) (late_state c2).
Proof. etrans; [exact late_enters|]. etrans; [exact late_returns|exact late_hits]. Qed.
End late.

Lemma late_run : keeping (initial (newResultCache 10 2)) late_served.
Proof. unfold late_served. by eapply late_run_from. Qed.

Lemma do_succeeds_once_witness : threads late_served !! 2%nat = Some ("k", Finished (Ok "v")) ∧
  (length (successes "k" late_served) ≤ 1)%nat ∧ ∀ v, threads late_served !! 0%nat = Some ("k", Finished (Ok v)) → v = "v".
Proof.
  destruct (do_succeeds_once one_at_a_time one_at_a_time_spec 10 2 late_served "k" ltac:(lia) late_run) as [Hone Hsame].
  assert (H2 : threads late_served !! 2%nat = Some ("k", Finished (Ok "v"))) by reflexivity.
  split; [exact H2|]. split; [exact Hone|]. intros v Hv. exact (Hsame 0%nat 2%nat v "v" Hv H2).
Defined.

Lemma both_served_reachable : reachable one_at_a_time 10 2 both_served.
Proof. eapply rtc_trans; [exact two_calls_reachable|eapply busy_any, two_calls_served]. Qed.

Lemma do_provenance_witness : ("k", Ok "v") ∈ log both_served.
Proof.
  refine (proj1 (do_provenance one_at_a_time one_at_a_time_spec 10 2 both_served ltac:(lia)
    both_served_reachable) 0%nat "k" (Ok "v") _). reflexivity.
Defined.

Lemma do_completes_witness : all_finished both_served.
Proof.
  refine (proj2 (do_completes one_at_a_time one_at_a_time_spec 10 2 two_calls ltac:(lia) two_calls_reachable)
    both_served two_calls_served _).
  intros s'' Hb%busy_work. vm_compute in Hb. lia.
Defined.
