(* ===== verification/Pages.v ===== *)
(** * Listing in pages (internal/k8s/list.go)

    [ListPages] calls a closure once per page until the server has no more.
    The closure appends to variables of its caller; they are the state [acc]
    threaded through the calls, kept on an error as the source keeps them. *)

From S2P Require Import Prelude GoStrings Value Kube.
Local Open Scope Z_scope.
Local Open Scope mcp_scope.

Definition PageSize : Z := 500.

Definition with_continue (next : string) (o : ListOptions) : ListOptions :=
  mkOpts (LabelSel o) (FieldSel o) (Limit o) next.

Section pages.
Context {A : Type}.

(** A closure passed to [ListPages]: [(next, err)] and the new state. *)
Definition page_fn : Type := ListOptions → A → io (result error string * A).

Fixpoint pages_loop (fuel : nat) (list : page_fn) (opts : ListOptions) (acc : A) : io (option error * A) :=
  match fuel with
  | O => OutOfFuel
  | S fuel' =>
      let! r := list opts acc in
      match r with
      | (Err err, acc') => Ret (Some err, acc')
      | (Ok next, acc') =>
          if decide (next = "") then Ret (None, acc')
          else pages_loop fuel' list (with_continue next opts) acc'
      end
  end.

Definition ListPages (fuel : nat) (list : page_fn) (acc : A) : io (option error * A) :=
  pages_loop fuel list (mkOpts "" "" PageSize "") acc.

(** A closure that makes one list request and takes each item in turn; [fail]
    is what it does to the request's error. *)
Definition list_page {X} (req : ListOptions → io (result error (list X * string)))
    (fail : error → error) (each : A → X → A) : page_fn := λ opts acc,
  let! r := req opts in
  match r with
  | Err err => Ret (Err (fail err), acc)
  | Ok (items, next) => Ret (Ok next, fold_left each items acc)
  end.

(** (c *Client) ListCustom: the outcome is [(installed, err)]. *)
Fixpoint ListCustom `{GVRText} (fuel : nat) (group resource : string) (versions : list string)
    (each : A → obj → A) (acc : A) : io ((bool * option error) * A) :=
  match versions with
  | [] => Ret ((false, None), acc)
  | v :: versions' =>
      let gvr := mkGVR group v resource in
      let! r := ListPages fuel (list_page (do_dynlist Server gvr "") id each) acc in
      match r with
      | (Some err, acc') =>
          if IsNotFound err then ListCustom fuel group resource versions' each acc'
          else Ret ((false, Some (wrap_err ("list " +:+ gvr_String gvr) err)), acc')
      | (None, acc') => Ret ((true, None), acc')
      end
  end.

(** ** Properties *)

(** What a server that answers page requests by their continue token serves
    from [tok] on: the pages, the tokens asked for, and the error that ended
    the list, if one did. *)
Inductive served {X} (srv : string → result error (list X * string))
    : string → list (list X) → list string → option error → Prop :=
| served_err tok e : srv tok = Err e → served srv tok [] [tok] (Some e)
| served_last tok items : srv tok = Ok (items, "") → served srv tok [items] [tok] None
| served_more tok items next ps ts r : srv tok = Ok (items, next) → next ≠ "" →
    served srv next ps ts r → served srv tok (items :: ps) (tok :: ts) r.

(** The exchange for a list of tokens. *)
Definition page_event {X} (mk : ListOptions → request)
    (rep : ∀ o, result error (list X * string) → reply (mk o))
    (srv : string → result error (list X * string)) (tok : string) : event request reply :=
  let o := mkOpts "" "" PageSize tok in Effects.Event (mk o) (rep o (srv tok)).

Lemma pages_loop_served {X} (mk : ListOptions → request)
    (rep : ∀ o, result error (list X * string) → reply (mk o))
    (req : ListOptions → io (result error (list X * string))) fail each srv fuel tok ps ts r acc :
  (∀ o x, runs (req o) [Effects.Event (mk o) (rep o x)] x) →
  served srv tok ps ts r → (length ts ≤ fuel)%nat →
  runs (pages_loop fuel (list_page req fail each) (mkOpts "" "" PageSize tok) acc)
    (map (page_event mk rep srv) ts) (fail <$> r, fold_left each (concat ps) acc).
Proof.
  intros Hreq Hs. revert fuel acc.
  induction Hs as [tok e Hsrv|tok items Hsrv|tok items next ps ts r Hsrv Hne _ IH]; intros [|fuel] acc Hfuel;
    simpl in Hfuel; try lia; cbn [pages_loop map]; apply runs_bind;
    unfold page_event at 1; rewrite Hsrv.
  - exists [Effects.Event (mk (mkOpts "" "" PageSize tok)) (rep _ (Err e))], [], (Err (fail e), acc).
    split; [done|]. split; [|done]. apply runs_bind. eexists _, [], _. by split_and!; [|apply Hreq|].
  - exists [Effects.Event (mk (mkOpts "" "" PageSize tok)) (rep _ (Ok (items, "")))], [], (Ok "", fold_left each items acc).
    split; [done|]. split; [|rewrite decide_True by done; simpl concat; by rewrite app_nil_r].
    apply runs_bind. eexists _, [], _. by split_and!; [|apply Hreq|].
  - exists [Effects.Event (mk (mkOpts "" "" PageSize tok)) (rep _ (Ok (items, next)))], (map (page_event mk rep srv) ts),
      (Ok next, fold_left each items acc).
    split; [done|]. split.
    + apply runs_bind. eexists _, [], _. by split_and!; [|apply Hreq|].
    + rewrite decide_False by done. simpl concat. rewrite fold_left_app. apply (IH fuel). lia.
Qed.

End pages.

Arguments page_fn : clear implicits.

Lemma do_list_runs w k ns o x : runs (do_list w k ns o) [Effects.Event (List w k ns o) x] x.
Proof. by apply runs_do_list. Qed.

Lemma do_dynlist_runs w g ns o x : runs (do_dynlist w g ns o) [Effects.Event (DynList w g ns o) x] x.
Proof. by apply runs_do_dynlist. Qed.

(** One page of a custom resource, as the server answers it. *)
Definition custom_event (g : GVR) (srv : string → result error (list obj * string)) (tok : string) :
    event request reply :=
  let o := mkOpts "" "" PageSize tok in Effects.Event (DynList Server g "" o) (srv tok : reply (DynList Server g "" o)).

Lemma custom_pages {A} g (each : A → obj → A) srv fuel ps ts r acc :
  served srv "" ps ts r → (length ts ≤ fuel)%nat →
  runs (ListPages fuel (list_page (do_dynlist Server g "") id each) acc)
    (map (custom_event g srv) ts) (r, fold_left each (concat ps) acc).
Proof.
  intros Hs Hf. pose proof (pages_loop_served (DynList Server g "") (λ o x, x) (do_dynlist Server g "") id each
    srv fuel "" ps ts r acc (λ o x, do_dynlist_runs _ _ _ _ x) Hs Hf) as H.
  by destruct r.
Qed.

Section custom.
Context {A : Type} `{GVRText} (group resource : string) (each : A → obj → A) (fuel : nat).
Context (srv : string → string → result error (list obj * string)).

(** The cluster does not serve a version of the resource. *)
Definition not_served (v : string) : Prop := ∃ e, srv v "" = Err e ∧ IsNotFound e = true.

Definition version_event (v tok : string) : event request reply := custom_event (mkGVR group v resource) (srv v) tok.

Lemma ListCustom_skip missing vs tr out acc :
  (0 < fuel)%nat → Forall not_served missing → runs (ListCustom fuel group resource vs each acc) tr out →
  runs (ListCustom fuel group resource (missing ++ vs) each acc) (map (λ v, version_event v "") missing ++ tr) out.
Proof.
  intros Hf Hm Hr. induction Hm as [|v missing (e & He & Hn) _ IH]; [done|].
  simpl. apply runs_bind. exists [version_event v ""], (map (λ v, version_event v "") missing ++ tr), (Some e, acc).
  split; [done|]. split; [|by rewrite Hn].
  apply (custom_pages _ each (srv v) fuel [] [""] (Some e) acc); [by constructor|simpl; lia].
Qed.

(** C34: [ListCustom] reads the first version of the resource that the cluster
    serves, in full, and no other; it reports an uninstalled resource as
    [installed = false] without an error, and any other error of the list. *)
Theorem ListCustom_first_served missing v rest ps ts r acc :
  Forall not_served missing → served (srv v) "" ps ts r → (length ts ≤ fuel)%nat → (0 < fuel)%nat →
  (∀ e, r = Some e → IsNotFound e = false) →
  runs (ListCustom fuel group resource (missing ++ v :: rest) each acc)
    (map (λ m, version_event m "") missing ++ map (version_event v) ts)
    (match r with
     | None => (true, None)
     | Some e => (false, Some (wrap_err ("list " +:+ gvr_String (mkGVR group v resource)) e))
     end, fold_left each (concat ps) acc) ∧
  runs (ListCustom fuel group resource missing each acc)
    (map (λ m, version_event m "") missing) ((false, None), acc).
Proof.
  intros Hm Hs Hl Hf He. split.
  - apply ListCustom_skip; [done..|]. simpl. apply runs_bind.
    exists (map (version_event v) ts), [], (r, fold_left each (concat ps) acc).
    split; [by rewrite app_nil_r|]. split; [by apply custom_pages|].
    destruct r as [e|]; [|done]. by rewrite (He e).
  - pose proof (ListCustom_skip missing [] [] ((false, None), acc) acc Hf Hm) as Hr.
    rewrite !app_nil_r in Hr. by apply Hr.
Qed.

End custom.

(** C33: A paged list is never cut short: whatever number of pages the server
    serves, [ListPages] asks for each once, in order and from the start, feeds
    every item to the caller in order, and stops at the first error with the
    items so far. *)
Theorem ListPages_complete {A} w k ns fail (each : A → object k → A) srv fuel ps ts r acc :
  served srv "" ps ts r → (length ts ≤ fuel)%nat →
  runs (ListPages fuel (list_page (do_list w k ns) fail each) acc)
    (map (λ tok, let o := mkOpts "" "" PageSize tok in Effects.Event (List w k ns o) (srv tok : reply (List w k ns o))) ts)
    (fail <$> r, fold_left each (concat ps) acc).
Proof.
  apply (pages_loop_served (List w k ns) (λ o x, x)). intros. apply do_list_runs.
Qed.

(** ** Witnesses *)

(** Three pages, as in the source's test. *)
Definition three_pages (tok : string) : result error (list ObjectMeta * string) :=
  let item n := mkMeta n "" [] [] "" 0 None None in
  if decide (tok = "") then Ok ([item "n1"; item "n2"], "a")
  else if decide (tok = "a") then Ok ([item "n3"], "b")
  else if decide (tok = "b") then Ok ([], "")
  else Err (ErrText "gone").

Definition collect (acc : list string) (m : ObjectMeta) : list string := acc ++ [Name m].

Lemma ListPages_complete_witness : ∃ tr, length tr = 3%nat ∧
  runs (ListPages 3 (list_page (do_list Server KNamespaces "") id collect) []) tr (None, ["n1"; "n2"; "n3"]).
Proof.
  eexists (map (λ tok, let o := mkOpts "" "" PageSize tok in
    Effects.Event (List Server KNamespaces "" o) (three_pages tok : reply (List Server KNamespaces "" o))) [""; "a"; "b"]).
  split; [reflexivity|].
  apply (ListPages_complete Server KNamespaces "" id collect three_pages 3
    [[mkMeta "n1" "" [] [] "" 0 None None; mkMeta "n2" "" [] [] "" 0 None None]; [mkMeta "n3" "" [] [] "" 0 None None]; []]
    [""; "a"; "b"] None []); [|simpl; lia].
  eapply served_more; [reflexivity|discriminate|].
  eapply served_more; [reflexivity|discriminate|]. by eapply served_last.
Defined.

Definition plain_gvr_text : GVRText :=
  {| gvr_String := λ g, Group g +:+ "/" +:+ Version g +:+ ", Resource=" +:+ Resource g |}.

(** A cluster that serves only v1beta1. *)
Definition old_cluster (v tok : string) : result error (list obj * string) :=
  if decide (v = "v1beta1") then Ok ([[("kind", VStr "Redis")]], "")
  else Err (ErrAPI (mkStatus true false false false "not found")).

Lemma ListCustom_first_served_witness : ∃ tr,
  runs (ListCustom (H:=plain_gvr_text) 1 "g" "redis" ["v1beta2"; "v1beta1"] (λ acc o, acc ++ [o]) []) tr
    ((true, None), [[("kind", VStr "Redis")]]).
Proof.
  eexists. apply (ListCustom_first_served (H:=plain_gvr_text) "g" "redis" (λ acc o, acc ++ [o]) 1 old_cluster
    ["v1beta2"] "v1beta1" [] [[[("kind", VStr "Redis")]]] [""] None []).
  - constructor; [|constructor]. eexists. split; reflexivity.
  - by constructor.
  - simpl; lia.
  - lia.
  - discriminate.
Defined.

(** A cluster that stops serving v1 between two pages, and serves v2 whole. *)
Definition changing_cluster (s : unit) (q : request) : reply q * unit :=
  (match q as q return reply q with
   | DynList _ g _ o =>
       if decide (Version g = "v1") then
         if decide (Continue o = "") then Ok ([[("kind", VStr "Redis")]], "next")
         else Err (ErrAPI (mkStatus true false false false "not found"))
       else Ok ([[("kind", VStr "Redis")]], "")
   | Get _ _ _ _ | DynGet _ _ _ _ | CreateJob _ _ _ => Err (ErrText "no")
   | List _ _ _ _ => Ok ([], "")
   | GetLogs _ _ _ _ | GetRaw _ _ => Ok ""
   | NewClient _ => None
   | ExecPod _ _ _ _ _ _ => mkExec None [] None false
   | Now => 0
   | Tick => false
   end, s).

(** The pages of a version that is given up are kept, so one object is handed
    to the caller twice. *)
Lemma ListCustom_keeps_pages : ∃ tr,
  runs (ListCustom (H:=plain_gvr_text) 2 "g" "redis" ["v1"; "v2"] (λ acc o, acc ++ [o]) []) tr
    ((true, None), [[("kind", VStr "Redis")]; [("kind", VStr "Redis")]]).
Proof. eexists. apply (interp_runs changing_cluster tt _ _ _ tt). vm_compute. reflexivity. Qed.
