(* ===== verification/Json.v ===== *)
(** * JSON text (encoding/json)

    Encoding as the program uses it: a map's keys sorted, strings escaped with
    the HTML-safe rules of the package, compact (Marshal) and indented
    (MarshalIndent).  A value holding NaN or an infinity cannot be marshalled. *)

From S2P Require Import Prelude GoStrings GoTime Value Floats.
Local Open Scope Z_scope.

Definition quote : string := String (z_byte 34) "".

Definition escape_rune (p : Z * string) : string :=
  let '(r, raw) := p in
  if (r =? rune_error) && (String.length raw =? 1)%nat then backslash +:+ "ufffd"
  else if (r =? 92) || (r =? 34) then backslash +:+ raw
  else if r =? 8 then backslash +:+ "b" else if r =? 12 then backslash +:+ "f"
  else if r =? 10 then backslash +:+ "n" else if r =? 13 then backslash +:+ "r"
  else if r =? 9 then backslash +:+ "t"
  else if (r <? 32) || (r =? 60) || (r =? 62) || (r =? 38) || (r =? 8232) || (r =? 8233)
  then backslash +:+ "u" +:+ hex 4 r
  else raw.

Definition json_string (s : string) : string := quote +:+ cat (map escape_rune (decode s)) +:+ quote.

(** Object keys in byte order. *)
Definition by_key {A} (x y : string * A) : bool := str_lt x.1 y.1.

(** ** Documents

    What is left of a Go value when it is encoded: a number is its text, and
    the members of an object stand in the order they are written in, the
    declaration order of a struct's fields and the byte order of a map's keys. *)
Unset Elimination Schemes.
Inductive json :=
| JNull
| JBool (b : bool)
| JNum (text : string)
| JStr (s : string)
| JArr (l : list json)
| JObj (m : list (string * json)).
Set Elimination Schemes.

Definition json_ind (P : json → Prop) (Hnull : P JNull) (Hbool : ∀ b, P (JBool b)) (Hnum : ∀ t, P (JNum t))
    (Hstr : ∀ s, P (JStr s)) (Harr : ∀ l, Forall P l → P (JArr l))
    (Hobj : ∀ m, Forall (λ e, P e.2) m → P (JObj m)) : ∀ j, P j :=
  fix go j :=
    match j with
    | JNull => Hnull
    | JBool b => Hbool b
    | JNum t => Hnum t
    | JStr s => Hstr s
    | JArr l => Harr l
        ((fix gol l : Forall P l := match l with [] => Forall_nil_2 P | x :: l' => Forall_cons_2 P x l' (go x) (gol l') end) l)
    | JObj m => Hobj m
        ((fix gom m : Forall (λ e, P e.2) m :=
          match m with [] => Forall_nil_2 _ | e :: m' => Forall_cons_2 (λ e, P e.2) e m' (go e.2) (gom m') end) m)
    end.

(** The text of a document; [nl] is what goes before an item at a depth, and
    [sp] what follows a colon. *)
Section print.
Context (nl : nat → string) (sp : string).

Definition bracket (d : nat) (open close : string) (items : list string) : string :=
  match items with
  | [] => open +:+ close
  | _ => open +:+ nl (S d) +:+ Join items ("," +:+ nl (S d)) +:+ nl d +:+ close
  end.

Fixpoint print (d : nat) (j : json) : string :=
  match j with
  | JNull => "null"
  | JBool b => if b then "true" else "false"
  | JNum t => t
  | JStr s => json_string s
  | JArr l => bracket d "[" "]" (map (print (S d)) l)
  | JObj m => bracket d "{" "}" (map (λ e, json_string e.1 +:+ ":" +:+ sp +:+ print (S d) e.2) m)
  end.

End print.

Definition compact : json → string := print (λ _, "") "" 0.

(** A new line and two spaces for each level, as MarshalIndent is called with. *)
Definition line (d : nat) : string := String (z_byte 10) (cat (replicate d "  ")).
Definition indented : json → string := print line " " 0.

(** A value as a document, unless it holds a number that has no text. *)
Fixpoint to_json (v : value) : option json :=
  match v with
  | VNil => Some JNull
  | VBool b => Some (JBool b)
  | VInt _ z => Some (JNum (Itoa z))
  | VFloat f => JNum <$> float_text f
  | VStr s => Some (JStr s)
  | VList l => JArr <$> mapM to_json l
  | VObj m =>
      let members := (fix go (m : obj) : option (list (string * json)) :=
        match m with
        | [] => Some []
        | e :: m' => match to_json e.2, go m' with Some t, Some ts => Some ((e.1, t) :: ts) | _, _ => None end
        end) m in
      (λ ts, JObj (stable_sort by_key ts)) <$> members
  end.

(** The first number in the order of encoding that has no text, which the
    error of encoding names. *)
Definition first_found {A} (l : list (option A)) : option A := fold_right (λ x y, match x with Some _ => x | None => y end) None l.

Fixpoint unsupported (v : value) : option spec_float :=
  match v with
  | VFloat f => match float_text f with Some _ => None | None => Some f end
  | VList l => first_found (map unsupported l)
  | VObj m => first_found (map snd (stable_sort by_key (map (λ e, (e.1, unsupported e.2)) m)))
  | _ => None
  end.

Definition unsupported_text (f : option spec_float) : string :=
  "json: unsupported value: " +:+ match f with Some f => float_v f | None => "" end.

Definition Marshal (v : value) : option string := compact <$> to_json v.

(** [b, _ := json.Marshal(v); string(b)] *)
Definition marshal_text (v : value) : string := default "" (Marshal v).

(** fmt's %v of a decoded JSON value. *)
Fixpoint fmt_v (v : value) : string :=
  match v with
  | VNil => "<nil>"
  | VBool b => if b then "true" else "false"
  | VInt _ z => Itoa z
  | VFloat f => float_v f
  | VStr s => s
  | VList l => "[" +:+ Join (map fmt_v l) " " +:+ "]"
  | VObj m =>
      let members := (fix go (m : obj) : list (string * string) :=
        match m with [] => [] | e :: m' => (e.1, e.1 +:+ ":" +:+ fmt_v e.2) :: go m' end) m in
      "map[" +:+ Join (map snd (stable_sort by_key members)) " " +:+ "]"
  end.

Lemma first_found_none {A} (l : list (option A)) : first_found l = None ↔ Forall (λ x, x = None) l.
Proof.
  induction l as [|[x|] l IH]; cbn; [done| |].
  - split; [done|]. by inversion 1.
  - rewrite IH. split; [by constructor|by inversion 1].
Qed.

Lemma first_found_in {A} (l : list (option A)) x : first_found l = Some x → Some x ∈ l.
Proof.
  induction l as [|[y|] l IH]; cbn; [done| |].
  - intros [= ->]. left.
  - intros Hx. right. by apply IH.
Qed.

(** Such a number has no text. *)
Lemma unsupported_no_text v f : unsupported v = Some f → float_text f = None.
Proof.
  induction v as [|b|k z|x|s|l IH|m IH] using value_ind; cbn [unsupported]; try done.
  - destruct (float_text x) eqn:Hx; [done|]. by intros [= <-].
  - intros (v & Hv & Hin)%first_found_in%list_elem_of_fmap. rewrite Forall_forall in IH. by apply (IH v).
  - intros (e & He & Hin)%first_found_in%list_elem_of_fmap. rewrite stable_sort_perm in Hin.
    apply list_elem_of_fmap in Hin as (x & -> & Hin). rewrite Forall_forall in IH. by apply (IH x).
Qed.

(** Encoding fails exactly when there is such a number. *)
Lemma to_json_unsupported v : is_Some (to_json v) ↔ unsupported v = None.
Proof.
  induction v as [|b|k z|f|s|l IH|m IH] using value_ind; cbn [to_json unsupported]; try (by split; [|eexists]).
  - rewrite fmap_is_Some. by destruct (float_text f); (split; [by try intros []|try done; by eexists]).
  - rewrite fmap_is_Some, first_found_none, Forall_map, mapM_is_Some.
    split; intros Hl; rewrite Forall_forall in *; intros v Hv; specialize (IH v Hv); specialize (Hl v Hv); by apply IH.
  - rewrite fmap_is_Some, first_found_none, Forall_map.
    rewrite (Forall_Permutation _ (λ e, e.2 = None) (λ _, reflexivity _) _ _ (stable_sort_perm by_key _)), Forall_map.
    set (go := fix go (m : obj) := match m with [] => Some [] | e :: m' => _ end).
    assert (Hgo : ∀ e m, is_Some (go (e :: m)) ↔ is_Some (to_json e.2) ∧ is_Some (go m)).
    { intros e m'. cbn [go]. fold go. destruct (to_json e.2), (go m');
        (split; [intros []; split; done || by eexists|intros [[] []]; done || by eexists]). }
    induction IH as [|e m He IH IHm]; [by split; [|eexists]|].
    rewrite Hgo, He, IHm, Forall_cons. done.
Qed.

Example marshal_example :
  Marshal (VObj [("b", VList [VInt Kint64 1; VNil; VBool true]); ("a", VStr ("x<" +:+ quote +:+ "y"))]) =
  Some ("{" +:+ quote +:+ "a" +:+ quote +:+ ":" +:+ quote +:+ "x" +:+ backslash +:+ "u003c" +:+ backslash +:+ quote +:+ "y" +:+ quote +:+
        "," +:+ quote +:+ "b" +:+ quote +:+ ":[1,null,true]}").
Proof. by vm_compute. Qed.
