(* ===== verification/Unmarshal.v ===== *)
(** * Reading JSON text (encoding/json)

    [Unmarshal] into an [any], as the program decodes the arguments of a call:
    the grammar the package's scanner accepts, its limit on nesting, strings
    with escapes and invalid UTF-8 replaced, numbers rounded to float64, and
    for a repeated key the last value.  [RoundTrip] proves that the text [Json]
    writes reads back as what it was written from. *)

From S2P Require Import Prelude GoStrings GoTime Value Floats Json.
From Stdlib Require Import Ascii.
Local Open Scope Z_scope.

(** ** Numbers *)

(** The leading decimal digits, and the rest. *)
Fixpoint span_digits (s : string) : string * string :=
  match s with
  | String a s' => if is_digit a then let '(ds, r) := span_digits s' in (String a ds, r) else ("", s)
  | EmptyString => ("", "")
  end.

Definition is_char (c : Z) (s : string) : option string :=
  match s with String a s' => if byte_z a =? c then Some s' else None | EmptyString => None end.

(** The digits before the point: a zero, or digits that start with another. *)
Definition int_part (s : string) : option (string * string) :=
  match is_char 48 s with
  | Some s' => Some ("0", s')
  | None => match span_digits s with ("", _) => None | r => Some r end
  end.

(** The digits after a point, when there is one. *)
Definition frac_part (s : string) : option (string * string) :=
  match is_char 46 s with
  | Some s' => match span_digits s' with ("", _) => None | r => Some r end
  | None => Some ("", s)
  end.

Definition exp_digits (neg : bool) (s : string) : option (Z * string) :=
  match span_digits s with
  | ("", _) => None
  | (ds, r) => match digits_value ds 0 with Some e => Some (if neg then - e else e, r) | None => None end
  end.

Definition exp_part (s : string) : option (Z * string) :=
  match is_char 101 s, is_char 69 s with
  | None, None => Some (0, s)
  | Some s', _ | None, Some s' =>
      match is_char 45 s', is_char 43 s' with
      | Some s'', _ => exp_digits true s''
      | None, Some s'' => exp_digits false s''
      | None, None => exp_digits false s'
      end
  end.

(** A number and the rest.  One out of range is left as nil, with an error
    that the program drops. *)
Definition number (s : string) : option (value * string) :=
  let '(neg, s) := match is_char 45 s with Some s' => (true, s') | None => (false, s) end in
  match int_part s with
  | None => None
  | Some (ds, s) =>
      match frac_part s with
      | None => None
      | Some (fs, s) =>
          match exp_part s with
          | None => None
          | Some (e, s) =>
              match digits_value (ds +:+ fs) 0 with
              | None => None
              | Some m =>
                  Some (match nearest neg m (e - Z.of_nat (String.length fs)) with Some f => VFloat f | None => VNil end, s)
              end
          end
      end
  end.

(** ** Strings *)

(** The bytes up to the closing quote, and what follows it. *)
Fixpoint scan_string (s : string) : option (string * string) :=
  match s with
  | EmptyString => None
  | String a s1 =>
      if byte_z a =? 34 then Some ("", s1)
      else if byte_z a =? 92 then
        match s1 with
        | EmptyString => None
        | String b s2 => match scan_string s2 with Some (c, r) => Some (String a (String b c), r) | None => None end
        end
      else if byte_z a <? 32 then None
      else match scan_string s1 with Some (c, r) => Some (String a c, r) | None => None end
  end.

Definition hex_value (r : Z) : option Z :=
  if between 48 57 r then Some (r - 48) else if between 97 102 r then Some (r - 87)
  else if between 65 70 r then Some (r - 55) else None.

(** Four hexadecimal digits. *)
Definition hex4 (l : list (Z * string)) : option (Z * list (Z * string)) :=
  match l with
  | a :: b :: c :: d :: l' =>
      match hex_value a.1, hex_value b.1, hex_value c.1, hex_value d.1 with
      | Some a, Some b, Some c, Some d => Some (((a * 16 + b) * 16 + c) * 16 + d, l')
      | _, _, _, _ => None
      end
  | _ => None
  end.

Definition is_surrogate (r : Z) : bool := between 55296 57343 r.

(** utf16.DecodeRune *)
Definition surrogate_pair (r1 r2 : Z) : option Z :=
  if between 55296 56319 r1 && between 56320 57343 r2
  then Some ((r1 - 55296) * 1024 + (r2 - 56320) + 65536) else None.

(** The byte an escape other than \u stands for. *)
Definition simple_escape (c : Z) : option Z :=
  if (c =? 34) || (c =? 92) || (c =? 47) then Some c
  else if c =? 98 then Some 8 else if c =? 102 then Some 12 else if c =? 110 then Some 10
  else if c =? 114 then Some 13 else if c =? 116 then Some 9 else None.

(** The second half of a surrogate pair, when the next escape is one. *)
Definition low_half (r : Z) (l : list (Z * string)) : option (Z * list (Z * string)) :=
  match l with
  | a :: b :: l1 =>
      if (a.1 =? 92) && (b.1 =? 117) then
        match hex4 l1 with
        | Some (r2, l2) => match surrogate_pair r r2 with Some r' => Some (r', l2) | None => None end
        | None => None
        end
      else None
  | _ => None
  end.

Fixpoint unquote (fuel : nat) (l : list (Z * string)) : option string :=
  match fuel, l with
  | O, _ => None
  | S _, [] => Some ""
  | S fuel', (r, _) :: l' =>
      if r =? 92 then
        match l' with
        | [] => None
        | (c, _) :: l1 =>
            if c =? 117 then
              match hex4 l1 with
              | None => None
              | Some (r, l2) =>
                  if is_surrogate r then
                    match low_half r l2 with
                    | Some (r', l3) => match unquote fuel' l3 with Some t => Some (encode_rune r' +:+ t) | None => None end
                    | None => match unquote fuel' l2 with Some t => Some (encode_rune rune_error +:+ t) | None => None end
                    end
                  else match unquote fuel' l2 with Some t => Some (encode_rune r +:+ t) | None => None end
              end
            else match simple_escape c, unquote fuel' l1 with
                 | Some c, Some t => Some (encode_rune c +:+ t)
                 | _, _ => None
                 end
        end
      else match unquote fuel' l' with Some t => Some (encode_rune r +:+ t) | None => None end
  end.

(** A string, after its opening quote. *)
Definition string_body (s : string) : option (string * string) :=
  match scan_string s with
  | None => None
  | Some (c, r) => match unquote (S (String.length c)) (decode c) with Some t => Some (t, r) | None => None end
  end.

(** ** Values *)

Fixpoint skip (s : string) : string :=
  match s with
  | String a s' => if (byte_z a =? 32) || (byte_z a =? 9) || (byte_z a =? 10) || (byte_z a =? 13) then skip s' else s
  | EmptyString => ""
  end.

(** The next byte that is not white space. *)
Definition next (s : string) : option (Z * string) :=
  match skip s with String a s' => Some (byte_z a, s') | EmptyString => None end.

(** What is made of a number, and of the members of an object with those read
    before it. *)
Class Builder := { keep_number : value → value; add_member : string → value → obj → obj }.

(** Decoding into an [any]: of members with one key the last is kept. *)
Definition as_map : Builder := {| keep_number v := v; add_member := mset |}.

(** The document as it is written, with every member; numbers are not looked
    at. *)
Definition as_written : Builder := {| keep_number _ := VFloat S754_nan; add_member k v m := m ++ [(k, v)] |}.

Section parse.
Context `{Builder} (parse : string → option (value * string)).

(** The items of an array after the first one's start; each takes a byte. *)
Fixpoint elements (n : nat) (s : string) : option (list value * string) :=
  match n with
  | O => None
  | S n' =>
      match parse s with
      | None => None
      | Some (v, s1) =>
          match next s1 with
          | Some (c, s2) =>
              if c =? 44 then match elements n' s2 with Some (l, r) => Some (v :: l, r) | None => None end
              else if c =? 93 then Some ([v], s2) else None
          | None => None
          end
      end
  end.

(** The members of an object, over those read so far. *)
Fixpoint members (n : nat) (acc : obj) (s : string) : option (obj * string) :=
  match n with
  | O => None
  | S n' =>
      match next s with
      | Some (q, s1) =>
          if q =? 34 then
            match string_body s1 with
            | None => None
            | Some (k, s2) =>
                match next s2 with
                | Some (c, s3) =>
                    if c =? 58 then
                      match parse s3 with
                      | None => None
                      | Some (v, s4) =>
                          match next s4 with
                          | Some (c, s5) =>
                              if c =? 44 then members n' (add_member k v acc) s5
                              else if c =? 125 then Some (add_member k v acc, s5) else None
                          | None => None
                          end
                      end
                    else None
                | None => None
                end
            end
          else None
      | None => None
      end
  end.
End parse.

Definition literal (text : string) (v : value) (s : string) : option (value * string) :=
  if HasPrefix s text then Some (v, TrimPrefix s text) else None.

(** [d] is how many more levels may open. *)
Fixpoint parse_value `{Builder} (d : nat) (s : string) : option (value * string) :=
  let s := skip s in
  match next s with
  | None => None
  | Some (c, r) =>
      if c =? 34 then match string_body r with Some (t, r') => Some (VStr t, r') | None => None end
      else if c =? 123 then
        match d with
        | O => None
        | S d' =>
            match next r with
            | Some (c, r') =>
                if c =? 125 then Some (VObj [], r')
                else match members (parse_value d') (S (String.length r)) [] r with Some (m, r') => Some (VObj m, r') | None => None end
            | None => None
            end
        end
      else if c =? 91 then
        match d with
        | O => None
        | S d' =>
            match next r with
            | Some (c, r') =>
                if c =? 93 then Some (VList [], r')
                else match elements (parse_value d') (S (String.length r)) r with Some (l, r') => Some (VList l, r') | None => None end
            | None => None
            end
        end
      else if c =? 116 then literal "true" (VBool true) s
      else if c =? 102 then literal "false" (VBool false) s
      else if c =? 110 then literal "null" VNil s
      else match number s with Some (v, r) => Some (keep_number v, r) | None => None end
  end.

(** The package's limit on nesting. *)
Definition maxNestingDepth : nat := Eval cbv in Z.to_nat 10000.

Definition parse_all `{Builder} (s : string) : option value :=
  match parse_value maxNestingDepth s with
  | Some (v, r) => match skip r with EmptyString => Some v | _ => None end
  | None => None
  end.

Definition Unmarshal (s : string) : option value := @parse_all as_map s.

Example Unmarshal_example :
  Unmarshal (" {" +:+ quote +:+ "a" +:+ quote +:+ ": [1, -20.5e1 ,true,null], " +:+ quote +:+ "b" +:+ backslash +:+ "u00e9" +:+ quote +:+ ":" +:+ quote +:+ quote +:+ "}") =
  Some (VObj [("a", VList [VFloat (S754_finite false 4503599627370496 (-52)); VFloat (S754_finite true 7212796278210560 (-45)); VBool true; VNil]);
              ("bé", VStr "")]).
Proof. vm_compute. reflexivity. Qed.
Example Unmarshal_rejects : map Unmarshal ["[1,]"; "01"; "{}x"; "[1 2]"; ""; "nul"; "-"; "1."] = replicate 8 None.
Proof. vm_compute. reflexivity. Qed.
