(* ===== verification/NumberText.v ===== *)
(** * Numbers read back

    The decimal text of an integer and of a float64, with or without an
    exponent, is read by [Unmarshal.number] as the float64 it stands for. *)

From S2P Require Import Prelude GoStrings GoTime Value Floats Json Unmarshal.
From Stdlib Require Import Ascii.
Local Open Scope Z_scope.

(** ** Decimal numbers *)

Definition all_digits (s : string) : bool := forallb is_digit (String.list_ascii_of_string s).

Lemma all_digits_app s t : all_digits (s +:+ t) = all_digits s && all_digits t.
Proof. unfold all_digits. induction s as [|a s IH]; [done|]. cbn. by rewrite IH, andb_assoc. Qed.

Lemma span_all s : all_digits s = true → span_digits s = (s, "").
Proof.
  induction s as [|a s IH]; [done|]. unfold all_digits. cbn. intros [-> Hs]%andb_true_iff. by rewrite IH.
Qed.

Lemma digit_char x : (x < 10)%N → byte_z (pretty_N_char x) = 48 + Z.of_N x.
Proof.
  intros Hx. assert (H : Forall (λ x, byte_z (pretty_N_char x) = 48 + Z.of_N x) [0;1;2;3;4;5;6;7;8;9]%N) by by repeat constructor.
  rewrite Forall_forall in H. apply H. rewrite !elem_of_cons. lia.
Qed.

Lemma digit_value x acc t : (x < 10)%N → digits_value (String (pretty_N_char x) t) acc = digits_value t (acc * 10 + Z.of_N x).
Proof.
  intros Hx. cbn [digits_value]. unfold digit, between. rewrite digit_char by done.
  replace ((48 <=? 48 + Z.of_N x) && (48 + Z.of_N x <=? 57)) with true by lia.
  by replace (48 + Z.of_N x - 48) with (Z.of_N x) by lia.
Qed.

Lemma digit_is x : (x < 10)%N → is_digit (pretty_N_char x) = true.
Proof. intros Hx. unfold is_digit, between. rewrite digit_char by done. lia. Qed.

(** The decimal text of a positive number: its digits, the first not zero. *)
Lemma pretty_digits x s : (0 < x)%N → ∃ c p, pretty_N_go x s = String c p +:+ s ∧ all_digits (String c p) = true ∧
  byte_z c ≠ 48 ∧ ∀ acc t, digits_value (String c p +:+ t) acc = digits_value t (acc * 10 ^ Z.of_nat (S (String.length p)) + Z.of_N x).
Proof.
  revert s. induction (N.lt_wf_0 x) as [x _ IH]. intros s Hx. rewrite pretty_N_go_step by done.
  assert (Hm : (x mod 10 < 10)%N) by (by apply N.mod_lt). pose proof (N.div_mod x 10 ltac:(done)) as Hdm.
  destruct (decide (x < 10)%N) as [Hs|Hs].
  - rewrite (N.div_small x), pretty_N_go_0, (N.mod_small x) by done. exists (pretty_N_char x), "".
    split_and!; [done|unfold all_digits; cbn; by rewrite digit_is|rewrite digit_char by done; lia|].
    intros acc t. cbn [String.append]. by rewrite digit_value.
  - destruct (IH (x / 10)%N) with (s := String (pretty_N_char (x mod 10)) s) as (c & p & Hp & Hd & Hc & Hv);
      [by apply N.div_lt|by apply N.div_str_pos; lia|].
    exists c, (p +:+ String (pretty_N_char (x mod 10)) ""). split_and!; [|..|done|].
    + rewrite Hp. cbn [String.append]. by rewrite sapp_assoc.
    + change (all_digits (String c p +:+ String (pretty_N_char (x mod 10)) "") = true).
      rewrite all_digits_app, Hd. unfold all_digits. cbn. by rewrite digit_is.
    + intros acc t. cbn [String.append]. rewrite sapp_assoc. cbn [String.append] in *. rewrite Hv, digit_value by done.
      f_equal. rewrite sapp_length. cbn [String.length]. rewrite Nat.add_1_r, (Nat2Z.inj_succ (S _)), Z.pow_succ_r by lia. lia.
Qed.

(** What an integer reads back as: the nearest float64. *)
Definition int_value (z : Z) : value := match nearest (z <? 0) (Z.abs z) 0 with Some f => VFloat f | None => VNil end.

Lemma number_digits c p x : all_digits (String c p) = true → byte_z c ≠ 48 →
  (∀ acc t, digits_value (String c p +:+ t) acc = digits_value t (acc * 10 ^ Z.of_nat (S (String.length p)) + Z.of_N x)) →
  number (String c p) = Some (match nearest false (Z.of_N x) 0 with Some f => VFloat f | None => VNil end, "") ∧
  number (String "-" (String c p)) = Some (match nearest true (Z.of_N x) 0 with Some f => VFloat f | None => VNil end, "").
Proof.
  intros Hd Hc Hv. assert (Hm : is_char 45 (String c p) = None).
  { cbn. replace (byte_z c =? 45) with false; [done|]. unfold all_digits in Hd. cbn in Hd. unfold is_digit, between in Hd. lia. }
  assert (Hi : int_part (String c p) = Some (String c p, "")).
  { unfold int_part. rewrite span_all by done. cbn. by replace (byte_z c =? 48) with false by lia. }
  assert (Hx : digits_value (String c p +:+ "") 0 = Some (Z.of_N x)) by (rewrite Hv; cbn [digits_value]; f_equal; lia).
  unfold number. rewrite Hm. change (is_char 45 (String "-" (String c p))) with (Some (String c p)).
  cbv beta iota zeta. rewrite Hi. cbn [frac_part is_char exp_part]. by rewrite Hx.
Qed.

Lemma number_Itoa z : number (Itoa z) = Some (int_value z, "").
Proof.
  unfold Itoa, pretty, pretty_Z. destruct z as [|p|p]; [done|..]; cbv [pretty pretty_positive pretty_N];
    rewrite decide_False by done; destruct (pretty_digits (Npos p) "" ltac:(done)) as (c & ds & Hp & Hd & Hc & Hv);
    rewrite Hp, sapp_nil_r; apply (number_digits _ _ _ Hd Hc Hv).
Qed.

(** ** A number in parts *)

Lemma digits_value_app s t acc : digits_value (s +:+ t) acc = (a ← digits_value s acc; digits_value t a).
Proof. revert acc. induction s as [|a s IH]; intros acc; cbn; [done|]. destruct (digit a); [apply IH|done]. Qed.

Lemma digits_value_zeros n acc : digits_value (zeros n) acc = Some (acc * 10 ^ Z.max 0 n).
Proof.
  unfold zeros. replace (Z.max 0 n) with (Z.of_nat (Z.to_nat n)) by lia. generalize (Z.to_nat n) as k. clear n.
  intros k. revert acc. induction k as [|k IH]; intros acc; [cbn; f_equal; lia|].
  cbn [replicate cat String.append digits_value]. change (digit "0") with (Some 0). cbv beta iota.
  rewrite IH, Nat2Z.inj_succ, Z.pow_succ_r by lia. f_equal. lia.
Qed.

Lemma all_digits_zeros n : all_digits (zeros n) = true.
Proof. unfold zeros, all_digits. induction (Z.to_nat n) as [|k IH]; [done|]. exact IH. Qed.

Lemma zeros_length n : 0 ≤ n → Z.of_nat (String.length (zeros n)) = n.
Proof.
  intros Hn. unfold zeros. rewrite <- (Z2Nat.id n) at 2 by done. f_equal. induction (Z.to_nat n) as [|k IH]; [done|].
  cbn in *. by rewrite IH.
Qed.

(** Text that cannot go on digits. *)
Definition stops (s : string) : Prop := match s with EmptyString => True | String a _ => is_digit a = false end.

Lemma span_app s r : all_digits s = true → stops r → span_digits (s +:+ r) = (s, r).
Proof.
  intros Hs Hr. induction s as [|a s IH].
  - destruct r as [|a r]; [done|]. cbn in *. by rewrite Hr.
  - unfold all_digits in *. cbn in Hs. apply andb_true_iff in Hs as [Ha Hs]. cbn. by rewrite Ha, IH.
Qed.

Definition point_text (fp : string) : string := match fp with EmptyString => "" | _ => "." +:+ fp end.

(** Digits that can stand before the point. *)
Definition leading (ip : string) : Prop :=
  ip = "0" ∨ (all_digits ip = true ∧ match ip with EmptyString => False | String c _ => byte_z c ≠ 48 end).

Definition float_or_nil (f : option spec_float) : value := match f with Some f => VFloat f | None => VNil end.

Lemma leading_not_sign ip r : leading ip → is_char 45 (ip +:+ r) = None.
Proof.
  intros [->|[Hd Hc]]; [done|]. destruct ip as [|c ip]; [done|]. cbn.
  unfold all_digits in Hd. cbn in Hd. apply andb_true_iff in Hd as [Hd _]. unfold is_digit, between in Hd.
  by replace (byte_z c =? 45) with false by lia.
Qed.

Lemma int_part_app ip r : leading ip → stops r → int_part (ip +:+ r) = Some (ip, r).
Proof.
  intros [->|[Hd Hc]] Hr; [done|]. unfold int_part. rewrite span_app by done.
  destruct ip as [|c ip]; [done|]. cbn. by replace (byte_z c =? 48) with false by lia.
Qed.

Lemma frac_part_app fp ex : all_digits fp = true → stops ex → is_char 46 ex = None →
  frac_part (point_text fp +:+ ex) = Some (fp, ex).
Proof.
  intros Hd Hs He. unfold frac_part, point_text. destruct fp as [|c fp]; cbn [String.append]; [by rewrite He|].
  change (is_char 46 (String "." ?s)) with (Some s). cbv beta iota.
  change (String c (fp +:+ ex)) with (String c fp +:+ ex). by rewrite span_app.
Qed.

Lemma point_stops fp ex : stops ex → stops (point_text fp +:+ ex).
Proof. by destruct fp. Qed.

Lemma number_parts neg ip fp ex e m : leading ip → all_digits fp = true → stops ex → is_char 46 ex = None →
  exp_part ex = Some (e, "") → digits_value (ip +:+ fp) 0 = Some m →
  number (sign_text neg +:+ ip +:+ point_text fp +:+ ex) =
    Some (float_or_nil (nearest neg m (e - Z.of_nat (String.length fp))), "").
Proof.
  intros Hi Hf Hs H46 He Hm. unfold number.
  assert (Hsign : match is_char 45 (sign_text neg +:+ ip +:+ point_text fp +:+ ex) with
    | Some s' => (true, s') | None => (false, sign_text neg +:+ ip +:+ point_text fp +:+ ex) end =
    (neg, ip +:+ point_text fp +:+ ex)).
  { destruct neg; [done|]. cbn [sign_text String.append]. by rewrite leading_not_sign. }
  rewrite Hsign. rewrite int_part_app by (done || by apply point_stops). rewrite frac_part_app by done.
  by rewrite He, Hm.
Qed.

(** ** The text of a float64 *)

Lemma take_drop n s : str_take n s +:+ str_drop n s = s.
Proof. revert s. induction n as [|n IH]; intros [|a s]; cbn; try done. by rewrite IH. Qed.

Lemma drop_length n s : String.length (str_drop n s) = (String.length s - n)%nat.
Proof. revert s. induction n as [|n IH]; intros [|a s]; cbn; try done. Qed.

Lemma digits_split n s : all_digits s = true → all_digits (str_take n s) = true ∧ all_digits (str_drop n s) = true.
Proof. intros Hs. rewrite <- (take_drop n s), all_digits_app in Hs. by apply andb_true_iff in Hs. Qed.

Lemma Itoa_pos D : 0 < D → all_digits (Itoa D) = true ∧ digits_value (Itoa D) 0 = Some D ∧
  ∃ c p, Itoa D = String c p ∧ byte_z c ≠ 48.
Proof.
  intros HD. destruct D as [|p|p]; [lia| |lia]. unfold Itoa, pretty, pretty_Z. cbv [pretty pretty_positive pretty_N].
  rewrite decide_False by done. destruct (pretty_digits (Npos p) "" ltac:(done)) as (c & ds & Hp & Hd & Hc & Hv).
  rewrite Hp, sapp_nil_r. split_and!; [done| |by eexists _, _].
  rewrite <- (sapp_nil_r (String c ds)). by rewrite Hv.
Qed.

Lemma leading_take D n : 0 < D → (0 < n)%nat → leading (str_take n (Itoa D)).
Proof.
  intros HD Hn. destruct (Itoa_pos D HD) as (Hd & _ & c & p & Hp & Hc). right.
  split; [by apply digits_split|]. rewrite Hp. destruct n; [lia|done].
Qed.

Lemma nearest_scaled neg D x : 0 < D → 0 ≤ x → nearest neg (D * 10 ^ x) 0 = nearest neg D x.
Proof.
  intros HD Hx. assert (Hp : 0 < D * 10 ^ x) by (apply Z.mul_pos_pos; [done|]; by apply Z.pow_pos_nonneg).
  destruct D as [|p|p]; try lia. destruct (Z.pos p * 10 ^ x) as [|p'|p'] eqn:He; try lia.
  unfold nearest, nearest_in. rewrite (proj2 (Z.leb_le 0 x)), He by done. cbn [Z.leb Z.compare]. by rewrite Z.mul_1_r.
Qed.

Lemma number_fixed neg D x : 0 < D → number (sign_text neg +:+ fixed_text D x) = Some (float_or_nil (nearest neg D x), "").
Proof.
  intros HD. destruct (Itoa_pos D HD) as (Hd & Hv & c & p & Hp & Hc).
  assert (Hlead : leading (Itoa D)) by (right; by rewrite Hp in *).
  unfold fixed_text. case_match eqn:Hx; [|case_match eqn:Hdp].
  - rewrite <- (nearest_scaled neg D x), <- (sapp_nil_r (zeros x)) by lia.
    rewrite <- (sapp_assoc (Itoa D)). change ((Itoa D +:+ zeros x) +:+ "") with ((Itoa D +:+ zeros x) +:+ point_text "" +:+ "").
    rewrite (number_parts neg _ "" "" 0 (D * 10 ^ x)); [by rewrite Z.sub_0_r| |done..|].
    + right. rewrite all_digits_app, Hd, all_digits_zeros, Hp. done.
    + rewrite sapp_nil_r, digits_value_app, Hv. cbn. rewrite digits_value_zeros. do 3 f_equal. lia.
  - apply Z.ltb_lt in Hdp. apply Z.leb_gt in Hx. set (n := Z.to_nat (ndigits D + x)).
    assert (Hlen : Z.of_nat (String.length (str_drop n (Itoa D))) = - x).
    { rewrite drop_length. unfold n, ndigits in *. lia. }
    assert (Hpt : "." +:+ str_drop n (Itoa D) = point_text (str_drop n (Itoa D)) +:+ "").
    { rewrite sapp_nil_r. destruct (str_drop n (Itoa D)); [cbn in Hlen; lia|done]. }
    rewrite Hpt, (number_parts neg _ _ "" 0 D).
    + do 4 f_equal. lia.
    + apply leading_take; [done|lia].
    + by apply digits_split.
    + done.
    + done.
    + done.
    + by rewrite take_drop.
  - apply Z.ltb_ge in Hdp. apply Z.leb_gt in Hx.
    assert (Hpt : "0." +:+ zeros (- (ndigits D + x)) +:+ Itoa D =
      "0" +:+ point_text (zeros (- (ndigits D + x)) +:+ Itoa D) +:+ "").
    { rewrite sapp_nil_r. unfold point_text. destruct (zeros _) eqn:Hz; [by rewrite Hp|done]. }
    rewrite Hpt, (number_parts neg _ _ "" 0 D).
    + do 4 f_equal. rewrite sapp_length, Nat2Z.inj_add, zeros_length by lia. unfold ndigits. lia.
    + by left.
    + by rewrite all_digits_app, Hd, all_digits_zeros.
    + done.
    + done.
    + done.
    + change (digits_value ("0" +:+ ?s) 0) with (digits_value s 0).
      rewrite digits_value_app, digits_value_zeros. cbn. done.
Qed.

Lemma exp_part_reads clean D x : exp_part ("e" +:+ (if ndigits D + x - 1 <? 0 then "-" else "+") +:+
    (let t := Itoa (Z.abs (ndigits D + x - 1)) in
     if (String.length t <? 2)%nat && negb (clean && (ndigits D + x - 1 <? 0)) then "0" +:+ t else t)) =
  Some (ndigits D + x - 1, "").
Proof.
  set (e := ndigits D + x - 1). cbv zeta. set (t := if _ && _ then _ else _).
  assert (Ht : all_digits t = true ∧ digits_value t 0 = Some (Z.abs e) ∧ t ≠ "").
  { assert (H : all_digits (Itoa (Z.abs e)) = true ∧ digits_value (Itoa (Z.abs e)) 0 = Some (Z.abs e) ∧ Itoa (Z.abs e) ≠ "").
    { destruct (decide (e = 0)) as [->|]; [done|].
      destruct (Itoa_pos (Z.abs e)) as (H1 & H2 & c & p & H3 & _); [lia|]. split_and!; [done..|by rewrite H3]. }
    unfold t. destruct (_ && _); [|done]. destruct H as (H1 & H2 & H3). split_and!; [|done..].
    unfold all_digits in *. cbn. by rewrite H1. }
  destruct Ht as (Hd & Hv & Hne).
  assert (Hx : ∀ neg, exp_digits neg t = Some (if neg then - Z.abs e else Z.abs e, "")).
  { intros neg. unfold exp_digits. rewrite span_all by done. destruct t; [done|]. by rewrite Hv. }
  destruct (Z.ltb_spec e 0).
  - change (exp_part ("e" +:+ "-" +:+ t)) with (exp_digits true t). rewrite Hx. do 2 f_equal. lia.
  - change (exp_part ("e" +:+ "+" +:+ t)) with (exp_digits false t). rewrite Hx. do 2 f_equal. lia.
Qed.

Lemma number_exp neg clean D x : 0 < D → number (sign_text neg +:+ exp_text clean D x) = Some (float_or_nil (nearest neg D x), "").
Proof.
  intros HD. destruct (Itoa_pos D HD) as (Hd & Hv & c & p & Hp & Hc). unfold exp_text. cbv zeta.
  set (fp := str_drop 1 (Itoa D)).
  assert (Hlen : Z.of_nat (String.length fp) = ndigits D - 1).
  { unfold fp. rewrite drop_length. unfold ndigits. rewrite Hp. cbn [String.length]. lia. }
  assert (Hpt : (if 1 <? ndigits D then "." +:+ fp else "") = point_text fp).
  { destruct (Z.ltb_spec 1 (ndigits D)); destruct fp; try done; cbn in Hlen; lia. }
  rewrite Hpt. erewrite number_parts; [| | | | |apply (exp_part_reads clean)|].
  - do 3 f_equal. rewrite Hlen. f_equal. lia.
  - by apply leading_take; [|lia].
  - by apply digits_split.
  - done.
  - done.
  - unfold fp. by rewrite take_drop.
Qed.

(** The decimal that is found stands for the float64. *)
Lemma shortest_reads neg m e D x : shortest neg m e = Some (D, x) →
  0 < D ∧ nearest neg D x = Some (S754_finite neg m e).
Proof.
  unfold shortest. destruct (ratio m e) as [n d]. generalize (point n d - 1) as y. generalize 17%nat as tries.
  assert (Hr : ∀ dec, reads_as neg (S754_finite neg m e) dec = true → dec = (D, x) →
    0 < D ∧ nearest neg D x = Some (S754_finite neg m e)).
  { intros dec [Hp%Z.ltb_lt Hn%bool_decide_eq_true]%andb_true_iff ->. done. }
  intros tries. induction tries as [|tries IH]; intros y; [done|]. cbn [shortest_from]. unfold decimal_at. cbv zeta.
  match goal with |- context [carry (if ?u then ?a else ?b) y] =>
    generalize (carry (if u then a else b) y), (carry (if u then b else a) y) end.
  intros dec dec'. destruct (reads_as _ _ dec) eqn:H1; [intros [= He]; by eapply Hr|].
  destruct (reads_as _ _ dec') eqn:H2; [intros [= He]; by eapply Hr|]. apply IH.
Qed.

(** The text of a float64 is a number that reads as that float64. *)
Lemma float_text_number f t : float_text f = Some t → number t = Some (VFloat f, "").
Proof.
  destruct f as [neg| | |neg m e]; [by destruct neg; intros [= <-]|done..|]. unfold float_text.
  destruct (shortest neg m e) as [[D x]|] eqn:Hs; [|done]. apply shortest_reads in Hs as [HD Hn].
  cbv zeta. intros [= <-]. destruct (_ || _); [rewrite number_exp by done|rewrite number_fixed by done]; by rewrite Hn.
Qed.
