(* ===== verification/Shortest.v ===== *)
(** * Every float64 has a decimal text

    [Floats.shortest] tries up to 17 digits and takes what reads back.  Here:
    rounding brings a number close to a float64 to that float64, 17 digits are
    that close, and so every finite float64 has a text.  Rounding is followed
    through the shifts of SpecFloat: [stands] says which number a mantissa with
    its round and sticky bits stands for. *)

From S2P Require Import Prelude GoStrings GoTime Value Floats Json Unmarshal NumberText.
Local Open Scope Z_scope.

(** ** Shifting right with the lost bits *)

(** [a / b] lies in the unit from [m], where the location says. *)
Definition lies (m : Z) (l : location) (a b : Z) : Prop :=
  match l with
  | loc_Exact => a = m * b
  | loc_Inexact c => m * b < a < (m + 1) * b ∧ (2 * (a - m * b) ?= b) = c
  end.

Definition stands (r : shr_record) (a b : Z) : Prop := 0 ≤ shr_m r ∧ 0 < b ∧ lies (shr_m r) (loc_of_shr_record r) a b.

Lemma stands_loc m l a b : 0 ≤ m → 0 < b → lies m l a b → stands (shr_record_of_loc m l) a b.
Proof. intros Hm Hb Hl. by destruct l as [|[]]. Qed.

Lemma shr_1_stands r a b : stands r a b → stands (shr_1 r) a (2 * b).
Proof.
  destruct r as [m r s]. intros (Hm & Hb & Hl). cbn in Hm.
  assert (∃ h t : Z, m = 2 * h + t ∧ 0 ≤ h ∧ shr_1 (Build_shr_record m r s) = Build_shr_record h (t =? 1) (r || s) ∧ (t = 0 ∨ t = 1))
    as (h & t & -> & Hh & -> & Ht).
  { destruct m as [|[p|p|]|p]; [exists 0, 0|exists (Zpos p), 1|exists (Zpos p), 0|exists 0, 1|lia]; repeat split; try lia; auto. }
  split; [done|]. split; [lia|]. cbn in *.
  destruct Ht as [-> | ->], r, s; cbn in *; rewrite ?Z.compare_eq_iff, ?Z.compare_lt_iff, ?Z.compare_gt_iff in *; nia.
Qed.

Lemma iter_shr_stands n r a b : stands r a b → stands (iter_pos shr_1 n r) a (2 ^ Zpos n * b).
Proof.
  revert r b. induction n as [n IH|n IH|]; intros r b Hr; cbn [iter_pos].
  - replace (2 ^ Zpos n~1 * b) with (2 ^ Zpos n * (2 ^ Zpos n * (2 * b))).
    { by apply IH, IH, shr_1_stands. }
    replace (Zpos n~1) with (Zpos n + Zpos n + 1) by lia. rewrite !Z.pow_add_r by lia. ring.
  - replace (2 ^ Zpos n~0 * b) with (2 ^ Zpos n * (2 ^ Zpos n * b)).
    { by apply IH, IH. }
    replace (Zpos n~0) with (Zpos n + Zpos n) by lia. rewrite Z.pow_add_r by lia. ring.
  - rewrite Z.pow_1_r. by apply shr_1_stands.
Qed.

(** ** Rounding *)

(** What is closest to an integer rounds to it. *)
Lemma round_closest r a b M : stands r a b → 2 * Z.abs (a - M * b) < b →
  round_nearest_even (shr_m r) (loc_of_shr_record r) = M.
Proof.
  intros (Hm & Hb & Hl) Hc. set (m := shr_m r) in *. set (l := loc_of_shr_record r) in *. clearbody m l. clear r.
  assert (Hrange : m * b ≤ a < (m + 1) * b) by (destruct l; cbn in Hl; lia).
  assert (HM : M = m ∨ M = m + 1).
  { assert (m - 1 < M) by nia. assert (M < m + 2) by nia. lia. }
  destruct HM as [-> | ->], l as [|[]]; cbn in *;
    rewrite ?Z.compare_eq_iff, ?Z.compare_lt_iff, ?Z.compare_gt_iff in *; try done; nia.
Qed.

Lemma digits2_bounds p : 2 ^ (Zpos (digits2_pos p) - 1) ≤ Zpos p < 2 ^ Zpos (digits2_pos p).
Proof.
  induction p as [p IH|p IH|]; cbn [digits2_pos]; [| |done];
    rewrite Pos2Z.inj_succ; replace (Z.succ (Zpos (digits2_pos p)) - 1) with (Z.succ (Zpos (digits2_pos p) - 1)) by lia;
    rewrite !Z.pow_succ_r by lia; lia.
Qed.

Lemma Zdigits2_unique q d : 0 < d → 2 ^ (d - 1) ≤ q < 2 ^ d → Zdigits2 q = d.
Proof.
  intros Hd Hq. destruct q as [|p|p]; [|cbn [Zdigits2]|]; try (pose proof (Z.pow_pos_nonneg 2 (d - 1)); lia).
  pose proof (digits2_bounds p) as Hp. set (k := Zpos (digits2_pos p)) in *.
  assert (k - 1 < d) by (apply (Z.pow_lt_mono_r_iff 2); lia).
  assert (d - 1 < k) by (apply (Z.pow_lt_mono_r_iff 2); lia). lia.
Qed.

Section rounding.
Context (prec emax : Z).
Abbreviation fexp := (fexp prec emax).

(** The exponent at which rounding keeps [prec] bits. *)
Definition target (q ex : Z) : Z := Z.max ex (fexp (Zdigits2 q + ex)).

Lemma shr_fexp_stands q ex l a b : 0 ≤ q → 0 < b → lies q l a b →
  let r := shr_fexp prec emax q ex l in
  stands r.1 a (b * 2 ^ (target q ex - ex)) ∧ r.2 = target q ex.
Proof.
  intros Hq Hb Hl. pose proof (stands_loc q l a b Hq Hb Hl) as Hr. cbv zeta. unfold shr_fexp, target, shr.
  destruct (fexp (Zdigits2 q + ex) - ex) as [|n|n] eqn:Hn; cbn [fst snd].
  - replace (Z.max ex _) with ex by lia. by rewrite Z.sub_diag, Z.mul_1_r.
  - replace (Z.max ex _) with (ex + Zpos n) by lia. split; [|done].
    replace (ex + Zpos n - ex) with (Zpos n) by lia. rewrite Z.mul_comm. by apply iter_shr_stands.
  - replace (Z.max ex _) with ex by lia. by rewrite Z.sub_diag, Z.mul_1_r.
Qed.

(** Rounding a number close to an integer at the target exponent. *)
Lemma round_aux_closest neg q ex l a b M : 0 ≤ q → 0 < b → lies q l a b →
  let u := b * 2 ^ (target q ex - ex) in 2 * Z.abs (a - M * u) < u →
  binary_round_aux prec emax neg q ex l =
    let '(r, e) := shr_fexp prec emax M (target q ex) loc_Exact in
    match shr_m r with
    | Z0 => S754_zero neg
    | Zpos m => if e <=? emax - prec then S754_finite neg m e else S754_infinity neg
    | Zneg _ => S754_nan
    end.
Proof.
  intros Hq Hb Hl u Hc. unfold binary_round_aux. pose proof (shr_fexp_stands q ex l a b Hq Hb Hl) as [Hs He].
  destruct (shr_fexp prec emax q ex l) as [r e]. cbn [fst snd] in *. subst e.
  by rewrite (round_closest r a u M Hs Hc).
Qed.

End rounding.

(** ** A number close to a float64 *)

Abbreviation fexp64 := (fexp 53 1024).

Lemma fexp64_eq e : fexp64 e = Z.max (e - 53) (-1074).
Proof. reflexivity. Qed.

Lemma bounded64 m e : bounded 53 1024 m e = true →
  fexp64 (Zpos (digits2_pos m) + e) = e ∧ e ≤ 971 ∧ -1074 ≤ e ∧ Zpos (digits2_pos m) ≤ 53 ∧ Zpos m < 2 ^ 53.
Proof.
  unfold bounded, canonical_mantissa. rewrite andb_true_iff, Z.eqb_eq, Z.leb_le. intros [He Hx].
  rewrite fexp64_eq in *. assert (Hd : Zpos (digits2_pos m) ≤ 53) by lia. split_and!; try lia.
  pose proof (digits2_bounds m) as Hm. eapply Z.lt_le_trans; [apply Hm|]. apply Z.pow_le_mono_r; lia.
Qed.

(** The rounding of what already has its place. *)
Lemma settled_float m e : bounded 53 1024 m e = true →
  shr_fexp 53 1024 (Zpos m) e loc_Exact = (Build_shr_record (Zpos m) false false, e).
Proof.
  intros (He & _)%bounded64. unfold shr_fexp, shr. cbn [Zdigits2]. rewrite He, Z.sub_diag. done.
Qed.

(** A power of two that was rounded up from below. *)
Lemma carried_float e : -1074 ≤ e - 1 →
  shr_fexp 53 1024 (2 * 2 ^ 52) (e - 1) loc_Exact = (Build_shr_record (2 ^ 52) false false, e).
Proof.
  intros He. unfold shr_fexp, shr. change (Zdigits2 (2 * 2 ^ 52)) with 54. rewrite fexp64_eq.
  replace (Z.max (54 + (e - 1) - 53) (-1074) - (e - 1)) with 1 by lia. cbn [iter_pos]. by replace (e - 1 + 1) with e by lia.
Qed.

Section close.
Context (m : positive) (e N P s : Z).
Hypothesis (Hb : bounded 53 1024 m e = true) (HN : 0 < N) (HP : 0 < P) (Hs : 0 ≤ s) (Hes : 0 ≤ e + s).
Let a := N * 2 ^ s.
Let q := a / P.
Let u := P * 2 ^ (e + s).
Hypothesis Hclose : Z.abs (a - Zpos m * u) * 20000000000000000 ≤ Zpos m * u.
Hypothesis Hex : - s ≤ fexp64 (Zdigits2 q - s).

Lemma unit_pos : 0 < u.
Proof. unfold u. pose proof (Z.pow_pos_nonneg 2 (e + s)). nia. Qed.

Lemma close_unit : 2 * Z.abs (a - Zpos m * u) < u.
Proof.
  pose proof unit_pos. destruct (bounded64 m e Hb) as (_ & _ & _ & _ & Hm). change (2 ^ 53) with 9007199254740992 in Hm. nia.
Qed.

(** The digits of the quotient: those of the mantissa, or one less below a
    power of two. *)
Lemma quotient_digits : let d := Zpos (digits2_pos m) in
  Zdigits2 q = d + (e + s) ∨
  Zpos m = 2 ^ (d - 1) ∧ a < Zpos m * u ∧ ((Zdigits2 q = d - 1 + (e + s)) ∨ d = 1 ∧ e + s = 0 ∧ q = 0).
Proof.
  intros d. pose proof unit_pos as Hu. pose proof close_unit as Hc. pose proof (digits2_bounds m) as Hm. fold d in Hm.
  assert (Hd : 1 ≤ d) by lia. pose proof (Z.div_mod a P ltac:(lia)) as Hq. pose proof (Z.mod_pos_bound a P HP) as Hr. fold q in Hq.
  assert (Hup : a < 2 ^ d * u) by nia.
  assert (Hpow : ∀ k, 0 ≤ k → 2 ^ k * u = P * 2 ^ (k + (e + s))) by (intros k Hk; unfold u; rewrite (Z.pow_add_r 2 k (e + s)) by lia; ring).
  rewrite Hpow in Hup by lia.
  assert (Hq_up : q < 2 ^ (d + (e + s))) by nia.
  destruct (Z.le_gt_cases (P * 2 ^ (d - 1 + (e + s))) a) as [Hlow|Hlow]; [left|right].
  - apply Zdigits2_unique; [lia|]. replace (d + (e + s) - 1) with (d - 1 + (e + s)) by lia. split; [|done].
    apply Z.div_le_lower_bound; lia.
  - rewrite <- Hpow in Hlow by lia.
    assert (Hm2 : Zpos m = 2 ^ (d - 1)) by nia. split; [done|]. split; [nia|].
    assert (Hhalf : Zpos m * u ≤ 2 * a) by nia. rewrite Hm2 in Hhalf.
    destruct (Z.eq_dec (d + (e + s)) 1) as [Hone|Hone].
    + right. assert (d = 1) by lia. assert (e + s = 0) by lia. split_and!; [done..|].
      rewrite Hm2 in *. replace (d - 1) with 0 in * by lia. unfold q. apply Z.div_small. split; [unfold a; nia|].
      unfold u in Hlow. replace (e + s) with 0 in Hlow by lia. rewrite Z.pow_0_r in Hlow. lia.
    + left. apply Zdigits2_unique; [lia|]. rewrite Hpow in Hlow by lia. split.
      * apply Z.div_le_lower_bound; [lia|]. rewrite Hpow in Hhalf by lia.
        replace (d - 1 + (e + s)) with (Z.succ (d - 1 + (e + s) - 1)) in Hhalf by lia. rewrite Z.pow_succ_r in Hhalf by lia. nia.
      * apply Z.div_lt_upper_bound; [lia|]. done.
Qed.

(** The exponent at which it is rounded: the float's, or one less below a power
    of two, where the float is the next unit up. *)
Lemma rounds_at : target 53 1024 q (- s) = e ∨
  target 53 1024 q (- s) = e - 1 ∧ -1074 ≤ e - 1 ∧ Zpos m = 2 ^ 52 ∧ 1 ≤ e + s ∧ 4 * Z.abs (a - Zpos m * u) < u.
Proof.
  pose proof (bounded64 m e Hb) as (Hcan & Hmax & Hmin & Hd & Hm). pose proof quotient_digits as Hq. cbv zeta in Hq.
  set (d := Zpos (digits2_pos m)) in *. rewrite fexp64_eq in Hcan. unfold target. rewrite fexp64_eq in *.
  destruct Hq as [Hq|(Hm2 & Hlt & Hq)]; [left; rewrite Hq in *; lia|].
  destruct Hq as [Hq|(Hd1 & Ht & Hq)]; [|left; rewrite Hq; cbn [Zdigits2]; lia].
  rewrite Hq in *. destruct (Z.eq_dec d 53) as [H53|H53]; [|left; lia].
  destruct (Z.le_gt_cases (-1074) (e - 1)) as [He|He]; [right|left; lia].
  rewrite H53 in Hm2. change (53 - 1) with 52 in Hm2. split_and!; [lia|done|done|lia|].
  pose proof unit_pos. rewrite Hm2 in *. change (2 ^ 52) with 4503599627370496 in *. nia.
Qed.

Lemma close_rounds neg l : lies q l a P → binary_round_aux 53 1024 neg q (- s) l = S754_finite neg m e.
Proof.
  intros Hl. pose proof (bounded64 m e Hb) as (_ & Hmax & _).
  assert (Hq0 : 0 ≤ q) by (apply Z.div_pos; [unfold a|]; nia).
  destruct rounds_at as [He|(He & Hmin & Hm & Ht & Hc)].
  - rewrite (round_aux_closest 53 1024 neg q (- s) l a P (Zpos m) Hq0 HP Hl); rewrite He; replace (e - - s) with (e + s) by lia.
    + rewrite settled_float by done. cbn [shr_m]. destruct (Z.leb_spec e (1024 - 53)); [done|lia].
    + exact close_unit.
  - assert (Hu : u = 2 * (P * 2 ^ (e - 1 + s))).
    { unfold u. replace (e + s) with (Z.succ (e - 1 + s)) by lia. rewrite Z.pow_succ_r by lia. ring. }
    rewrite (round_aux_closest 53 1024 neg q (- s) l a P (2 * 2 ^ 52) Hq0 HP Hl); rewrite He; replace (e - 1 - - s) with (e - 1 + s) by lia.
    + rewrite carried_float by done. cbn [shr_m]. rewrite <- Hm. destruct (Z.leb_spec e (1024 - 53)); [done|lia].
    + rewrite <- Hm. set (v := P * 2 ^ (e - 1 + s)) in *.
      replace (2 * Zpos m * v) with (Zpos m * u) by (rewrite Hu; ring). lia.
Qed.

End close.

(** ** Decimal numbers *)

(** [num / den] is within one in 2e16 of [m * 2^e]. *)
Definition near (m : positive) (e num den : Z) : Prop :=
  let '(n, d) := ratio m e in Z.abs (num * d - n * den) * 20000000000000000 ≤ n * den.

Lemma near_scaled m e N P s : 0 ≤ s → 0 ≤ e + s → near m e N P →
  Z.abs (N * 2 ^ s - Zpos m * (P * 2 ^ (e + s))) * 20000000000000000 ≤ Zpos m * (P * 2 ^ (e + s)).
Proof.
  intros Hs Hes. unfold near, ratio. destruct (Z.leb_spec 0 e) as [He|He].
  - rewrite (Z.pow_add_r 2 e s) by lia. pose proof (Z.pow_pos_nonneg 2 s ltac:(lia) Hs) as Hp. intros Hn.
    replace (N * 2 ^ s - Zpos m * (P * (2 ^ e * 2 ^ s))) with ((N * 1 - Zpos m * 2 ^ e * P) * 2 ^ s) by ring.
    rewrite Z.abs_mul, (Z.abs_eq (2 ^ s)) by lia. nia.
  - replace (2 ^ s) with (2 ^ (e + s) * 2 ^ (- e)) by (rewrite <- Z.pow_add_r by lia; f_equal; lia).
    pose proof (Z.pow_pos_nonneg 2 (e + s) ltac:(lia) Hes) as Hp. intros Hn.
    replace (N * (2 ^ (e + s) * 2 ^ (- e)) - Zpos m * (P * 2 ^ (e + s))) with ((N * 2 ^ (- e) - Zpos m * P) * 2 ^ (e + s)) by ring.
    rewrite Z.abs_mul, (Z.abs_eq (2 ^ (e + s))) by lia. nia.
Qed.

Lemma near_digits m e N P c : bounded 53 1024 m e = true → 0 < P ≤ 2 ^ c → 0 ≤ c → near m e (Zpos N) P →
  Zpos (digits2_pos N) ≤ Zpos (digits2_pos m) + e + c.
Proof.
  intros Hb HP Hc Hn. set (s := Z.max 0 (- e)). pose proof (near_scaled m e (Zpos N) P s ltac:(lia) ltac:(lia) Hn) as Hs.
  pose proof (close_unit m e (Zpos N) P s Hb ltac:(lia) ltac:(lia) ltac:(lia) ltac:(lia) Hs) as Hu. cbv zeta in Hu.
  pose proof (digits2_bounds N) as HN. pose proof (digits2_bounds m) as Hm.
  set (d1 := Zpos (digits2_pos N)) in *. set (dm := Zpos (digits2_pos m)) in *.
  pose proof (Z.pow_pos_nonneg 2 (e + s) ltac:(lia) ltac:(lia)) as Hpe. pose proof (Z.pow_pos_nonneg 2 s ltac:(lia) ltac:(lia)) as Hps.
  assert (Hlt : Zpos N * 2 ^ s < 2 ^ dm * (2 ^ c * 2 ^ (e + s))).
  { assert (Zpos N * 2 ^ s < 2 ^ dm * (P * 2 ^ (e + s))) by nia.
    assert (P * 2 ^ (e + s) ≤ 2 ^ c * 2 ^ (e + s)) by nia. assert (0 < 2 ^ dm) by (apply Z.pow_pos_nonneg; lia). nia. }
  rewrite <- !Z.pow_add_r in Hlt by lia.
  assert (H2 : 2 ^ (d1 - 1 + s) < 2 ^ (dm + (c + (e + s)))).
  { eapply Z.le_lt_trans; [|exact Hlt]. rewrite Z.pow_add_r by lia. nia. }
  apply Z.pow_lt_mono_r_iff in H2; lia.
Qed.

Lemma iter_xO n d : Zpos (Pos.iter xO n d) = Zpos n * 2 ^ Zpos d.
Proof.
  revert n. induction d as [|d IH] using Pos.peano_ind; intros n; [cbn; lia|].
  rewrite Pos.iter_succ, Pos2Z.inj_succ, Z.pow_succ_r by lia. rewrite Pos2Z.inj_xO, IH. ring.
Qed.

Lemma Zdigits2_shift N s : 0 ≤ s → Zdigits2 (Zpos N * 2 ^ s) = Zpos (digits2_pos N) + s.
Proof.
  intros Hs. pose proof (digits2_bounds N) as HN. apply Zdigits2_unique; [lia|].
  replace (Zpos (digits2_pos N) + s - 1) with (Zpos (digits2_pos N) - 1 + s) by lia.
  rewrite !Z.pow_add_r by lia. pose proof (Z.pow_pos_nonneg 2 s). nia.
Qed.

Lemma fexp64_mono a b : a ≤ b → fexp64 a ≤ fexp64 b.
Proof. rewrite !fexp64_eq. lia. Qed.

(** A whole number close to a float is read as it. *)
Lemma normalize_near neg m e N : bounded 53 1024 m e = true → near m e (Zpos N) 1 →
  binary_normalize 53 1024 (cond_Zopp neg (Zpos N)) 0 neg = S754_finite neg m e.
Proof.
  intros Hb Hn. replace (binary_normalize 53 1024 (cond_Zopp neg (Zpos N)) 0 neg) with (binary_round 53 1024 neg N 0) by (by destruct neg).
  unfold binary_round, shl_align. rewrite Z.add_0_r, Z.sub_0_r.
  pose proof (near_digits m e N 1 0 Hb ltac:(lia) ltac:(lia) Hn) as Hd. pose proof (bounded64 m e Hb) as (Hcan & _).
  pose proof (fexp64_mono _ _ Hd) as Hf. rewrite Z.add_0_r, Hcan in Hf.
  set (s := Z.max 0 (- fexp64 (Zpos (digits2_pos N)))).
  assert (Hr : binary_round_aux 53 1024 neg (Zpos N * 2 ^ s) (- s) loc_Exact = S754_finite neg m e).
  { rewrite <- (Z.div_1_r (Zpos N * 2 ^ s)). apply (close_rounds m e (Zpos N) 1 s Hb); try lia.
    - apply near_scaled; [lia..|done].
    - rewrite Z.div_1_r, Zdigits2_shift by lia.
      replace (Zpos (digits2_pos N) + s - s) with (Zpos (digits2_pos N)) by lia. lia.
    - rewrite Z.div_1_r. cbn. lia. }
  destruct (fexp64 (Zpos (digits2_pos N))) as [|d|d] eqn:He; subst s.
  - by rewrite Z.mul_1_r in Hr.
  - replace (Z.max 0 (- Zpos d)) with 0 in Hr by lia. by rewrite Z.mul_1_r in Hr.
  - by rewrite iter_xO.
Qed.

(** So is a fraction. *)
Lemma divide_near neg m e N P : bounded 53 1024 m e = true → (2 | Zpos P) → near m e (Zpos N) (Zpos P) →
  SFdiv 53 1024 (S754_finite neg N 0) (S754_finite false P 0) = S754_finite neg m e.
Proof.
  intros Hb Heven Hn. unfold SFdiv, SFdiv_core_binary. rewrite !Z.add_0_r, Z.sub_diag, Z.sub_0_l, xorb_false_r. cbn [Zdigits2].
  pose proof (digits2_bounds P) as HP. pose proof (digits2_bounds N) as HN.
  pose proof (near_digits m e N (Zpos P) (Zpos (digits2_pos P)) Hb ltac:(lia) ltac:(lia) Hn) as Hd.
  pose proof (bounded64 m e Hb) as (Hcan & _).
  assert (Hf : Zpos (digits2_pos N) - Zpos (digits2_pos P) ≤ Zpos (digits2_pos m) + e) by lia.
  apply fexp64_mono in Hf. rewrite Hcan in Hf.
  set (ex := Z.min (fexp64 (Zpos (digits2_pos N) - Zpos (digits2_pos P))) 0). set (s := - ex).
  assert (Hm' : match s with Z0 => Zpos N | Zpos _ => Z.shiftl (Zpos N) s | Zneg _ => 0 end = Zpos N * 2 ^ s).
  { destruct s as [|p|p] eqn:Hs; [by rewrite Z.mul_1_r|by rewrite Z.shiftl_mul_pow2 by lia|lia]. }
  rewrite Hm'. destruct (Z.div_eucl (Zpos N * 2 ^ s) (Zpos P)) as [q r] eqn:Hqr.
  assert (Hq : q = Zpos N * 2 ^ s / Zpos P) by (unfold Z.div; by rewrite Hqr).
  assert (Hr : r = (Zpos N * 2 ^ s) mod Zpos P) by (unfold Z.modulo; by rewrite Hqr).
  pose proof (Z.div_mod (Zpos N * 2 ^ s) (Zpos P) ltac:(lia)) as Hdm. pose proof (Z.mod_pos_bound (Zpos N * 2 ^ s) (Zpos P) ltac:(lia)) as Hmb.
  rewrite <- Hq, <- Hr in Hdm. rewrite <- Hr in Hmb. rewrite Hq. replace ex with (- s) by lia.
  apply close_rounds; [done|lia..|apply near_scaled; [lia..|done]| |].
  - rewrite <- Hq. assert (Hdig : Zpos (digits2_pos N) - Zpos (digits2_pos P) ≤ Zdigits2 q - s); [|pose proof (fexp64_mono _ _ Hdig); lia].
    set (d1 := Zpos (digits2_pos N)) in *. set (d2 := Zpos (digits2_pos P)) in *.
    assert (Hq0 : 0 ≤ q) by nia.
    assert (Hz : q < 2 ^ Zdigits2 q ∧ 0 ≤ Zdigits2 q).
    { destruct q as [|p|p]; [by cbn|pose proof (digits2_bounds p); cbn [Zdigits2]; lia|lia]. }
    assert (Hlt : 2 ^ (d1 - 1 + s) < 2 ^ (Zdigits2 q + d2)).
    { rewrite !Z.pow_add_r by lia. pose proof (Z.pow_pos_nonneg 2 s ltac:(lia) ltac:(lia)) as Hps.
      assert (Zpos N * 2 ^ s < 2 ^ Zdigits2 q * Zpos P) by nia. nia. }
    apply Z.pow_lt_mono_r_iff in Hlt; lia.
  - rewrite <- Hq. unfold new_location. destruct Heven as [h Hh]. rewrite Hh, Z.even_mul, orb_true_r, <- Hh.
    unfold new_location_even. destruct (Z.eqb_spec r 0) as [->|Hr0]; cbn [lies]; [lia|].
    split; [nia|]. f_equal. lia.
Qed.

(** A decimal number close to a float is read as it. *)
Definition tens (x : Z) : Z := 10 ^ Z.max 0 x.

Lemma nearest_near neg m e D x : bounded 53 1024 m e = true → 0 < D → near m e (D * tens x) (tens (- x)) →
  nearest neg D x = Some (S754_finite neg m e).
Proof.
  intros Hb HD Hn. unfold nearest, nearest_in. destruct D as [|p|p]; [lia| |lia].
  destruct (Z.leb_spec 0 x) as [Hx|Hx].
  - unfold tens in Hn. replace (Z.max 0 x) with x in Hn by lia. replace (Z.max 0 (- x)) with 0 in Hn by lia.
    pose proof (Z.pow_pos_nonneg 10 x ltac:(lia) Hx) as Hp. destruct (Zpos p * 10 ^ x) as [|N|N] eqn:HN; [lia| |lia].
    by rewrite (normalize_near neg m e N).
  - unfold tens in Hn. replace (Z.max 0 x) with 0 in Hn by lia. replace (Z.max 0 (- x)) with (- x) in Hn by lia.
    rewrite Z.mul_1_r in Hn. pose proof (Z.pow_pos_nonneg 10 (- x) ltac:(lia) ltac:(lia)) as Hp.
    destruct (10 ^ (- x)) as [|P|P] eqn:HP; [lia| |lia]. cbn [Z.to_pos]. rewrite (divide_near neg m e p P); [done|done| |done].
    exists (5 * 10 ^ (- x - 1)). rewrite <- HP. replace (- x) with (Z.succ (- x - 1)) at 1 by lia. rewrite Z.pow_succ_r by lia. ring.
Qed.

(** ** Seventeen digits *)

Lemma digits_value_bounds s acc v : digits_value s acc = Some v →
  acc * 10 ^ Z.of_nat (String.length s) ≤ v < (acc + 1) * 10 ^ Z.of_nat (String.length s).
Proof.
  revert acc. induction s as [|c s IH]; intros acc; cbn [digits_value String.length].
  { intros [= ->]. cbn. lia. }
  unfold digit. destruct (between 48 57 (byte_z c)) eqn:Hc; [|done]. intros Hv%IH.
  unfold between in Hc. rewrite Nat2Z.inj_succ, Z.pow_succ_r by lia.
  assert (48 ≤ byte_z c ≤ 57) by lia. pose proof (Z.pow_pos_nonneg 10 (Z.of_nat (String.length s))). nia.
Qed.

Lemma ndigits_bounds z : 0 < z → 10 ^ (ndigits z - 1) ≤ z < 10 ^ ndigits z.
Proof.
  intros Hz. destruct (Itoa_pos z Hz) as (_ & Hv & c & p & Hp & Hc). unfold ndigits.
  pose proof (digits_value_bounds _ _ _ Hv) as Hb. rewrite Hp in *. cbn [digits_value] in Hv. unfold digit in Hv.
  destruct (between 48 57 (byte_z c)) eqn:Hr; [|done]. unfold between in Hr. apply digits_value_bounds in Hv.
  cbn [String.length] in *. rewrite Nat2Z.inj_succ in *. replace (Z.succ (Z.of_nat (String.length p)) - 1) with (Z.of_nat (String.length p)) by lia.
  pose proof (Z.pow_pos_nonneg 10 (Z.of_nat (String.length p))). assert (48 < byte_z c) by lia. split; nia.
Qed.

(** The decimal point stands where [point] says, and not further left. *)
Lemma point_low n d : 0 < n → 0 < d → let p := point n d in
  d * tens (p - 1) ≤ n * tens (1 - p).
Proof.
  intros Hn Hd p. unfold point in p. destruct (Z.leb_spec d n) as [Hle|Hlt].
  - assert (Hq : 0 < n / d) by (apply Z.div_str_pos; lia). pose proof (ndigits_bounds _ Hq) as Hb. fold p in Hb.
    assert (Hp : 1 ≤ p).
    { destruct (Z.le_gt_cases 1 p) as [|Hp]; [done|]. assert (10 ^ p ≤ 1) by (apply (Z.pow_le_mono_r 10 p 0); lia). lia. }
    unfold tens. replace (Z.max 0 (p - 1)) with (p - 1) by lia. replace (Z.max 0 (1 - p)) with 0 by lia.
    pose proof (Z.mul_div_le n d Hd). nia.
  - set (k := ndigits ((d - 1) / n)) in *. assert (Hk : (d - 1) / n < 10 ^ k ∧ 0 ≤ k).
    { split; [|unfold k, ndigits; lia]. destruct (Z.eq_dec ((d - 1) / n) 0) as [H0|H0]; [unfold k; by rewrite H0|].
      apply ndigits_bounds. pose proof (Z.div_pos (d - 1) n ltac:(lia) Hn). lia. }
    subst p. unfold tens. replace (Z.max 0 (1 - k - 1)) with 0 by lia. replace (Z.max 0 (1 - (1 - k))) with k by lia.
    pose proof (Z.mod_pos_bound (d - 1) n Hn). pose proof (Z.div_mod (d - 1) n ltac:(lia)). nia.
Qed.

Lemma tens_sixteen x n d : 0 < n → 0 < d → d * tens (x + 16) ≤ n * tens (- x - 16) → 10 ^ 16 * (d * tens x) ≤ n * tens (- x).
Proof.
  intros Hn Hd. unfold tens. destruct (Z.le_gt_cases 0 x) as [Hx|Hx]; [|destruct (Z.le_gt_cases x (- 16)) as [Hy|Hy]].
  - replace (Z.max 0 (x + 16)) with (16 + x) by lia. replace (Z.max 0 (- x - 16)) with 0 by lia.
    replace (Z.max 0 x) with x by lia. replace (Z.max 0 (- x)) with 0 by lia. rewrite Z.pow_add_r by lia. lia.
  - replace (Z.max 0 (x + 16)) with 0 by lia. replace (Z.max 0 (- x - 16)) with (- x - 16) by lia.
    replace (Z.max 0 x) with 0 by lia. replace (Z.max 0 (- x)) with (16 + (- x - 16)) by lia. rewrite Z.pow_add_r by lia. lia.
  - replace (Z.max 0 (x + 16)) with (x + 16) by lia. replace (Z.max 0 (- x - 16)) with 0 by lia.
    replace (Z.max 0 x) with 0 by lia. replace (Z.max 0 (- x)) with (- x) by lia.
    replace (10 ^ 16) with (10 ^ (x + 16) * 10 ^ (- x)) by (rewrite <- Z.pow_add_r by lia; f_equal; lia).
    pose proof (Z.pow_pos_nonneg 10 (- x)). nia.
Qed.

(** Seventeen digits read back. *)
Lemma decimal_found neg m e n d : bounded 53 1024 m e = true → ratio m e = (n, d) →
  is_Some (decimal_at neg (S754_finite neg m e) n d (point n d - 17)).
Proof.
  intros Hb Hr. assert (Hpos : 0 < n ∧ 0 < d).
  { unfold ratio in Hr. destruct (Z.leb_spec 0 e); injection Hr as <- <-; [pose proof (Z.pow_pos_nonneg 2 e)|pose proof (Z.pow_pos_nonneg 2 (- e))]; lia. }
  destruct Hpos as [Hn Hd]. pose proof (point_low n d Hn Hd) as Hp. cbv zeta in Hp. set (x := point n d - 17) in *.
  replace (point n d - 1) with (x + 16) in Hp by lia. replace (1 - point n d) with (- x - 16) in Hp by lia.
  pose proof (tens_sixteen x n d Hn Hd Hp) as Hbig. unfold decimal_at. fold (tens (- x)) (tens x).
  set (num := n * tens (- x)) in *. set (den := d * tens x) in *. assert (Hden : 0 < den) by (unfold den, tens; pose proof (Z.pow_pos_nonneg 10 (Z.max 0 x)); nia).
  pose proof (Z.div_mod num den ltac:(lia)) as Hdm. pose proof (Z.mod_pos_bound num den Hden) as Hmb.
  assert (Hlow : 10 ^ 16 ≤ num / den) by (apply Z.div_le_lower_bound; lia).
  set (up := _ || _). set (z := if up then num / den + 1 else num / den).
  assert (Hz : 10 ^ 16 ≤ z ∧ 2 * Z.abs (z * den - num) ≤ den).
  { unfold z, up. destruct (Z.ltb_spec den (2 * (num mod den))); cbn [orb]; [split; nia|].
    destruct (Z.eqb_spec den (2 * (num mod den))); cbn [andb]; [destruct (Z.odd _)|]; split; nia. }
  destruct Hz as [Hz Hc]. change (10 ^ 16) with 10000000000000000 in *.
  assert (Hreads : reads_as neg (S754_finite neg m e) (carry z x) = true).
  { unfold carry. destruct (Z.eqb_spec z 10); [lia|]. unfold reads_as. cbn [fst snd].
    apply andb_true_iff. split; [lia|]. apply bool_decide_eq_true, nearest_near; [done|lia|].
    unfold near. rewrite Hr. fold num. replace (z * tens x * d) with (z * den) by (unfold den; ring). lia. }
  rewrite Hreads. by eexists.
Qed.

Lemma shortest_from_found tries neg f n d x j : (j < tries)%nat → is_Some (decimal_at neg f n d (x - Z.of_nat j)) →
  is_Some (shortest_from tries neg f n d x).
Proof.
  revert x j. induction tries as [|tries IH]; intros x j Hj Hd; [lia|]. cbn [shortest_from].
  destruct (decimal_at neg f n d x) eqn:Hx; [by eexists|]. destruct j as [|j].
  - rewrite Z.sub_0_r in Hd. rewrite Hx in Hd. by destruct Hd.
  - apply (IH _ j); [lia|]. by replace (x - 1 - Z.of_nat j) with (x - Z.of_nat (S j)) by lia.
Qed.

Lemma shortest_total neg m e : bounded 53 1024 m e = true → is_Some (shortest neg m e).
Proof.
  intros Hb. unfold shortest. destruct (ratio m e) as [n d] eqn:Hr.
  apply (shortest_from_found _ _ _ _ _ _ 16); [lia|]. replace (point n d - 1 - Z.of_nat 16) with (point n d - 17) by lia.
  by apply decimal_found.
Qed.

(** The float64s without a text in JSON are NaN and the infinities. *)
Lemma float_text_none f : valid_binary 53 1024 f = true →
  float_text f = None ↔ f = S754_nan ∨ ∃ s, f = S754_infinity s.
Proof.
  intros Hv. destruct f as [s|s| |s m e]; cbn [float_text]; [|naive_solver..|].
  - split; [done|by intros [|[]]].
  - destruct (shortest_total s m e Hv) as [[D x] ->]. split; [done|by intros [|[]]].
Qed.
