(* ===== verification/RoundTrip.v ===== *)
(** * JSON text read back

    Text that [Json.print] writes, compact or indented, is read by
    [Unmarshal] as the value it was written from: numbers rounded to float64,
    invalid UTF-8 replaced, the last of repeated keys kept. *)

From S2P Require Import Prelude GoStrings GoTime Value Floats Json Unmarshal NumberText.
From Stdlib Require Import Ascii.
Local Open Scope Z_scope.

(** ** Numbers *)

(** Text that cannot go on a number: empty, or starting with a delimiter. *)
Definition ends (s : string) : bool :=
  match s with EmptyString => true | String a _ => existsb (Z.eqb (byte_z a)) [44; 93; 125; 32; 9; 10; 13] end.

Lemma ends_head c s : ends s = true → existsb (Z.eqb c) [44; 93; 125; 32; 9; 10; 13] = false → is_char c s = None.
Proof.
  intros He Hc. destruct s as [|a s]; [done|]. cbn [ends is_char] in *.
  destruct (Z.eqb_spec (byte_z a) c) as [<-|]; [congruence|done].
Qed.

Lemma ends_span s : ends s = true → span_digits s = ("", s).
Proof.
  destruct s as [|a s]; [done|]. cbn [ends span_digits]. unfold is_digit, between.
  destruct ((48 <=? byte_z a) && (byte_z a <=? 57)) eqn:Hb; [|done]. cbn [existsb]. lia.
Qed.

Section append.
Context (rest : string) (He : ends rest = true).

Definition plus {A} (p : A * string) : A * string := (p.1, p.2 +:+ rest).

Lemma span_digits_plus s : span_digits (s +:+ rest) = plus (span_digits s).
Proof.
  induction s as [|a s IH]; cbn [String.append span_digits].
  - by apply ends_span.
  - destruct (is_digit a); [|done]. rewrite IH. by destruct (span_digits s).
Qed.

Lemma is_char_plus c s : existsb (Z.eqb c) [44; 93; 125; 32; 9; 10; 13] = false →
  is_char c (s +:+ rest) = (λ t, t +:+ rest) <$> is_char c s.
Proof.
  intros Hc. destruct s as [|a s]; cbn [String.append is_char]; [by apply ends_head|].
  by destruct (byte_z a =? c).
Qed.

Lemma int_part_plus s : int_part (s +:+ rest) = plus <$> int_part s.
Proof.
  unfold int_part. rewrite is_char_plus, span_digits_plus by done. destruct (is_char 48 s); [done|].
  by destruct (span_digits s) as [[|a ds] r].
Qed.

Lemma frac_part_plus s : frac_part (s +:+ rest) = plus <$> frac_part s.
Proof.
  unfold frac_part. rewrite is_char_plus by done. destruct (is_char 46 s) as [s'|]; [|done].
  cbn [fmap option_fmap option_map]. rewrite span_digits_plus. by destruct (span_digits s') as [[|a ds] r].
Qed.

Lemma exp_digits_plus neg s : exp_digits neg (s +:+ rest) = plus <$> exp_digits neg s.
Proof.
  unfold exp_digits. rewrite span_digits_plus. destruct (span_digits s) as [[|a ds] r]; [done|].
  cbn [plus fst snd]. by destruct (digits_value _ _).
Qed.

Lemma exp_part_plus s : exp_part (s +:+ rest) = plus <$> exp_part s.
Proof.
  unfold exp_part. rewrite !is_char_plus by done.
  assert (Hsign : ∀ s', match is_char 45 (s' +:+ rest), is_char 43 (s' +:+ rest) with
      | Some s'', _ => exp_digits true s'' | None, Some s'' => exp_digits false s''
      | None, None => exp_digits false (s' +:+ rest) end =
    plus <$> match is_char 45 s', is_char 43 s' with
      | Some s'', _ => exp_digits true s'' | None, Some s'' => exp_digits false s''
      | None, None => exp_digits false s' end).
  { intros s'. rewrite !is_char_plus by done.
    destruct (is_char 45 s'), (is_char 43 s'); cbn [fmap option_fmap option_map]; apply exp_digits_plus. }
  destruct (is_char 101 s), (is_char 69 s); cbn [fmap option_fmap option_map]; try apply Hsign. done.
Qed.

(** A number reads the same in front of a delimiter. *)
Lemma number_plus s : number (s +:+ rest) = plus <$> number s.
Proof.
  unfold number. rewrite is_char_plus by done.
  assert (Hbody : ∀ (neg : bool) s', match int_part (s' +:+ rest) with
    | None => None
    | Some (ds, s) => match frac_part s with None => None | Some (fs, s) =>
        match exp_part s with None => None | Some (e, s) =>
          match digits_value (ds +:+ fs) 0 with None => None | Some m =>
            Some (match nearest neg m (e - Z.of_nat (String.length fs)) with Some f => VFloat f | None => VNil end, s)
          end end end end = plus <$> match int_part s' with
    | None => None
    | Some (ds, s) => match frac_part s with None => None | Some (fs, s) =>
        match exp_part s with None => None | Some (e, s) =>
          match digits_value (ds +:+ fs) 0 with None => None | Some m =>
            Some (match nearest neg m (e - Z.of_nat (String.length fs)) with Some f => VFloat f | None => VNil end, s)
          end end end end).
  { intros neg s'. rewrite int_part_plus. destruct (int_part s') as [[ds s1]|]; [|done]. cbn [fmap option_fmap option_map plus fst snd].
    rewrite frac_part_plus. destruct (frac_part s1) as [[fs s2]|]; [|done]. cbn [fmap option_fmap option_map plus fst snd].
    rewrite exp_part_plus. destruct (exp_part s2) as [[e s3]|]; [|done]. cbn [fmap option_fmap option_map plus fst snd].
    by destruct (digits_value _ _). }
  destruct (is_char 45 s); cbn [fmap option_fmap option_map]; apply Hbody.
Qed.

End append.

(** ** Strings *)

(** What [decode] yields: an invalid byte, or a rune with its encoding. *)
Definition piece (p : Z * string) : Prop :=
  (p.1 = rune_error ∧ String.length p.2 = 1%nat) ∨ (valid_rune p.1 = true ∧ p.2 = encode_rune p.1).

Lemma z_byte_eq a z : byte_z a = z → z_byte z = a.
Proof. intros <-. apply z_byte_of. Qed.

(** The bytes a rune was decoded from encode it. *)
Lemma encode_2 a b : 194 ≤ byte_z a ≤ 223 → 128 ≤ byte_z b ≤ 191 →
  encode_rune ((byte_z a - 192) * 64 + (byte_z b - 128)) = String a (String b "").
Proof.
  intros Ha Hb. set (r := _ + _). assert (r / 64 = byte_z a - 192) by div_lia.
  assert (r mod 64 = byte_z b - 128) by div_lia. unfold encode_rune, between.
  replace ((0 <=? r) && (r <=? 127)) with false by lia. replace ((128 <=? r) && (r <=? 2047)) with true by lia.
  by rewrite (z_byte_eq a), (z_byte_eq b) by lia.
Qed.

Lemma encode_3 a b c : 224 ≤ byte_z a ≤ 239 → second_lo (byte_z a) ≤ byte_z b ≤ second_hi (byte_z a) →
  128 ≤ byte_z c ≤ 191 →
  let r := (byte_z a - 224) * 4096 + (byte_z b - 128) * 64 + (byte_z c - 128) in
  valid_rune r = true ∧ encode_rune r = String a (String b (String c "")).
Proof.
  intros Ha Hb Hc r.
  assert (Hb' : 128 ≤ byte_z b ≤ 191) by (unfold second_lo, second_hi in Hb; repeat case_match; lia).
  assert (Hr : 2048 ≤ r < 65536 ∧ valid_rune r = true).
  { unfold second_lo, second_hi, valid_rune, between in *. repeat case_match; lia. }
  assert (r / 4096 = byte_z a - 224) by div_lia. assert (r / 64 mod 64 = byte_z b - 128) by div_lia.
  assert (r mod 64 = byte_z c - 128) by div_lia. destruct Hr as [Hr Hv]. split; [done|].
  unfold encode_rune. rewrite Hv. unfold between.
  replace ((0 <=? r) && (r <=? 127)) with false by lia. replace ((128 <=? r) && (r <=? 2047)) with false by lia.
  replace (r <? 65536) with true by lia. cbn [negb].
  by rewrite (z_byte_eq a), (z_byte_eq b), (z_byte_eq c) by lia.
Qed.

Lemma encode_4 a b c d : 240 ≤ byte_z a ≤ 244 → second_lo (byte_z a) ≤ byte_z b ≤ second_hi (byte_z a) →
  128 ≤ byte_z c ≤ 191 → 128 ≤ byte_z d ≤ 191 →
  let r := (byte_z a - 240) * 262144 + (byte_z b - 128) * 4096 + (byte_z c - 128) * 64 + (byte_z d - 128) in
  valid_rune r = true ∧ encode_rune r = String a (String b (String c (String d ""))).
Proof.
  intros Ha Hb Hc Hd r.
  assert (Hb' : 128 ≤ byte_z b ≤ 191) by (unfold second_lo, second_hi in Hb; repeat case_match; lia).
  assert (Hr : 65536 ≤ r ≤ 1114111).
  { unfold second_lo, second_hi in *. repeat case_match; lia. }
  assert (Hv : valid_rune r = true) by (unfold valid_rune, between; lia).
  assert (r / 262144 = byte_z a - 240) by div_lia. assert (r / 4096 mod 64 = byte_z b - 128) by div_lia.
  assert (r / 64 mod 64 = byte_z c - 128) by div_lia. assert (r mod 64 = byte_z d - 128) by div_lia.
  split; [done|]. unfold encode_rune. rewrite Hv. unfold between.
  replace ((0 <=? r) && (r <=? 127)) with false by lia. replace ((128 <=? r) && (r <=? 2047)) with false by lia.
  replace (r <? 65536) with false by lia. cbn [negb].
  by rewrite (z_byte_eq a), (z_byte_eq b), (z_byte_eq c), (z_byte_eq d) by lia.
Qed.

Lemma decode_pieces s : Forall piece (decode s).
Proof.
  induction s as [s IH] using (induction_ltof1 _ String.length). unfold ltof in IH.
  destruct s as [|a s1]; [constructor|]. cbn [decode].
  assert (Hb := byte_z_range a).
  repeat split_match; subst; (constructor; [|apply IH; simpl; lia]); try (by left); right; cbn [fst snd];
    unfold cont, second, between in *; rewrite ?andb_true_iff, ?Z.leb_le in *.
  - unfold encode_rune, between, valid_rune, between. rewrite z_byte_of.
    replace ((0 <=? byte_z a) && (byte_z a <=? 127)) with true by lia. split; [lia|done].
  - rewrite encode_2 by lia. unfold valid_rune, between. split; [lia|done].
  - split; [apply encode_3|symmetry; apply encode_3]; lia.
  - split; [apply encode_4|symmetry; apply encode_4]; lia.
Qed.

(** Text that stands for itself between quotes. *)
Definition unescaped (e : string) : bool :=
  forallb (λ a, negb (byte_z a =? 34) && negb (byte_z a =? 92) && (32 <=? byte_z a)) (String.list_ascii_of_string e).

Lemma scan_text e t : unescaped e = true → scan_string (e +:+ t) = (λ p, (e +:+ p.1, p.2)) <$> scan_string t.
Proof.
  intros He. induction e as [|a e IH]; [cbn; by destruct (scan_string t) as [[]|]|].
  unfold unescaped in He. cbn in He. rewrite !andb_true_iff, !negb_true_iff, Z.leb_le in He. destruct He as [[[H1 H2] H3] He].
  cbn [String.append scan_string]. rewrite H1, H2. replace (byte_z a <? 32) with false by lia.
  rewrite IH by done. by destruct (scan_string t) as [[]|].
Qed.

Lemma scan_escape b t :
  scan_string (backslash +:+ String b t) = (λ p, (backslash +:+ String b p.1, p.2)) <$> scan_string t.
Proof. change (backslash +:+ String b t) with (String (z_byte 92) (String b t)). cbn [scan_string]. by destruct (scan_string t) as [[]|]. Qed.

(** ASCII text decodes byte by byte. *)
Definition ascii_pieces (e : string) : list (Z * string) := map (λ a, (byte_z a, String a "")) (String.list_ascii_of_string e).

Lemma decode_ascii e t : forallb (λ a, byte_z a <? 128) (String.list_ascii_of_string e) = true →
  decode (e +:+ t) = ascii_pieces e ++ decode t.
Proof.
  intros He. induction e as [|a e IH]; [done|]. cbn in He. apply andb_true_iff in He as [Ha%Z.ltb_lt He].
  cbn [String.append]. rewrite decode_byte, IH by done. done.
Qed.

(** The bytes of an encoded rune above the ASCII range. *)
Lemma encode_unescaped r : valid_rune r = true → 128 ≤ r → unescaped (encode_rune r) = true.
Proof.
  assert (Hb : ∀ z, 128 ≤ z < 256 →
    negb (byte_z (z_byte z) =? 34) && negb (byte_z (z_byte z) =? 92) && (32 <=? byte_z (z_byte z)) = true).
  { intros z Hz. rewrite byte_z_of by lia. lia. }
  intros Hv Hr. unfold encode_rune, unescaped. rewrite Hv. unfold valid_rune, between in *. cbn [negb].
  replace ((0 <=? r) && (r <=? 127)) with false by lia.
  destruct ((128 <=? r) && (r <=? 2047)) eqn:H2; [|destruct (r <? 65536) eqn:H3];
    cbn [String.list_ascii_of_string forallb]; rewrite !Hb by div_lia; done.
Qed.

(** How an escaped rune is read, in front of any text. *)
Definition reads_back (p : Z * string) : Prop :=
  ∀ t, scan_string (escape_rune p +:+ t) = (λ q, (escape_rune p +:+ q.1, q.2)) <$> scan_string t ∧
  ∀ n, unquote (S n) (decode (escape_rune p +:+ t)) = (λ u, encode_rune p.1 +:+ u) <$> unquote n (decode t).

Lemma reads_raw r raw : escape_rune (r, raw) = encode_rune r → valid_rune r = true → unescaped (encode_rune r) = true →
  r ≠ 92 → reads_back (r, raw).
Proof.
  intros He Hv Hu Hr t. rewrite He. split; [by apply scan_text|]. intros n. rewrite decode_encode by done. cbn [unquote].
  replace (r =? 92) with false by lia. by destruct (unquote n _).
Qed.

Lemma reads_simple r raw c : escape_rune (r, raw) = backslash +:+ String c "" → byte_z c < 128 → byte_z c ≠ 117 →
  simple_escape (byte_z c) = Some r → reads_back (r, raw).
Proof.
  intros He Ha Hu Hc t. rewrite He, sapp_assoc. split; [apply scan_escape|]. intros n.
  rewrite <- sapp_assoc, decode_ascii
    by (cbn [backslash String.append String.list_ascii_of_string forallb]; apply Z.ltb_lt in Ha; by rewrite Ha).
  cbn [String.append ascii_pieces backslash String.list_ascii_of_string map app unquote fst].
  replace (byte_z (z_byte 92) =? 92) with true by done. replace (byte_z c =? 117) with false by lia.
  rewrite Hc. cbn [fst]. by destruct (unquote n _).
Qed.

(** The runes written as \u and four digits. *)
Definition hex_escaped : list Z := seqZ 0 32 ++ [60; 62; 38; 8232; 8233; rune_error].

Lemma reads_hex r raw : escape_rune (r, raw) = backslash +:+ "u" +:+ hex 4 r → r ∈ hex_escaped → reads_back (r, raw).
Proof.
  intros He Hr t.
  assert (H : unescaped (hex 4 r) = true ∧ forallb (λ a, byte_z a <? 128) (String.list_ascii_of_string (hex 4 r)) = true ∧
    is_surrogate r = false ∧ ∀ l, hex4 (ascii_pieces (hex 4 r) ++ l) = Some (r, l)).
  { clear He. revert r Hr. apply Forall_forall. unfold hex_escaped. rewrite Forall_app. split; repeat constructor. }
  destruct H as (Hu & Ha & Hs & Hh). rewrite He, !sapp_assoc. split.
  - cbn [String.append]. rewrite scan_escape, scan_text by done. by destruct (scan_string t) as [[]|].
  - intros n. rewrite !decode_ascii by done.
    cbn [ascii_pieces backslash String.append String.list_ascii_of_string map app unquote fst].
    replace (byte_z (z_byte 92) =? 92) with true by done. replace (byte_z "u" =? 117) with true by done.
    fold (ascii_pieces (hex 4 r)). rewrite Hh, Hs. cbn [fst]. by destruct (unquote n _).
Qed.

Lemma ascii_reads_back : Forall (λ r, reads_back (r, encode_rune r)) (seqZ 0 128).
Proof.
  assert (Hin : ∀ r, existsb (Z.eqb r) hex_escaped = true → r ∈ hex_escaped).
  { intros r (z & Hz & ->%Z.eqb_eq)%existsb_exists. by apply list_elem_of_In. }
  unfold seqZ. cbn [Z.to_nat Pos.to_nat Pos.iter_op Nat.add seq fmap list_fmap].
  repeat (apply Forall_cons_2;
    [first [ apply reads_raw; [reflexivity..|by vm_compute]
           | eapply reads_simple; [reflexivity|by vm_compute|by vm_compute|reflexivity]
           | apply reads_hex; [reflexivity|apply Hin; reflexivity] ]|]).
  constructor.
Qed.

Lemma piece_reads_back p : piece p → reads_back p.
Proof.
  destruct p as [r raw]. unfold piece. cbn [fst snd]. intros [[-> Hl]|[Hv ->]].
  { apply reads_hex; [unfold escape_rune; by rewrite Hl|by apply (bool_decide_unpack _); vm_compute]. }
  destruct (decide (r < 128)) as [Hr|Hr].
  { apply (proj1 (Forall_forall _ _) ascii_reads_back). apply elem_of_seqZ. unfold valid_rune, between in Hv. lia. }
  destruct (decide (r = 8232)) as [->|H1]; [apply reads_hex; [done|by apply (bool_decide_unpack _); vm_compute]|].
  destruct (decide (r = 8233)) as [->|H2]; [apply reads_hex; [done|by apply (bool_decide_unpack _); vm_compute]|].
  apply reads_raw; [|done|by apply encode_unescaped; [|lia]|lia].
  assert (Hlen : (String.length (encode_rune r) =? 1)%nat = false).
  { unfold encode_rune. rewrite Hv. replace (between 0 127 r) with false by (unfold between; lia). by repeat case_match. }
  unfold escape_rune. rewrite Hlen, andb_false_r.
  repeat match goal with |- context [if ?c then _ else _] => replace c with false by lia end. done.
Qed.

(** The string between the quotes, with invalid UTF-8 replaced. *)
Definition sanitized (s : string) : string := of_runes (runes s).

Lemma scan_escaped ps t : Forall piece ps →
  scan_string (cat (map escape_rune ps) +:+ quote +:+ t) = Some (cat (map escape_rune ps), t).
Proof.
  induction 1 as [|p ps Hp _ IH]; [done|]. cbn [map cat]. rewrite sapp_assoc.
  destruct (piece_reads_back p Hp (cat (map escape_rune ps) +:+ quote +:+ t)) as [-> _]. by rewrite IH.
Qed.

Lemma unquote_escaped ps n : Forall piece ps → (length ps < n)%nat →
  unquote n (decode (cat (map escape_rune ps))) = Some (of_runes (map fst ps)).
Proof.
  intros Hps. revert n. induction Hps as [|p ps Hp _ IH]; intros [|n] Hn; cbn [length] in Hn; [lia|done|lia|].
  cbn [map cat of_runes]. destruct (piece_reads_back p Hp (cat (map escape_rune ps))) as [_ ->].
  rewrite IH by lia. done.
Qed.

Lemma escape_length p : piece p → (1 ≤ String.length (escape_rune p))%nat.
Proof.
  intros Hp. destruct (piece_reads_back p Hp "") as [_ H]. specialize (H O). rewrite sapp_nil_r in H.
  destruct (escape_rune p); [done|cbn; lia].
Qed.

(** A string written in JSON reads back, invalid UTF-8 replaced. *)
Lemma string_reads_back s t :
  ∃ body, json_string s +:+ t = quote +:+ body ∧ string_body body = Some (sanitized s, t).
Proof.
  exists (cat (map escape_rune (decode s)) +:+ quote +:+ t). unfold json_string. rewrite !sapp_assoc. split; [done|].
  unfold string_body. rewrite scan_escaped by apply decode_pieces. rewrite unquote_escaped; [done|apply decode_pieces|].
  induction (decode_pieces s) as [|p ps Hp _ IH]; cbn [length map cat String.length]; [lia|].
  rewrite sapp_length. pose proof (escape_length p Hp). lia.
Qed.

(** ** Values *)

Section values.
Context `{Builder}.

(** A number's text that is a whole JSON number. *)
Definition number_text (t : string) : bool := match number t with Some (_, "") => true | _ => false end.

Definition number_value (t : string) : value := match number t with Some (v, _) => v | None => VNil end.

(** The value a document stands for. *)
Fixpoint read_back (j : json) : value :=
  match j with
  | JNull => VNil
  | JBool b => VBool b
  | JNum t => keep_number (number_value t)
  | JStr s => VStr (sanitized s)
  | JArr l => VList (map read_back l)
  | JObj m => VObj (fold_left (λ acc e, add_member (sanitized e.1) (read_back e.2) acc) m [])
  end.

Fixpoint levels (j : json) : nat :=
  match j with
  | JArr l => S (fold_right Nat.max 0%nat (map levels l))
  | JObj m => S (fold_right Nat.max 0%nat (map (λ e, levels e.2) m))
  | _ => 0%nat
  end.

(** Every number in a document has a text that is one. *)
Inductive numeric : json → Prop :=
| numeric_null : numeric JNull
| numeric_bool b : numeric (JBool b)
| numeric_num t : number_text t = true → numeric (JNum t)
| numeric_str s : numeric (JStr s)
| numeric_arr l : Forall numeric l → numeric (JArr l)
| numeric_obj m : Forall (λ e, numeric e.2) m → numeric (JObj m).

(** *** White space *)

Definition white (s : string) : bool := forallb (λ a, existsb (Z.eqb (byte_z a)) [32; 9; 10; 13]) (String.list_ascii_of_string s).

Lemma skip_white w s : white w = true → skip (w +:+ s) = skip s.
Proof.
  induction w as [|a w IH]; [done|]. unfold white. cbn [String.list_ascii_of_string forallb existsb].
  rewrite orb_false_r, !orb_assoc. intros [Ha Hw]%andb_true_iff. cbn [String.append skip]. rewrite Ha. by apply IH.
Qed.

Lemma skip_idemp s : skip (skip s) = skip s.
Proof. induction s as [|b s IH]; [done|]. cbn [skip]. destruct (_ || _) eqn:Hw; [done|]. cbn [skip]. by rewrite Hw. Qed.

Lemma parse_skip d s : parse_value d (skip s) = parse_value d s.
Proof. destruct d; cbn [parse_value]; by rewrite skip_idemp. Qed.

Lemma parse_white d w s : white w = true → parse_value d (w +:+ s) = parse_value d s.
Proof. intros Hw. by rewrite <- parse_skip, skip_white, parse_skip. Qed.

Lemma next_white w s : white w = true → next (w +:+ s) = next s.
Proof. intros Hw. unfold next. by rewrite skip_white. Qed.

Lemma ends_white w s : white w = true → ends s = true → ends (w +:+ s) = true.
Proof. destruct w as [|a w]; [done|]. unfold white. cbn. intros [Ha _]%andb_true_iff _. lia. Qed.

(** A byte that starts a value. *)
Definition starts (a : ascii) : bool := negb (existsb (Z.eqb (byte_z a)) [32; 9; 10; 13; 93; 125]).

Lemma skip_starts a s : starts a = true → skip (String a s) = String a s.
Proof. unfold starts. cbn [existsb skip]. intros Ha. by replace (_ || _) with false by lia. Qed.

Lemma next_starts a s : starts a = true → next (String a s) = Some (byte_z a, s).
Proof. intros Ha. unfold next. by rewrite skip_starts. Qed.

Lemma number_head t : number_text t = true → ∃ a t', t = String a t' ∧ (byte_z a = 45 ∨ 48 ≤ byte_z a ≤ 57).
Proof.
  unfold number_text, number. destruct t as [|a t]; [done|]. cbn [is_char]. intros Ht. exists a, t. split; [done|].
  destruct (Z.eqb_spec (byte_z a) 45) as [|Hm]; [by left|]. right. revert Ht. unfold int_part. cbn [is_char].
  destruct (Z.eqb_spec (byte_z a) 48); [lia|]. cbn [span_digits]. unfold is_digit, between.
  destruct ((48 <=? byte_z a) && (byte_z a <=? 57)) eqn:Hd; [lia|done].
Qed.

Section layout.
Context (nl : nat → string) (sp : string).
Hypotheses (Hnl : ∀ d, white (nl d) = true) (Hsp : white sp = true).

Lemma print_starts k j : numeric j → ∃ a s, print nl sp k j = String a s ∧ starts a = true.
Proof.
  destruct 1 as [|[]|t Ht|s|[|x l]|[|e m]]; cbn [print map]; try (by eexists _, _).
  destruct (number_head t Ht) as (a & t' & -> & Ha). exists a, t'. split; [done|]. unfold starts. cbn [existsb]. lia.
Qed.

Lemma Join_length l sep : Forall (λ s, s ≠ "") l → (length l ≤ String.length (Join l sep))%nat.
Proof.
  unfold Join. induction 1 as [|x l Hx Hl IH]; [done|]. destruct x as [|a x]; [done|]. destruct l as [|y l]; [cbn; lia|].
  cbn [String.concat length] in *. rewrite !sapp_length. cbn [String.length]. lia.
Qed.

Definition item_reads (d : nat) (k : nat) (j : json) : Prop :=
  ∀ rest, ends rest = true → parse_value d (print nl sp k j +:+ rest) = Some (read_back j, rest).

Lemma elements_read d k w w0 rest l n : white w = true → white w0 = true → l ≠ [] → (length l ≤ n)%nat →
  Forall (item_reads d k) l →
  elements (parse_value d) n (w0 +:+ Join (map (print nl sp k) l) ("," +:+ nl k) +:+ w +:+ "]" +:+ rest) =
  Some (map read_back l, rest).
Proof.
  intros Hw Hw0 Hl Hn Hr. revert n w0 Hw0 Hl Hn.
  induction Hr as [|x l Hx Hr IH]; intros [|n] w0 Hw0 Hl Hn; cbn [length] in Hn; try done; [lia|].
  unfold Join in *. destruct l as [|y l]; cbn [map String.concat elements]; rewrite parse_white by done.
  - rewrite Hx by by apply ends_white. by rewrite next_white.
  - rewrite !sapp_assoc, Hx by done. change ("," +:+ ?x) with (String "," x).
    rewrite next_starts by done. replace (byte_z "," =? 44) with true by done.
    rewrite IH by (done || (cbn [length] in *; lia)). done.
Qed.

Definition member (k : nat) (e : string * json) : string := json_string e.1 +:+ ":" +:+ sp +:+ print nl sp k e.2.

Definition set_member (acc : obj) (e : string * json) : obj := add_member (sanitized e.1) (read_back e.2) acc.

Lemma members_read d k w w0 rest m n acc : white w = true → white w0 = true → m ≠ [] → (length m ≤ n)%nat →
  Forall (λ e, item_reads d k e.2) m →
  members (parse_value d) n acc (w0 +:+ Join (map (member k) m) ("," +:+ nl k) +:+ w +:+ "}" +:+ rest) =
  Some (fold_left set_member m acc, rest).
Proof.
  intros Hw Hw0 Hm Hn Hr. revert n acc w0 Hw0 Hm Hn.
  induction Hr as [|x m Hx Hr IH]; intros [|n] acc w0 Hw0 Hm Hn; cbn [length] in Hn; try done; [lia|].
  assert (Hhead : ∀ t, ends t = true → members (parse_value d) (S n) acc (w0 +:+ member k x +:+ t) =
    match next t with
    | Some (c, s5) => if c =? 44 then members (parse_value d) n (set_member acc x) s5
        else if c =? 125 then Some (set_member acc x, s5) else None
    | None => None
    end).
  { intros t Ht. cbn [members]. rewrite next_white by done. unfold member. rewrite !sapp_assoc.
    destruct (string_reads_back x.1 (":" +:+ sp +:+ print nl sp k x.2 +:+ t)) as (body & -> & Hb).
    change (quote +:+ body) with (String (z_byte 34) body). rewrite next_starts by done.
    replace (byte_z (z_byte 34) =? 34) with true by done. rewrite Hb. change (":" +:+ ?y) with (String ":" y).
    rewrite next_starts by done. replace (byte_z ":" =? 58) with true by done. by rewrite parse_white, Hx. }
  unfold Join in *. destruct m as [|y m]; cbn [map String.concat].
  - rewrite Hhead by by apply ends_white. by rewrite next_white.
  - rewrite !sapp_assoc, Hhead by done. change ("," +:+ ?x) with (String "," x).
    rewrite next_starts by done. replace (byte_z "," =? 44) with true by done.
    rewrite IH by (done || (cbn [length] in *; lia)). done.
Qed.

(** What [bracket] writes around the items, and the items' first byte. *)
Lemma bracket_cons k open close x l : bracket nl k open close (x :: l) =
  open +:+ nl (S k) +:+ Join (x :: l) ("," +:+ nl (S k)) +:+ nl k +:+ close.
Proof. done. Qed.

Lemma next_items x l sep w t : white w = true → (∃ a s, x = String a s ∧ starts a = true) →
  ∃ c s', next (w +:+ Join (x :: l) sep +:+ t) = Some (c, s') ∧ c ≠ 93 ∧ c ≠ 125.
Proof.
  intros Hw (a & s & -> & Ha). rewrite next_white by done. unfold Join. exists (byte_z a).
  destruct l; cbn [String.concat String.append]; rewrite next_starts by done; eexists; (split; [done|]);
    unfold starts in Ha; cbn [existsb] in Ha; lia.
Qed.

Lemma le_each {A} d (l : list A) f : (fold_right Nat.max 0 (map f l) ≤ d)%nat → Forall (λ x, f x ≤ d)%nat l.
Proof. induction l as [|x l IH]; cbn; [constructor|]. intros Hd. constructor; [lia|apply IH; lia]. Qed.

Lemma fuel_items items w sep t : Forall (λ s, s ≠ "") items →
  (length items ≤ S (String.length (w +:+ Join items sep +:+ t)))%nat.
Proof. intros Hi. rewrite !sapp_length. pose proof (Join_length items sep Hi). lia. Qed.

Lemma member_starts k e : ∃ a s, member k e = String a s ∧ starts a = true.
Proof. by eexists (z_byte 34), _. Qed.

Lemma array_reads d k l : Forall numeric l → Forall (item_reads d (S k)) l → item_reads (S d) k (JArr l).
Proof.
  intros Hn Hr rest _. destruct l as [|x l]; [done|]. cbn [print map]. rewrite bracket_cons, !sapp_assoc.
  change ("[" +:+ ?y) with (String "[" y). cbn [parse_value]. rewrite skip_starts, next_starts by done.
  replace (byte_z "[" =? 34) with false by done. replace (byte_z "[" =? 123) with false by done.
  replace (byte_z "[" =? 91) with true by done.
  edestruct (next_items (print nl sp (S k) x) (map (print nl sp (S k)) l) ("," +:+ nl (S k)) (nl (S k)))
    as (c & s' & Hc & H93 & _); [done|by apply print_starts; inversion Hn|].
  rewrite Hc. replace (c =? 93) with false by lia.
  change (print nl sp (S k) x :: map (print nl sp (S k)) l) with (map (print nl sp (S k)) (x :: l)).
  rewrite elements_read; [done..| |done].
  rewrite <- (length_map (print nl sp (S k))). apply fuel_items, Forall_map. eapply Forall_impl; [exact Hn|].
  intros j Hj. cbn. destruct (print_starts (S k) j Hj) as (? & ? & -> & _). done.
Qed.

Lemma object_reads d k m : Forall (λ e, numeric e.2) m → Forall (λ e, item_reads d (S k) e.2) m → item_reads (S d) k (JObj m).
Proof.
  intros Hn Hr rest _. destruct m as [|x m]; [done|]. change (print nl sp k (JObj (x :: m))) with (bracket nl k "{" "}" (member (S k) x :: map (member (S k)) m)).
  rewrite bracket_cons, !sapp_assoc.
  change ("{" +:+ ?y) with (String "{" y). cbn [parse_value]. rewrite skip_starts, next_starts by done.
  replace (byte_z "{" =? 34) with false by done. replace (byte_z "{" =? 123) with true by done.
  edestruct (next_items (member (S k) x) (map (member (S k)) m) ("," +:+ nl (S k)) (nl (S k)))
    as (c & s' & Hc & _ & H125); [done|apply member_starts|].
  rewrite Hc. replace (c =? 125) with false by lia.
  change (member (S k) x :: map (member (S k)) m) with (map (member (S k)) (x :: m)).
  rewrite members_read; [done..| |done].
  rewrite <- (length_map (member (S k))). apply fuel_items, Forall_map, Forall_true.
  intros e. by destruct (member_starts (S k) e) as (? & ? & -> & _).
Qed.

Lemma number_reads d k t : number_text t = true → item_reads d k (JNum t).
Proof.
  intros Ht rest Hr. cbn [print read_back]. destruct (number_head t Ht) as (a & t' & -> & Ha).
  assert (Hs : starts a = true) by (unfold starts; cbn [existsb]; lia).
  assert (Hp : parse_value d (String a t' +:+ rest) =
    match number (String a t' +:+ rest) with Some (v, r) => Some (keep_number v, r) | None => None end).
  { cbn [String.append]. destruct d; cbn [parse_value]; rewrite skip_starts, next_starts by done;
      repeat match goal with |- context [if ?c then _ else _] => replace c with false by lia end; done. }
  rewrite Hp, number_plus by done. unfold number_text, number_value in *.
  destruct (number (String a t')) as [[v [|]]|]; done.
Qed.

Lemma literal_reads d k j rest :
  match j with JNull | JBool _ => True | _ => False end →
  parse_value d (print nl sp k j +:+ rest) = Some (read_back j, rest).
Proof.
  assert (Hlit : ∀ text v, literal text v (text +:+ rest) = Some (v, rest)).
  { intros text v. unfold literal. by rewrite HasPrefix_app, TrimPrefix_app. }
  destruct j as [|[]| | | |]; try done; intros _; [pose proof (Hlit "null" VNil) as Hl|
    pose proof (Hlit "true" (VBool true)) as Hl|pose proof (Hlit "false" (VBool false)) as Hl];
    destruct d; cbn [print parse_value String.append] in *; by rewrite skip_starts, next_starts.
Qed.

(** The text of a document is read as the value the document stands for. *)
Lemma print_reads j : numeric j → ∀ d k, (levels j ≤ d)%nat → item_reads d k j.
Proof.
  induction j as [|b|t|s|l IH|m IH] using json_ind; intros Hn d k Hd rest Hr.
  - by apply literal_reads.
  - destruct b; by apply literal_reads.
  - inversion Hn. by apply number_reads.
  - cbn [print]. destruct (string_reads_back s rest) as (body & -> & Hb).
    change (quote +:+ body) with (String (z_byte 34) body).
    destruct d; cbn [parse_value]; rewrite skip_starts, next_starts by done; replace (byte_z (z_byte 34) =? 34) with true by done;
      by rewrite Hb.
  - inversion Hn as [| | | |? Hl|]; subst. cbn [levels] in Hd. destruct d as [|d]; [lia|]. apply array_reads; [done| |done].
    apply le_S_n, le_each in Hd. rewrite Forall_forall in *. eauto.
  - inversion Hn as [| | | | |? Hl]; subst. cbn [levels] in Hd. destruct d as [|d]; [lia|]. apply object_reads; [done| |done].
    apply le_S_n, le_each in Hd. rewrite Forall_forall in *. eauto.
Qed.

Lemma print_parses j : numeric j → (levels j ≤ maxNestingDepth)%nat → parse_all (print nl sp 0 j) = Some (read_back j).
Proof.
  intros Hn Hl. unfold parse_all. rewrite <- (sapp_nil_r (print nl sp 0 j)). by rewrite print_reads.
Qed.

End layout.

Lemma white_line d : white (line d) = true.
Proof. unfold white, line. cbn. induction d as [|d IH]; [done|]. cbn. apply IH. Qed.

Lemma parse_compact j : numeric j → (levels j ≤ maxNestingDepth)%nat → parse_all (compact j) = Some (read_back j).
Proof. by apply print_parses. Qed.

Lemma parse_indented j : numeric j → (levels j ≤ maxNestingDepth)%nat → parse_all (indented j) = Some (read_back j).
Proof. apply print_parses; [apply white_line|done]. Qed.

End values.

#[export] Existing Instance as_map.

Lemma Unmarshal_compact j : numeric j → (levels j ≤ maxNestingDepth)%nat → Unmarshal (compact j) = Some (read_back j).
Proof. apply parse_compact. Qed.

Lemma Unmarshal_indented j : numeric j → (levels j ≤ maxNestingDepth)%nat → Unmarshal (indented j) = Some (read_back j).
Proof. apply parse_indented. Qed.

(** ** Go values *)

(** Members in byte order of their keys. *)
Definition in_key_order {A} : list (string * A) → list (string * A) := stable_sort by_key.

(** What is left of a value after a round trip through JSON: integers are
    float64s, strings valid UTF-8, maps in the order of their keys. *)
Fixpoint canon (v : value) : value :=
  match v with
  | VInt _ z => int_value z
  | VStr s => VStr (sanitized s)
  | VList l => VList (map canon l)
  | VObj m => VObj (in_key_order (map (λ e, (e.1, canon e.2)) m))
  | v => v
  end.

(** Maps with distinct keys, valid UTF-8. *)
Inductive keyed : value → Prop :=
| keyed_nil : keyed VNil
| keyed_bool b : keyed (VBool b)
| keyed_int k z : keyed (VInt k z)
| keyed_float f : keyed (VFloat f)
| keyed_str s : keyed (VStr s)
| keyed_list l : Forall keyed l → keyed (VList l)
| keyed_obj m : NoDup (mkeys m) → Forall (λ e, sanitized e.1 = e.1) m → Forall (λ e, keyed e.2) m → keyed (VObj m).

Lemma mset_fresh {A} k (x : A) m : k ∉ mkeys m → mset k x m = m ++ [(k, x)].
Proof.
  induction m as [|[k' y] m IH]; cbn; [done|]. rewrite not_elem_of_cons. intros [Hk Hm].
  rewrite decide_False by done. by rewrite IH.
Qed.

Lemma members_fold m acc : NoDup (mkeys (acc ++ map (λ e, (e.1, read_back e.2)) m)) → Forall (λ e, sanitized e.1 = e.1) m →
  fold_left set_member m acc = acc ++ map (λ e, (e.1, read_back e.2)) m.
Proof.
  intros Hn Hs. revert acc Hn. induction Hs as [|[k j] m Hk Hs IH]; intros acc Hn; cbn in *; [by rewrite app_nil_r|].
  rewrite Hk. unfold mkeys in Hn. rewrite map_app in Hn. cbn in Hn.
  rewrite mset_fresh by (apply NoDup_app in Hn as (_ & Hd & _); intros Hin; apply (Hd _ Hin); left).
  rewrite IH; [by rewrite <- app_assoc|]. unfold mkeys. rewrite <- app_assoc. by rewrite map_app.
Qed.

Lemma map_sorted_insert {A B} (f : A → B) (x : string * A) l :
  map (λ e, (e.1, f e.2)) (sorted_insert by_key x l) = sorted_insert by_key (x.1, f x.2) (map (λ e, (e.1, f e.2)) l).
Proof. induction l as [|y l IH]; [done|]. cbn. unfold by_key at 1 3. cbn. case_match; [|done]. cbn. by rewrite IH. Qed.

Lemma map_in_key_order {A B} (f : A → B) l :
  map (λ e, (e.1, f e.2)) (in_key_order l) = in_key_order (map (λ e, (e.1, f e.2)) l).
Proof. induction l as [|x l IH]; [done|]. cbn in *. by rewrite map_sorted_insert, IH. Qed.

Lemma le_all {A} d (l : list A) f : Forall (λ x, f x ≤ d)%nat l → (fold_right Nat.max 0 (map f l) ≤ d)%nat.
Proof. induction 1; cbn; lia. Qed.

(** The members of a map as it is written. *)
Lemma to_json_obj m : to_json (VObj m) =
  (λ ts, JObj (in_key_order ts)) <$> mapM (λ e, (λ t, (e.1, t)) <$> to_json e.2) m.
Proof.
  cbn [to_json]. f_equal. induction m as [|e m IH]; [done|]. cbn. destruct (to_json e.2) as [t|]; [|done]. cbn.
  rewrite IH. by destruct (mapM _ m).
Qed.

(** Documents that can be read: numbers are numbers, and [n] levels at most. *)
Definition fits (n : nat) (j : json) : Prop := numeric j ∧ (levels j ≤ n)%nat.

Definition written (v : value) : Prop := ∀ j, to_json v = Some j →
  fits (depth v) j ∧ (keyed v → read_back j = canon v).

Lemma list_written l js : Forall written l → mapM to_json l = Some js →
  Forall (fits (fold_right Nat.max 0%nat (map depth l))) js ∧ (Forall keyed l → map read_back js = map canon l).
Proof.
  intros Hw. revert js. induction Hw as [|v l Hv Hw IH]; intros js; cbn; [by intros [= <-]|].
  destruct (to_json v) as [j|] eqn:Hj; [|done]. destruct (mapM to_json l) as [js'|]; [|done]. cbn. intros [= <-].
  destruct (Hv j Hj) as [[Hn Hl] Hr], (IH js' eq_refl) as [Hf Hr']. split.
  - constructor; [split; [done|lia]|]. eapply Forall_impl; [exact Hf|]. intros x [??]. split; [done|lia].
  - intros Hk. inversion Hk; subst. cbn. by rewrite Hr, Hr'.
Qed.

Lemma members_written m ts : Forall (λ e, written e.2) m → mapM (λ e, (λ t, (e.1, t)) <$> to_json e.2) m = Some ts →
  Forall (λ e, fits (depth_fields m) e.2) ts ∧ map fst ts = mkeys m ∧
  (Forall (λ e, keyed e.2) m → map (λ e, (e.1, read_back e.2)) ts = map (λ e, (e.1, canon e.2)) m).
Proof.
  intros Hw. revert ts. induction Hw as [|[k v] m Hv Hw IH]; intros ts; cbn; [by intros [= <-]|]. cbn in *.
  destruct (to_json v) as [j|] eqn:Hj; [|done]. cbn. destruct (mapM _ m) as [ts'|]; [|done]. cbn. intros [= <-].
  destruct (Hv j Hj) as [[Hn Hl] Hr], (IH ts' eq_refl) as (Hf & Hk & Hr'). unfold depth_fields in *. cbn. split_and!.
  - constructor; [split; [done|cbn; lia]|]. eapply Forall_impl; [exact Hf|]. intros x [??]. split; [done|cbn; lia].
  - by rewrite Hk.
  - intros Hkv. inversion Hkv; subst. cbn in *. by rewrite Hr, Hr'.
Qed.

Lemma fits_arr n l : Forall (fits n) l → fits (S n) (JArr l).
Proof.
  intros Hl. split; [constructor; by eapply Forall_impl; [exact Hl|intros ? []]|]. cbn [levels].
  apply le_n_S, le_all. by eapply Forall_impl; [exact Hl|intros ? []].
Qed.

Lemma fits_obj n m : Forall (λ e, fits n e.2) m → fits (S n) (JObj m).
Proof.
  intros Hm. split; [constructor; by eapply Forall_impl; [exact Hm|intros ? []]|]. cbn [levels].
  apply le_n_S, le_all. by eapply Forall_impl; [exact Hm|intros ? []].
Qed.

Lemma to_json_written v : written v.
Proof.
  induction v as [|b|k z|f|s|l IH|m IH] using value_ind; intros j Hj.
  - injection Hj as <-. by repeat constructor.
  - injection Hj as <-. by repeat constructor.
  - injection Hj as <-. cbn [read_back canon]. unfold number_value. rewrite number_Itoa.
    split; [split; [constructor; unfold number_text; by rewrite number_Itoa|done]|done].
  - cbn in Hj. destruct (float_text f) as [t|] eqn:Ht; [|done]. injection Hj as <-. apply float_text_number in Ht.
    cbn [read_back canon]. unfold number_value. rewrite Ht.
    split; [split; [constructor; unfold number_text; by rewrite Ht|done]|done].
  - injection Hj as <-. by repeat constructor.
  - cbn [to_json] in Hj. destruct (mapM to_json l) as [js|] eqn:Hjs; [|done]. injection Hj as <-.
    destruct (list_written l js IH Hjs) as [Hf Hr]. split; [by apply fits_arr|].
    intros Hk. inversion Hk; subst. cbn. by rewrite Hr.
  - rewrite to_json_obj in Hj. destruct (mapM _ m) as [ts|] eqn:Hts; [|done]. injection Hj as <-.
    destruct (members_written m ts IH Hts) as (Hf & Hkeys & Hr).
    assert (Hp : in_key_order ts ≡ₚ ts) by apply stable_sort_perm. rewrite depth_obj. split; [apply fits_obj; by rewrite Hp|].
    intros Hk. inversion Hk as [| | | | | |? Hnd Hsk Hkm]; subst. cbn [read_back canon]. f_equal.
    rewrite <- Hr, <- map_in_key_order by done. apply (members_fold _ []).
    + cbn. unfold mkeys. rewrite map_map. cbn. change (NoDup (map fst (in_key_order ts))). by rewrite Hp, Hkeys.
    + rewrite Hp. apply (Forall_map fst (λ k, sanitized k = k)). rewrite Hkeys. by apply Forall_map.
Qed.

(** Marshal and Unmarshal are inverse up to what JSON cannot carry. *)
Lemma marshal_roundtrip v text : keyed v → (depth v ≤ maxNestingDepth)%nat → Marshal v = Some text →
  Unmarshal text = Some (canon v).
Proof.
  unfold Marshal. intros Hk Hd Hm. destruct (to_json v) as [j|] eqn:Hj; [|done]. injection Hm as <-.
  destruct (to_json_written v j Hj) as [[Hn Hl] Hr]. rewrite <- Hr by done. apply Unmarshal_compact; [done|lia].
Qed.

(** ** Integers in a float64 *)

Lemma digits_low p : 2 ^ (Z.pos (digits2_pos p) - 1) ≤ Z.pos p.
Proof.
  induction p as [p IH|p IH|]; cbn [digits2_pos]; [..|done];
    rewrite Pos2Z.inj_succ; replace (Z.succ _ - 1) with (Z.succ (Z.pos (digits2_pos p) - 1)) by lia;
    rewrite Z.pow_succ_r by lia; lia.
Qed.

Lemma digits_shift p k : digits2_pos (Pos.iter xO p k) = (digits2_pos p + k)%positive.
Proof.
  induction k as [|k IH] using Pos.peano_ind; [cbn; lia|]. rewrite Pos.iter_succ. cbn [digits2_pos]. rewrite IH. lia.
Qed.

Lemma iter_shift p k : Z.pos (Pos.iter xO p k) = Z.pos p * 2 ^ Z.pos k.
Proof.
  induction k as [|k IH] using Pos.peano_ind; [cbn; lia|].
  rewrite Pos.iter_succ, Pos2Z.inj_xO, IH, Pos2Z.inj_succ, Z.pow_succ_r by lia. lia.
Qed.

(** A mantissa of 53 bits is not rounded. *)
Lemma round_exact s m e : Z.pos (digits2_pos m) = 53 → -1074 ≤ e ≤ 971 →
  binary_round_aux 53 1024 s (Z.pos m) e loc_Exact = S754_finite s m e.
Proof.
  intros Hm He. unfold binary_round_aux, shr_fexp, fexp, emin. cbn [Zdigits2]. rewrite Hm.
  replace (Z.max (53 + e - 53) (3 - 1024 - 53) - e) with 0 by lia.
  cbn [shr shr_record_of_loc loc_of_shr_record round_nearest_even shr_m Zdigits2]. rewrite Hm.
  replace (Z.max (53 + e - 53) (3 - 1024 - 53) - e) with 0 by lia.
  cbn [shr shr_record_of_loc shr_m]. by replace (e <=? 1024 - 53) with true by lia.
Qed.

(** An integer of at most 53 bits goes through JSON unchanged. *)
Lemma binary_exact s p : Z.pos p < 2 ^ 53 → ∃ m e, binary_round 53 1024 s p 0 = S754_finite s m e ∧ e ≤ 0 ∧
  Z.pos m = Z.pos p * 2 ^ (- e).
Proof.
  intros Hp. pose proof (digits_low p) as Hl.
  assert (Hd : Z.pos (digits2_pos p) - 1 < 53) by (apply (Z.pow_lt_mono_r_iff 2); lia).
  unfold binary_round, shl_align, fexp, emin. rewrite Z.add_0_r, Z.sub_0_r.
  replace (Z.max _ _) with (Z.pos (digits2_pos p) - 53) by lia.
  destruct (Z.pos (digits2_pos p) - 53) as [|d|d] eqn:He; [|lia|].
  - rewrite round_exact by lia. exists p, 0. split_and!; [done|lia..].
  - rewrite round_exact by (rewrite ?digits_shift; lia). eexists _, _. split; [done|]. split; [lia|].
    rewrite iter_shift. f_equal.
Qed.
