(* ===== verification/Groups.v ===== *)
(** * The groups of a person (internal/debugpod/debugpod.go, from line 470)

    The cache of the OpenShift groups, and the reading of the group list: what
    json.Unmarshal makes of a document for the anonymous struct of
    [parseGroups], with names matched without case, a repeated member read over
    the one before it, and a slice that is read again reusing its elements. *)

From S2P Require Import Prelude GoStrings GoTime Value Kube Floats Json Unmarshal NumberText RoundTrip.
From Stdlib Require Import Ascii.
Local Open Scope Z_scope.
Local Open Scope mcp_scope.

(** ** Decoding into a struct *)

(** A slice: what its array holds, and how much of that is in it. *)
Record slice (A : Type) := mkSlice { contents : list A; len : nat }.
#[global] Arguments mkSlice {A} _ _.
#[global] Arguments contents {A} _.
#[global] Arguments len {A} _.

Definition empty_slice {A} : slice A := mkSlice [] 0.
Definition elems {A} (s : slice A) : list A := take (len s) (contents s).

Section slices.
Context {A : Type} (zero : A) (decode : value → A → option A).

(** Each item is decoded over what the array holds at its place. *)
Fixpoint decode_items (l : list value) (old : list A) : option (list A) :=
  match l with
  | [] => Some old
  | v :: l' => x ← decode v (hd zero old); rest ← decode_items l' (tail old); Some (x :: rest)
  end.

Definition decode_slice (v : value) (old : slice A) : option (slice A) :=
  match v with
  | VNil | VList [] => Some empty_slice
  | VList l => c ← decode_items l (contents old); Some (mkSlice c (length l))
  | _ => None
  end.
End slices.

(** The members in their order, each by what the struct has for its name. *)
Definition decode_struct {A} (member : string → value → A → option A) (v : value) (old : A) : option A :=
  match v with
  | VNil => Some old
  | VObj m => fold_left (λ acc e, a ← acc; member e.1 e.2 a) m (Some old)
  | _ => None
  end.

Definition decode_string (v : value) (old : string) : option string :=
  match v with VNil => Some old | VStr s => Some s | _ => None end.

(** ** The group list *)

Record group := mkGroup { grp_name : string; grp_users : slice string }.

Section groups.
Context `{Unicode}.

Definition decode_metadata : value → string → option string :=
  decode_struct (λ k v name, if EqualFold k "name" then decode_string v name else Some name).

Definition decode_group : value → group → option group :=
  decode_struct (λ k v g,
    if EqualFold k "metadata" then name ← decode_metadata v (grp_name g); Some (mkGroup name (grp_users g))
    else if EqualFold k "users" then users ← decode_slice "" decode_string v (grp_users g); Some (mkGroup (grp_name g) users)
    else Some g).

Definition zero_group : group := mkGroup "" empty_slice.

Definition decode_list : value → slice group → option (slice group) :=
  decode_struct (λ k v l, if EqualFold k "items" then decode_slice zero_group decode_group v l else Some l).

(** The groups with their users, unless the text is not JSON or a member is of
    another type. *)
Definition decode_groups (data : string) : option (list (string * list string)) :=
  doc ← @parse_all as_written data;
  l ← decode_list doc empty_slice;
  Some (map (λ g, (grp_name g, elems (grp_users g))) (elems l)).

(** ** The group cache *)

Record groupCache := mkGroups { g_ttl : Z; g_expires : Z; g_byUser : gmap string (list string) }.

Definition newGroupCache (ttl : Z) : groupCache := mkGroups ttl zero_time ∅.

Definition parseGroups (data : string) : gmap string (list string) :=
  match decode_groups data with
  | None => ∅
  | Some items =>
      fold_left (λ m grp, fold_left (λ m u, <[u := default [] (m !! u) ++ [grp.1]]> m) grp.2 m) items ∅
  end.

Definition groups_path : string := "/apis/user.openshift.io/v1/groups".

Definition groupsFor (g : groupCache) (user : string) : io (list string * groupCache) :=
  let! t := now in
  if g_expires g <? t then
    let! r := (call (GetRaw Server groups_path) : io (result error string)) in
    let byUser := match r with Ok data => parseGroups data | Err _ => g_byUser g end in
    let! t' := now in
    Ret (default [] (byUser !! user), mkGroups (g_ttl g) (t' + g_ttl g) byUser)
  else Ret (default [] (g_byUser g !! user), g).

(** ** Groups *)

Definition names_of (items : list (string * list string)) (u : string) : list string :=
  concat (map (λ grp, replicate (length (List.filter (λ x, bool_decide (x = u)) grp.2)) grp.1) items).

Lemma add_users name users (m : gmap string (list string)) u :
  default [] (fold_left (λ m u, <[u := default [] (m !! u) ++ [name]]> m) users m !! u) =
  default [] (m !! u) ++ replicate (length (List.filter (λ x, bool_decide (x = u)) users)) name.
Proof.
  revert m. induction users as [|x users IH]; intros m; simpl; [by rewrite app_nil_r|].
  rewrite IH, lookup_insert. case_decide as Hx; case_bool_decide; simplify_eq/=; [|done].
  by rewrite <- app_assoc.
Qed.

(** A user's groups are the groups that list them, in the order of the list. *)
Lemma parseGroups_spec data u : default [] (parseGroups data !! u) =
  match decode_groups data with Some items => names_of items u | None => [] end.
Proof.
  unfold parseGroups. destruct (decode_groups data) as [items|]; [|by rewrite lookup_empty].
  enough (He : ∀ m : gmap string (list string), default [] (fold_left (λ m grp,
    fold_left (λ m u, <[u := default [] (m !! u) ++ [grp.1]]> m) grp.2 m) items m !! u) =
    default [] (m !! u) ++ names_of items u) by (rewrite He; by rewrite lookup_empty).
  induction items as [|grp items IH]; intros m; simpl; [by rewrite app_nil_r|].
  rewrite IH, add_users. by rewrite <- app_assoc.
Qed.

(** What a user's groups are after a refresh: those of the answer, or the old
    ones when the list could not be read. *)
Definition refreshed (g : groupCache) (r : result error string) (u : string) : list string :=
  match r with
  | Ok data => match decode_groups data with Some items => names_of items u | None => [] end
  | Err _ => default [] (g_byUser g !! u)
  end.

(** The list as the API server writes it. *)
Definition group_json (g : string * list string) : json :=
  JObj [("metadata", JObj [("name", JStr g.1)]); ("users", JArr (map JStr g.2))].

Definition groups_json (gs : list (string * list string)) : json :=
  JObj [("kind", JStr "GroupList"); ("apiVersion", JStr "user.openshift.io/v1"); ("items", JArr (map group_json gs))].

(** Text with invalid bytes replaced, as both ends of a JSON document do. *)
Definition sanitized_group (g : string * list string) : string * list string := (sanitized g.1, map sanitized g.2).

Lemma decode_users us : @decode_slice string "" decode_string (VList (map (λ u, VStr (sanitized u)) us)) empty_slice =
  Some (match us with [] => empty_slice | _ => mkSlice (map sanitized us) (length us) end).
Proof.
  assert (Hi : decode_items "" decode_string (map (λ u, VStr (sanitized u)) us) [] = Some (map sanitized us)).
  { induction us as [|u us IH]; [done|]. cbn in *. by rewrite IH. }
  unfold decode_slice. destruct us as [|u us]; [done|]. cbn [map] in *. cbn [contents empty_slice]. rewrite Hi. cbn.
  by rewrite length_map.
Qed.

Lemma decode_group_json g : ∃ d, decode_group (@read_back as_written (group_json g)) zero_group = Some d ∧
  (grp_name d, elems (grp_users d)) = sanitized_group g.
Proof.
  destruct g as [name us]. unfold group_json. cbn [read_back fold_left fst snd add_member as_written app].
  rewrite map_map. change (map (λ u, @read_back as_written (JStr u)) us) with (map (λ u, VStr (sanitized u)) us).
  change (sanitized "metadata") with "metadata". change (sanitized "users") with "users". change (sanitized "name") with "name".
  unfold decode_group, decode_struct. cbn [fold_left fst snd mbind option_bind].
  change (EqualFold "metadata" "metadata") with true. change (EqualFold "users" "metadata") with false.
  change (EqualFold "users" "users") with true. cbv beta iota.
  change (decode_metadata _ _) with (Some (sanitized name)). cbn [mbind option_bind grp_users grp_name zero_group].
  rewrite decode_users. cbn [mbind option_bind]. eexists. split; [done|]. unfold sanitized_group, elems. cbn [grp_name grp_users fst snd].
  destruct us as [|u us]; [done|]. cbn [contents len]. by rewrite take_ge by (by rewrite length_map).
Qed.

Lemma groups_fit gs : fits 6 (groups_json gs).
Proof.
  assert (Hs : ∀ n s, fits n (JStr s)) by (intros; split; [constructor|cbn; lia]).
  assert (Hstrs : ∀ l, fits 1 (JArr (map JStr l))) by (intros l; apply fits_arr, Forall_map, Forall_true; auto).
  assert (Hg : ∀ g, fits 3 (group_json g)).
  { intros g. apply fits_obj. apply Forall_cons_2; [|apply Forall_cons_2; [|constructor]]; cbn [snd].
    - assert (fits 2 (JObj [("name", JStr g.1)])) as [Hn Hl] by (apply fits_obj, Forall_cons_2; [apply Hs|constructor]).
      split; [done|lia].
    - destruct (Hstrs g.2) as [Hn Hl]. split; [done|lia]. }
  destruct (fits_arr 3 (map group_json gs)) as [Hn Hl]; [by apply Forall_map, Forall_true|].
  apply fits_obj. do 2 (apply Forall_cons_2; [apply Hs|]). apply Forall_cons_2; [|constructor]. cbn [snd]. split; [done|lia].
Qed.

(** What the API server writes is read as it is. *)
Lemma decode_groups_document gs : decode_groups (compact (groups_json gs)) = Some (map sanitized_group gs).
Proof.
  unfold decode_groups. destruct (groups_fit gs) as [Hnum Hlev].
  assert (Hmax : (levels (groups_json gs) ≤ maxNestingDepth)%nat) by (etrans; [exact Hlev|]; apply Nat.leb_le; by vm_compute).
  rewrite parse_compact by done.
  cbn [mbind option_bind]. unfold groups_json. cbn [read_back fold_left fst snd add_member as_written app].
    change (sanitized "items") with "items". unfold decode_list, decode_struct. cbn [fold_left fst snd mbind option_bind].
    change (EqualFold (sanitized "kind") "items") with false. change (EqualFold (sanitized "apiVersion") "items") with false.
    change (EqualFold "items" "items") with true. cbv beta iota.
    assert (Hi : ∃ ds, decode_items zero_group decode_group (map (@read_back as_written) (map group_json gs)) [] = Some ds ∧
      map (λ d, (grp_name d, elems (grp_users d))) ds = map sanitized_group gs).
    { clear. induction gs as [|g gs (ds & Hds & Hm)]; [by exists []|]. destruct (decode_group_json g) as (d & Hd & Hg).
      exists (d :: ds). cbn [map decode_items hd tail]. rewrite Hd. cbn. rewrite Hds. cbn. by rewrite Hg, Hm. }
    destruct Hi as (ds & Hds & Hm). unfold decode_slice. cbn [contents empty_slice].
    destruct gs as [|g gs]; [done|]. cbn [map contents empty_slice mbind option_bind] in *. rewrite Hds. cbn [mbind option_bind].
    rewrite <- Hm. unfold elems at 2. cbn [contents len]. do 2 f_equal. apply take_ge.
    apply (f_equal length) in Hm. cbn [length] in *. rewrite !length_map in *. lia.
Qed.

(** C39: The impersonated groups are the OpenShift groups that list the user.
    They are fetched again only once the cache has expired, with one request,
    and then not for another [ttl] even when it failed; a failed request leaves
    the last known groups in place, and an answer that is a group list as the
    API server writes it gives every user the groups whose users list has them,
    in the order of the list. *)
Theorem groupsFor_refresh g user tr gs g' : runs (groupsFor g user) tr (gs, g') →
  gs = default [] (g_byUser g' !! user) ∧ ∃ t : Z,
    (t ≤ g_expires g ∧ tr = [Effects.Event Now t] ∧ g' = g) ∨
    (g_expires g < t ∧ ∃ (r : result error string) (t' : Z),
      tr = [Effects.Event Now t; Effects.Event (GetRaw Server groups_path) r; Effects.Event Now t'] ∧
      g_expires g' = t' + g_ttl g ∧ g_ttl g' = g_ttl g ∧
      (∀ u, default [] (g_byUser g' !! u) = refreshed g r u) ∧
      (∀ l, r = Ok (compact (groups_json l)) →
        ∀ u, default [] (g_byUser g' !! u) = names_of (map sanitized_group l) u)).
Proof.
  unfold groupsFor. intros (t & tr1 & -> & Hr). cbn [bind] in Hr.
  destruct (Z.ltb_spec (g_expires g) t) as [Hlt|Hle].
  - destruct Hr as (r & tr2 & -> & t' & tr3 & -> & -> & [= <- <-]). split; [done|]. exists t. right.
    split; [done|]. exists r, t'. cbn [g_byUser].
    assert (Hu : ∀ u, default [] (match r with Ok data => parseGroups data | Err _ => g_byUser g end !! u) = refreshed g r u).
    { intros u. destruct r as [data|e]; [apply parseGroups_spec|done]. }
    split_and!; try done. intros l -> u. rewrite Hu. cbn [refreshed]. by rewrite decode_groups_document.
  - destruct Hr as [-> [= <- <-]]. split; [done|]. exists t. left. by split.
Qed.

End groups.

(** ** Examples and a witness *)

#[local] Instance plain_unicode : Unicode := {| unicode_lower := λ r, r; unicode_fold := Z.eqb |}.

Definition sample_groups : string :=
  Eval vm_compute in compact (groups_json [("devs", ["ann"; "bob"]); ("ops", ["ann"])]).

(** Names without case, members that are left out or null; another type, or a
    number where there should be a string, is an error. *)
Example decode_examples : map (λ s, decode_groups (cat (map (λ a, if decide (a = "'"%char) then quote else String a "") (String.list_ascii_of_string s))))
    ["{'Items':[{'users':['ann',null,'bob']},{'metadata':null},null]}"; "null"; "{}"; "[]"; "{'items':{}}";
     "{'items':[{'users':['ann',1e999]}]}"; "{'items':[{'metadata':{'name':'a'}}],'items':[{'users':['u']}]}"; "{'items':[]"]
  = [Some [("", ["ann"; ""; "bob"]); ("", []); ("", [])]; Some []; Some []; None; None; None; Some [("a", ["u"])]; None].
Proof. by vm_compute. Qed.

Lemma groupsFor_refresh_witness : ∃ g',
  runs (groupsFor (newGroupCache 300) "ann")
    [Effects.Event Now 5; Effects.Event (GetRaw Server groups_path) (Ok sample_groups : reply (GetRaw Server groups_path));
     Effects.Event Now 7] (["devs"; "ops"], g') ∧ g_expires g' = 307 ∧
  ["devs"; "ops"] = default [] (g_byUser g' !! "ann").
Proof.
  eexists. assert (Hr : runs (groupsFor (newGroupCache 300) "ann")
    [Effects.Event Now 5; Effects.Event (GetRaw Server groups_path) (Ok sample_groups : reply (GetRaw Server groups_path));
     Effects.Event Now 7] (["devs"; "ops"], mkGroups 300 307 (parseGroups sample_groups))).
  { eexists 5, _. split; [reflexivity|]. eexists (Ok sample_groups), _. split; [reflexivity|].
    exists 7, []. split; [reflexivity|]. split; [reflexivity|]. vm_compute. reflexivity. }
  split; [exact Hr|]. split; [reflexivity|].
  exact (proj1 (groupsFor_refresh _ _ _ _ _ Hr)).
Defined.
