(* ===== verification/Instances.v ===== *)
(** * Concrete interfaces

    Simple implementations of the interfaces that stand for code outside the
    repository.  The witnesses of the theorems run on them; no theorem
    depends on them. *)

From S2P Require Import Prelude GoStrings GoTime Value Kube Floats Json Unmarshal NumberText RoundTrip.
Local Open Scope Z_scope.

Definition plain_unicode : Unicode := {| unicode_lower := λ r, r; unicode_fold := Z.eqb |}.

Fixpoint nested (m : obj) (path : list string) : option value :=
  match path with
  | [] => Some (VObj m)
  | [k] => mget k m
  | k :: path' => match mget k m with Some (VObj m') => nested m' path' | _ => None end
  end.

Fixpoint remove_nested (m : obj) (path : list string) : obj :=
  match path with
  | [] => m
  | [k] => List.filter (λ e, negb (bool_decide (e.1 = k))) m
  | k :: path' => map (λ e, if decide (e.1 = k) then match e.2 with VObj m' => (k, VObj (remove_nested m' path')) | _ => e end else e) m
  end.

Definition meta_string (k : string) (o : obj) : string :=
  match nested o ["metadata"; k] with Some (VStr s) => s | _ => "" end.

Definition string_pairs (m : obj) : labels :=
  flat_map (λ e, match e.2 with VStr s => [(e.1, s)] | _ => [] end) m.

Definition plain_unstructured : Unstructured := {|
  NestedFieldNoCopy := nested;
  NestedMap := λ o p, v ← nested o p; as_obj v;
  NestedSlice := λ o p, v ← nested o p; as_list v;
  NestedString := λ o p, v ← nested o p; as_str v;
  RemoveNestedField := remove_nested;
  GetName := meta_string "name";
  GetNamespace := meta_string "namespace";
  GetKind := λ o, str_or_empty (vget o "kind");
  GetUID := meta_string "uid";
  GetAnnotations := λ o, match nested o ["metadata"; "annotations"] with Some (VObj m) => string_pairs m | _ => [] end;
  GetCreationTimestamp := λ _, zero_time;
|}.

(** Selectors with equality requirements only. *)
Definition plain_selectors : Selectors := {|
  LabelSelectorAsSelector := λ s,
    match s with
    | None => Some (mkSel (λ _, false) "")
    | Some s => Some (mkSel (λ set, forallb (λ e, bool_decide (mget e.1 set = Some e.2)) (matchLabels s)) "")
    end;
  FromUnstructured := λ o, Some (mkSelector (match vget o "matchLabels" with VObj m => string_pairs m | _ => [] end) []);
|}.

Definition plain_printable : Printable := {| unicode_print := λ _, true |}.

(** Quantities that are plain numbers. *)
Definition number_quantity (s : string) : result error Quantity :=
  match Atoi s with Some z => Ok (mkQuantity s z (z * 1000)) | None => Err (ErrText "not a quantity") end.

#[refine] Definition plain_quantities : Quantities := {|
  ParseQuantity := number_quantity;
  MustParse := λ s, match number_quantity s with Ok q => q | Err _ => mkQuantity s 0 0 end;
|}.
Proof. by intros s q ->. Defined.
