(* ===== verification/DebugPod.v ===== *)
(** * Debug pods (internal/debugpod/debugpod.go)

    The configuration, the caller check and the runner's four
    operations, as programs over API requests.  A runner's state is its group
    cache ([Groups]), threaded through the operations; the mutex around it makes a
    refresh one step.  Every request names the identity it is made as. *)

From S2P Require Import Prelude GoStrings GoTime Value Kube Groups Instances.
Local Open Scope Z_scope.
Local Open Scope mcp_scope.

Definition LabelDebug : string := "snappcloud.io/debug-pod".
Definition AnnotationRequester : string := "snappcloud.io/requested-by".
Definition AnnotationReason : string := "snappcloud.io/reason".
Definition container : string := "debug".
Definition doneFile : string := "/tmp/done".

Definition implicitGroups : list string := ["system:authenticated"; "system:authenticated:oauth"].

(** ** Configuration *)

Record Config := mkConfig {
  Enabled : bool; Image : string; CPU : Quantity; Memory : Quantity;
  Lifetime : Z; TTL : Z; StartTimeout : Z; ExecTimeout : Z;
  MaxOutput : Z; PriorityClass : string;
}.

Section config.
Context `{Quantities, Printable} (Getenv : string → string).

(** The [quantity] and [duration] closures: the errors so far and the field. *)
Definition quantity (env : string) (errs : list error) (dst : Quantity) : list error * Quantity :=
  let v := Getenv env in
  if decide (v = "") then (errs, dst)
  else match ParseQuantity v with
       | Err err => (errs ++ [wrap_err env err], dst)
       | Ok q => (errs, q)
       end.

Definition duration (env : string) (errs : list error) (dst : Z) : list error * Z :=
  let v := Getenv env in
  if decide (v = "") then (errs, dst)
  else match ParseDuration v with
       | Some d => if d <=? 0 then (errs ++ [ErrText (env +:+ ": invalid duration " +:+ Quote v)], dst) else (errs, d)
       | None => (errs ++ [ErrText (env +:+ ": invalid duration " +:+ Quote v)], dst)
       end.

Definition max_output (errs : list error) (dst : Z) : list error * Z :=
  let v := Getenv "DEBUG_POD_MAX_OUTPUT" in
  if decide (v = "") then (errs, dst)
  else match Atoi v with
       | Some n => if n <=? 0 then (errs ++ [ErrText ("DEBUG_POD_MAX_OUTPUT: invalid " +:+ Quote v)], dst) else (errs, n)
       | None => (errs ++ [ErrText ("DEBUG_POD_MAX_OUTPUT: invalid " +:+ Quote v)], dst)
       end.

(** errors.Join *)
Definition join_errors (errs : list error) : option error :=
  match errs with [] => None | _ => Some (ErrJoin errs) end.

Definition ConfigFromEnv : Config * option error :=
  let enabled := bool_decide (Getenv "DEBUG_POD_ENABLED" = "true") in
  let image := Getenv "DEBUG_POD_IMAGE" in
  let '(errs, cpu) := quantity "DEBUG_POD_CPU" [] (MustParse "200m") in
  let '(errs, memory) := quantity "DEBUG_POD_MEMORY" errs (MustParse "256Mi") in
  let '(errs, lifetime) := duration "DEBUG_POD_LIFETIME" errs (15 * Minute) in
  let '(errs, ttl) := duration "DEBUG_POD_TTL" errs (30 * Second) in
  let '(errs, start) := duration "DEBUG_POD_START_TIMEOUT" errs (60 * Second) in
  let '(errs, exec) := duration "DEBUG_POD_EXEC_TIMEOUT" errs (60 * Second) in
  let '(errs, out) := max_output errs (Z.shiftl 64 10) in
  let errs :=
    if enabled && bool_decide (image = "")
    then errs ++ [ErrText "DEBUG_POD_IMAGE is required when DEBUG_POD_ENABLED=true"] else errs in
  (mkConfig enabled image cpu memory lifetime ttl start exec out (Getenv "DEBUG_POD_PRIORITY_CLASS"),
   join_errors errs).

End config.

(** ** Output *)

(** limitBuffer keeps the first [max] bytes written and counts the rest. *)
Record limitBuffer := mkBuffer { buf : string; max : Z; dropped : Z }.

Definition new_buffer (max : Z) : limitBuffer := mkBuffer "" max 0.

Definition len (s : string) : Z := Z.of_nat (String.length s).

(** [Write] takes all of [p] and reports no error. *)
Definition Write (b : limitBuffer) (p : string) : limitBuffer :=
  let room := max b - len (buf b) in
  if room <=? 0 then mkBuffer (buf b) (max b) (dropped b + len p)
  else if room <? len p
       then mkBuffer (buf b +:+ str_take (Z.to_nat room) p) (max b) (dropped b + (len p - room))
       else mkBuffer (buf b +:+ p) (max b) (dropped b).

Definition newline : string := String (z_byte 10) "".

Definition buffer_String (b : limitBuffer) : string :=
  if 0 <? dropped b
  then buf b +:+ newline +:+ "[output truncated: " +:+ Itoa (dropped b) +:+ " more bytes; narrow the command]"
  else buf b.

Definition truncate (s : string) (n : nat) : string :=
  let r := runes s in
  if (length r <=? n)%nat then s else of_runes (take n r).

(** ** The caller *)

Section runner.
Context `{Unicode, SliceSort}.

(** Runner.impersonating *)
Definition impersonating (user : string) (groups : list string) : io (result error identity) :=
  let w := As user groups in
  let! r := (call (NewClient w) : io (option error)) in
  Ret (match r with Some err => Err err | None => Ok w end).

Definition caller (g : groupCache) (user : string) : io (result error identity * groupCache) :=
  let user := TrimSpace user in
  if decide (user = "") then
    Ret (Err (ErrText "no caller identity: a debug pod runs as the person who asked for it"), g)
  else if HasPrefix user "system:" || bool_decide (user = "kube:admin") then
    Ret (Err (ErrText (user +:+ " is not a person; debug pods run only as a user")), g)
  else
    let! (gs, g') := groupsFor g user in
    let groups := gs ++ implicitGroups in
    let! r := impersonating user groups in
    Ret (r, g').

(** explain turns an RBAC refusal into what the caller lacks. *)
Definition explain (err : error) (what : string) : error :=
  if IsForbidden err then
    ErrText ("your access does not allow you to " +:+ what +:+ " (" +:+ error_text err +:+
             "). A debug pod needs create on jobs and pods/exec in the namespace")
  else if IsAlreadyExists err || IsInvalid err then wrap_err what err
  else match as_status err with
       | Some st => if Contains (ToLower (st_message st)) "quota"
                    then wrap_err "the namespace quota does not leave room for a debug pod" err
                    else wrap_err what err
       | None => wrap_err what err
       end.

(** ** Start *)

Variable cfg : Config.

(** Conversion of a float to int32: out of range the machine gives its least
    value. *)
Definition to_int32 (z : Z) : Z := if between (- 2 ^ 31) (2 ^ 31 - 1) z then z else - 2 ^ 31.

Definition job (user reason : string) : JobSpec :=
  let labels := [(LabelDebug, "true"); ("app.kubernetes.io/managed-by", "snappcloud-bot")] in
  let ann := [(AnnotationRequester, user); (AnnotationReason, truncate reason 500)] in
  let res := [("cpu", CPU cfg); ("memory", Memory cfg)] in
  let script := "trap 'exit 0' TERM INT; while [ ! -e " +:+ doneFile +:+ " ]; do sleep 1; done" in
  mkJob "snappcloud-debug-" labels ann
    (Some (int_Seconds (Lifetime cfg))) (Some (to_int32 (int_Seconds (TTL cfg)))) (Some 0)
    labels ann
    (mkJobPod "Never" (Some false) (Some false) (Some 1) (PriorityClass cfg) (Some true) "RuntimeDefault"
      [mkJobContainer container (Image cfg) "IfNotPresent" ["sh"; "-c"; script] res res (Some false) ["ALL"]]).

Definition waitingReason (p : Pod) : string :=
  (fix go (l : list ContainerStatus) : string :=
    match l with
    | [] => ""
    | s :: l' =>
        match Waiting (cs_state s) with
        | Some (reason, message) =>
            if bool_decide (reason ∈ ["ErrImagePull"; "ImagePullBackOff"; "InvalidImageName";
                 "CreateContainerConfigError"; "CreateContainerError"])
            then reason +:+ ": " +:+ message else go l'
        | None => go l'
        end
    end) (pod_statuses p).

Definition events (w : identity) (ns kind name : string) (reasons : list string) : io string :=
  let! r := do_list w KEvents ns
    (mkOpts "" ("involvedObject.kind=" +:+ kind +:+ ",involvedObject.name=" +:+ name) 0 "") in
  Ret (match r with
       | Err _ => ""
       | Ok (items, _) =>
           match List.find (λ e, bool_decide (ev_reason e ∈ reasons)) items with
           | Some e => ev_reason e +:+ ": " +:+ ev_message e
           | None => ""
           end
       end).

(** One look at the Job's pod: what the loop of waitRunning decides before it
    waits for the next tick, if anything. *)
Definition look (w : identity) (ns job : string) : io (option (result error Pod)) :=
  let! r := do_list w KPods ns (mkOpts ("job-name=" +:+ job) "" 0 "") in
  let! first :=
    match r with
    | Ok (p :: _, _) =>
        if decide (pod_phase p = "Running") then Ret (Some (Ok p))
        else if decide (pod_phase p = "Failed" ∨ pod_phase p = "Succeeded") then
          Ret (Some (Err (ErrText ("pod " +:+ Name (pod_meta p) +:+ " ended (" +:+ pod_phase p +:+ ") before it could be used"))))
        else
          let why := waitingReason p in
          if decide (why = "") then
            let! why := events w ns "Pod" (Name (pod_meta p)) ["FailedScheduling"; "FailedCreatePodSandBox"; "FailedMount"] in
            Ret (if decide (why = "") then None else Some (Err (ErrText why)))
          else Ret (Some (Err (ErrText why)))
    | _ => Ret None
    end in
  match first with
  | Some out => Ret (Some out)
  | None =>
      let! why := events w ns "Job" job ["FailedCreate"] in
      Ret (if decide (why = "") then None else Some (Err (ErrText why)))
  end.

Fixpoint waitRunning (fuel : nat) (w : identity) (ns job : string) : io (result error Pod) :=
  match fuel with
  | O => OutOfFuel
  | S fuel' =>
      let! seen := look w ns job in
      match seen with
      | Some out => Ret out
      | None =>
          let! done := (call Tick : io bool) in
          if done then Ret (Err (ErrText ("not running after " +:+ Duration_String (StartTimeout cfg))))
          else waitRunning fuel' w ns job
      end
  end.

Record Started := mkStarted {
  sd_namespace : string; sd_job : string; sd_pod : string; sd_node : string;
  sd_image : string; sd_expiresAt : Z; sd_note : string;
}.

Definition start_note : string :=
  "Run commands with debug_pod_exec. Call debug_pod_finish when done: the pod then exits and is deleted automatically. It has no extra capabilities (no NET_RAW: ping and tcpdump do not work; use curl, dig, nc).".

(** The operations after the caller check; [w] is the caller. *)
Definition start_as (fuel : nat) (user ns reason : string) (w : identity) : io (result error Started) :=
  let! r := (call (CreateJob w ns (job user reason)) : io (result error CreatedJob)) in
  match r with
  | Err err => Ret (Err (explain err ("create a Job in " +:+ ns)))
  | Ok j =>
      let! p := waitRunning fuel w ns (cj_name j) in
      match p with
      | Err err =>
          Ret (Err (ErrWrap ("debug pod for job " +:+ cj_name j +:+ " did not start: ") err
                 (". It is removed automatically within " +:+ Duration_String (int64 (Lifetime cfg + TTL cfg)))))
      | Ok pod =>
          Ret (Ok (mkStarted ns (cj_name j) (Name (pod_meta pod)) (pod_nodeName pod) (Image cfg)
                     (cj_created j + Lifetime cfg) start_note))
      end
  end.

(** The first lines of every operation: get the caller or fail. *)
Definition with_caller {A} (g : groupCache) (user : string) (fail : error → A) (f : identity → io A) : io (A * groupCache) :=
  let! (r, g') := caller g user in
  match r with
  | Err err => Ret (fail err, g')
  | Ok w => let! a := f w in Ret (a, g')
  end.

Definition Start (fuel : nat) (g : groupCache) (user ns reason : string) : io (result error Started * groupCache) :=
  with_caller g user Err (start_as fuel user ns reason).

(** ** Exec and Finish *)

Definition owned (w : identity) (user ns pod : string) : io (option error) :=
  let! r := do_get w KPods ns pod in
  Ret (match r with
       | Err err => Some (explain err ("read pod " +:+ ns +:+ "/" +:+ pod))
       | Ok p =>
           if negb (bool_decide (lget (Labels (pod_meta p)) LabelDebug = "true")) ||
              negb (bool_decide (lget (Annotations (pod_meta p)) AnnotationRequester = user))
           then Some (ErrText (ns +:+ "/" +:+ pod +:+ " is not a debug pod you started"))
           else if negb (bool_decide (pod_phase p = "Running"))
           then Some (ErrText ("debug pod " +:+ pod +:+ " is " +:+ pod_phase p +:+ ", not running; start a new one"))
           else None
       end).

(** The outcome is the error and whether the context had ended. *)
Definition remoteExec (w : identity) (ns pod : string) (cmd : list string) (limit : Z) (out : limitBuffer)
    : io (option error * bool * limitBuffer) :=
  let! r := (call (ExecPod w ns pod container cmd limit) : io exec_reply) in
  match ex_build r with
  | Some err => Ret (Some err, ex_expired r, out)
  | None =>
      let out' := fold_left Write (ex_chunks r) out in
      let err := match ex_err r with
                 | Some e => if IsForbidden e then Some (explain e ("exec into " +:+ ns +:+ "/" +:+ pod)) else Some e
                 | None => None
                 end in
      Ret (err, ex_expired r, out')
  end.

Definition exec_command (secs command : string) : list string :=
  ["sh"; "-c";
   "if command -v timeout >/dev/null 2>&1; then exec timeout " +:+ secs +:+
   " sh -c " +:+ String (z_byte 34) "$1" +:+ String (z_byte 34) "; else exec sh -c " +:+
   String (z_byte 34) "$1" +:+ String (z_byte 34) "; fi";
   "sh"; command].

(** The time limit a command gets. *)
Definition exec_timeout (timeout : Z) : Z :=
  if (timeout <=? 0) || (ExecTimeout cfg <? timeout) then ExecTimeout cfg else timeout.

Definition exec_as (user ns pod command : string) (timeout : Z) (w : identity) : io (string * option error) :=
  let! refused := owned w user ns pod in
  match refused with
  | Some err => Ret ("", Some err)
  | None =>
      let secs := Itoa (int_Seconds timeout) in
      let! (eerr, expired, out) :=
        remoteExec w ns pod (exec_command secs command) (int64 (timeout + 5 * Second)) (new_buffer (MaxOutput cfg)) in
      let text := buffer_String out in
      Ret (match eerr with
           | Some e =>
               if expired : bool
               then (text, Some (ErrText ("timed out after " +:+ Duration_String timeout +:+ "; output so far:" +:+ newline +:+ text)))
               else (text +:+ newline +:+ "[exit: " +:+ error_text e +:+ "]", None)
           | None => (text, None)
           end)
  end.

Definition Exec (g : groupCache) (user ns pod command : string) (timeout : Z)
    : io ((string * option error) * groupCache) :=
  if decide (TrimSpace command = "") then Ret (("", Some (ErrText "command is empty")), g)
  else with_caller g user (λ err, ("", Some err)) (exec_as user ns pod command (exec_timeout timeout)).

Definition finish_as (user ns pod : string) (w : identity) : io (option error) :=
  let! refused := owned w user ns pod in
  match refused with
  | Some err => Ret (Some err)
  | None =>
      let! (err, _, _) := remoteExec w ns pod ["touch"; doneFile] (15 * Second) (new_buffer 1024) in
      Ret err
  end.

Definition Finish (g : groupCache) (user ns pod : string) : io (option error * groupCache) :=
  with_caller g user Some (finish_as user ns pod).

(** ** List *)

Record listed := mkListed {
  ls_pod : string; ls_job : string; ls_phase : string; ls_node : string; ls_started : Z; ls_reason : string;
}.

(** The user's pods among those listed, by name. *)
Definition listed_for (user : string) (items : list Pod) : list listed :=
  let mine := List.filter (λ p, bool_decide (lget (Annotations (pod_meta p)) AnnotationRequester = user)) items in
  let out := map (λ p, mkListed (Name (pod_meta p)) (lget (Labels (pod_meta p)) "job-name") (pod_phase p)
    (pod_nodeName p) (CreationTimestamp (pod_meta p)) (lget (Annotations (pod_meta p)) AnnotationReason)) mine in
  slice_sort (λ x y, str_lt (ls_pod x) (ls_pod y)) out.

Definition list_as (user ns : string) (w : identity) : io (result error (list listed)) :=
  let! r := do_list w KPods ns (mkOpts (LabelDebug +:+ "=true") "" 0 "") in
  Ret (match r with
       | Err err => Err (explain err ("list pods in " +:+ ns))
       | Ok (items, _) => Ok (listed_for user items)
       end).

Definition ListPods (g : groupCache) (user ns : string) : io (result error (list listed) * groupCache) :=
  with_caller g user Err (list_as user ns).

End runner.

(** ** Who acts: lemmas on the caller *)

(** Whom a debug pod may run as. *)
Definition person (u : string) : Prop := u ≠ "" ∧ HasPrefix u "system:" = false ∧ u ≠ "kube:admin".

#[export] Instance person_dec u : Decision (person u).
Proof. unfold person. apply _. Defined.

(** The identities a call by [user] may use. *)
Definition acting_as (user : string) (w : identity) : Prop :=
  person (TrimSpace user) ∧ ∃ gs, w = As (TrimSpace user) (gs ++ implicitGroups).

Section facts.
Context `{Unicode, SliceSort}.

Lemma groupsFor_asks P h g user : (∀ h', P h' Now) → (∀ h', P h' (GetRaw Server groups_path)) →
  asks P h (groupsFor g user).
Proof.
  intros HN HG. unfold groupsFor. apply asks_bind; [by split|]. intros tr t _.
  case_match; [|done]. apply asks_bind; [by split|]. intros tr' r _.
  apply asks_bind; [by split|]. done.
Qed.

Lemma caller_asks P h g user : (∀ h', P h' Now) → (∀ h', P h' (GetRaw Server groups_path)) →
  (∀ h' w, acting_as user w → P h' (NewClient w)) → asks P h (caller g user).
Proof.
  intros HN HG HC. unfold caller. case_decide as Hu; [done|].
  destruct (HasPrefix _ _) eqn:Hs; cbn [orb]; [done|]. case_bool_decide as Hk; [done|].
  apply asks_bind; [by apply groupsFor_asks|]. intros tr [gs g'] _.
  apply asks_bind; [|done]. unfold impersonating. apply asks_bind; [|done]. split; [|done].
  apply HC. split; [done|by eexists].
Qed.

(** Where a caller comes from. *)
Lemma caller_ok g user tr w g' : runs (caller g user) tr (Ok w, g') → acting_as user w.
Proof.
  unfold caller. case_decide as Hu; [by intros [_ [=]]|].
  destruct (HasPrefix _ _) eqn:Hs; cbn [orb]; [by intros [_ [=]]|]. case_bool_decide as Hk; [by intros [_ [=]]|].
  rewrite runs_bind. intros (tr1 & tr2 & [gs g1] & -> & _ & Hr).
  apply runs_bind in Hr as (tr3 & tr4 & r & -> & Hi & [-> [= -> ->]]).
  unfold impersonating in Hi. apply runs_bind in Hi as (? & ? & o & -> & _ & [-> Ho]).
  destruct o; simplify_eq. split; [done|by eexists].
Qed.

(** Nobody is asked anything for someone who is not a person. *)
Lemma caller_refuses g user : ¬ person (TrimSpace user) → ∃ e, caller g user = Ret (Err e, g).
Proof.
  unfold person, caller. intros Hn. case_decide as Hu; [by eexists|].
  destruct (HasPrefix _ _) eqn:Hs; cbn [orb]; [by eexists|]. case_bool_decide as Hk; [by eexists|].
  exfalso. by apply Hn.
Qed.

Lemma with_caller_asks {A} P h g user (fail : error → A) f :
  (∀ h', P h' Now) → (∀ h', P h' (GetRaw Server groups_path)) →
  (∀ h' w, acting_as user w → P h' (NewClient w)) →
  (∀ h' w, acting_as user w → asks P h' (f w)) →
  asks P h (with_caller g user fail f).
Proof.
  intros HN HG HC Hf. apply asks_bind; [by apply caller_asks|].
  intros tr [[w|e] g'] Hr; [|done]. apply caller_ok in Hr. apply asks_bind; [by apply Hf|done].
Qed.

Lemma with_caller_refuses {A} g user (fail : error → A) f :
  ¬ person (TrimSpace user) → ∃ e, with_caller g user fail f = Ret (fail e, g).
Proof. intros [e He]%(caller_refuses g). unfold with_caller. rewrite He. by exists e. Qed.

(** *** What the operations ask for as the caller *)

Lemma asks_io {A} P h (q : request) (f : reply q → io A) :
  P h q → (∀ r, asks P (h ++ [Effects.Event q r]) (f r)) → asks P h (bind (call q) f).
Proof. by split. Qed.

Lemma owned_runs w user ns pod tr : runs (owned w user ns pod) tr None →
  ∃ p, tr = [Effects.Event (Get w KPods ns pod) (Ok p : reply (Get w KPods ns pod))] ∧
    lget (Labels (pod_meta p)) LabelDebug = "true" ∧
    lget (Annotations (pod_meta p)) AnnotationRequester = user ∧ pod_phase p = "Running".
Proof.
  unfold owned, do_get. intros (r & tr' & -> & -> & Hr). destruct r as [p|e]; [|done].
  exists p. split; [done|]. repeat case_bool_decide; simplify_eq/=; done.
Qed.

Lemma events_only P w ns kind name reasons :
  (∀ o, P (List w KEvents ns o)) → only P (events w ns kind name reasons).
Proof. intros HP. apply only_bind; [by apply only_call, HP|done]. Qed.

Lemma look_only P w ns job : (∀ k o, P (List w k ns o)) → only P (look w ns job).
Proof.
  intros HP. apply only_bind; [by apply only_call, HP|]. intros r. apply only_bind.
  - destruct r as [[[|p ps] c]|e]; try done. do 2 (case_decide; [done|]).
    cbv zeta. destruct (decide (waitingReason p = "")); [|done]. apply only_bind; [by apply events_only|done].
  - intros []; [done|]. apply only_bind; [by apply events_only|done].
Qed.

Lemma waitRunning_only P cfg fuel w ns job :
  (∀ k o, P (List w k ns o)) → P Tick → only P (waitRunning cfg fuel w ns job).
Proof.
  intros HP HT. induction fuel as [|fuel IH]; [done|]. cbn [waitRunning].
  apply only_bind; [by apply look_only|]. intros []; [done|].
  apply only_bind; [by apply only_call|]. intros []; [done|apply IH].
Qed.

(** ** Properties of the operations *)

(** A running debug pod started by [user]. *)
Definition started_by (user : string) (p : Pod) : Prop :=
  lget (Labels (pod_meta p)) LabelDebug = "true" ∧
  lget (Annotations (pod_meta p)) AnnotationRequester = user ∧ pod_phase p = "Running".

(** A command may go to the debug container of the pod the call names, once
    the caller has read that pod and it is a running one they started. *)
Definition exec_guard (user ns pod : string) (h : list (event request reply)) (q : request) : Prop :=
  match q with
  | ExecPod w ns' pod' ctr _ _ =>
      ns' = ns ∧ pod' = pod ∧ ctr = container ∧ acting_as user w ∧
      ∃ p : Pod, Effects.Event (Get w KPods ns pod) (Ok p : reply (Get w KPods ns pod)) ∈ h ∧ started_by user p
  | _ => True
  end.

Lemma owned_asks P h w user ns pod : P h (Get w KPods ns pod) → asks P h (owned w user ns pod).
Proof. intros HP. apply asks_bind; [by split|done]. Qed.

Lemma guarded_exec {A} user ns pod h w cmd limit (fail : error → A) out (k : option error * bool * limitBuffer → io A) :
  acting_as user w → (∀ h' r, asks (exec_guard user ns pod) h' (k r)) →
  asks (exec_guard user ns pod) h
    (let! refused := owned w user ns pod in
     match refused with
     | Some err => Ret (fail err)
     | None => let! r := remoteExec w ns pod cmd limit out in k r
     end).
Proof.
  intros Hw Hk. apply asks_bind; [by apply owned_asks|]. intros tr [e|] Hr; [done|].
  apply owned_runs in Hr as (p & -> & Hl & Ha & Hp).
  apply asks_bind; [|by intros; apply Hk]. unfold remoteExec. apply asks_io.
  - split_and!; try done. exists p. split; [|done]. apply elem_of_app. right. by left.
  - intros r. by destruct (ex_build r).
Qed.

Context (cfg : Config).

Lemma Exec_asks g user ns pod command timeout :
  asks (exec_guard user ns pod) [] (Exec cfg g user ns pod command timeout).
Proof.
  unfold Exec. case_decide; [done|]. apply with_caller_asks; [done..|].
  intros h w Hw.
  apply guarded_exec; [done|]. by intros h' [[[e|] []] out].
Qed.

Lemma Finish_asks g user ns pod : asks (exec_guard user ns pod) [] (Finish g user ns pod).
Proof.
  apply with_caller_asks; [done..|]. intros h w Hw. apply guarded_exec; [done|]. by intros h' [[e x] out].
Qed.

(** C3: A command only ever goes to the debug container of the very pod the
    call names, after the caller has read that pod and seen that it is a
    running debug pod they started, and it is sent as that caller; both for
    [Exec] and for [Finish], whatever the API server answers. *)
Theorem exec_only_own_pod g user ns pod command timeout tr1 e tr2 :
  (∀ a, runs (Exec cfg g user ns pod command timeout) (tr1 ++ e :: tr2) a →
    exec_guard user ns pod tr1 (asked e)) ∧
  (∀ a, runs (Finish g user ns pod) (tr1 ++ e :: tr2) a → exec_guard user ns pod tr1 (asked e)).
Proof.
  split; intros a Hr.
  - exact (asks_runs _ [] _ _ _ (Exec_asks g user ns pod command timeout) Hr tr1 e tr2 eq_refl).
  - exact (asks_runs _ [] _ _ _ (Finish_asks g user ns pod) Hr tr1 e tr2 eq_refl).
Qed.





(** The four operations of the runner; what they answer aside. *)
Inductive operation :=
| OpStart (ns reason : string)
| OpExec (ns pod command : string) (timeout : Z)
| OpFinish (ns pod : string)
| OpList (ns : string).

Definition perform (fuel : nat) (g : groupCache) (user : string) (op : operation) : io groupCache :=
  match op with
  | OpStart ns reason => let! r := Start cfg fuel g user ns reason in Ret r.2
  | OpExec ns pod command timeout => let! r := Exec cfg g user ns pod command timeout in Ret r.2
  | OpFinish ns pod => let! r := Finish g user ns pod in Ret r.2
  | OpList ns => let! r := ListPods g user ns in Ret r.2
  end.

(** The server's own account only lists groups; all else is the caller's. *)
Definition speaks_for (user : string) (q : request) : Prop :=
  match who q with
  | None => True
  | Some Server => q = GetRaw Server groups_path
  | Some w => acting_as user w
  end.

Lemma speaks_for_caller user w q : who q = Some w → acting_as user w → speaks_for user q.
Proof. unfold speaks_for. intros -> Hw. destruct w; [|done]. by destruct Hw as [_ [gs [=]]]. Qed.

Lemma with_caller_speaks {A} g user (fail : error → A) f :
  (∀ w, acting_as user w → only (speaks_for user) (f w)) → only (speaks_for user) (with_caller g user fail f).
Proof.
  intros Hf. apply with_caller_asks; [done..| |].
  - intros _ w Hw. by eapply speaks_for_caller.
  - intros h w Hw. by apply only_asks, Hf.
Qed.

Lemma owned_only P w user ns pod : P (Get w KPods ns pod) → only P (owned w user ns pod).
Proof. intros HP. by apply only_bind; [apply only_call|]. Qed.

Lemma remoteExec_only P w ns pod cmd limit out :
  P (ExecPod w ns pod container cmd limit) → only P (remoteExec w ns pod cmd limit out).
Proof. intros HP. apply only_bind; [by apply only_call|]. intros r. by destruct (ex_build r). Qed.

Lemma perform_speaks fuel g user op : only (speaks_for user) (perform fuel g user op).
Proof.
  destruct op as [ns reason|ns pod command timeout|ns pod|ns]; simpl perform; (apply only_bind; [|done]).
  - apply with_caller_speaks. intros w Hw. assert (Hq := λ q Hq, speaks_for_caller user w q Hq Hw).
    apply only_bind; [by apply only_call, Hq|]. intros [j|e]; [|done].
    apply only_bind; [|by intros []]. apply waitRunning_only; [by intros; apply Hq|done].
  - unfold Exec. case_decide; [done|]. apply with_caller_speaks. intros w Hw.
    assert (Hq := λ q Hq, speaks_for_caller user w q Hq Hw).
    apply only_bind; [by apply owned_only, Hq|]. intros [e|]; [done|].
    apply only_bind; [by apply remoteExec_only, Hq|]. by intros [[[e|] []] out].
  - apply with_caller_speaks. intros w Hw. assert (Hq := λ q Hq, speaks_for_caller user w q Hq Hw).
    apply only_bind; [by apply owned_only, Hq|]. intros [e|]; [done|].
    apply only_bind; [by apply remoteExec_only, Hq|]. by intros [[e x] out].
  - apply with_caller_speaks. intros w Hw. apply only_bind; [|by intros []].
    apply only_call. by eapply speaks_for_caller.
Qed.

Lemma perform_refuses fuel g user op : ¬ person (TrimSpace user) → perform fuel g user op = Ret g.
Proof.
  intros Hn. destruct op as [ns reason|ns pod command timeout|ns pod|ns]; simpl perform.
  - destruct (with_caller_refuses g user Err (start_as cfg fuel user ns reason) Hn) as [e He].
    unfold Start. by rewrite He.
  - unfold Exec. case_decide; [done|].
    destruct (with_caller_refuses g user (λ err, ("", Some err))
      (exec_as cfg user ns pod command (exec_timeout cfg timeout)) Hn) as [e He]. by rewrite He.
  - destruct (with_caller_refuses g user Some (finish_as user ns pod) Hn) as [e He]. unfold Finish. by rewrite He.
  - destruct (with_caller_refuses g user Err (list_as user ns) Hn) as [e He]. unfold ListPods. by rewrite He.
Qed.

(** C4: Debug pods act only as people.  Every request of every operation is
    made as the trimmed caller with the implicit OAuth groups, save for
    listing the OpenShift groups, which the server does as itself; the caller
    is never empty, a [system:] account or [kube:admin], and for such a name
    no request is made at all. *)
Theorem operations_act_as_caller fuel g user op :
  (∀ tr g' e, runs (perform fuel g user op) tr g' → e ∈ tr →
    speaks_for user (asked e) ∧ person (TrimSpace user)) ∧
  (¬ person (TrimSpace user) → perform fuel g user op = Ret g).
Proof.
  split; [|apply perform_refuses]. intros tr g' e Hr He.
  split; [by eapply only_runs; [apply perform_speaks|exact Hr|done]|].
  destruct (decide (person (TrimSpace user))) as [|Hn]; [done|].
  rewrite (perform_refuses fuel g user op Hn) in Hr. destruct Hr as [-> _]. by apply not_elem_of_nil in He.
Qed.

Lemma exec_timeout_range t : 0 < ExecTimeout cfg →
  0 < exec_timeout cfg t ≤ ExecTimeout cfg ∧ (0 < t ≤ ExecTimeout cfg → exec_timeout cfg t = t).
Proof. intros He. unfold exec_timeout. destruct (Z.leb_spec t 0), (Z.ltb_spec (ExecTimeout cfg) t); simpl; lia. Qed.

(** The limits a command is sent with. *)
Definition bounded_exec (command : string) (timeout : Z) (q : request) : Prop :=
  match q with
  | ExecPod _ _ _ _ cmd limit =>
      ∃ t s, 0 < t ≤ ExecTimeout cfg ∧ (0 < timeout ≤ ExecTimeout cfg → t = timeout) ∧
        limit = t + 5 * Second ∧ (t / Second < 2 ^ 22 → s = t / Second) ∧ t / Second ≤ s ≤ t / Second + 1 ∧
        cmd = exec_command (Itoa s) command
  | _ => True
  end.

(** C24: Whatever time limit a call asks for, including none, a negative one or
    one that wrapped around, the command runs with a limit above zero and at
    most the configured one, the requested one when that is in range; the
    stream is cut five seconds later, and [timeout] in the pod gets the limit
    in whole seconds, rounded down (beyond 2^22 seconds, 48 days, the floating
    point of the source can add one).  The configured limit is positive and
    leaves room for the five seconds in a Duration.  A limit under a second is
    rounded down too: to 0, which timeout(1) takes as none. *)
Theorem Exec_time_limit g user ns pod command timeout tr a e :
  0 < ExecTimeout cfg → ExecTimeout cfg + 5 * Second ≤ maxInt64 →
  runs (Exec cfg g user ns pod command timeout) tr a → e ∈ tr →
  bounded_exec command timeout (asked e).
Proof.
  intros H0lt Hmax. apply only_runs. unfold Exec. case_decide; [done|].
  destruct (exec_timeout_range timeout H0lt) as [Ht Heq]. set (t := exec_timeout cfg timeout) in *.
  apply with_caller_asks; [done..|]. intros h w _. apply only_asks.
  apply only_bind; [by apply owned_only|]. intros [err|]; [done|].
  apply only_bind; [|by intros [[[err|] []] out]]. apply remoteExec_only.
  exists t, (int_Seconds t). unfold maxInt64 in *. split_and!; try done; try lia.
  - apply int64_id. unfold minInt64, maxInt64, Second in *. lia.
  - intros Hs. apply int_units_exact; [unfold Second; lia|lia|done].
  - apply int_units_bounds; unfold Second in *; [lia|lia|div_lia].
  - apply int_units_bounds; unfold Second in *; [lia|lia|div_lia].
Qed.

(** *** Start *)

Lemma runs_create w ns j tr r : runs (call (CreateJob w ns j) : io (result error CreatedJob)) tr r ↔
  tr = [Effects.Event (CreateJob w ns j) (r : reply (CreateJob w ns j))].
Proof. exact (runs_call (CreateJob w ns j) r tr). Qed.

Lemma look_ready w ns job tr p : runs (look w ns job) tr (Some (Ok p)) →
  pod_phase p = "Running" ∧ ∃ rest next,
    let q := List w KPods ns (mkOpts ("job-name=" +:+ job) "" 0 "") in
    Effects.Event q (Ok (p :: rest, next) : reply q) ∈ tr.
Proof.
  unfold look. rewrite runs_bind. intros (tr1 & tr2 & r & -> & Hq & Hr).
  apply runs_do_list in Hq as ->. apply runs_bind in Hr as (tr3 & tr4 & first & -> & Hf & Hr).
  destruct first as [out|].
  - apply runs_ret in Hr as [_ [= ->]]. destruct r as [[[|p' rest] next]|e]; [by destruct Hf| |by destruct Hf].
    case_decide as Hrun.
    + destruct Hf as [-> [= <-]]. split; [done|]. exists rest, next. by left.
    + case_decide; [by destruct Hf|]. cbv zeta in Hf. case_decide; [|by destruct Hf].
      apply runs_bind in Hf as (? & ? & why & _ & _ & _ & Hw). by case_decide.
  - apply runs_bind in Hr as (? & ? & why & _ & _ & _ & Hw). by case_decide.
Qed.

Lemma waitRunning_ready fuel w ns job tr p : runs (waitRunning cfg fuel w ns job) tr (Ok p) →
  pod_phase p = "Running" ∧ ∃ rest next,
    let q := List w KPods ns (mkOpts ("job-name=" +:+ job) "" 0 "") in
    Effects.Event q (Ok (p :: rest, next) : reply q) ∈ tr.
Proof.
  revert tr. induction fuel as [|fuel IH]; intros tr; [done|]. cbn [waitRunning].
  rewrite runs_bind. intros (tr1 & tr2 & [out|] & -> & Hl & Hr).
  - apply runs_ret in Hr as [-> ->]. apply look_ready in Hl as (Hp & rest & next & Hin).
    split; [done|]. exists rest, next. by rewrite app_nil_r.
  - apply runs_bind in Hr as (tr3 & tr4 & dn & -> & _ & Hr). destruct dn; [by destruct Hr|].
    apply IH in Hr as (Hp & rest & next & Hin). split; [done|]. exists rest, next.
    rewrite !elem_of_app. auto.
Qed.

(** C25: When [Start] succeeds, the Job it describes was created as the caller,
    the pod it names is a pod of that Job which the server reported running,
    and the expiry is the Job's creation time plus the lifetime. *)
Theorem Start_result fuel g user ns reason tr st g' :
  runs (Start cfg fuel g user ns reason) tr (Ok st, g') →
  ∃ w j p rest next, acting_as user w ∧
    (let q := CreateJob w ns (job cfg user reason) in Effects.Event q (Ok j : reply q) ∈ tr) ∧
    (let q := List w KPods ns (mkOpts ("job-name=" +:+ cj_name j) "" 0 "") in
     Effects.Event q (Ok (p :: rest, next) : reply q) ∈ tr) ∧
    pod_phase p = "Running" ∧ sd_namespace st = ns ∧ sd_job st = cj_name j ∧
    sd_pod st = Name (pod_meta p) ∧ sd_node st = pod_nodeName p ∧ sd_expiresAt st = cj_created j + Lifetime cfg.
Proof.
  unfold Start, with_caller. rewrite runs_bind. intros (tr1 & tr2 & [[w|e] g1] & -> & Hc & Hr); [|by destruct Hr].
  apply caller_ok in Hc. apply runs_bind in Hr as (tr3 & tr4 & out & -> & Hs & [-> [= -> ->]]).
  unfold start_as in Hs. apply runs_bind in Hs as (tr5 & tr6 & [j|e] & -> & Hj & Hs); [|by destruct Hs].
  apply runs_create in Hj as ->. apply runs_bind in Hs as (tr7 & tr8 & [p|e] & -> & Hw & Hs); [|by destruct Hs].
  apply waitRunning_ready in Hw as (Hp & rest & next & Hin). destruct Hs as [-> [= <-]].
  exists w, j, p, rest, next. split_and!; try done.
  - cbv zeta. rewrite !elem_of_app, list_elem_of_singleton. tauto.
  - cbv zeta in *. rewrite !elem_of_app. tauto.
Qed.

(** *** The wait ends *)

Section clock.
Context {S : Type} (env : S → ∀ q, reply q * S) (left : S → nat).

(** A world whose ticker reports the end of the context after [left] ticks. *)
Definition ends : Prop := ∀ s q, match q as q return reply q * S → Prop with
  | Tick => λ x, (left x.2 ≤ left s)%nat ∧ (x.1 = true ∨ (left x.2 < left s)%nat)
  | _ => λ x, (left x.2 ≤ left s)%nat
  end (env s q).

Definition terminates {A} (s : S) (p : io A) : Prop :=
  ∃ a tr s', interp env s p = Some (a, tr, s') ∧ (left s' ≤ left s)%nat.

Lemma terminates_ret {A} s (a : A) : terminates s (Ret a).
Proof. by exists a, [], s. Qed.

Lemma interp_bind {A B} s (p : io A) (f : A → io B) a tr s' :
  interp env s p = Some (a, tr, s') →
  interp env s (bind p f) = match interp env s' (f a) with
    | Some (b, tr', s'') => Some (b, tr ++ tr', s'') | None => None end.
Proof.
  revert s tr. induction p as [x|q k IH|]; intros s tr; simpl; [|destruct (env s q) as [r s1]|done].
  - intros [= -> <- ->]. by destruct (interp env s' (f a)) as [[[]]|].
  - destruct (interp env s1 (k r)) as [[[a1 tr1] s2]|] eqn:Hi; [|done]. intros [= -> <- ->].
    rewrite (IH _ _ _ Hi). by destruct (interp env s' (f a)) as [[[]]|].
Qed.

Lemma terminates_bind {A B} s (p : io A) (f : A → io B) :
  terminates s p → (∀ a s', (left s' ≤ left s)%nat → terminates s' (f a)) → terminates s (bind p f).
Proof.
  intros (a & tr & s' & Hp & Hs) Hf. destruct (Hf a s' Hs) as (b & tr' & s'' & Hb & Hs').
  exists b, (tr ++ tr'), s''. rewrite (interp_bind _ _ _ _ _ _ Hp), Hb. split; [done|lia].
Qed.

Hypothesis Hends : ends.

Lemma terminates_list s w k ns o : terminates s (do_list w k ns o).
Proof.
  pose proof (Hends s (List w k ns o)) as He. unfold terminates, do_list. simpl in *.
  destruct (env s (List w k ns o)) as [r s']. by exists r, [Effects.Event (List w k ns o) r], s'.
Qed.

Lemma terminates_events s w ns kind name reasons : terminates s (events w ns kind name reasons).
Proof. apply terminates_bind; [apply terminates_list|]. intros. apply terminates_ret. Qed.

Lemma terminates_look s w ns job : terminates s (look w ns job).
Proof.
  apply terminates_bind; [apply terminates_list|]. intros r s' _. apply terminates_bind.
  - destruct r as [[[|p ps] c]|e]; try apply terminates_ret.
    do 2 (case_decide; [apply terminates_ret|]). cbv zeta.
    destruct (decide (waitingReason p = "")); [|apply terminates_ret].
    apply terminates_bind; [apply terminates_events|]. intros. apply terminates_ret.
  - intros [] s'' _; [apply terminates_ret|].
    apply terminates_bind; [apply terminates_events|]. intros. apply terminates_ret.
Qed.

(** The wait for a debug pod returns: in a world whose context ends after
    some number of ticks, that number of polls is enough, whatever the API
    server answers. *)
Theorem waitRunning_terminates s fuel w ns job : (left s < fuel)%nat →
  ∃ r tr s', interp env s (waitRunning cfg fuel w ns job) = Some (r, tr, s').
Proof.
  intros Hf. enough (terminates s (waitRunning cfg fuel w ns job)) as (r & tr & s' & H' & _) by eauto.
  revert s Hf. induction fuel as [|fuel IH]; intros s Hf; [lia|]. cbn [waitRunning].
  apply terminates_bind; [apply terminates_look|]. intros [out|] s1 Hs1; [apply terminates_ret|].
  pose proof (Hends s1 Tick) as He. unfold terminates. simpl in He |- *.
  destruct (env s1 Tick) as [dn s2]. simpl in He. destruct He as [Hle He], dn.
  - eexists _, _, s2. split; [done|lia].
  - destruct He as [[=]|He]. destruct (IH s2) as (r & tr & s3 & Hi & Hs3); [lia|]. rewrite Hi.
    eexists _, _, s3. split; [done|lia].
Qed.

End clock.
End facts.

(** ** Output *)

Lemma str_take_length n s : String.length (str_take n s) = Nat.min n (String.length s).
Proof. revert s. induction n as [|n IH]; intros [|a s]; simpl; auto. Qed.

Lemma str_take_app n s p : str_take n (s +:+ p) = str_take n s +:+ str_take (n - String.length s) p.
Proof. revert s. induction n as [|n IH]; intros [|a s]; simpl; f_equal; auto. Qed.

Lemma str_take_ge n s : (String.length s ≤ n)%nat → str_take n s = s.
Proof. revert s. induction n as [|n IH]; intros [|a s]; simpl; intros Hn; try done; [lia|]. f_equal. apply IH. lia. Qed.

Lemma len_app s p : len (s +:+ p) = len s + len p.
Proof. unfold len. rewrite sapp_length. lia. Qed.

(** The first [max] bytes of what was written, and the number of the others. *)
Definition kept (max : Z) (s : string) : limitBuffer :=
  mkBuffer (str_take (Z.to_nat max) s) max (Z.max 0 (len s - max)).

Lemma Write_kept max s p : 0 ≤ max → Write (kept max s) p = kept max (s +:+ p).
Proof.
  intros Hm. unfold Write, kept. cbn [buf DebugPod.max dropped].
  assert (Hlen : len (str_take (Z.to_nat max) s) = Z.min max (len s)) by (unfold len; rewrite str_take_length; lia).
  rewrite Hlen, str_take_app, len_app. assert (0 ≤ len p) by (unfold len; lia).
  destruct (Z.leb_spec (max - Z.min max (len s)) 0).
  - replace (Z.to_nat max - String.length s)%nat with 0%nat by (unfold len in *; lia).
    simpl. rewrite sapp_nil_r. f_equal. lia.
  - assert (Hr : (Z.to_nat max - String.length s)%nat = Z.to_nat (max - Z.min max (len s))) by (unfold len in *; lia).
    rewrite Hr. destruct (Z.ltb_spec (max - Z.min max (len s)) (len p)).
    + f_equal. lia.
    + rewrite (str_take_ge _ p) by (unfold len in *; lia). f_equal. lia.
Qed.

(** However a command's output is chunked, [limitBuffer] keeps exactly its
    first [max] bytes and counts exactly the bytes it dropped, and its text
    says so when there are any. *)
Theorem limitBuffer_keeps max chunks : 0 ≤ max →
  let b := fold_left Write chunks (new_buffer max) in
  let out := cat chunks in
  buf b = str_take (Z.to_nat max) out ∧ dropped b = Z.max 0 (len out - max) ∧
  len (buf b) = Z.min max (len out) ∧ (len out ≤ max → buffer_String b = out).
Proof.
  intros Hm b out.
  assert (Hb : b = kept max out).
  { assert (Hg : ∀ s, fold_left Write chunks (kept max s) = kept max (s +:+ out)).
    { unfold out. clear b out. induction chunks as [|p l IH]; intros s; simpl; [by rewrite sapp_nil_r|].
      rewrite Write_kept, IH by done. by rewrite sapp_assoc. }
    specialize (Hg ""). simpl in Hg. rewrite <- Hg. unfold b, new_buffer, kept. f_equal. f_equal.
    - by destruct (Z.to_nat max).
    - unfold len. simpl. lia. }
  rewrite Hb. unfold kept. cbn [buf dropped]. split_and!; try done.
  - unfold len. rewrite str_take_length. lia.
  - intros Hle. unfold buffer_String. cbn [buf dropped].
    replace (Z.max 0 (len out - max)) with 0 by lia. simpl. apply str_take_ge. unfold len in *. lia.
Qed.

Lemma limitBuffer_keeps_witness :
  buffer_String (fold_left Write ["ab"; "cdef"; "g"] (new_buffer 3)) =
    "abc" +:+ newline +:+ "[output truncated: 4 more bytes; narrow the command]" ∧
  len (buf (fold_left Write ["ab"; "cdef"; "g"] (new_buffer 3))) = 3.
Proof.
  split; [reflexivity|].
  destruct (limitBuffer_keeps 3 ["ab"; "cdef"; "g"] ltac:(lia)) as (_ & _ & Hl & _). exact Hl.
Defined.

(** [truncate] cuts by characters: the result decodes to the first [n]
    runes, and a text of at most [n] runes is left as it is, byte for byte. *)
Theorem truncate_runes s n :
  runes (truncate s n) = take n (runes s) ∧ ((length (runes s) ≤ n)%nat → truncate s n = s).
Proof.
  unfold truncate. destruct (Nat.leb_spec (length (runes s)) n).
  - by rewrite take_ge.
  - split; [|lia]. apply runes_of_runes. apply Forall_take, runes_valid.
Qed.

(** ** Configuration *)

Section config_facts.
Context `{Quantities, Printable} (Getenv : string → string).

Definition duration_ok (env : string) : Prop :=
  Getenv env = "" ∨ ∃ d, ParseDuration (Getenv env) = Some d ∧ 0 < d.
Definition quantity_ok (env : string) : Prop := Getenv env = "" ∨ is_ok (ParseQuantity (Getenv env)) = true.
Definition output_ok : Prop :=
  Getenv "DEBUG_POD_MAX_OUTPUT" = "" ∨ ∃ n, Atoi (Getenv "DEBUG_POD_MAX_OUTPUT") = Some n ∧ 0 < n.

(** Every variable that is set is valid, and an enabled pod has an image. *)
Definition environment_ok : Prop :=
  quantity_ok "DEBUG_POD_CPU" ∧ quantity_ok "DEBUG_POD_MEMORY" ∧
  duration_ok "DEBUG_POD_LIFETIME" ∧ duration_ok "DEBUG_POD_TTL" ∧
  duration_ok "DEBUG_POD_START_TIMEOUT" ∧ duration_ok "DEBUG_POD_EXEC_TIMEOUT" ∧ output_ok ∧
  (Getenv "DEBUG_POD_ENABLED" = "true" → Getenv "DEBUG_POD_IMAGE" ≠ "").

Lemma duration_facts env errs dst : 0 < dst →
  0 < (duration Getenv env errs dst).2 ∧
  ((duration Getenv env errs dst).1 = [] ↔ errs = [] ∧ duration_ok env).
Proof.
  intros Hd. unfold duration, duration_ok. case_decide as He; simpl.
  { split; [done|]. split; [auto|by intros []]. }
  assert (Hnil : ∀ e : error, errs ++ [e] ≠ []) by (by destruct errs).
  destruct (ParseDuration (Getenv env)) as [d|] eqn:Hp; simpl.
  - destruct (Z.leb_spec d 0); simpl; (split; [lia|]); split.
    + by intros ?%Hnil.
    + intros [_ [|(d' & [= <-] & ?)]]; [done|lia].
    + intros ->. split; [done|]. right. by exists d.
    + by intros [-> _].
  - split; [done|]. split; [by intros ?%Hnil|]. by intros [_ [|(d' & [=] & _)]].
Qed.

Lemma quantity_facts env errs dst :
  (quantity Getenv env errs dst).1 = [] ↔ errs = [] ∧ quantity_ok env.
Proof.
  unfold quantity, quantity_ok. case_decide as He; simpl; [split; [auto|by intros []]|].
  assert (Hnil : ∀ e : error, errs ++ [e] ≠ []) by (by destruct errs).
  destruct (ParseQuantity (Getenv env)) as [q|e] eqn:Hp; simpl.
  - split; [auto|by intros []].
  - split; [by intros ?%Hnil|by intros [_ [|]]].
Qed.

Lemma max_output_facts errs dst : 0 < dst →
  0 < (max_output Getenv errs dst).2 ∧ ((max_output Getenv errs dst).1 = [] ↔ errs = [] ∧ output_ok).
Proof.
  intros Hd. unfold max_output, output_ok. case_decide as He; simpl.
  { split; [done|]. split; [auto|by intros []]. }
  assert (Hnil : ∀ e : error, errs ++ [e] ≠ []) by (by destruct errs).
  destruct (Atoi (Getenv "DEBUG_POD_MAX_OUTPUT")) as [d|] eqn:Hp; simpl.
  - destruct (Z.leb_spec d 0); simpl; (split; [lia|]); split.
    + by intros ?%Hnil.
    + intros [_ [|(d' & [= <-] & ?)]]; [done|lia].
    + intros ->. split; [done|]. right. by exists d.
    + by intros [-> _].
  - split; [done|]. split; [by intros ?%Hnil|]. by intros [_ [|(d' & [=] & _)]].
Qed.

Lemma image_errors (enabled image : string) (errs : list error) e :
  (if bool_decide (enabled = "true") && bool_decide (image = "") then errs ++ [e] else errs) = [] ↔
  errs = [] ∧ (enabled = "true" → image ≠ "").
Proof.
  repeat case_bool_decide; simpl; try tauto. split; [by destruct errs|]. intros [_ Hi]. by destruct Hi.
Qed.

(** C40: [ConfigFromEnv] always yields positive durations and output cap, and it
    reports an error exactly when some variable that is set is invalid or an
    enabled debug pod has no image. *)
Theorem ConfigFromEnv_valid :
  let c := (ConfigFromEnv Getenv).1 in
  0 < Lifetime c ∧ 0 < TTL c ∧ 0 < StartTimeout c ∧ 0 < ExecTimeout c ∧ 0 < MaxOutput c ∧
  ((ConfigFromEnv Getenv).2 = None ↔ environment_ok).
Proof.
  unfold ConfigFromEnv, environment_ok.
  pose proof (quantity_facts "DEBUG_POD_CPU" [] (MustParse "200m")) as Q1.
  destruct (quantity _ "DEBUG_POD_CPU" _ _) as [e1 cpu]; cbn [fst snd] in Q1.
  pose proof (quantity_facts "DEBUG_POD_MEMORY" e1 (MustParse "256Mi")) as Q2.
  destruct (quantity _ "DEBUG_POD_MEMORY" _ _) as [e2 mem]; cbn [fst snd] in Q2.
  destruct (duration_facts "DEBUG_POD_LIFETIME" e2 (15 * Minute) ltac:(done)) as [L3 D3].
  destruct (duration _ "DEBUG_POD_LIFETIME" _ _) as [e3 d3]; cbn [fst snd] in L3, D3.
  destruct (duration_facts "DEBUG_POD_TTL" e3 (30 * Second) ltac:(done)) as [L4 D4].
  destruct (duration _ "DEBUG_POD_TTL" _ _) as [e4 d4]; cbn [fst snd] in L4, D4.
  destruct (duration_facts "DEBUG_POD_START_TIMEOUT" e4 (60 * Second) ltac:(done)) as [L5 D5].
  destruct (duration _ "DEBUG_POD_START_TIMEOUT" _ _) as [e5 d5]; cbn [fst snd] in L5, D5.
  destruct (duration_facts "DEBUG_POD_EXEC_TIMEOUT" e5 (60 * Second) ltac:(done)) as [L6 D6].
  destruct (duration _ "DEBUG_POD_EXEC_TIMEOUT" _ _) as [e6 d6]; cbn [fst snd] in L6, D6.
  destruct (max_output_facts e6 (Z.shiftl 64 10) ltac:(done)) as [L7 D7].
  destruct (max_output _ _ _) as [e7 out]; cbn [fst snd] in L7, D7.
  cbn [fst snd Lifetime TTL StartTimeout ExecTimeout MaxOutput]. split_and!; try done.
  assert (Hj : ∀ l, join_errors l = None ↔ l = []) by (by intros []). rewrite Hj.
  rewrite image_errors, D7, D6, D5, D4, D3, Q2, Q1. tauto.
Qed.

End config_facts.

(** ** Witnesses: a small cluster with one debug pod of ann's *)

Module Demo.
#[local] Instance plain_unicode : Unicode := {| unicode_lower := λ r, r; unicode_fold := Z.eqb |}.

Definition config : Config :=
  mkConfig true "tools" (mkQuantity "200m" 1 200) (mkQuantity "256Mi" 268435456 268435456000)
    (15 * Minute) (30 * Second) (60 * Second) (60 * Second) 65536 "".

Definition pod : Pod :=
  mkPod (mkMeta "dbg-1" "ns" [(LabelDebug, "true"); ("job-name", "dbg")]
    [(AnnotationRequester, "ann"); (AnnotationReason, "dns")] "" 0 None None) "node1" [] "Running" "" "" "" [] [].

Definition answer (q : request) : reply q :=
  match q with
  | Get _ KPods _ _ => Ok pod
  | List _ KPods _ _ => Ok ([pod], "")
  | GetRaw _ _ => Ok sample_groups
  | CreateJob _ _ _ => Ok (mkCreated "dbg" 100)
  | NewClient _ => None
  | ExecPod _ _ _ _ _ _ => mkExec None ["10.0.0.1"] None false
  | Now => 5
  | Tick => false
  | Get _ _ _ _ => Err (ErrText "no")
  | List _ _ _ _ => Ok ([], "")
  | DynGet _ _ _ _ => Err (ErrText "no")
  | DynList _ _ _ _ => Ok ([], "")
  | GetLogs _ _ _ _ => Ok ""
  end.

Definition world (s : unit) (q : request) : reply q * unit := (answer q, s).
Definition ev (q : request) : event request reply := Effects.Event q (answer q).
Definition ann : identity := As "ann" (["devs"; "ops"] ++ implicitGroups).

Definition before : list (event request reply) :=
  [ev Now; ev (GetRaw Server groups_path); ev Now; ev (NewClient ann); ev (Get ann KPods "ns" "dbg-1")].
Definition sent : event request reply :=
  ev (ExecPod ann "ns" "dbg-1" container (exec_command "60" "dig a") (65 * Second)).

Lemma exec_run : ∃ a, runs (Exec config (newGroupCache 300) "ann" "ns" "dbg-1" "dig a" 0) (before ++ [sent]) a.
Proof. eexists. apply (interp_runs world tt _ _ _ tt). vm_compute. reflexivity. Qed.

Lemma exec_only_own_pod_witness : exec_guard "ann" "ns" "dbg-1" before (asked sent).
Proof.
  destruct exec_run as [a Ha].
  exact (proj1 (exec_only_own_pod config (newGroupCache 300) "ann" "ns" "dbg-1" "dig a" 0 before sent []) a Ha).
Defined.



(** An accepted limit under one second is sent as 0, which is no limit to
    timeout(1). *)
Lemma subsecond_limit_is_none : let env name := if decide (name = "DEBUG_POD_EXEC_TIMEOUT") then "500ms" else "" in
  ∃ cfg, ConfigFromEnv (H:=plain_quantities) (H0:=plain_printable) env = (cfg, None) ∧ ExecTimeout cfg = 500 * Millisecond ∧
    exec_command (Itoa (int_Seconds (exec_timeout cfg 0))) "dig a" = exec_command "0" "dig a".
Proof. eexists. split; [vm_compute; reflexivity|]. split; reflexivity. Qed.

Lemma Exec_time_limit_witness : ExecTimeout config / Second = 60 ∧ bounded_exec config "dig a" 0 (asked sent).
Proof.
  split; [reflexivity|].
  destruct exec_run as [a Ha].
  apply (Exec_time_limit config (newGroupCache 300) "ann" "ns" "dbg-1" "dig a" 0 (before ++ [sent]) a);
    [reflexivity|discriminate|exact Ha|].
  apply elem_of_app. right. by left.
Defined.

Definition start_trace : list (event request reply) :=
  [ev Now; ev (GetRaw Server groups_path); ev Now; ev (NewClient ann);
   ev (CreateJob ann "ns" (job config "ann" "dns")); ev (List ann KPods "ns" (mkOpts "job-name=dbg" "" 0 ""))].

Definition started : Started := mkStarted "ns" "dbg" "dbg-1" "node1" "tools" (100 + 15 * Minute) start_note.

Lemma start_run : ∃ g', runs (Start config 3 (newGroupCache 300) "ann" "ns" "dns") start_trace (Ok started, g').
Proof. eexists. apply (interp_runs world tt _ _ _ tt). vm_compute. reflexivity. Qed.

Lemma Start_result_witness : ∃ w j p rest next, acting_as "ann" w ∧
  (let q := CreateJob w "ns" (job config "ann" "dns") in Effects.Event q (Ok j : reply q) ∈ start_trace) ∧
  (let q := List w KPods "ns" (mkOpts ("job-name=" +:+ cj_name j) "" 0 "") in
   Effects.Event q (Ok (p :: rest, next) : reply q) ∈ start_trace) ∧ pod_phase p = "Running" ∧
  sd_namespace started = "ns" ∧ sd_job started = cj_name j ∧ sd_pod started = Name (pod_meta p) ∧
  sd_node started = pod_nodeName p ∧ sd_expiresAt started = cj_created j + Lifetime config.
Proof.
  destruct start_run as [g' Hg].
  exact (Start_result config 3 (newGroupCache 300) "ann" "ns" "dns" start_trace started g' Hg).
Defined.

Lemma operations_act_as_caller_witness :
  speaks_for "ann" (asked (ev (NewClient ann))) ∧
  perform config 3 (newGroupCache 300) "system:admin" (OpList "ns") = Ret (newGroupCache 300).
Proof.
  split.
  - refine (proj1 (proj1 (operations_act_as_caller config 3 (newGroupCache 300) "ann" (OpStart "ns" "dns"))
      start_trace (mkGroups 300 305 (parseGroups sample_groups)) (ev (NewClient ann)) _ _)).
    + apply (interp_runs world tt _ _ _ tt). vm_compute. reflexivity.
    + right. right. right. by left.
  - apply (operations_act_as_caller config 3 (newGroupCache 300) "system:admin" (OpList "ns")).
    intros (_ & Hp & _). vm_compute in Hp. discriminate.
Defined.

(** A pod that stays pending until the context ends after [s] ticks. *)
Definition pending (s : nat) (q : request) : reply q * nat :=
  match q as q return reply q * nat with
  | Tick => match s with O => (true, O) | S s' => (false, s') end
  | List _ KPods _ _ => (Ok ([], ""), s)
  | q => (answer q, s)
  end.

Lemma waitRunning_terminates_witness :
  ∃ r tr s', interp pending 4%nat (waitRunning config 5 ann "ns" "dbg") = Some (r, tr, s').
Proof.
  apply (waitRunning_terminates config pending (λ s, s)); [|lia].
  intros s q. destruct q as [| w k ns o | | | | | | | | |]; simpl; try lia; [by destruct k|].
  destruct s; simpl; [by auto|]. split; [lia|right; lia].
Defined.
End Demo.
