(* ===== verification/Glob.v ===== *)
(** * Shell patterns (filepath.Match)

    The algorithm of package [path/filepath] on a Unix system, byte for byte,
    and its meaning on patterns made of literal bytes and [*]. *)

From S2P Require Import Prelude GoStrings.
From Stdlib Require Import Ascii.
Local Open Scope Z_scope.

Definition is_byte (z : Z) (a : ascii) : bool := byte_z a =? z.

(** The leading stars. *)
Fixpoint skip_stars (p : string) (star : bool) : bool * string :=
  match p with
  | String a p' => if is_byte 42 a then skip_stars p' true else (star, p)
  | EmptyString => (star, p)
  end.

(** Up to the next star outside a class. *)
Fixpoint scan (p : string) (inrange : bool) : string * string :=
  match p with
  | EmptyString => ("", "")
  | String a p' =>
      if is_byte 92 a then
        match p' with
        | String b p'' => let '(c, r) := scan p'' inrange in (String a (String b c), r)
        | EmptyString => (String a "", "")
        end
      else if is_byte 42 a && negb inrange then ("", p)
      else
        let inrange' := if is_byte 91 a then true else if is_byte 93 a then false else inrange in
        let '(c, r) := scan p' inrange' in (String a c, r)
  end.

Definition scanChunk (p : string) : bool * string * string :=
  let '(star, p1) := skip_stars p false in
  let '(chunk, rest) := scan p1 false in (star, chunk, rest).

(** utf8.DecodeRuneInString, on a string that may be empty. *)
Definition first_rune (s : string) : Z * nat :=
  match decode s with (r, raw) :: _ => (r, String.length raw) | [] => (rune_error, 0%nat) end.

(** [None] is ErrBadPattern. *)
Definition getEsc (chunk : string) : option (Z * string) :=
  let body :=
    match chunk with
    | EmptyString => None
    | String a c =>
        if is_byte 45 a || is_byte 93 a then None
        else if is_byte 92 a then match c with EmptyString => None | _ => Some c end
        else Some chunk
    end in
  match body with
  | None => None
  | Some c =>
      let '(r, n) := first_rune c in
      if (r =? rune_error) && (n =? 1)%nat then None
      else match str_drop n c with EmptyString => None | rest => Some (r, rest) end
  end.

(** The ranges of a class, up to its closing bracket: whether [r] is in one. *)
Fixpoint ranges (fuel : nat) (chunk : string) (r : Z) (nrange : nat) (found : bool) : option (bool * string) :=
  match fuel with
  | O => None
  | S fuel' =>
      let parse :=
        match getEsc chunk with
        | None => None
        | Some (lo, c1) =>
            match c1 with
            | String a c2 =>
                if is_byte 45 a then
                  match getEsc c2 with
                  | None => None
                  | Some (hi, c3) => ranges fuel' c3 r (S nrange) (found || ((lo <=? r) && (r <=? hi)))
                  end
                else ranges fuel' c1 r (S nrange) (found || (lo =? r))
            | EmptyString => None
            end
        end in
      match chunk with
      | String a c => if is_byte 93 a && negb (nrange =? 0)%nat then Some (found, c) else parse
      | EmptyString => parse
      end
  end.

(** [None] is ErrBadPattern, [Some None] no match, [Some (Some rest)] a match
    of the whole chunk with what follows it. *)
Fixpoint matchChunk (fuel : nat) (chunk s : string) (failed : bool) : option (option string) :=
  match fuel with
  | O => None
  | S fuel' =>
      match chunk with
      | EmptyString => Some (if failed then None else Some s)
      | String a c =>
          let failed := failed || match s with EmptyString => true | _ => false end in
          let literal b c' :=
            if failed then matchChunk fuel' c' s true
            else match s with
                 | String x s' => matchChunk fuel' c' s' (negb (bool_decide (b = x)))
                 | EmptyString => None
                 end in
          if is_byte 91 a then
            let '(r, n) := if failed then (0, 0%nat) else first_rune s in
            let s' := if failed then s else str_drop n s in
            let '(negated, c1) :=
              match c with
              | String b c' => if is_byte 94 b then (true, c') else (false, c)
              | EmptyString => (false, c)
              end in
            match ranges (S (String.length c1)) c1 r 0 false with
            | None => None
            | Some (found, c2) => matchChunk fuel' c2 s' (failed || Bool.eqb found negated)
            end
          else if is_byte 63 a then
            let sep := match s with String x _ => is_byte 47 x | EmptyString => false end in
            matchChunk fuel' c (if failed then s else str_drop (first_rune s).2 s) (failed || sep)
          else if is_byte 92 a then
            match c with EmptyString => None | String b c' => literal b c' end
          else literal a c
      end
  end.

(** Each step takes a byte of the chunk. *)
Definition match_chunk (chunk s : string) : option (option string) :=
  matchChunk (S (String.length chunk)) chunk s false.

(** The first later position, before any separator, where the chunk matches
    and, when [last] says it is the last one, ends the name. *)
Fixpoint seek (chunk name : string) (last : bool) : option (option string) :=
  match name with
  | EmptyString => Some None
  | String a name' =>
      if is_byte 47 a then Some None else
      match match_chunk chunk name' with
      | None => None
      | Some (Some t) =>
          if last && negb (bool_decide (t = "")) then seek chunk name' last else Some (Some t)
      | Some None => seek chunk name' last
      end
  end.

Fixpoint match_loop (fuel : nat) (pattern name : string) : bool :=
  match fuel with
  | O => false
  | S fuel' =>
      match pattern with
      | EmptyString => bool_decide (name = "")
      | _ =>
          let '(star, chunk, rest) := scanChunk pattern in
          if star && bool_decide (chunk = "") then negb (Contains name "/") else
          let last := bool_decide (rest = "") in
          let later := if star then match seek chunk name last with
                                    | Some (Some t) => match_loop fuel' rest t
                                    | _ => false
                                    end else false in
          match match_chunk chunk name with
          | None => false
          | Some (Some t) => if bool_decide (t = "") || negb last then match_loop fuel' rest t else later
          | Some None => later
          end
      end
  end.

(** Each round takes at least a byte of the pattern.  The source drops the
    error, so only the match counts. *)
Definition Match (pattern name : string) : bool := match_loop (S (String.length pattern)) pattern name.

Example match_examples :
  map (λ p, Match p.1 p.2)
    [("team-*", "team-a"); ("team-*", "teams"); ("*", ""); ("a?c", "abc"); ("a[b-d]c", "acc"); ("a[^b]c", "abc");
     ("*-prod", "x-prod-prod"); ("a*b*c", "aXbYbZc"); ("a*b*c", "aXcYb"); ("[", "["); ("a\*", "a*"); ("", "")]
  = [true; false; true; true; true; false; true; true; false; false; true; true].
Proof. by vm_compute. Qed.

(** ** Meaning, for patterns of literal bytes and stars *)

(** A star stands for any bytes but the separator. *)
Inductive glob : string → string → Prop :=
| glob_nil : glob "" ""
| glob_byte a p s : is_byte 42 a = false → glob p s → glob (String a p) (String a s)
| glob_star a p u s : is_byte 42 a = true → lacks (z_byte 47) u = true → glob p s → glob (String a p) (u +:+ s).

(** No class, no single-byte wildcard, no escape. *)
Fixpoint plain_pattern (p : string) : bool :=
  match p with
  | EmptyString => true
  | String a p' => negb (is_byte 91 a) && negb (is_byte 63 a) && negb (is_byte 92 a) && plain_pattern p'
  end.

Fixpoint literal (p : string) : bool :=
  match p with EmptyString => true | String a p' => negb (is_byte 42 a) && literal p' end.

Definition starred (p : string) : Prop := p = "" ∨ ∃ a p', p = String a p' ∧ is_byte 42 a = true.

Lemma plain_app p q : plain_pattern (p +:+ q) = plain_pattern p && plain_pattern q.
Proof. induction p as [|a p IH]; simpl; [done|]. by rewrite IH, !andb_assoc. Qed.

Lemma skip_stars_spec p b : ∃ n, p = Nat.iter n (String (z_byte 42)) (skip_stars p b).2 ∧
  (skip_stars p b).1 = b || negb (n =? 0)%nat ∧
  match (skip_stars p b).2 with String a _ => is_byte 42 a = false | EmptyString => True end.
Proof.
  revert b. induction p as [|a p IH]; intros b; simpl.
  { exists 0%nat. simpl. by rewrite orb_false_r. }
  destruct (is_byte 42 a) eqn:Ha.
  - destruct (IH true) as (n & Hp & Hb & Hh). exists (S n). simpl. split_and!; [|by rewrite Hb, orb_true_r|done].
    rewrite <- Hp. f_equal. unfold is_byte in Ha. apply Z.eqb_eq in Ha. by rewrite <- Ha, z_byte_of.
  - exists 0%nat. simpl. by rewrite orb_false_r, Ha.
Qed.

Lemma scan_plain p : plain_pattern p = true → 
  p = (scan p false).1 +:+ (scan p false).2 ∧ literal (scan p false).1 = true ∧ starred (scan p false).2.
Proof.
  induction p as [|a p IH]; simpl; [by repeat split; left|]. intros Hp.
  apply andb_true_iff in Hp as [Hp Hrest]. apply andb_true_iff in Hp as [Hp H92]. apply andb_true_iff in Hp as [H91 _].
  apply negb_true_iff in H91, H92. rewrite H92, H91.
  destruct (is_byte 42 a) eqn:H42; simpl.
  - split_and!; [done..|]. right. by eexists _, _.
  - assert (Hsc : (if is_byte 93 a then false else false) = false) by (by destruct (is_byte 93 a)).
    rewrite Hsc. destruct (IH Hrest) as (Heq & Hl & Hs). destruct (scan p false) as [c r]. simpl in *.
    rewrite H42. split_and!; [by rewrite Heq at 1|done..].
Qed.

Lemma matchChunk_failed fuel c s : (String.length c < fuel)%nat → plain_pattern c = true →
  matchChunk fuel c s true = Some None.
Proof.
  revert c s. induction fuel as [|fuel IH]; intros [|a c] s Hf; simpl in *; try lia; [done|]. intros Hp.
  apply andb_true_iff in Hp as [Hp Hrest]. apply andb_true_iff in Hp as [Hp H92]. apply andb_true_iff in Hp as [H91 H63].
  apply negb_true_iff in H91, H92, H63. rewrite H91, H63, H92. apply IH; [lia|done].
Qed.

Lemma match_chunk_plain c s : plain_pattern c = true →
  match_chunk c s = Some (if HasPrefix s c then Some (str_drop (String.length c) s) else None).
Proof.
  unfold match_chunk. generalize (Nat.lt_succ_diag_r (String.length c)). generalize (S (String.length c)) as fuel.
  intros fuel. revert c s. induction fuel as [|fuel IH]; intros [|a c] s Hf; simpl in *; try lia; [by destruct s|].
  intros Hp. apply andb_true_iff in Hp as [Hp Hrest]. apply andb_true_iff in Hp as [Hp H92].
  apply andb_true_iff in Hp as [H91 H63].
  apply negb_true_iff in H91, H92, H63. rewrite H91, H63, H92.
  destruct s as [|x s]; simpl; [apply matchChunk_failed; [lia|done]|].
  unfold HasPrefix. simpl. destruct (Ascii.ascii_dec a x) as [->|Hne].
  - rewrite bool_decide_true by done. simpl. apply IH; [lia|done].
  - rewrite bool_decide_false by done. simpl. apply matchChunk_failed; [lia|done].
Qed.

(** *** The relation *)

Lemma glob_literal c p s : literal c = true → glob (c +:+ p) s ↔ ∃ t, s = c +:+ t ∧ glob p t.
Proof.
  revert s. induction c as [|a c IH]; intros s; simpl; [naive_solver|].
  intros [Ha Hc]%andb_true_iff. apply negb_true_iff in Ha. split.
  - inversion 1 as [|a' p' s' _ Hg|a' p' u s' Hs]; subst; [|congruence].
    apply IH in Hg as (t & -> & Hg); [|done]. by exists t.
  - intros (t & -> & Hg). simpl. constructor; [done|]. apply IH; [done|]. by exists t.
Qed.

Lemma lacks_split c s u t : lacks c s = true → s = u +:+ t → lacks c u = true ∧ lacks c t = true.
Proof. intros Hl ->. rewrite lacks_app in Hl. by apply andb_true_iff in Hl. Qed.

Lemma glob_stars n p s : lacks (z_byte 47) s = true → (0 < n)%nat →
  glob (Nat.iter n (String (z_byte 42)) p) s ↔ ∃ u t, s = u +:+ t ∧ glob p t.
Proof.
  intros Hl Hn. revert s Hl. induction n as [|n IH]; [lia|]. intros s Hl. simpl. split.
  - inversion 1 as [|a' p' s' Ha|a' p' u s' _ Hu Hg]; subst; [by unfold is_byte in Ha; simpl in Ha|].
    destruct n as [|n]; [by exists u, s'|]. apply lacks_split with (u:=u) (t:=s') in Hl as [_ Hl]; [|done].
    apply IH in Hg as (u' & t & -> & Hg); [|lia|done]. exists (u +:+ u'), t. by rewrite sapp_assoc.
  - intros (u & t & -> & Hg). destruct (lacks_split _ _ u t Hl eq_refl) as [Hu Ht].
    constructor; [done|done|]. destruct n as [|n]; [done|]. apply IH; [lia|done|]. by exists "", t.
Qed.

(** A pattern that begins with a star also takes more bytes in front. *)
Lemma glob_more p w t : starred p → p ≠ "" → lacks (z_byte 47) w = true → glob p t → glob p (w +:+ t).
Proof.
  intros [->|(a & p' & -> & Ha)] Hne Hw; [done|].
  inversion 1 as [|a' p'' s' Hb|a' p'' u s' _ Hu Hg]; subst; [congruence|].
  rewrite <- sapp_assoc. constructor; [done| |done]. by rewrite lacks_app, Hw, Hu.
Qed.

Lemma sapp_prefix (a b c d : string) : a +:+ b = c +:+ d → (String.length a ≤ String.length c)%nat →
  ∃ w, c = a +:+ w ∧ b = w +:+ d.
Proof.
  revert c. induction a as [|x a IH]; intros c; simpl; [intros -> _; by exists c|].
  destruct c as [|y c]; simpl; [lia|]. intros [= -> Heq] Hl. destruct (IH c Heq) as (w & -> & ->); [lia|].
  by exists w.
Qed.

Lemma sapp_cancel (a b c : string) : a +:+ b = a +:+ c → b = c.
Proof. induction a as [|x a IH]; simpl; [done|]. intros [=]. auto. Qed.

(** A later position where the chunk fits. *)
Definition fits (c name : string) (last : bool) (t : string) : Prop :=
  ∃ a u, name = String a (u +:+ c +:+ t) ∧ (last = true → t = "").

Lemma seek_plain c name last : plain_pattern c = true → lacks (z_byte 47) name = true →
  match seek c name last with
  | None => False
  | Some None => ∀ t, ¬ fits c name last t
  | Some (Some t) => fits c name last t ∧ ∀ t', fits c name last t' → ∃ w, t = w +:+ t'
  end.
Proof.
  intros Hc. induction name as [|a name IH]; simpl; intros Hl; [by intros t (a & u & [=] & _)|].
  apply andb_true_iff in Hl as [Ha Hl]. assert (H47 : is_byte 47 a = false).
  { unfold is_byte. apply Z.eqb_neq. intros Hb. rewrite <- (z_byte_of a), Hb in Ha. by rewrite bool_decide_true in Ha. }
  rewrite H47, match_chunk_plain by done. specialize (IH Hl).
  assert (Hstep : ∀ t, fits c name last t → fits c (String a name) last t).
  { intros t (b & u & -> & Ht). exists a, (String b u). by split. }
  assert (Hinv : ∀ t, fits c (String a name) last t → fits c name last t ∨ (name = c +:+ t ∧ (last = true → t = ""))).
  { intros t (b & [|x u] & [= <- ->] & Ht); [by right|left]. by exists x, u. }
  destruct (HasPrefix name c) eqn:Hp.
  - apply HasPrefix_spec in Hp as [t ->]. rewrite str_drop_app.
    destruct (last && negb (bool_decide (t = ""))) eqn:Hlast.
    + assert (Hbad : ∀ t', fits c (String a (c +:+ t)) last t' → fits c (c +:+ t) last t').
      { intros t' [?|[Heq Ht']]%Hinv; [done|]. apply sapp_cancel in Heq as ->.
        apply andb_true_iff in Hlast as [-> Hn]. by rewrite Ht' in Hn. }
      destruct (seek c (c +:+ t) last) as [[t0|]|]; [|by intros t' ?%Hbad%IH|done].
      destruct IH as [Hf Hmin]. split; [by apply Hstep|]. intros t' Hf'. by apply Hmin, Hbad.
    + split.
      { exists a, "". split; [done|]. intros ->. simpl in Hlast. by case_bool_decide. }
      intros t' [(b & u & Heq & _)|[Heq _]]%Hinv.
      * destruct (sapp_prefix c t (String b (u +:+ c)) t') as (w & _ & ->).
        { by rewrite Heq, <- sapp_assoc. } { simpl. rewrite sapp_length. lia. } by exists w.
      * apply sapp_cancel in Heq as ->. by exists "".
  - assert (Hbad : ∀ t', fits c (String a name) last t' → fits c name last t').
    { intros t' [?|[Heq _]]%Hinv; [done|]. by rewrite Heq, HasPrefix_app in Hp. }
    destruct (seek c name last) as [[t0|]|]; [|by intros t' ?%Hbad%IH|done].
    destruct IH as [Hf Hmin]. split; [by apply Hstep|]. intros t' Hf'. by apply Hmin, Hbad.
Qed.

Lemma glob_empty s : glob "" s → s = "".
Proof. by inversion 1. Qed.

Lemma lacks_Contains s : lacks (z_byte 47) s = true → Contains s "/" = false.
Proof.
  intros Hl. destruct (Contains s "/") eqn:Hc; [|done]. apply Contains_spec in Hc as (a & b & ->).
  rewrite lacks_app in Hl. apply andb_true_iff in Hl as [_ Hl]. done.
Qed.

Lemma iter_length n p : String.length (Nat.iter n (String (z_byte 42)) p) = (n + String.length p)%nat.
Proof. induction n as [|n IH]; simpl; auto. Qed.

Lemma iter_plain n p : plain_pattern (Nat.iter n (String (z_byte 42)) p) = plain_pattern p.
Proof. by induction n as [|n IH]. Qed.

(** How a plain pattern splits: stars, literal bytes, and the rest. *)
Lemma scanChunk_plain p : plain_pattern p = true → p ≠ "" →
  let '(star, chunk, rest) := scanChunk p in
  ∃ n, p = Nat.iter n (String (z_byte 42)) (chunk +:+ rest) ∧ star = negb (n =? 0)%nat ∧
    literal chunk = true ∧ plain_pattern chunk = true ∧ plain_pattern rest = true ∧ starred rest ∧
    (chunk = "" → n ≠ 0%nat ∧ rest = "").
Proof.
  intros Hp Hne. unfold scanChunk. destruct (skip_stars_spec p false) as (n & Heq & Hb & Hh).
  destruct (skip_stars p false) as [star p1]. cbn [fst snd] in *.
  rewrite Heq, iter_plain in Hp. pose proof (scan_plain p1 Hp) as (Hs & Hl & Hr).
  destruct (scan p1 false) as [chunk rest] eqn:Hscan. cbn [fst snd] in *.
  exists n. rewrite Hs in Hp. rewrite plain_app in Hp. apply andb_true_iff in Hp as [Hpc Hpr].
  split_and!; try done; [by rewrite Heq, <- Hs|]. intros ->. simpl in Hs. subst p1.
  destruct Hr as [->|(a & p' & -> & Ha)]; [|congruence]. split; [|done]. intros ->. by apply Hne.
Qed.

(** What is left after the chunk, however many bytes the star took. *)
Definition after_star (chunk rest s : string) : Prop := ∃ u t, s = u +:+ chunk +:+ t ∧ glob rest t.

Lemma glob_after_star rest chunk s t w : starred rest → lacks (z_byte 47) s = true → s = chunk +:+ t →
  glob rest w → (rest = "" → t = "") → (∃ x, t = x +:+ w) → glob rest t.
Proof.
  intros Hst Hl Hs Hg He [x ->]. destruct (decide (rest = "")) as [->|Hne].
  { rewrite He by done. constructor. }
  apply glob_more; [done..| |done]. subst s. rewrite !lacks_app in Hl.
  apply andb_true_iff in Hl as [_ Hl]. by apply andb_true_iff in Hl as [Hl _].
Qed.

(** One round with a star: the chunk here, or at the first later position. *)
Lemma star_round (loop : string → bool) chunk rest s : plain_pattern chunk = true → starred rest →
  lacks (z_byte 47) s = true → (∀ u t, s = u +:+ t → loop t = true ↔ glob rest t) →
  (match (if HasPrefix s chunk then Some (str_drop (String.length chunk) s) else None) with
   | Some t => if bool_decide (t = "") || negb (bool_decide (rest = "")) then loop t
               else match seek chunk s (bool_decide (rest = "")) with Some (Some t) => loop t | _ => false end
   | None => match seek chunk s (bool_decide (rest = "")) with Some (Some t) => loop t | _ => false end
   end = true) ↔ after_star chunk rest s.
Proof.
  intros Hpc Hst Hl Hloop. set (last := bool_decide (rest = "")).
  assert (Hend : ∀ t, glob rest t → last = true → t = "").
  { intros t Hg Hr%bool_decide_eq_true. rewrite Hr in Hg. by apply glob_empty. }
  assert (Hmore : ∀ u t t', s = u +:+ chunk +:+ t → glob rest t' → (last = true → t = "") →
    (∃ w, t = w +:+ t') → glob rest t).
  { intros u t t' Hs Hg He [w ->]. destruct (decide (rest = "")) as [Hr|Hne].
    - specialize (He ltac:(by apply bool_decide_eq_true)). destruct w; [|done]. simpl in *. congruence.
    - apply glob_more; [done..| |done]. rewrite Hs in Hl. rewrite !lacks_app in Hl.
      repeat (apply andb_true_iff in Hl as [? Hl]). done. }
  assert (Hlater : (∀ t, s = chunk +:+ t → glob rest t → False) →
    match seek chunk s last with Some (Some t) => loop t | _ => false end = true ↔ after_star chunk rest s).
  { intros Hno. pose proof (seek_plain chunk s last Hpc Hl) as Hseek.
    assert (Hfit : after_star chunk rest s → ∃ t, fits chunk s last t ∧ glob rest t).
    { intros ([|a u] & t & -> & Hg); [by destruct (Hno t)|]. exists t. split; [|done].
      exists a, u. split; [done|]. by apply Hend. }
    destruct (seek chunk s last) as [[t|]|]; [| |done].
    - destruct Hseek as [(a & u & Hs & He) Hmin].
      rewrite (Hloop (String a u +:+ chunk) t) by (simpl; by rewrite sapp_assoc). split.
      + intros Hg. by exists (String a u), t.
      + intros (t' & Hf & Hg)%Hfit. apply (Hmore (String a u) t t'); auto.
    - split; [done|]. by intros (t & Hf%Hseek & _)%Hfit. }
  destruct (HasPrefix s chunk) eqn:Hpre.
  - apply HasPrefix_spec in Hpre as [t Hs]. 
    assert (Hdrop : str_drop (String.length chunk) s = t) by (by rewrite Hs, str_drop_app). rewrite Hdrop.
    destruct (bool_decide (t = "") || negb last) eqn:Hc.
    + rewrite (Hloop chunk t Hs). split; [intros Hg; by exists "", t|].
      intros (u & t' & Hs' & Hg). apply (Hmore "" t t'); [done..| |].
      * intros ->. case_bool_decide; [done|by rewrite orb_false_r in Hc].
      * destruct (sapp_prefix chunk t (u +:+ chunk) t') as (w & _ & ->); [|rewrite sapp_length; lia|by exists w].
        by rewrite <- Hs, Hs', sapp_assoc.
    + apply Hlater. intros t' Hs' Hg. rewrite Hs in Hs'. apply sapp_cancel in Hs' as <-.
      apply orb_false_iff in Hc as [Hc1 Hc2]. apply negb_false_iff in Hc2. rewrite (Hend t Hg Hc2) in Hc1.
      by rewrite bool_decide_true in Hc1.
  - apply Hlater. intros t -> _. by rewrite HasPrefix_app in Hpre.
Qed.

Lemma match_loop_plain fuel p s : (String.length p < fuel)%nat → plain_pattern p = true →
  lacks (z_byte 47) s = true → match_loop fuel p s = true ↔ glob p s.
Proof.
  revert p s. induction fuel as [|fuel IH]; intros p s Hf Hp Hl; [lia|].
  destruct p as [|a0 p0]; [simpl; rewrite bool_decide_eq_true; split; [intros ->; constructor|apply glob_empty]|].
  assert (Hne : String a0 p0 ≠ "") by done. pose proof (scanChunk_plain _ Hp Hne) as Hsc.
  cbn [match_loop]. set (p := String a0 p0) in *. clearbody p. clear a0 p0.
  destruct (scanChunk p) as [[star chunk] rest]. destruct Hsc as (n & Hpe & -> & Hlit & Hpc & Hpr & Hst & Hch).
  assert (Hlen : (String.length rest < fuel)%nat).
  { rewrite Hpe, iter_length, sapp_length in Hf. destruct chunk; [destruct Hch; [done|lia]|simpl in *; lia]. }
  assert (Hloop : ∀ u t, s = u +:+ t → match_loop fuel rest t = true ↔ glob rest t).
  { intros u t Hs. apply IH; [done..|]. by apply (lacks_split _ s u t). }
  rewrite match_chunk_plain by done. destruct n as [|n].
  - (* no star: the chunk is a prefix *)
    simpl in Hpe. cbn [Nat.eqb negb andb]. subst p. rewrite (glob_literal _ _ _ Hlit).
    destruct (HasPrefix s chunk) eqn:Hpre.
    + apply HasPrefix_spec in Hpre as [t Hs]. rewrite Hs, str_drop_app.
      assert (Hiff : (∃ t', chunk +:+ t = chunk +:+ t' ∧ glob rest t') ↔ glob rest t).
      { split; [by intros (t' & ->%sapp_cancel & ?)|by exists t]. }
      rewrite Hiff. repeat case_bool_decide; simpl; try by eapply Hloop.
      subst rest. split; [done|]. by intros ?%glob_empty.
    + split; [done|]. intros (t & -> & _). by rewrite HasPrefix_app in Hpre.
  - rewrite Hpe, glob_stars by (done || lia). cbn [Nat.eqb negb andb].
    case_bool_decide as Hc0.
    { destruct (Hch Hc0) as [_ ->]. subst chunk. rewrite (lacks_Contains s Hl). split; [intros _|done].
      exists s, "". split; [by rewrite sapp_nil_r|constructor]. }
    assert (Hiff : (∃ u t, s = u +:+ t ∧ glob (chunk +:+ rest) t) ↔ after_star chunk rest s).
    { split.
      - intros (u & t & -> & Hg). apply (glob_literal _ _ _ Hlit) in Hg as (t' & -> & Hg). by exists u, t'.
      - intros (u & t & -> & Hg). exists u, (chunk +:+ t). split; [done|]. apply (glob_literal _ _ _ Hlit). by exists t. }
    rewrite Hiff. apply star_round; done.
Qed.

(** [filepath.Match] on a name without separators, for such patterns. *)
Lemma Match_plain p s : plain_pattern p = true → lacks (z_byte 47) s = true → Match p s = true ↔ glob p s.
Proof. apply match_loop_plain. lia. Qed.
