(* ===== verification/Args.v ===== *)
(** * Tool arguments (internal/mcp/server.go, type args)

    The decoded arguments of a call, with the typed getters of the source, and
    the theorem that what a client sends as JSON is what the getters return. *)

From S2P Require Import Prelude GoStrings GoTime Value Floats Json Unmarshal NumberText RoundTrip Instances.
Local Open Scope Z_scope.

Abbreviation args := obj.

Definition arg_str (a : args) (key : string) : string := str_or_empty (vget a key).

Definition arg_boolean (a : args) (key : string) : bool := default false (as_bool (vget a key)).

(** The non-empty strings of a list. *)
Definition arg_strs (a : args) (key : string) : list string :=
  flat_map (λ v, match v with VStr s => if decide (s = "") then [] else [s] | _ => [] end) (list_or_nil (vget a key)).

(** Conversion of a float64 to int: truncation, and on amd64 the least int for
    a value out of range. *)
Definition float_to_int (f : spec_float) : Z :=
  match f with
  | S754_zero _ => 0
  | S754_finite s m e =>
      let z := if 0 <=? e then Z.pos m * 2 ^ e else Z.pos m / 2 ^ (- e) in
      let z := if s then - z else z in
      if between minInt64 maxInt64 z then z else minInt64
  | _ => minInt64
  end.

Definition arg_intOr (a : args) (key : string) (def : Z) : Z :=
  match vget a key with
  | VFloat f => float_to_int f
  | VInt Kint z => z
  | _ => def
  end.

(** [limit := a.intOr(...); if limit < 1 || limit > max { limit = def }] *)
Definition clamp_limit (limit max def : Z) : Z := if (limit <? 1) || (max <? limit) then def else limit.

Lemma clamp_limit_range limit max def : 1 ≤ def ≤ max → 1 ≤ clamp_limit limit max def ≤ max.
Proof. intros Hd. unfold clamp_limit. destruct (Z.ltb_spec limit 1), (Z.ltb_spec max limit); simpl; lia. Qed.

(** ** Decoding *)

(** json.Unmarshal into [a]; the error is dropped, and anything but an object
    leaves it nil. *)
Definition decode_args (raw : string) : args := match Unmarshal raw with Some v => obj_or_nil v | None => [] end.

(** The decoded arguments of a call; none when there are none. *)
Definition call_args (raw : string) : args := if decide (raw = "") then [] else decode_args raw.

Lemma int_value_exact z : Z.abs z < 2 ^ 53 → ∃ f, int_value z = VFloat f ∧ float_to_int f = z.
Proof.
  intros Hz. unfold int_value, nearest, nearest_in. destruct (Z.abs z) as [|p|p] eqn:Ha; [|cbn [Z.leb Z.compare]|lia].
  { eexists. split; [done|]. cbn. lia. }
  rewrite Z.pow_0_r, Z.mul_1_r.
  destruct (binary_exact (z <? 0) p Hz) as (m & e & Hr & He & Hm).
  assert (Hn : binary_normalize 53 1024 (cond_Zopp (z <? 0) (Z.pos p)) 0 (z <? 0) = S754_finite (z <? 0) m e).
  { by destruct (z <? 0). }
  rewrite Hn. eexists. split; [done|]. cbn [float_to_int].
  assert (Hv : (if 0 <=? e then Z.pos m * 2 ^ e else Z.pos m / 2 ^ (- e)) = Z.pos p).
  { rewrite Hm. destruct (Z.leb_spec 0 e); [replace e with 0 by lia; cbn; lia|]. by rewrite Z.div_mul by (apply Z.pow_nonzero; lia). }
  rewrite Hv. unfold between, minInt64, maxInt64.
  destruct (Z.ltb_spec z 0); [rewrite (Z.abs_neq z) in Ha by lia|rewrite (Z.abs_eq z) in Ha by lia];
    destruct (_ && _) eqn:Hb; lia.
Qed.

(** ** The getters on what a client sent *)

Lemma mget_canon k m : NoDup (mkeys m) → mget k (in_key_order (map (λ e, (e.1, canon e.2)) m)) = canon <$> mget k m.
Proof.
  intros Hn. set (l := map _ m). assert (Hl : in_key_order l ≡ₚ l) by apply stable_sort_perm.
  assert (Hk : mkeys l = mkeys m) by (unfold mkeys, l; by rewrite map_map).
  assert (Hnl : NoDup (mkeys (in_key_order l))) by (unfold mkeys; by rewrite Hl, <- Hk in *).
  destruct (mget k m) as [v|] eqn:Hm; cbn.
  - apply In_mget; [done|]. rewrite Hl. apply mget_In in Hm. by apply (list_elem_of_fmap_2 (λ e, (e.1, canon e.2))) in Hm.
  - destruct (mget k (in_key_order l)) as [v|] eqn:Hv; [|done]. apply mget_In in Hv. rewrite Hl in Hv.
    apply list_elem_of_fmap in Hv as ([k' v'] & [= -> ->] & Hin). by rewrite (In_mget k' v' m) in Hm.
Qed.

Lemma vget_canon k m : NoDup (mkeys m) → vget (in_key_order (map (λ e, (e.1, canon e.2)) m)) k = canon (vget m k).
Proof. intros Hn. unfold vget. rewrite mget_canon by done. by destruct (mget k m). Qed.

Lemma sanitized_empty s : sanitized s = "" ↔ s = "".
Proof.
  split; [|by intros ->]. destruct s as [|a s]; [done|]. unfold sanitized, runes.
  pose proof (decode_cat (String a s)) as Hc. destruct (decode (String a s)) as [|p l]; [done|].
  cbn. unfold encode_rune. repeat case_match; done.
Qed.

Lemma strs_canon l : flat_map (λ v, match v with VStr s => if decide (s = "") then [] else [s] | _ => [] end) (map canon l) =
  map sanitized (flat_map (λ v, match v with VStr s => if decide (s = "") then [] else [s] | _ => [] end) l).
Proof.
  induction l as [|v l IH]; [done|]. cbn. rewrite map_app, IH. f_equal. destruct v; try done.
  - cbn [canon]. unfold int_value. by destruct (nearest _ _ _).
  - cbn. pose proof (sanitized_empty s). repeat case_decide; naive_solver.
Qed.

Lemma call_args_marshal m text : keyed (VObj m) → (depth (VObj m) ≤ maxNestingDepth)%nat → Marshal (VObj m) = Some text →
  call_args text = in_key_order (map (λ e, (e.1, canon e.2)) m).
Proof.
  intros Hk Hd Hm. pose proof (marshal_roundtrip _ _ Hk Hd Hm) as Hu. unfold call_args, decode_args.
  rewrite decide_False; [by rewrite Hu|]. intros ->. done.
Qed.

(** C15: The getters return what the client sent: when a client writes
    arguments as JSON, a handler's getters on the decoded arguments give the
    strings, the lists of non-empty strings and the booleans that were sent
    (invalid UTF-8 replaced), an integer below 2^53 unchanged by its way
    through float64, and the default for a key that was not sent. *)
Theorem arguments_roundtrip m text : keyed (VObj m) → (depth (VObj m) ≤ maxNestingDepth)%nat → Marshal (VObj m) = Some text →
  ∀ k, arg_str (call_args text) k = sanitized (arg_str m k) ∧
       arg_boolean (call_args text) k = arg_boolean m k ∧
       arg_strs (call_args text) k = map sanitized (arg_strs m k) ∧
       (∀ kind z def, mget k m = Some (VInt kind z) → Z.abs z < 2 ^ 53 → arg_intOr (call_args text) k def = z) ∧
       (∀ def, mget k m = None → arg_intOr (call_args text) k def = def).
Proof.
  intros Hk Hd Hm k. rewrite (call_args_marshal m text Hk Hd Hm). inversion Hk as [| | | | | |? Hn _ _]; subst.
  unfold arg_str, arg_boolean, arg_strs, arg_intOr. rewrite vget_canon by done.
  assert (Hi : ∀ z, (∃ f, int_value z = VFloat f) ∨ int_value z = VNil) by (intros z; unfold int_value; destruct (nearest _ _ _); eauto).
  split_and!.
  - destruct (vget m k) as [| |? z| | | |]; try done. cbn. by destruct (Hi z) as [[f ->]| ->].
  - destruct (vget m k) as [| |? z| | | |]; try done. cbn. by destruct (Hi z) as [[f ->]| ->].
  - destruct (vget m k) as [| |? z| | |l|]; try done; cbn [canon list_or_nil as_list default]; [|apply strs_canon].
    by destruct (Hi z) as [[f ->]| ->].
  - intros kind z def Hz Hb. unfold vget. rewrite Hz. cbn. destruct (int_value_exact z Hb) as (f & -> & Hf). done.
  - intros def Hz. unfold vget. by rewrite Hz.
Qed.

Module ArgsDemo.
Definition sent : args := [("namespace", VStr "team-a"); ("limit", VInt Kint 500);
  ("previous", VBool true); ("quorum_images", VList [VStr "etcd"; VStr ""; VInt Kint 1])].

Lemma arguments_roundtrip_witness : ∃ text, Marshal (VObj sent) = Some text ∧
  arg_intOr (call_args text) "limit" 100 = 500 ∧ arg_strs (call_args text) "quorum_images" = ["etcd"].
Proof.
  destruct (Marshal (VObj sent)) as [text|] eqn:Hm; [|by vm_compute in Hm]. exists text. split; [reflexivity|].
  assert (Hk : keyed (VObj sent)).
  { constructor; [by apply (bool_decide_unpack _); vm_compute|by repeat constructor|repeat constructor]. }
  pose proof (arguments_roundtrip sent text Hk ltac:(apply Nat.leb_le; vm_compute; reflexivity) Hm) as Hr.
  split.
  - destruct (Hr "limit") as (_ & _ & _ & Hi & _). apply (Hi Kint); [reflexivity|lia].
  - destruct (Hr "quorum_images") as (_ & _ & -> & _). vm_compute. reflexivity.
Defined.
End ArgsDemo.
