(* ===== verification/Policy.v ===== *)
(** * Kyverno policies (internal/mcp/policy.go)

    Which rules of the cluster's policies apply to a kind in a namespace, and
    the namespace's policy report.  Policies are dynamic objects. *)

From S2P Require Import Prelude GoStrings GoTime Value Kube Floats Json Instances Glob Args.
Local Open Scope Z_scope.
Local Open Scope mcp_scope.

Definition gvrClusterPolicy : GVR := mkGVR "kyverno.io" "v1" "clusterpolicies".
Definition gvrPolicy : GVR := mkGVR "kyverno.io" "v1" "policies".
Definition gvrExceptions : list GVR :=
  [mkGVR "kyverno.io" "v2" "policyexceptions"; mkGVR "kyverno.io" "v2beta1" "policyexceptions"].
Definition gvrPolicyReport : GVR := mkGVR "wgpolicyk8s.io" "v1alpha2" "policyreports".

Definition podControllers : gset string :=
  {["Deployment"; "StatefulSet"; "DaemonSet"; "ReplicaSet"; "Job"; "CronJob"; "ReplicationController"]}.

Definition maxCheckRunes : nat := 1500.
Definition maxReportResults : nat := 200.

(** ** Helpers *)

Definition strSlice (v : value) : list string :=
  flat_map (λ e, match e with VStr s => [s] | _ => [] end) (list_or_nil v).

(** The loop of uniq, from the strings seen so far. *)
Fixpoint uniq_from (seen : gset string) (l : list string) : list string :=
  match l with
  | [] => []
  | s :: l' => if decide (s ∈ seen) then uniq_from seen l' else s :: uniq_from ({[s]} ∪ seen) l'
  end.
Definition uniq (l : list string) : list string := uniq_from ∅ l.

Definition isEmpty (v : value) : bool :=
  match v with
  | VNil => true
  | VObj m => (length m =? 0)%nat
  | VList l => (length l =? 0)%nat
  | VStr s => bool_decide (s = "")
  | _ => false
  end.

(** A block holding nothing but empty values. *)
Fixpoint isEmptyBlock (v : value) : bool :=
  match v with
  | VObj m => (fix go (m : obj) : bool := match m with [] => true | e :: m' => isEmptyBlock e.2 && go m' end) m
  | _ => isEmpty v
  end.

Definition ellipsis : string := encode_rune 8230.

Section policy.
Context `{Unicode, Unstructured, Selectors}.

Definition truncJSON (v : value) (n : nat) : string :=
  let b := marshal_text v in
  let r := runes b in
  if (n <? length r)%nat then of_runes (take n r) +:+ ellipsis else b.

Definition ruleType (rule : obj) : string :=
  match List.find (λ t, match mget t rule with Some v => negb (isEmptyBlock v) | None => false end)
          ["validate"; "mutate"; "generate"; "verifyImages"] with
  | Some t => t
  | None => "other"
  end.

(** ** Filters *)

(** [range] over the resources block, then the user fields. *)
Definition flattenFilter (f : obj) : obj :=
  let out :=
    match mget "resources" f with
    | Some (VObj r) => fold_left (λ out e, if isEmpty e.2 then out else mset e.1 e.2 out) r []
    | _ => []
    end in
  fold_left (λ out k, match mget k f with Some v => mset k v out | None => out end)
    ["subjects"; "roles"; "clusterRoles"] out.

(** The [collect] closure. *)
Definition collect (block : obj) (key : string) : list obj :=
  flat_map (λ e, match e with
                 | VObj m => let f := flattenFilter m in if (length f =? 0)%nat then [] else [f]
                 | _ => []
                 end) (list_or_nil (vget block key)).

(** A nil block reads as an empty one. *)
Definition resourceFilters (block : obj) : list obj * bool :=
  match collect block "all" with
  | (_ :: _) as f => (f, true)
  | [] =>
      match collect block "any" with
      | (_ :: _) as f => (f, false)
      | [] =>
          match mget "resources" block with
          | Some _ => let f := flattenFilter block in if (length f =? 0)%nat then ([], false) else ([f], true)
          | None => ([], false)
          end
      end
  end.

Definition short_kind (k : string) : string := default k (after_last (z_byte 47) k).

Definition kindMatches (f : obj) (kind : string) (autogen : gset string) : list string * bool * string :=
  let step '(names, ok, via) k :=
    let short := short_kind k in
    let names' := names ++ [short] in
    if bool_decide (kind = "") || bool_decide (short = "*") || EqualFold short kind then (names', true, via)
    else if bool_decide (short = "Pod") && bool_decide (kind ∈ autogen)
    then (names', true, "autogen: the Pod rule is applied to the " +:+ kind +:+ "'s pod template")
    else (names', ok, via) in
  let '(names, ok, via) := fold_left step (strSlice (vget f "kinds")) ([], false, "") in
  (names, if (length names =? 0)%nat then true else ok, via).

Definition selectorMatches (sel : obj) (set : labels) : bool :=
  match FromUnstructured sel with
  | None => true
  | Some ls => match LabelSelectorAsSelector (Some ls) with None => true | Some s => Matches s set end
  end.

Definition nsMatches (f : obj) (ns : string) (nsLabels : labels) : bool :=
  let pats := strSlice (vget f "namespaces") in
  if negb (length pats =? 0)%nat && negb (existsb (λ p, Match p ns) pats) then false
  else match vget f "namespaceSelector" with
       | VObj sel => selectorMatches sel nsLabels
       | _ => true
       end.

Definition objectCondition (f : obj) : string :=
  let n := strSlice (vget f "names") in
  let ops := strSlice (vget f "operations") in
  Join ((if (length n =? 0)%nat then [] else ["name matches " +:+ Join n ", "]) ++
        (match vget f "selector" with VObj sel => ["labels match " +:+ marshal_text (VObj sel)] | _ => [] end) ++
        (match vget f "annotations" with VObj an => ["annotations match " +:+ marshal_text (VObj an)] | _ => [] end) ++
        (if (length ops =? 0)%nat then [] else ["operation is " +:+ Join ops "/"])) ", ".

Definition hasSubjects (f : obj) : bool :=
  existsb (λ k, negb (length (list_or_nil (vget f k)) =? 0)%nat) ["subjects"; "roles"; "clusterRoles"].

Definition autogenControllers (ann : string) : gset string :=
  let t := TrimSpace ann in
  if decide (t = "") then podControllers
  else if decide (t = "none") then ∅
  else list_to_set (map TrimSpace (Split ann (z_byte 44))).

(** ** One rule *)

(** What the loop over the match filters has gathered. *)
Record gathered := mkGathered { ga_kinds : list string; ga_via : string; ga_conds : list string; ga_matched : bool }.

Definition match_step (ns : string) (nsLabels : labels) (kind : string) (autogen : gset string) (all : bool)
    (g : gathered) (f : obj) : gathered :=
  let '(ks, okKind, v) := kindMatches f kind autogen in
  let hit := okKind && nsMatches f ns nsLabels in
  let c := objectCondition f in
  mkGathered (ga_kinds g ++ ks)
    (if hit && negb (bool_decide (v = "")) then v else ga_via g)
    (if hit && negb (bool_decide (c = "")) then ga_conds g ++ [c] else ga_conds g)
    (if all then ga_matched g && hit else ga_matched g || hit).

(** A filter that excludes every object of the kind in the namespace. *)
Definition certain_hit (ns : string) (nsLabels : labels) (kind : string) (autogen : gset string) (f : obj) : bool :=
  let '(_, okKind, _) := kindMatches f kind autogen in
  okKind && nsMatches f ns nsLabels && bool_decide (objectCondition f = "") && negb (hasSubjects f).

Definition excluded (ns : string) (nsLabels : labels) (kind : string) (autogen : gset string)
    (exFilters : list obj) (exAll : bool) : bool :=
  fold_left (λ ex f, let hit := certain_hit ns nsLabels kind autogen f in if exAll then ex && hit else ex || hit)
    exFilters (exAll && negb (length exFilters =? 0)%nat).

(** The kinds named, whether the rule applies, how, and its conditions. *)
Definition ruleApplies (rule : obj) (ns : string) (nsLabels : labels) (kind : string) (autogen : gset string)
    : list string * bool * string * string :=
  let '(filters, all) := resourceFilters (obj_or_nil (vget rule "match")) in
  if (length filters =? 0)%nat then ([], false, "", "") else
  let g := fold_left (match_step ns nsLabels kind autogen all) filters (mkGathered [] "" [] all) in
  if negb (ga_matched g) then (ga_kinds g, false, "", "") else
  let conds :=
    match mget "preconditions" rule with
    | Some pre => if isEmpty pre then ga_conds g else ga_conds g ++ ["preconditions " +:+ truncJSON pre 300]
    | None => ga_conds g
    end in
  let '(exFilters, exAll) := resourceFilters (obj_or_nil (vget rule "exclude")) in
  if excluded ns nsLabels kind autogen exFilters exAll then (ga_kinds g, false, "", "")
  else (uniq (ga_kinds g), true, ga_via g, Join (uniq conds) "; ").

Definition normAction (a : string) : string := if EqualFold a "enforce" then "Enforce" else "Audit".

(** An override names the namespace and gives an action. *)
Definition override_for (ns : string) (nsLabels : labels) (o : value) : option string :=
  match o with
  | VObj m =>
      if nsMatches m ns nsLabels &&
         (negb (length (strSlice (vget m "namespaces")) =? 0)%nat ||
          match vget m "namespaceSelector" with VNil => false | _ => true end)
      then as_str (vget m "action") else None
  | _ => None
  end.

Fixpoint first_some {A B} (f : A → option B) (l : list A) : option B :=
  match l with [] => None | x :: l' => match f x with Some y => Some y | None => first_some f l' end end.

Definition failureAction (spec validate : obj) (ns : string) (nsLabels : labels) : string :=
  let own := str_or_empty (vget validate "failureAction") in
  if negb (bool_decide (own = "")) then normAction own
  else match first_some (override_for ns nsLabels) (list_or_nil (vget spec "validationFailureActionOverrides")) with
       | Some a => normAction a
       | None =>
           let def := str_or_empty (vget spec "validationFailureAction") in
           if negb (bool_decide (def = "")) then normAction def else "Audit"
       end.

Definition compactCheck (validate : obj) : string :=
  let check := fold_left (λ check k, match mget k validate with Some v => mset k v check | None => check end)
    ["pattern"; "anyPattern"; "deny"; "podSecurity"; "cel"; "foreach"] [] in
  let s := runes (marshal_text (VObj check)) in
  if (maxCheckRunes <? length s)%nat then of_runes (take maxCheckRunes s) +:+ ellipsis else of_runes s.

(** ** Exceptions *)

Definition exception_hits (ns : string) (nsLabels : labels) (kind : string) (ex : obj) : bool :=
  let '(filters, all) := resourceFilters (default [] (NestedMap ex ["spec"; "match"])) in
  fold_left (λ hit f,
    let '(_, okKind, _) := kindMatches f kind podControllers in
    let h := okKind && nsMatches f ns nsLabels in
    if all then hit && h else hit || h) filters (all && negb (length filters =? 0)%nat).

(** The keys an entry of [spec.exceptions] adds. *)
Definition entry_keys (e : value) : list string :=
  let m := obj_or_nil e in
  let pol := str_or_empty (vget m "policyName") in
  match strSlice (vget m "ruleNames") with
  | [] => [pol +:+ "/*"]
  | rules => map (λ r, pol +:+ "/" +:+ r) rules
  end.

Definition exception_keys (ns : string) (nsLabels : labels) (kind : string) (ex : obj) : list string :=
  if exception_hits ns nsLabels kind ex
  then flat_map entry_keys (default [] (NestedSlice ex ["spec"; "exceptions"])) else [].

Fixpoint exemptions_in (gvrs : list GVR) (ns : string) (nsLabels : labels) (kind : string) : io (gset string) :=
  match gvrs with
  | [] => Ret ∅
  | gvr :: gvrs' =>
      let! r := do_dynlist Server gvr "" no_opts in
      match r with
      | Err _ => exemptions_in gvrs' ns nsLabels kind
      | Ok (items, _) => Ret (list_to_set (flat_map (exception_keys ns nsLabels kind) items))
      end
  end.

Definition exemptions (ns : string) (nsLabels : labels) (kind : string) : io (gset string) :=
  exemptions_in gvrExceptions ns nsLabels kind.

(** ** list_policies *)

(** One rule of the answer; an absent field is [None]. *)
Record rule_out := mkRule {
  r_policy : string; r_rule : string; r_type : string; r_kinds : list string;
  r_scope : string; r_namespace : option string;
  r_action : option string; r_message : option string; r_check : option string;
  r_via : option string; r_only_if : option string; r_exempted : bool;
}.

(** Rule names that the policy itself carries in autogen form. *)
Definition explicit_names (ruleList : list value) : gset string :=
  list_to_set (flat_map (λ r, match r with
    | VObj m => let n := str_or_empty (vget m "name") in
                if HasPrefix n "autogen-" then [TrimPrefix (TrimPrefix n "autogen-") "cronjob-"] else []
    | _ => []
    end) ruleList).

Definition some_unless_empty (s : string) : option string := if decide (s = "") then None else Some s.

Definition one_rule (ns : string) (nsLabels : labels) (kind : string) (exempt : gset string)
    (p spec : obj) (controllers explicit : gset string) (r : value) : option rule_out :=
  match r with
  | VObj rule =>
      let name := str_or_empty (vget rule "name") in
      let ctrl := if decide (name ∈ explicit) then ∅ else controllers in
      let '(kinds, applies, via, cond) := ruleApplies rule ns nsLabels kind ctrl in
      if negb applies then None else
      let validate := as_obj (vget rule "validate") in
      Some (mkRule (GetName p) name (ruleType rule) kinds
        (if decide (GetNamespace p = "") then "ClusterPolicy" else "Policy") (some_unless_empty (GetNamespace p))
        ((λ v, failureAction spec v ns nsLabels) <$> validate)
        (v ← validate; as_str (vget v "message"))
        (compactCheck <$> validate)
        (some_unless_empty via) (some_unless_empty cond)
        (bool_decide (GetName p +:+ "/" +:+ name ∈ exempt) || bool_decide (GetName p +:+ "/*" ∈ exempt)))
  | _ => None
  end.

Definition policy_rules (ns : string) (nsLabels : labels) (kind : string) (exempt : gset string) (p : obj)
    : list rule_out :=
  let spec := default [] (NestedMap p ["spec"]) in
  let ruleList := default [] (NestedSlice p ["spec"; "rules"]) in
  let controllers := autogenControllers (lget (GetAnnotations p) "pod-policies.kyverno.io/autogen-controllers") in
  omap (one_rule ns nsLabels kind exempt p spec controllers (explicit_names ruleList)) ruleList.

Definition is_enforce (r : rule_out) : bool := bool_decide (r_action r = Some "Enforce").

(** Enforce first, then by policy and rule: Sprint of two strings joins them. *)
Definition rule_less (x y : rule_out) : bool :=
  if negb (Bool.eqb (is_enforce x) (is_enforce y)) then is_enforce x
  else str_lt (r_policy x +:+ r_rule x) (r_policy y +:+ r_rule y).

Record policies := mkPolicies {
  p_namespace : string; p_kind : string; p_rules : list rule_out; p_summary : string; p_note : string;
}.

Definition policies_summary (rules : list rule_out) : string :=
  let enforce := length (List.filter is_enforce rules) in
  Itoa (Z.of_nat (length rules)) +:+ " rules apply; " +:+ Itoa (Z.of_nat enforce) +:+
  " are Enforce (a violating object is rejected), the rest Audit (admitted, reported in the policy report) or mutate/generate".

Definition policies_note : string :=
  "check is the rule's own pattern, deny conditions or CEL, as JSON. Authoritative validation is a server-side dry run: oc apply --dry-run=server -f <file>, which runs these policies.".

Definition handleListPolicies (a : args) : io (result error policies) :=
  let ns := arg_str a "namespace" in
  let kind := arg_str a "kind" in
  let! nsObj := do_get Server KNamespaces "" ns in
  match nsObj with
  | Err err => Ret (Err (wrap_err ("get namespace " +:+ ns) err))
  | Ok nsObj =>
      let nsLabels := Labels nsObj in
      let! cps := do_dynlist Server gvrClusterPolicy "" no_opts in
      match cps with
      | Err err => Ret (Err (wrap_err "list clusterpolicies" err))
      | Ok (cps, _) =>
          let! ps := do_dynlist Server gvrPolicy ns no_opts in
          let policies := cps ++ match ps with Ok (items, _) => items | Err _ => [] end in
          let! exempt := exemptions ns nsLabels kind in
          let rules := flat_map (policy_rules ns nsLabels kind exempt) policies in
          Ret (Ok (mkPolicies ns kind (stable_sort rule_less rules) (policies_summary rules) policies_note))
      end
  end.

(** ** get_policy_report *)

Record report_result := mkResult {
  rr_result : string; rr_policy : value; rr_rule : value; rr_message : value; rr_severity : value;
  rr_kind : string; rr_name : string; rr_namespace : string;
}.

(** The object a result is about: its first resource, or the report's scope. *)
Definition result_target (scopeKind scopeName : string) (m : obj) : string * string :=
  match vget m "resources" with
  | VList (VObj o :: _) => (str_or_empty (vget o "kind"), str_or_empty (vget o "name"))
  | _ => (scopeKind, scopeName)
  end.

Definition report_maps (rep : obj) : list obj :=
  flat_map (λ r, match r with VObj m => [m] | _ => [] end) (default [] (NestedSlice rep ["results"])).

Definition one_result (ns : string) (rep m : obj) : option report_result :=
  let result := str_or_empty (vget m "result") in
  if bool_decide (result = "pass") || bool_decide (result = "skip") then None else
  let '(kind, name) := result_target (default "" (NestedString rep ["scope"; "kind"]))
                         (default "" (NestedString rep ["scope"; "name"])) m in
  Some (mkResult result (vget m "policy") (vget m "rule") (vget m "message") (vget m "severity") kind name ns).

Definition report_results (ns : string) (rep : obj) : list report_result := omap (one_result ns rep) (report_maps rep).

(** counts[result]++ *)
Definition count_result (counts : gmap string Z) (m : obj) : gmap string Z :=
  let result := str_or_empty (vget m "result") in
  <[result := default 0 (counts !! result) + 1]> counts.

(** A missing key of the rank map reads as 0. *)
Definition rank (r : report_result) : Z :=
  if decide (rr_result r = "error") then 1 else if decide (rr_result r = "warn") then 2 else 0.

Record report := mkReport {
  rp_namespace : string; rp_totals : gmap string Z; rp_results : list report_result; rp_truncated : bool;
}.

Definition handleGetPolicyReport (a : args) : io (result error report) :=
  let ns := arg_str a "namespace" in
  let! r := do_dynlist Server gvrPolicyReport ns no_opts in
  match r with
  | Err err => Ret (Err (wrap_err ("list policyreports in " +:+ ns) err))
  | Ok (items, _) =>
      let counts := fold_left count_result (flat_map report_maps items) ∅ in
      let results := stable_sort (λ x y, rank x <? rank y) (flat_map (report_results ns) items) in
      Ret (Ok (if (maxReportResults <? length results)%nat
               then mkReport ns counts (take maxReportResults results) true
               else mkReport ns counts results false))
  end.

End policy.

(** ** Lemmas *)

Lemma uniq_from_spec seen l :
  NoDup (uniq_from seen l) ∧ ∀ s, s ∈ uniq_from seen l ↔ s ∈ l ∧ s ∉ seen.
Proof.
  revert seen. induction l as [|x l IH]; intros seen; simpl.
  { split; [constructor|]. intros s. rewrite !elem_of_nil. tauto. }
  case_decide as Hx.
  - destruct (IH seen) as [Hn Hs]. split; [done|]. intros s. rewrite Hs, elem_of_cons. naive_solver.
  - destruct (IH ({[x]} ∪ seen)) as [Hn Hs]. split.
    + constructor; [|done]. rewrite Hs. set_solver.
    + intros s. rewrite elem_of_cons, Hs, elem_of_cons. destruct (decide (s = x)); set_solver.
Qed.

(** uniq keeps each element once. *)
Lemma uniq_spec l : NoDup (uniq l) ∧ ∀ s, s ∈ uniq l ↔ s ∈ l.
Proof. destruct (uniq_from_spec ∅ l) as [Hn Hs]. split; [done|]. intros s. rewrite Hs. set_solver. Qed.

(** "All of" or "any of", as a loop and as a quantifier. *)
Definition quantified {A} (all : bool) (P : A → Prop) (l : list A) : Prop := if all then Forall P l else Exists P l.

Lemma fold_quantified {A} (all : bool) (h : A → bool) l b :
  fold_left (λ m f, if all then m && h f else m || h f) l b = true ↔
  if all then b = true ∧ Forall (λ f, h f = true) l else b = true ∨ Exists (λ f, h f = true) l.
Proof.
  revert b. induction l as [|x l IH]; intros b; simpl.
  - destruct all; [split; [by split|tauto]|]. rewrite Exists_nil. tauto.
  - rewrite IH. destruct all.
    + rewrite andb_true_iff, Forall_cons. tauto.
    + rewrite orb_true_iff, Exists_cons. tauto.
Qed.

Lemma fold_all_any {A} (all : bool) (h : A → bool) l :
  l ≠ [] → fold_left (λ m f, if all then m && h f else m || h f) l all = true ↔
  quantified all (λ f, h f = true) l.
Proof. intros _. rewrite fold_quantified. unfold quantified. destruct all; split; try tauto. by intros [|]. Qed.

Section policy_facts.
Context `{Unicode, Unstructured, Selectors}.
Context (ns : string) (nsLabels : labels) (kind : string) (autogen : gset string).

(** A filter selects the kind in the namespace. *)
Definition selects (f : obj) : bool := (kindMatches f kind autogen).1.2 && nsMatches f ns nsLabels.

Lemma match_fold_matched all fs g :
  ga_matched (fold_left (match_step ns nsLabels kind autogen all) fs g) =
  fold_left (λ m f, if all then m && selects f else m || selects f) fs (ga_matched g).
Proof.
  revert g. induction fs as [|f fs IH]; intros g; simpl; [done|]. rewrite IH. f_equal.
  unfold match_step, selects. by destruct (kindMatches f kind autogen) as [[ks ok] v].
Qed.

Lemma excluded_spec fs all : excluded ns nsLabels kind autogen fs all = true ↔
  fs ≠ [] ∧ quantified all (λ f, certain_hit ns nsLabels kind autogen f = true) fs.
Proof.
  unfold excluded. rewrite fold_quantified. unfold quantified. destruct fs as [|f fs], all; simpl.
  - split; [by intros []|by intros []].
  - rewrite Exists_nil. split; [by intros []|by intros []].
  - split; [by intros []|by intros []].
  - split; [by intros [|]|by intros []; right].
Qed.

(** The filters of a rule's match and exclude blocks. *)
Definition match_filters (rule : obj) : list obj * bool := resourceFilters (obj_or_nil (vget rule "match")).
Definition exclude_filters (rule : obj) : list obj * bool := resourceFilters (obj_or_nil (vget rule "exclude")).

(** When a rule is listed. *)
Definition rule_selected (rule : obj) : Prop :=
  (match_filters rule).1 ≠ [] ∧
  quantified (match_filters rule).2 (λ f, selects f = true) (match_filters rule).1 ∧
  ¬ ((exclude_filters rule).1 ≠ [] ∧
     quantified (exclude_filters rule).2 (λ f, selects f = true ∧ objectCondition f = "" ∧ hasSubjects f = false)
       (exclude_filters rule).1).

Lemma ruleApplies_selected rule : (ruleApplies rule ns nsLabels kind autogen).1.1.2 = true ↔ rule_selected rule.
Proof.
  unfold rule_selected, ruleApplies, match_filters, exclude_filters.
  destruct (resourceFilters (obj_or_nil (vget rule "match"))) as [fs all].
  destruct (resourceFilters (obj_or_nil (vget rule "exclude"))) as [exs exAll]. cbn [fst snd].
  assert (Hq : quantified exAll (λ f, certain_hit ns nsLabels kind autogen f = true) exs ↔
    quantified exAll (λ f, selects f = true ∧ objectCondition f = "" ∧ hasSubjects f = false) exs).
  { assert (Hiff : ∀ f, certain_hit ns nsLabels kind autogen f = true ↔
      selects f = true ∧ objectCondition f = "" ∧ hasSubjects f = false).
    { intros f. unfold certain_hit, selects. destruct (kindMatches f kind autogen) as [[ks ok] v]. cbn [fst snd].
      rewrite !andb_true_iff, bool_decide_eq_true, negb_true_iff. tauto. }
    unfold quantified. destruct exAll; rewrite ?Forall_forall, ?Exists_exists; by setoid_rewrite Hiff. }
  destruct fs as [|f0 fs0] eqn:Hfs; [simpl; split; [done|by intros []]|]. rewrite <- Hfs. 
  assert (Hne : fs ≠ []) by (by rewrite Hfs).
  replace (length fs =? 0)%nat with false by (by rewrite Hfs). 
  rewrite <- Hq, <- excluded_spec, <- (fold_all_any all selects fs Hne).
  set (g := fold_left _ fs _).
  assert (Hg : ga_matched g = fold_left (λ m f, if all then m && selects f else m || selects f) fs all)
    by apply match_fold_matched.
  rewrite <- Hg. destruct (ga_matched g); simpl; [|split; [done|by intros (_ & ? & _)]].
  destruct (excluded ns nsLabels kind autogen exs exAll); simpl; split; try done.
  by intros (_ & _ & []).
Qed.


(** The kinds a rule names are those of its match filters. *)
Lemma kindMatches_names f : (kindMatches f kind autogen).1.1 = map short_kind (strSlice (vget f "kinds")).
Proof.
  unfold kindMatches. generalize (strSlice (vget f "kinds")). intros l.
  match goal with |- context [fold_left ?g l _] => set (step := g) end.
  assert (Hg : ∀ a, (fold_left step l a).1.1 = a.1.1 ++ map short_kind l).
  { induction l as [|k l IH]; intros [[names ok] via]; cbn [fold_left map]; [by rewrite app_nil_r|].
    rewrite IH. unfold step. repeat case_match; simplify_eq/=; by rewrite <- app_assoc. }
  specialize (Hg ([], false, "")). by destruct (fold_left step l _) as [[names ok] via].
Qed.

Lemma match_fold_kinds all fs g :
  ga_kinds (fold_left (match_step ns nsLabels kind autogen all) fs g) =
  ga_kinds g ++ flat_map (λ f, map short_kind (strSlice (vget f "kinds"))) fs.
Proof.
  revert g. induction fs as [|f fs IH]; intros g; cbn [fold_left flat_map]; [by rewrite app_nil_r|].
  rewrite IH, <- kindMatches_names. unfold match_step. destruct (kindMatches f kind autogen) as [[ks ok] v].
  cbn [ga_kinds fst]. by rewrite app_assoc.
Qed.

Lemma ruleApplies_kinds rule : (ruleApplies rule ns nsLabels kind autogen).1.1.2 = true →
  (ruleApplies rule ns nsLabels kind autogen).1.1.1 =
    uniq (flat_map (λ f, map short_kind (strSlice (vget f "kinds"))) (match_filters rule).1).
Proof.
  unfold ruleApplies, match_filters. destruct (resourceFilters (obj_or_nil (vget rule "match"))) as [fs all].
  cbn [fst]. destruct (length fs =? 0)%nat; [done|].
  pose proof (match_fold_kinds all fs (mkGathered [] "" [] all)) as Hk. set (g := fold_left _ fs _) in *.
  destruct (negb (ga_matched g)); [done|]. destruct (resourceFilters _) as [exs exAll].
  destruct (excluded _ _ _ _ _ _); [done|]. intros _. cbn [fst]. by rewrite Hk.
Qed.


(** *** Nothing of another namespace *)

(** Two filters that differ at most in how they name namespaces, with the same
    verdict on this one. *)
Definition same_here (f f' : obj) : Prop :=
  (∀ k, k ≠ "namespaces" → k ≠ "namespaceSelector" → mget k f = mget k f') ∧
  nsMatches f ns nsLabels = nsMatches f' ns nsLabels.

Lemma same_here_vget f f' k : same_here f f' → k ≠ "namespaces" → k ≠ "namespaceSelector" → vget f k = vget f' k.
Proof. intros [Hk _] H1' H2'. unfold vget. by rewrite Hk. Qed.

Lemma same_here_kind f f' : same_here f f' → kindMatches f kind autogen = kindMatches f' kind autogen.
Proof. intros Hs. unfold kindMatches. by rewrite (same_here_vget f f' "kinds" Hs). Qed.

Lemma same_here_condition f f' : same_here f f' → objectCondition f = objectCondition f'.
Proof.
  intros Hs. unfold objectCondition.
  by rewrite !(same_here_vget f f' "names" Hs), !(same_here_vget f f' "operations" Hs),
    !(same_here_vget f f' "selector" Hs), !(same_here_vget f f' "annotations" Hs).
Qed.

Lemma same_here_subjects f f' : same_here f f' → hasSubjects f = hasSubjects f'.
Proof.
  intros Hs. unfold hasSubjects, existsb.
  by rewrite !(same_here_vget f f' "subjects" Hs), !(same_here_vget f f' "roles" Hs),
    !(same_here_vget f f' "clusterRoles" Hs).
Qed.

(** C35: The answer names no other tenant's namespace from a policy's match or
    exclude: what [ruleApplies] returns depends on the namespaces and
    namespace selectors written in the filters only through their verdict on
    the caller's namespace. *)
Theorem ruleApplies_private rule rule' :
  Forall2 same_here (match_filters rule).1 (match_filters rule').1 →
  Forall2 same_here (exclude_filters rule).1 (exclude_filters rule').1 →
  (match_filters rule).2 = (match_filters rule').2 → (exclude_filters rule).2 = (exclude_filters rule').2 →
  mget "preconditions" rule = mget "preconditions" rule' →
  ruleApplies rule ns nsLabels kind autogen = ruleApplies rule' ns nsLabels kind autogen.
Proof.
  unfold ruleApplies, match_filters, exclude_filters.
  destruct (resourceFilters (obj_or_nil (vget rule "match"))) as [fs all],
    (resourceFilters (obj_or_nil (vget rule' "match"))) as [fs' all'],
    (resourceFilters (obj_or_nil (vget rule "exclude"))) as [exs exAll],
    (resourceFilters (obj_or_nil (vget rule' "exclude"))) as [exs' exAll']. cbn [fst snd].
  intros Hf He -> -> ->.
  assert (Hfold : ∀ g, fold_left (match_step ns nsLabels kind autogen all') fs g =
    fold_left (match_step ns nsLabels kind autogen all') fs' g).
  { induction Hf as [|f f' fs fs' Hs _ IH]; intros g; [done|]. simpl.
    replace (match_step ns nsLabels kind autogen all' g f) with (match_step ns nsLabels kind autogen all' g f'); [done|].
    unfold match_step. by rewrite (same_here_kind _ _ Hs), (same_here_condition _ _ Hs), (proj2 Hs). }
  assert (Hexc : excluded ns nsLabels kind autogen exs exAll' = excluded ns nsLabels kind autogen exs' exAll').
  { unfold excluded. rewrite (Forall2_length _ _ _ He). generalize (exAll' && negb (length exs' =? 0)%nat).
    induction He as [|f f' exs exs' Hs _ IH]; intros b; [done|]. simpl.
    replace (certain_hit ns nsLabels kind autogen f) with (certain_hit ns nsLabels kind autogen f'); [done|].
    unfold certain_hit.
    by rewrite (same_here_kind _ _ Hs), (same_here_condition _ _ Hs), (same_here_subjects _ _ Hs), (proj2 Hs). }
  rewrite Hfold, Hexc, (Forall2_length _ _ _ Hf). done.
Qed.

(** C36: On namespace patterns made of literal bytes and stars, a filter selects
    exactly the namespaces of one of its patterns that its selector accepts;
    a filter without patterns leaves it to the selector. *)
Theorem nsMatches_patterns f : lacks (z_byte 47) ns = true →
  Forall (λ p, plain_pattern p = true) (strSlice (vget f "namespaces")) →
  nsMatches f ns nsLabels = true ↔
  (strSlice (vget f "namespaces") = [] ∨ Exists (λ p, glob p ns) (strSlice (vget f "namespaces"))) ∧
  (∀ sel, vget f "namespaceSelector" = VObj sel → selectorMatches sel nsLabels = true).
Proof.
  intros Hns Hp. unfold nsMatches. set (pats := strSlice _) in *.
  assert (Hex : existsb (λ p, Match p ns) pats = true ↔ Exists (λ p, glob p ns) pats).
  { clearbody pats. induction Hp as [|p ps Hplain _ IH]; simpl; [by rewrite Exists_nil|].
    by rewrite orb_true_iff, IH, Exists_cons, Match_plain. }
  assert (Hsel : match vget f "namespaceSelector" with VObj sel => selectorMatches sel nsLabels | _ => true end = true ↔
    ∀ sel, vget f "namespaceSelector" = VObj sel → selectorMatches sel nsLabels = true).
  { destruct (vget f "namespaceSelector"); try (by split; [intros _ sel [=]|]).
    split; [by intros ? sel [= <-]|auto]. }
  rewrite <- Hsel, <- Hex. destruct pats as [|p ps]; [simpl; tauto|].
  destruct (existsb _ _); simpl; [tauto|]. split; [done|]. intros [[|] _]; done.
Qed.

End policy_facts.

(** ** The order of the rules *)

#[export] Instance rule_less_weak : StrictWeak rule_less.
Proof.
  pose proof (weak_on (λ r, r_policy r +:+ r_rule r) str_lt str_lt_weak) as [Ha Ht].
  split; unfold rule_less.
  - intros x y. destruct (is_enforce x), (is_enforce y); simpl; try done; apply Ha.
  - intros x y z. destruct (is_enforce x), (is_enforce y), (is_enforce z); simpl; try done; apply Ht.
Qed.

Lemma strongly_sorted_lookup {A} (R : A → A → Prop) l i j x y :
  StronglySorted R l → (i < j)%nat → l !! i = Some x → l !! j = Some y → R x y.
Proof.
  intros Hl. revert i j. induction Hl as [|a l _ IH Ha]; intros i j Hij; [done|].
  destruct j as [|j]; [lia|]. destruct i as [|i]; simpl.
  - intros [= ->] Hy. rewrite Forall_forall in Ha. apply Ha. by eapply list_elem_of_lookup_2.
  - intros Hx Hy. apply (IH i j); [lia|done..].
Qed.

Section policy_handlers.
Context `{Unicode, Unstructured, Selectors}.

Lemma sorted_insert_filter {A} (less : A → A → bool) (P : A → bool) x l :
  length (List.filter P (sorted_insert less x l)) = length (List.filter P (x :: l)).
Proof.
  induction l as [|y l IH]; simpl; [done|]. destruct (less y x); simpl; [|done].
  simpl in IH. destruct (P x), (P y); simpl in *; auto.
Qed.

Lemma stable_sort_filter {A} (less : A → A → bool) (P : A → bool) l :
  length (List.filter P (stable_sort less l)) = length (List.filter P l).
Proof.
  induction l as [|x l IH]; [done|]. simpl. rewrite sorted_insert_filter. simpl. destruct (P x); simpl; auto.
Qed.

(** *** The rules of the answer, described without the code that gathers them *)

Definition rule_name (rule : obj) : string := str_or_empty (vget rule "name").

(** The rules that are written in policies, each with its policy. *)
Definition rules_in (p : obj) : list value := default [] (NestedSlice p ["spec"; "rules"]).
Definition with_policy (p : obj) (l : list value) : list (obj * obj) :=
  flat_map (λ r, match r with VObj rule => [(p, rule)] | _ => [] end) l.
Definition written_rules (policies : list obj) : list (obj * obj) := flat_map (λ p, with_policy p (rules_in p)) policies.

(** The policy itself carries the rule in its form for pod controllers. *)
Definition carries_autogen (p : obj) (name : string) : Prop :=
  ∃ m, VObj m ∈ rules_in p ∧ HasPrefix (rule_name m) "autogen-" = true ∧
    name = TrimPrefix (TrimPrefix (rule_name m) "autogen-") "cronjob-".

(** The exceptions that were read: those of the first version of the resource
    that could be listed, if any. *)
Inductive reads_exceptions : list GVR → list (event request reply) → list obj → Prop :=
| read_none : reads_exceptions [] [] []
| read_served g gvrs items next :
    reads_exceptions (g :: gvrs) [let q := DynList Server g "" no_opts in Effects.Event q (Ok (items, next) : reply q)] items
| read_missing g gvrs e tr items : reads_exceptions gvrs tr items →
    reads_exceptions (g :: gvrs) ((let q := DynList Server g "" no_opts in Effects.Event q (Err e : reply q)) :: tr) items.

Section answer.
Context (ns : string) (nsLabels : labels) (kind : string).

(** The rule applies to the kind in the namespace. *)
Definition applies_here (e : obj * obj) : Prop :=
  ∃ autogen, rule_selected ns nsLabels kind autogen e.2 ∧
    (carries_autogen e.1 (rule_name e.2) ∧ autogen = ∅ ∨
     ¬ carries_autogen e.1 (rule_name e.2) ∧
       autogen = autogenControllers (lget (GetAnnotations e.1) "pod-policies.kyverno.io/autogen-controllers")).

(** The action a policy states for a validation rule: the rule's own, that of
    the first override for the namespace, the policy's, or Audit. *)
Definition overrides_here (o : value) (a : string) : Prop :=
  ∃ m, o = VObj m ∧ nsMatches m ns nsLabels = true ∧
    (strSlice (vget m "namespaces") ≠ [] ∨ vget m "namespaceSelector" ≠ VNil) ∧ vget m "action" = VStr a.

Inductive states_action (spec validate : obj) : string → Prop :=
| states_own a : str_or_empty (vget validate "failureAction") = a → a ≠ "" → states_action spec validate a
| states_override pre o post a :
    str_or_empty (vget validate "failureAction") = "" →
    list_or_nil (vget spec "validationFailureActionOverrides") = pre ++ o :: post →
    Forall (λ o', ∀ a', ¬ overrides_here o' a') pre → overrides_here o a → states_action spec validate a
| states_policy a :
    str_or_empty (vget validate "failureAction") = "" →
    Forall (λ o', ∀ a', ¬ overrides_here o' a') (list_or_nil (vget spec "validationFailureActionOverrides")) →
    a = (if decide (str_or_empty (vget spec "validationFailureAction") = "") then "Audit"
         else str_or_empty (vget spec "validationFailureAction")) →
    states_action spec validate a.

(** An exception covers the kind in the namespace, and exempts a policy's rule
    there: it names both, or the policy alone. *)
Definition exception_covers (ex : obj) : Prop :=
  let '(filters, all) := resourceFilters (default [] (NestedMap ex ["spec"; "match"])) in
  filters ≠ [] ∧ quantified all (λ f, selects ns nsLabels kind podControllers f = true) filters.

Definition exempts (exs : list obj) (policy rule : string) : Prop :=
  ∃ ex e r, ex ∈ exs ∧ exception_covers ex ∧ e ∈ default [] (NestedSlice ex ["spec"; "exceptions"]) ∧
    (r ∈ strSlice (vget (obj_or_nil e) "ruleNames") ∨ strSlice (vget (obj_or_nil e) "ruleNames") = [] ∧ r = "*") ∧
    let key := str_or_empty (vget (obj_or_nil e) "policyName") +:+ "/" +:+ r in
    key = policy +:+ "/" +:+ rule ∨ key = policy +:+ "/*".

(** What the answer says about a rule. *)
Record describes (exs : list obj) (e : obj * obj) (out : rule_out) : Prop := {
  de_policy : r_policy out = GetName e.1;
  de_rule : r_rule out = rule_name e.2;
  de_kinds : NoDup (r_kinds out) ∧ ∀ k, k ∈ r_kinds out ↔
    ∃ f pat, f ∈ (match_filters e.2).1 ∧ pat ∈ strSlice (vget f "kinds") ∧ k = short_kind pat;
  de_scope : (r_scope out, r_namespace out) =
    (if decide (GetNamespace e.1 = "") then ("ClusterPolicy", None) else ("Policy", Some (GetNamespace e.1)));
  de_action : match vget e.2 "validate" with
    | VObj v => ∃ a, states_action (default [] (NestedMap e.1 ["spec"])) v a ∧
        r_action out = Some (if EqualFold a "enforce" then "Enforce" else "Audit")
    | _ => r_action out = None
    end;
  de_message : r_message out = match vget e.2 "validate" with VObj v => as_str (vget v "message") | _ => None end;
  de_exempted : r_exempted out = true ↔ exempts exs (GetName e.1) (rule_name e.2);
}.

(** The rules that apply, in order, each described once. *)
Inductive lists (exs : list obj) : list (obj * obj) → list rule_out → Prop :=
| lists_nil : lists exs [] []
| lists_other e l outs : ¬ applies_here e → lists exs l outs → lists exs (e :: l) outs
| lists_applies e l out outs : applies_here e → describes exs e out → lists exs l outs → lists exs (e :: l) (out :: outs).

Lemma lists_app exs l outs l' outs' : lists exs l outs → lists exs l' outs' → lists exs (l ++ l') (outs ++ outs').
Proof. induction 1; intros Hl; cbn; [done|by apply lists_other; auto|by apply lists_applies; auto]. Qed.

Lemma explicit_carried p name : name ∈ explicit_names (rules_in p) ↔ carries_autogen p name.
Proof.
  unfold explicit_names, carries_autogen. rewrite elem_of_list_to_set, list_elem_of_In, in_flat_map. split.
  - intros ([| | | | | |m] & Hr & Hn); try done. exists m. rewrite list_elem_of_In. unfold rule_name.
    destruct (HasPrefix _ _); [|done]. by destruct Hn as [<-|[]].
  - intros (m & Hm & Hp & ->). exists (VObj m). rewrite <- list_elem_of_In. split; [done|]. unfold rule_name in *.
    rewrite Hp. by left.
Qed.

Lemma override_for_spec o a : override_for ns nsLabels o = Some a ↔ overrides_here o a.
Proof.
  unfold override_for, overrides_here. split.
  - destruct o as [| | | | | |m]; try done. destruct (nsMatches m ns nsLabels) eqn:Hm; [|done]. cbn [andb].
    intros Ha. exists m. split; [done|]. split; [done|].
    destruct (negb _ || _) eqn:Ho; [|done]. destruct (vget m "action"); try done. injection Ha as ->. split; [|done].
    apply orb_true_iff in Ho as [Ho|Ho]; [left|right; by destruct (vget m "namespaceSelector")].
    intros Hn. by rewrite Hn in Ho.
  - intros (m & -> & -> & Ho & ->). cbn [andb].
    assert (negb (length (strSlice (vget m "namespaces")) =? 0)%nat ||
      match vget m "namespaceSelector" with VNil => false | _ => true end = true) as ->; [|done].
    apply orb_true_iff. destruct Ho as [Ho|Ho]; [left|right; by destruct (vget m "namespaceSelector")].
    by destruct (strSlice _).
Qed.

Lemma first_some_none {A B} (f : A → option B) l : first_some f l = None ↔ Forall (λ x, f x = None) l.
Proof.
  induction l as [|x l IH]; cbn; [by split|]. rewrite Forall_cons, <- IH. destruct (f x); [|tauto]. by split; [|intros []].
Qed.

Lemma first_some_at {A B} (f : A → option B) l y : first_some f l = Some y →
  ∃ pre x post, l = pre ++ x :: post ∧ Forall (λ x', f x' = None) pre ∧ f x = Some y.
Proof.
  induction l as [|x l IH]; cbn; [done|]. destruct (f x) eqn:Hx.
  - intros [= <-]. by exists [], x, l.
  - intros (pre & x' & post & -> & Hpre & Hx')%IH. exists (x :: pre), x', post. split_and!; [done|by constructor|done].
Qed.

Lemma no_override l : Forall (λ o, override_for ns nsLabels o = None) l → Forall (λ o, ∀ a, ¬ overrides_here o a) l.
Proof. intros Hl. eapply Forall_impl; [exact Hl|]. intros o Ho a Ha%override_for_spec. congruence. Qed.

Lemma failureAction_states spec v : ∃ a, states_action spec v a ∧
  failureAction spec v ns nsLabels = (if EqualFold a "enforce" then "Enforce" else "Audit").
Proof.
  unfold failureAction. case_bool_decide as Hown; cbn [negb]; [|eexists; split; [by apply states_own|done]].
  destruct (first_some _ _) as [a|] eqn:Hf.
  - apply first_some_at in Hf as (pre & o & post & Hl & Hpre & Ho). exists a. split; [|done].
    eapply states_override; [done|exact Hl|by apply no_override|by apply override_for_spec].
  - apply first_some_none, no_override in Hf. eexists. split; [by eapply states_policy|].
    case_bool_decide; [by rewrite decide_True by done|by rewrite decide_False by done].
Qed.

Lemma exception_hits_covers ex : exception_hits ns nsLabels kind ex = true ↔ exception_covers ex.
Proof.
  unfold exception_hits, exception_covers. destruct (resourceFilters _) as [fs all].
  assert (Hext : ∀ l b, fold_left (λ hit f, let '(_, okKind, _) := kindMatches f kind podControllers in
      let h := okKind && nsMatches f ns nsLabels in if all then hit && h else hit || h) l b =
    fold_left (λ hit f, if all then hit && selects ns nsLabels kind podControllers f
      else hit || selects ns nsLabels kind podControllers f) l b).
  { induction l as [|f l IH]; intros b; cbn; [done|]. rewrite IH. unfold selects.
    by destruct (kindMatches f kind podControllers) as [[ks ok] v]. }
  rewrite Hext, fold_quantified. unfold quantified. destruct fs as [|f fs], all; cbn.
  - by split; [intros []|intros []].
  - rewrite Exists_nil. by split; [intros [|]|intros []].
  - by split; [intros []|intros []].
  - split; [by intros [|]|intros []; by right].
Qed.

Lemma exempted_spec exs policy rule :
  bool_decide (policy +:+ "/" +:+ rule ∈ (list_to_set (flat_map (exception_keys ns nsLabels kind) exs) : gset string)) ||
  bool_decide (policy +:+ "/*" ∈ (list_to_set (flat_map (exception_keys ns nsLabels kind) exs) : gset string)) = true ↔
  exempts exs policy rule.
Proof.
  assert (Hkey : ∀ k : string, k ∈ (list_to_set (flat_map (exception_keys ns nsLabels kind) exs) : gset string) ↔
    ∃ ex e r, ex ∈ exs ∧ exception_covers ex ∧ e ∈ default [] (NestedSlice ex ["spec"; "exceptions"]) ∧
      (r ∈ strSlice (vget (obj_or_nil e) "ruleNames") ∨ strSlice (vget (obj_or_nil e) "ruleNames") = [] ∧ r = "*") ∧
      k = str_or_empty (vget (obj_or_nil e) "policyName") +:+ "/" +:+ r).
  { intros k. rewrite elem_of_list_to_set, list_elem_of_In, in_flat_map. unfold exception_keys. split.
    - intros (ex & Hex & Hk). destruct (exception_hits _ _ _ _) eqn:Hh; [|done].
      apply exception_hits_covers in Hh. apply in_flat_map in Hk as (e & He & Hk).
      apply list_elem_of_In in Hex, He. exists ex, e. unfold entry_keys in Hk. destruct (strSlice _) as [|r0 rs].
      + destruct Hk as [<-|[]]. exists "*". split_and!; [done..|by right|done].
      + apply in_map_iff in Hk as (r & <- & Hr). apply list_elem_of_In in Hr. exists r. split_and!; [done..|by left|done].
    - intros (ex & e & r & Hex & Hc & He & Hr & ->). exists ex. rewrite <- list_elem_of_In. split; [done|].
      apply exception_hits_covers in Hc. rewrite Hc. apply in_flat_map. exists e. rewrite <- list_elem_of_In.
      split; [done|]. unfold entry_keys. destruct Hr as [Hr|[-> ->]]; [|by left].
      destruct (strSlice _) as [|r0 rs]; [by apply not_elem_of_nil in Hr|].
      apply in_map_iff. exists r. by rewrite <- list_elem_of_In. }
  rewrite orb_true_iff, !bool_decide_eq_true, !Hkey. unfold exempts. naive_solver.
Qed.

Lemma one_rule_spec exs p rule :
  let o := one_rule ns nsLabels kind (list_to_set (flat_map (exception_keys ns nsLabels kind) exs)) p
    (default [] (NestedMap p ["spec"])) (autogenControllers (lget (GetAnnotations p) "pod-policies.kyverno.io/autogen-controllers"))
    (explicit_names (rules_in p)) (VObj rule) in
  match o with None => ¬ applies_here (p, rule) | Some out => applies_here (p, rule) ∧ describes exs (p, rule) out end.
Proof.
  unfold one_rule. cbv zeta. fold (rule_name rule).
  set (ctrl := if decide (rule_name rule ∈ explicit_names (rules_in p)) then _ else _).
  assert (Happ : applies_here (p, rule) ↔ (ruleApplies rule ns nsLabels kind ctrl).1.1.2 = true).
  { rewrite ruleApplies_selected. unfold applies_here, ctrl. cbn [fst snd].
    assert (Hc := explicit_carried p (rule_name rule)).
    destruct (decide _) as [Hin|Hin]; rewrite Hc in Hin; split; [|by eauto 6| |by eauto 6].
    - intros (autogen & Hs & [[_ Ha]|[Hn _]]); [by subst|done].
    - intros (autogen & Hs & [[Hy _]|[_ Ha]]); [done|by subst]. }
  pose proof (ruleApplies_kinds ns nsLabels kind ctrl rule) as Hk.
  destruct (ruleApplies rule ns nsLabels kind ctrl) as [[[kinds applies] via] cond]. cbn [fst snd] in *.
  destruct applies; cbn [negb]; rewrite Happ; [|done]. split; [done|]. rewrite Hk by done.
  split; cbn [r_policy r_rule r_kinds r_scope r_namespace r_action r_message r_exempted fst snd]; try done.
  - destruct (uniq_spec (flat_map (λ f, map short_kind (strSlice (vget f "kinds"))) (match_filters rule).1)) as [Hn Hin].
    split; [done|]. intros k. rewrite Hin, list_elem_of_In, in_flat_map. split.
    + intros (f & Hf & (pat & <- & Hpat)%in_map_iff). exists f, pat. by rewrite !list_elem_of_In.
    + intros (f & pat & Hf & Hpat & ->). exists f. rewrite <- list_elem_of_In. split; [done|].
      by apply in_map, list_elem_of_In.
  - unfold some_unless_empty. by case_decide.
  - destruct (vget rule "validate") as [| | | | | |v]; cbn; try reflexivity.
    destruct (failureAction_states (default [] (NestedMap p ["spec"])) v) as (a & Ha & Heq).
    exists a. by rewrite Heq.
  - by destruct (vget rule "validate").
  - apply exempted_spec.
Qed.

Lemma policy_rules_lists exs policies :
  lists exs (written_rules policies)
    (flat_map (policy_rules ns nsLabels kind (list_to_set (flat_map (exception_keys ns nsLabels kind) exs))) policies).
Proof.
  unfold written_rules. induction policies as [|p ps IH]; cbn [flat_map]; [constructor|].
  apply lists_app; [clear ps IH|done]. unfold policy_rules. fold (rules_in p).
  cbv zeta. generalize (rules_in p) at 1 3. intros l. induction l as [|r l IH]; [constructor|].
  unfold with_policy in *. cbn [flat_map omap list_omap]. destruct r as [| | | | | |rule]; try exact IH.
  pose proof (one_rule_spec exs p rule) as Ho. cbv zeta in Ho. destruct (one_rule _ _ _ _ _ _ _ _ _) as [out|].
  - destruct Ho. by apply lists_applies.
  - by apply lists_other.
Qed.

Lemma exemptions_read gvrs tr exempt : runs (exemptions_in gvrs ns nsLabels kind) tr exempt →
  ∃ exs, reads_exceptions gvrs tr exs ∧ exempt = list_to_set (flat_map (exception_keys ns nsLabels kind) exs).
Proof.
  revert tr. induction gvrs as [|g gvrs IH]; intros tr; cbn [exemptions_in].
  { intros [-> <-]. exists []. split; [constructor|done]. }
  rewrite runs_bind. intros (tr1 & tr2 & [[items next]|e] & -> & Hq & Hr); apply runs_do_dynlist in Hq as ->.
  - destruct Hr as [-> <-]. exists items. split; [apply read_served|done].
  - apply IH in Hr as (exs & Hr & ->). exists exs. split; [|done]. by apply read_missing.
Qed.

End answer.

(** C23: [list_policies] lists every rule of the cluster policies and of the
    namespace's own policies that applies there, once, and nothing else.  Each
    is described by its policy, its name and scope, the kinds its match filters
    name, its message, the action the policy states for it (the rule's own,
    the first override for the namespace, the policy's, or Audit), and is
    marked as exempted exactly when an exception that covers the kind in the
    namespace names it, or names its policy alone; the exceptions are those of
    the first version that can be listed.  Rules that reject come before all
    others, each group by policy and rule, and the summary counts them. *)
Theorem handleListPolicies_rules a tr ps : runs (handleListPolicies a) tr (Ok ps) →
  let ns := arg_str a "namespace" in let kind := arg_str a "kind" in
  p_namespace ps = ns ∧ p_kind ps = kind ∧
  ∃ meta cps next r trx exs all,
    tr = [(let q := Get Server KNamespaces "" ns in Effects.Event q (Ok meta : reply q));
          (let q := DynList Server gvrClusterPolicy "" no_opts in Effects.Event q (Ok (cps, next) : reply q));
          (let q := DynList Server gvrPolicy ns no_opts in Effects.Event q (r : reply q))] ++ trx ∧
    reads_exceptions gvrExceptions trx exs ∧
    lists ns (Labels meta) kind exs (written_rules (cps ++ match r with Ok (own, _) => own | Err _ => [] end)) all ∧
    p_rules ps ≡ₚ all ∧
    (∀ i j x y, (i < j)%nat → p_rules ps !! i = Some x → p_rules ps !! j = Some y →
      (r_action y = Some "Enforce" → r_action x = Some "Enforce") ∧
      ((r_action x = Some "Enforce" ↔ r_action y = Some "Enforce") →
        str_lt (r_policy y +:+ r_rule y) (r_policy x +:+ r_rule x) = false)) ∧
    p_summary ps = Itoa (Z.of_nat (length (p_rules ps))) +:+ " rules apply; " +:+
      Itoa (Z.of_nat (length (List.filter (λ r, bool_decide (r_action r = Some "Enforce")) (p_rules ps)))) +:+
      " are Enforce (a violating object is rejected), the rest Audit (admitted, reported in the policy report) or mutate/generate".
Proof.
  intros Hr ns kind. unfold handleListPolicies in Hr. fold ns kind in Hr.
  apply runs_bind in Hr as (tr1 & tr2 & [meta|e] & -> & Hm & Hr); [|by destruct Hr].
  apply runs_do_get in Hm as ->.
  apply runs_bind in Hr as (tr3 & tr4 & [[cps next]|e] & -> & Hc & Hr); [|by destruct Hr].
  apply runs_do_dynlist in Hc as ->.
  apply runs_bind in Hr as (tr5 & tr6 & r & -> & Hp & Hr). apply runs_do_dynlist in Hp as ->.
  apply runs_bind in Hr as (tr7 & tr8 & exempt & -> & Hx & Hr). destruct Hr as [-> [= <-]].
  apply exemptions_read in Hx as (exs & Hx & ->). cbn [p_rules p_summary p_namespace p_kind].
  set (rules := flat_map _ _). do 2 (split; [done|]). exists meta, cps, next, r, tr7, exs, rules. split_and!.
  - by rewrite app_nil_r.
  - exact Hx.
  - apply policy_rules_lists.
  - apply stable_sort_perm.
  - intros i j x y Hij Hx' Hy.
    pose proof (strongly_sorted_lookup _ _ i j x y (stable_sort_ordered rule_less rules) Hij Hx' Hy) as Hle.
    unfold rule_less, is_enforce in Hle.
    destruct (bool_decide (r_action x = _)) eqn:Hbx, (bool_decide (r_action y = _)) eqn:Hby; cbn in Hle; try done;
      rewrite ?bool_decide_eq_true, ?bool_decide_eq_false in *; split; try done; tauto.
  - unfold policies_summary. by rewrite stable_sort_length, stable_sort_filter.
Qed.

(** ** The report *)

Definition result_of (m : obj) : string := str_or_empty (vget m "result").

Lemma counts_spec maps (c : gmap string Z) s :
  default 0 (fold_left count_result maps c !! s) =
  default 0 (c !! s) + Z.of_nat (length (List.filter (λ m, bool_decide (result_of m = s)) maps)).
Proof.
  revert c. induction maps as [|m maps IH]; intros c; simpl; [lia|].
  rewrite IH. unfold count_result. fold (result_of m). rewrite lookup_insert.
  case_decide as Hd; case_bool_decide; simplify_eq/=; try done; lia.
Qed.

Definition passing (m : obj) : bool := bool_decide (result_of m = "pass") || bool_decide (result_of m = "skip").

(** *** The results, described without the code that gathers them *)

Definition entries_of (items : list obj) : list (obj * obj) := flat_map (λ rep, map (pair rep) (report_maps rep)) items.

(** What the answer says about an entry of a report: the object is its first
    resource, or the report's scope. *)
Record reported (ns : string) (e : obj * obj) (r : report_result) : Prop := {
  rep_result : rr_result r = result_of e.2;
  rep_policy : rr_policy r = vget e.2 "policy";
  rep_rule : rr_rule r = vget e.2 "rule";
  rep_message : rr_message r = vget e.2 "message";
  rep_severity : rr_severity r = vget e.2 "severity";
  rep_namespace : rr_namespace r = ns;
  rep_object o rest : vget e.2 "resources" = VList (VObj o :: rest) →
    rr_kind r = str_or_empty (vget o "kind") ∧ rr_name r = str_or_empty (vget o "name");
  rep_scope : (∀ o rest, vget e.2 "resources" ≠ VList (VObj o :: rest)) →
    rr_kind r = default "" (NestedString e.1 ["scope"; "kind"]) ∧ rr_name r = default "" (NestedString e.1 ["scope"; "name"]);
}.

Lemma report_results_reported ns items :
  Forall2 (reported ns) (List.filter (λ e, negb (passing e.2)) (entries_of items)) (flat_map (report_results ns) items).
Proof.
  unfold entries_of. induction items as [|rep items IH]; cbn [flat_map]; [constructor|]. rewrite List.filter_app.
  apply Forall2_app; [clear IH items|exact IH]. unfold report_results.
  induction (report_maps rep) as [|m maps IH]; cbn [map List.filter omap list_omap snd]; [constructor|].
  assert (Ho : one_result ns rep m = if passing m then None else
    let '(k, n) := result_target (default "" (NestedString rep ["scope"; "kind"]))
                     (default "" (NestedString rep ["scope"; "name"])) m in
    Some (mkResult (result_of m) (vget m "policy") (vget m "rule") (vget m "message") (vget m "severity") k n ns))
    by done.
  rewrite Ho. clear Ho. destruct (passing m); [exact IH|]. destruct (result_target _ _ m) as [k n] eqn:Ht.
  constructor; [|exact IH]. split; cbn [fst snd]; try done; unfold result_target in Ht.
  - intros o rest Hv. rewrite Hv in Ht. by injection Ht as <- <-.
  - intros Hv. repeat case_match; simplify_eq; try done. by destruct (Hv _ _ eq_refl).
Qed.

(** The results by outcome: failures and outcomes of no known name, errors,
    warnings, each in the order of the reports. *)
Definition worst_first (l : list report_result) : list report_result :=
  List.filter (λ r, negb (bool_decide (rr_result r = "error")) && negb (bool_decide (rr_result r = "warn"))) l ++
  List.filter (λ r, bool_decide (rr_result r = "error")) l ++ List.filter (λ r, bool_decide (rr_result r = "warn")) l.

Lemma rank_sort l : stable_sort (λ x y, rank x <? rank y) l = worst_first l.
Proof.
  induction l as [|x l IH]; [done|]. cbn [stable_sort]. rewrite IH. clear IH.
  unfold worst_first. cbn [List.filter].
  assert (Hf : ∀ (P : report_result → bool) (b : bool) l, (∀ r, P r = true → (rank r <? rank x) = b) →
    Forall (λ r, (rank r <? rank x) = b) (List.filter P l)).
  { intros P b l0 HP. apply Forall_forall. intros r Hr%list_elem_of_In. apply filter_In in Hr as [_ Hr]. by apply HP. }
  assert (Hrank : ∀ r, rank r = if bool_decide (rr_result r = "error") then 1
    else if bool_decide (rr_result r = "warn") then 2 else 0).
  { intros r. unfold rank. by repeat case_decide; repeat case_bool_decide. }
  rewrite Hrank in Hf. destruct (bool_decide (rr_result x = "error")) eqn:He; [|destruct (bool_decide (rr_result x = "warn")) eqn:Hw];
    cbn [negb andb].
  - assert (bool_decide (rr_result x = "warn") = false) as ->.
    { apply bool_decide_eq_true in He. apply bool_decide_eq_false. congruence. }
    apply sorted_insert_app; [|apply Forall_app; split]; rewrite ?Hrank, ?He; apply Hf; intros r Hr; rewrite Hrank.
    + apply andb_true_iff in Hr as [->%negb_true_iff ->%negb_true_iff]. done.
    + by rewrite Hr.
    + apply bool_decide_eq_true in Hr. by rewrite Hr.
  - rewrite !app_assoc. apply sorted_insert_app; [apply Forall_app; split|]; rewrite ?Hrank, ?He, ?Hw; apply Hf; intros r Hr; rewrite Hrank.
    + apply andb_true_iff in Hr as [->%negb_true_iff ->%negb_true_iff]. done.
    + by rewrite Hr.
    + apply bool_decide_eq_true in Hr. by rewrite Hr.
  - apply (sorted_insert_app _ x []); [constructor|]. rewrite Forall_app, Forall_app. rewrite ?Hrank, ?He, ?Hw.
    split_and!; apply Hf; intros r Hr; rewrite Hrank; repeat case_match; done.
Qed.

(** C37: The totals of [get_policy_report] count every result of the
    namespace's reports by outcome.  The results listed are those that neither
    passed nor were skipped, with what the report says about each and the
    object it is about: failures (and outcomes of no known name) before errors
    before warnings, each group in the order of the reports, all of them or
    the first 200, and [truncated] says whether some were left out. *)
Theorem handleGetPolicyReport_counts a tr rp : runs (handleGetPolicyReport a) tr (Ok rp) →
  let ns := arg_str a "namespace" in rp_namespace rp = ns ∧
  ∃ items next all,
    tr = [Effects.Event (DynList Server gvrPolicyReport ns no_opts)
            (Ok (items, next) : reply (DynList Server gvrPolicyReport ns no_opts))] ∧
    (∀ s, default 0 (rp_totals rp !! s) =
      Z.of_nat (length (List.filter (λ e, bool_decide (result_of e.2 = s)) (entries_of items)))) ∧
    Forall2 (reported ns) (List.filter (λ e, negb (passing e.2)) (entries_of items)) all ∧
    rp_results rp = take 200 (worst_first all) ∧
    (rp_truncated rp = true ↔ (200 < length all)%nat).
Proof.
  intros Hr ns. unfold handleGetPolicyReport in Hr. fold ns in Hr.
  apply runs_bind in Hr as (tr1 & tr2 & [[items next]|e] & -> & Hd & Hr); [|by destruct Hr].
  apply runs_do_dynlist in Hd as ->. destruct Hr as [-> [= <-]].
  pose proof (report_results_reported ns items) as Hrep. set (all := flat_map (report_results ns) items) in *.
  pose proof (stable_sort_length (λ x y, rank x <? rank y) all) as Hlen. rewrite rank_sort in *.
  assert (Hcount : ∀ s, default 0 (fold_left count_result (flat_map report_maps items) ∅ !! s) =
    Z.of_nat (length (List.filter (λ e, bool_decide (result_of e.2 = s)) (entries_of items)))).
  { intros s. rewrite counts_spec, lookup_empty. cbn [default from_option]. rewrite Z.add_0_l. f_equal.
    unfold entries_of. clear. induction items as [|rep items IH]; cbn [flat_map]; [done|].
    rewrite !List.filter_app, !length_app, IH. f_equal. clear IH. induction (report_maps rep) as [|m l IH]; [done|].
    cbn. destruct (bool_decide _); cbn; by rewrite IH. }
  change maxReportResults with 200%nat. rewrite Hlen.
  destruct (Nat.ltb_spec 200 (length all)) as [Hlt|Hge]; (split; [done|]); exists items, next, all; split_and!; try done.
  - cbn [rp_results]. by rewrite take_ge by (rewrite Hlen; lia).
  - cbn. split; [done|lia].
Qed.

End policy_handlers.

(** ** Witnesses *)

Module PolicyDemo.
#[local] Existing Instance plain_unicode.
#[local] Existing Instance plain_unstructured.
#[local] Existing Instance plain_selectors.

Definition strs (l : list string) : value := VList (map VStr l).

(** A rule for Pods of the team-a namespaces, and one that also names others. *)
Definition rule_with (namespaces : list string) : obj :=
  [("name", VStr "r"); ("match", VObj [("any", VList [VObj [("resources",
     VObj [("kinds", strs ["Pod"]); ("namespaces", strs namespaces)])]])]); ("validate", VObj [("message", VStr "m")])].

Lemma rule_with_filters x l : (match_filters (rule_with (x :: l))).1 =
  [[("kinds", strs ["Pod"]); ("namespaces", strs (x :: l))]].
Proof. reflexivity. Qed.

Lemma ruleApplies_private_witness :
  ruleApplies (rule_with ["team-a*"]) "team-a1" [] "Pod" ∅ =
  ruleApplies (rule_with ["other-tenant"; "team-a1"]) "team-a1" [] "Pod" ∅.
Proof.
  apply (ruleApplies_private "team-a1" [] "Pod" ∅); [| |vm_compute; reflexivity..].
  - rewrite !rule_with_filters by done. constructor; [|constructor]. split; [|vm_compute; reflexivity].
    intros k H1 H2. simpl. destruct (decide ("kinds" = k)); [reflexivity|].
    destruct (decide ("namespaces" = k)); [congruence|reflexivity].
  - assert (He : ∀ l, (exclude_filters (rule_with l)).1 = []) by (intros l; reflexivity).
    rewrite !He. constructor.
Defined.

Lemma nsMatches_patterns_witness :
  nsMatches [("namespaces", strs ["team-*-dev"; "ops"])] "team-a-dev" [] = true ∧ glob "team-*-dev" "team-a-dev".
Proof.
  assert (Hm : nsMatches [("namespaces", strs ["team-*-dev"; "ops"])] "team-a-dev" [] = true) by reflexivity.
  split; [exact Hm|].
  assert (Hp : Forall (λ p, plain_pattern p = true) (strSlice (vget [("namespaces", strs ["team-*-dev"; "ops"])] "namespaces"))).
  { constructor; [reflexivity|constructor; [reflexivity|constructor]]. }
  destruct (proj1 (nsMatches_patterns "team-a-dev" [] [("namespaces", strs ["team-*-dev"; "ops"])] eq_refl Hp) Hm)
    as [[Hn|Hn] _]; [discriminate Hn|].
  change (Exists (λ p, glob p "team-a-dev") ["team-*-dev"; "ops"]) in Hn.
  apply Exists_cons in Hn as [Hn|Hn]; [exact Hn|].
  apply Exists_cons in Hn as [Hn|Hn]; [by inversion Hn|by apply Exists_nil in Hn].
Defined.

Definition policy (name action : string) : obj :=
  [("metadata", VObj [("name", VStr name)]);
   ("spec", VObj [("validationFailureAction", VStr action); ("rules", VList [VObj (rule_with ["team-*"])])])].

(** All rules of the policy a are off for Pods. *)
Definition exception : obj :=
  [("spec", VObj [("match", VObj [("any", VList [VObj [("resources", VObj [("kinds", strs ["Pod"])])]])]);
                  ("exceptions", VList [VObj [("policyName", VStr "a")]])])].

Definition answer (q : request) : reply q :=
  match q with
  | Get _ KNamespaces _ n => Ok (mkMeta n "" [] [] "" 0 None None)
  | DynList _ g _ _ =>
      if decide (Resource g = "clusterpolicies") then Ok ([policy "a" "Audit"; policy "b" "enforce"], "")
      else if decide (Resource g = "policyexceptions" ∧ Version g = "v2beta1") then Ok ([exception], "")
      else if decide (Resource g = "policyreports") then
        Ok ([[("results", VList [VObj [("result", VStr "warn")]; VObj [("result", VStr "pass")]; VObj [("result", VStr "fail")]])]], "")
      else Err (ErrText "no")
  | Get _ _ _ _ => Err (ErrText "no")
  | List _ _ _ _ => Err (ErrText "no")
  | DynGet _ _ _ _ => Err (ErrText "no")
  | GetRaw _ _ | GetLogs _ _ _ _ => Err (ErrText "no")
  | CreateJob _ _ _ => Err (ErrText "no")
  | NewClient _ => None
  | ExecPod _ _ _ _ _ _ => mkExec None [] None false
  | Now => 5
  | Tick => true
  end.

(** What an exchange answered. *)
Definition meta_reply (e : event request reply) : option ObjectMeta :=
  match e with Effects.Event q r =>
    match q as q return reply q → option ObjectMeta with
    | Get _ KNamespaces _ _ => λ r, match r with Ok m => Some m | Err _ => None end
    | _ => λ _, None
    end r
  end.
Definition items_reply (e : event request reply) : option (list obj) :=
  match e with Effects.Event q r =>
    match q as q return reply q → option (list obj) with
    | DynList _ _ _ _ => λ r, match r with Ok (items, _) => Some items | Err _ => None end
    | _ => λ _, None
    end r
  end.

Definition world (s : unit) (q : request) : reply q * unit := (answer q, s).
Definition call_args : obj := [("namespace", VStr "team-a"); ("kind", VStr "Pod")].

Definition listed : option (list (string * bool) * list (event request reply)) :=
  match interp world tt (handleListPolicies call_args) with
  | Some (Ok ps, tr, _) => Some (map (λ r, (r_policy r, is_enforce r)) (p_rules ps), tr)
  | _ => None
  end.

Lemma handleListPolicies_rules_witness : ∃ tr ps, runs (handleListPolicies call_args) tr (Ok ps) ∧
  map (λ r, (r_policy r, r_action r, r_exempted r)) (p_rules ps) = [("b", Some "Enforce", false); ("a", Some "Audit", true)] ∧
  ∃ exs all, lists "team-a" [] "Pod" exs (written_rules [policy "a" "Audit"; policy "b" "enforce"]) all ∧ p_rules ps ≡ₚ all.
Proof.
  destruct (interp world tt (handleListPolicies call_args)) as [[[[ps|e] tr] []]|] eqn:Hi;
    [|vm_compute in Hi; discriminate Hi|vm_compute in Hi; discriminate Hi].
  exists tr, ps. pose proof (interp_runs _ _ _ _ _ _ Hi) as Hr. split; [exact Hr|].
  split; [vm_compute in Hi; injection Hi as <- <-; reflexivity|].
  destruct (handleListPolicies_rules call_args tr ps Hr) as (_ & _ & meta & cps & next & r & trx & exs & all & Htr & _ & Hl & Hp & _).
  exists exs, all. split; [|exact Hp].
  assert (Hev : match tr with e1 :: e2 :: e3 :: _ => meta_reply e1 = Some (mkMeta "team-a" "" [] [] "" 0 None None) ∧
      items_reply e2 = Some [policy "a" "Audit"; policy "b" "enforce"] ∧ items_reply e3 = None | _ => False end)
    by (vm_compute in Hi; injection Hi as <- <-; by split_and!).
  rewrite Htr in Hev. cbn in Hev. destruct Hev as ([= ->] & [= ->] & Hr3).
  destruct r as [[own nx]|e]; [done|]. exact Hl.
Defined.

Lemma handleGetPolicyReport_counts_witness : ∃ tr rp, runs (handleGetPolicyReport call_args) tr (Ok rp) ∧
  map rr_result (rp_results rp) = ["fail"; "warn"] ∧ rp_totals rp !! "pass" = Some 1 ∧
  ∃ all, rp_results rp = take 200 (worst_first all) ∧ (rp_truncated rp = true ↔ (200 < length all)%nat).
Proof.
  destruct (interp world tt (handleGetPolicyReport call_args)) as [[[[rp|e] tr] []]|] eqn:Hi;
    [|vm_compute in Hi; discriminate Hi|vm_compute in Hi; discriminate Hi].
  exists tr, rp. pose proof (interp_runs _ _ _ _ _ _ Hi) as Hr. split; [exact Hr|].
  split; [vm_compute in Hi; injection Hi as <- <-; reflexivity|].
  split; [vm_compute in Hi; injection Hi as <- <-; reflexivity|].
  destruct (handleGetPolicyReport_counts call_args tr rp Hr) as (_ & items & next & all & _ & _ & _ & H). by exists all.
Defined.

(** The policies of the source's own test, for a Deployment in team-a. *)
Definition cpol (name : string) (spec : obj) : obj := [("metadata", VObj [("name", VStr name)]); ("spec", VObj spec)].
Definition any_of (resources extra : obj) : value := VObj [("any", VList [VObj ((("resources", VObj resources)) :: extra)])].
Definition rules_of (match_ : value) (extra : obj) : string * value :=
  ("rules", VList [VObj ([("name", VStr "r"); ("match", match_); ("validate", VObj [("message", VStr "m")])] ++ extra)]).
Definition kinds (l : list string) : string * value := ("kinds", strs l).
Definition act (a : string) : string * value := ("validationFailureAction", VStr a).

Definition tested : list obj := [
  cpol "require-limits" [act "Enforce"; rules_of (any_of [kinds ["Pod"]] []) []];
  cpol "restrict-nodeport" [act "enforce"; rules_of (any_of [kinds ["Service"]] []) []];
  cpol "sre-only" [act "Enforce"; rules_of (any_of [kinds ["Pod"]; ("namespaces", strs ["sre-*"])] []) []];
  cpol "not-team-a" [act "Enforce"; rules_of (any_of [kinds ["Pod"]] [])
    [("exclude", any_of [("namespaces", strs ["team-a"])] [])]];
  cpol "admins-exempt" [act "Audit"; rules_of (any_of [kinds ["Pod"]] [])
    [("exclude", VObj [("any", VList [VObj [("clusterRoles", strs ["cluster-admin"])]])])]];
  cpol "team-b-only" [act "Enforce"; rules_of (any_of [kinds ["Pod"];
    ("namespaceSelector", VObj [("matchLabels", VObj [("team", VStr "b")])])] []) []];
  cpol "overridden" [act "Audit";
    ("validationFailureActionOverrides", VList [VObj [("action", VStr "Enforce"); ("namespaces", strs ["team-*"])]]);
    rules_of (any_of [kinds ["apps/v1/Deployment"]] []) []]].

Example source_test :
  map (λ r, (r_policy r, r_action r, match r_via r with Some _ => true | None => false end))
    (flat_map (policy_rules "team-a" [("team", "a")] "Deployment" ∅) tested) =
  [("require-limits", Some "Enforce", true); ("admins-exempt", Some "Audit", true); ("overridden", Some "Enforce", false)].
Proof. by vm_compute. Qed.

(** An exception for one object name reads as an exemption of the whole kind. *)
Lemma conditional_exception_exempts :
  exception_hits "team-a" [] "Pod" [("spec", VObj [("match", VObj [("any", VList [VObj [("resources",
    VObj [("kinds", strs ["Pod"]); ("names", strs ["only-this-pod"])])]])])])] = true.
Proof. reflexivity. Qed.

(** A result of an unknown outcome ranks with the failures. *)
Lemma unknown_result_ranks_first :
  rank (mkResult "other" VNil VNil VNil VNil "" "" "") = rank (mkResult "fail" VNil VNil VNil VNil "" "" "").
Proof. reflexivity. Qed.
End PolicyDemo.
