(* ===== verification/Disruption.v ===== *)
(** * The disruption audit (internal/mcp/audit.go)

    PodDisruptionBudgets, the workloads their pods belong to, and the data
    services the cluster runs.  Budgets and workloads are pointers in the
    source: here they are positions in a list, so that updates through a
    pointer and comparisons of pointers keep their meaning.  A Go map used as
    a set is a list without repetitions; its order stands for the iteration
    order of [range]. *)

From S2P Require Import Prelude Effects Parallel GoStrings GoTime Value Kube Pages Args Instances.
From S2P Require Import Floats Json.
Local Open Scope Z_scope.
Local Open Scope mcp_scope.

Definition labelTeam : string := "snappcloud.io/team".
Definition labelEnv : string := "environment".
Definition annotationIgnore : string := "snappcloud.io/best-practice-ignore".
Definition labelAppName : string := "app.kubernetes.io/name".
Definition labelInstance : string := "app.kubernetes.io/instance".
Definition labelComponent : string := "app.kubernetes.io/component".

Definition defaultQuorumImages : list string :=
  ["rabbitmq"; "etcd"; "zookeeper"; "kafka"; "consul"; "nats"; "mongo"; "redis-sentinel"; "elasticsearch"].
Definition cacheEngines : list string := ["redis"; "rabbitmq"].

(** ** Data *)

(** The controller of a pod: namespace, kind, name, apiVersion. *)
Record ownerRef := mkRef { o_ns : string; o_kind : string; o_name : string; o_apiVersion : string }.

#[export] Instance ownerRef_eq_dec : EqDecision ownerRef.
Proof. solve_decision. Defined.

Record auditOwner := mkAuditOwner {
  ao_kind : string; ao_name : string; ao_apiVersion : string; ao_replicas : option Z;
  ao_images : list string; ao_operatorKind : string; ao_ignore : string;
}.

Record auditPDB := mkAuditPDB {
  a_ns : string; a_name : string;
  a_minAvailable : option IntOrString; a_maxUnavailable : option IntOrString; a_policy : string;
  a_expected : Z; a_healthy : Z; a_desired : Z; a_allowed : Z; a_ignore : string;
  a_selector : Selector;
  a_owners : list ownerRef;          (* set *)
  a_overlaps : list string;          (* set *)
}.

Record auditInstance := mkInstance {
  i_ns : string; i_name : string; i_engine : string; i_kind : string; i_workload : string; i_replicas : Z;
  i_readReplicas : Z; i_replicaWorkload : string; i_quorum : bool; i_source : string; i_pdbs : list string;
  i_images : list string; i_ignore : string;
}.

Record nsOwner := mkNSOwner { no_team : string; no_env : string; no_labels : labels }.
Definition newNSOwner (l : labels) : nsOwner := mkNSOwner (lget l labelTeam) (lget l labelEnv) l.

Record workload := mkWorkload {
  w_kind : string; w_ns : string; w_name : string; w_replicas : Z; w_images : list string;
  w_labels : labels; w_template : labels; w_controller : option OwnerReference; w_ignore : string;
}.

(** Adding to a Go map used as a set. *)
Definition add {A} `{EqDecision A} (x : A) (l : list A) : list A := if decide (x ∈ l) then l else l ++ [x].

Section audit.
Context `{Unicode, Unstructured, Selectors, GVRText, SliceSort}.

Definition w_owner (w : workload) : auditOwner :=
  mkAuditOwner (w_kind w) (w_name w) "" (Some (w_replicas w)) (w_images w)
    (match w_controller w with Some r => or_kind r | None => "" end) (w_ignore w).

Definition newWorkload (kind : string) (meta : ObjectMeta) (replicas : option Z) (tmpl : PodTemplate) : workload :=
  mkWorkload kind (Namespace meta) (Name meta) (default 1 replicas)
    (fold_left (λ images i, add i images) (t_images tmpl) [])
    (Labels meta) (t_labels tmpl) (ControllerOf meta) (lget (Annotations meta) annotationIgnore).

(** labels.Nothing() *)
Definition nothing : Selector := mkSel (λ _, false) "".

Definition newAuditPDB (pdb : PodDisruptionBudget) : auditPDB :=
  mkAuditPDB (Namespace (pdb_meta pdb)) (Name (pdb_meta pdb)) (pdb_minAvailable pdb) (pdb_maxUnavailable pdb)
    (default "" (pdb_policy pdb)) (pdb_expected pdb) (pdb_healthy pdb) (pdb_desired pdb) (pdb_allowed pdb)
    (lget (Annotations (pdb_meta pdb)) annotationIgnore)
    (default nothing (LabelSelectorAsSelector (pdb_selector pdb))) [] [].

(** ** The lists *)

Definition pdb_less : auditPDB → auditPDB → bool := lex_by a_ns (λ x y, str_lt (a_name x) (a_name y)).

(** The outcome of a paged list whose items accumulate. *)
Definition listed {A} (r : option error * A) : result error A :=
  match r with (Some err, _) => Err err | (None, a) => Ok a end.

Definition list_all {A} (fuel : nat) (k : kind) (what : string) (each : A → object k → A) (acc : A) : io (result error A) :=
  let! r := ListPages fuel (list_page (do_list Server k "") (wrap_err ("list " +:+ what)) each) acc in
  Ret (listed r).

Definition listPDBs (fuel : nat) : io (result error (list auditPDB)) :=
  let? out := list_all fuel KPDBs "poddisruptionbudgets" (λ out p, out ++ [newAuditPDB p]) [] in
  Ret (Ok (slice_sort pdb_less out)).

Definition listAuditWorkloads (fuel : nat) : io (result error (list workload)) :=
  let? out := list_all fuel KDeployments "deployments"
    (λ out d, out ++ [newWorkload "Deployment" (d_meta d) (d_replicas d) (d_template d)]) [] in
  list_all fuel KStatefulSets "statefulsets"
    (λ out s, out ++ [newWorkload "StatefulSet" (s_meta s) (s_replicas s) (s_template s)]) out.

Definition listNamespaceLabels (fuel : nat) : io (result error (gmap string labels)) :=
  list_all fuel KNamespaces "namespaces" (λ (out : gmap string labels) (m : object KNamespaces), <[Name m := Labels m]> out) ∅.

(** byNS: the positions of a namespace's budgets, in order. *)
Definition byNS (pdbs : list auditPDB) (ns : string) : list nat :=
  List.filter (λ i, match pdbs !! i with Some p => bool_decide (a_ns p = ns) | None => false end) (seq 0 (length pdbs)).

(** "ns/replicaset" to its Deployment's name. *)
Definition add_replicaset (pdbs : list auditPDB) (out : gmap string string) (rs : ObjectMeta) : gmap string string :=
  if (length (byNS pdbs (Namespace rs)) =? 0)%nat then out
  else match ControllerOf rs with
       | Some ref => if decide (or_kind ref = "Deployment")
                     then <[Namespace rs +:+ "/" +:+ Name rs := or_name ref]> out else out
       | None => out
       end.

Definition listReplicaSetDeployments (fuel : nat) (pdbs : list auditPDB) : io (result error (gmap string string)) :=
  list_all fuel KReplicaSets "replicasets" (λ out (rs : object KReplicaSets), add_replicaset pdbs out rs) ∅.

(** ** scanPods *)

Definition pod_ref (pod : Pod) : ownerRef :=
  match ControllerOf (pod_meta pod) with
  | Some c => mkRef (Namespace (pod_meta pod)) (or_kind c) (or_name c) (or_apiVersion c)
  | None => mkRef (Namespace (pod_meta pod)) "Pod" (Name (pod_meta pod)) ""
  end.

Definition add_owner (ref : ownerRef) (p : auditPDB) : auditPDB :=
  mkAuditPDB (a_ns p) (a_name p) (a_minAvailable p) (a_maxUnavailable p) (a_policy p) (a_expected p) (a_healthy p)
    (a_desired p) (a_allowed p) (a_ignore p) (a_selector p) (add ref (a_owners p)) (a_overlaps p).

Definition add_overlap (name : string) (p : auditPDB) : auditPDB :=
  mkAuditPDB (a_ns p) (a_name p) (a_minAvailable p) (a_maxUnavailable p) (a_policy p) (a_expected p) (a_healthy p)
    (a_desired p) (a_allowed p) (a_ignore p) (a_selector p) (a_owners p) (add name (a_overlaps p)).

Definition name_at (pdbs : list auditPDB) (i : nat) : string :=
  match pdbs !! i with Some p => a_name p | None => "" end.

(** The positions of the budgets that select the pod. *)
Definition matched_by (pdbs : list auditPDB) (pod : Pod) : list nat :=
  List.filter (λ i, match pdbs !! i with Some p => Matches (a_selector p) (Labels (pod_meta pod)) | None => false end)
    (byNS pdbs (Namespace (pod_meta pod))).

(** The two nested loops over the matched budgets. *)
Definition mark_overlaps (matched : list nat) (pdbs : list auditPDB) : list auditPDB :=
  fold_left (λ pdbs p,
    fold_left (λ pdbs q, if decide (p ≠ q) then alter (add_overlap (name_at pdbs q)) p pdbs else pdbs) matched pdbs)
    matched pdbs.

Definition scan_pod (pdbs : list auditPDB) (pod : Pod) : list auditPDB :=
  let nsPDBs := byNS pdbs (Namespace (pod_meta pod)) in
  if (length nsPDBs =? 0)%nat || bool_decide (pod_phase pod = "Succeeded") || bool_decide (pod_phase pod = "Failed")
  then pdbs else
  let matched := matched_by pdbs pod in
  if (length matched =? 0)%nat then pdbs else
  let pdbs := fold_left (λ pdbs p, alter (add_owner (pod_ref pod)) p pdbs) matched pdbs in
  if (1 <? length matched)%nat && negb (bool_decide (pod_phase pod = "Pending")) &&
     match DeletionTimestamp (pod_meta pod) with None => true | Some _ => false end
  then mark_overlaps matched pdbs else pdbs.

Definition scanPods (fuel : nat) (pdbs : list auditPDB) : io (result error (list auditPDB)) :=
  list_all fuel KPods "pods" scan_pod pdbs.

(** ** Joining *)

(** wlIndex: the last workload of each kind, namespace and name. *)
Definition wl_key (kind ns name : string) : string := kind +:+ "/" +:+ ns +:+ "/" +:+ name.
Definition wl_index (workloads : list workload) : gmap string workload :=
  fold_left (λ m w, <[wl_key (w_kind w) (w_ns w) (w_name w) := w]> m) workloads ∅.

(** The kind and name a reference resolves to: a ReplicaSet stands for its
    Deployment. *)
Definition resolved (rsDeployment : gmap string string) (ref : ownerRef) : string * string :=
  if decide (o_kind ref = "ReplicaSet") then
    match rsDeployment !! (o_ns ref +:+ "/" +:+ o_name ref) with
    | Some d => ("Deployment", d)
    | None => (o_kind ref, o_name ref)
    end
  else (o_kind ref, o_name ref).

Definition owner_of (rsDeployment : gmap string string) (wlIndex : gmap string workload) (ref : ownerRef) : auditOwner :=
  let '(kind, name) := resolved rsDeployment ref in
  match wlIndex !! wl_key kind (o_ns ref) name with
  | Some w => w_owner w
  | None => mkAuditOwner kind name (o_apiVersion ref) None [] "" ""
  end.

Fixpoint resolve_loop (rsDeployment : gmap string string) (wlIndex : gmap string workload)
    (seen : list string) (refs : list ownerRef) : list auditOwner :=
  match refs with
  | [] => []
  | ref :: refs' =>
      let '(kind, name) := resolved rsDeployment ref in
      let key := kind +:+ "/" +:+ name in
      if decide (key ∈ seen) then resolve_loop rsDeployment wlIndex seen refs'
      else owner_of rsDeployment wlIndex ref :: resolve_loop rsDeployment wlIndex (key :: seen) refs'
  end.

Definition owner_less : auditOwner → auditOwner → bool := lex_by ao_kind (λ x y, str_lt (ao_name x) (ao_name y)).

Definition resolveOwners (refs : list ownerRef) (rsDeployment : gmap string string) (wlIndex : gmap string workload)
    : list auditOwner :=
  slice_sort owner_less (resolve_loop rsDeployment wlIndex [] refs).

(** The names of a namespace's budgets that match a pod template. *)
Definition coveringPDBs (pdbs : list auditPDB) (ns : string) (template : labels) : list string :=
  flat_map (λ i, match pdbs !! i with
                 | Some p => if Matches (a_selector p) template then [a_name p] else []
                 | None => []
                 end) (byNS pdbs ns).

(** ** Images *)

Definition imageName (image : string) : string :=
  let '(image, _, _) := Cut image "@" in
  let image := default image (after_last (z_byte 47) image) in
  let '(image, _, _) := Cut image ":" in
  ToLower image.

Definition better (name : string) (best kw : string) : string :=
  if (String.length best <? String.length kw)%nat && Contains name kw then kw else best.

Definition detectEngine (images keywords : list string) : string :=
  fold_left (λ best img,
    let name := imageName img in
    if Contains name "exporter" then best else fold_left (better name) keywords best) images "".

(** The release a StatefulSet belongs to, or none. *)
Definition release (w : workload) : string :=
  if negb (bool_decide (w_kind w = "StatefulSet")) || match w_controller w with Some _ => true | None => false end ||
     bool_decide (lget (w_labels w) labelInstance = "")
  then "" else w_ns w +:+ "/" +:+ lget (w_labels w) labelAppName +:+ "/" +:+ lget (w_labels w) labelInstance.

Definition has_component (c : string) (w : workload) : bool :=
  negb (bool_decide (release w = "")) && bool_decide (lget (w_labels w) labelComponent = c).

(** The last master of each release, by position. *)
Definition masters (workloads : list workload) : gmap string nat :=
  fold_left (λ m iw, if has_component "master" iw.2 then <[release iw.2 := iw.1]> m else m)
    (imap pair workloads) ∅.

(** Master to replica, by position. *)
Definition bitnamiReplicas (workloads : list workload) : gmap nat nat :=
  fold_left (λ out iw,
    if has_component "replica" iw.2 then
      match masters workloads !! release iw.2 with Some m => <[m := iw.1]> out | None => out end
    else out) (imap pair workloads) ∅.

Definition image_instance (workloads : list workload) (pdbs : list auditPDB) (quorumImages : list string)
    (replicaOf : gmap nat nat) (iw : nat * workload) : option auditInstance :=
  let '(i, w) := iw in
  let folded := bool_decide (map_Exists (λ _ r, r = i) replicaOf) in
  if match w_controller w with Some _ => true | None => false end || folded then None else
  let engine := detectEngine (w_images w) (cacheEngines ++ quorumImages) in
  if bool_decide (engine = "") then None else
  let quorum := bool_decide (w_kind w = "StatefulSet") && bool_decide (engine ∈ quorumImages) in
  if negb quorum && negb (bool_decide (engine ∈ cacheEngines)) then None else
  let '(readReplicas, replicaWorkload) :=
    match replicaOf !! i with
    | Some r => match workloads !! r with Some rw => (w_replicas rw, w_name rw) | None => (0, "") end
    | None => (0, "")
    end in
  Some (mkInstance (w_ns w) (w_name w) engine (w_kind w) "" (w_replicas w) readReplicas replicaWorkload quorum "image"
    (coveringPDBs pdbs (w_ns w) (w_template w)) (w_images w) (w_ignore w)).

Definition imageInstances (workloads : list workload) (pdbs : list auditPDB) (quorumImages : list string)
    : list auditInstance :=
  omap (image_instance workloads pdbs quorumImages (bitnamiReplicas workloads)) (imap pair workloads).

(** ** Operator instances *)

Definition nestedInt (o : obj) (def : Z) (fields : list string) : Z :=
  match NestedFieldNoCopy o fields with
  | Some (VInt _ n) => n
  | Some (VFloat f) => float_to_int f
  | _ => def
  end.

Record dataServiceKind := mkKind {
  k_group : string; k_resource : string; k_kind : string; k_engine : string; k_versions : list string;
  k_quorum : bool; k_replicas : obj → Z; k_member : option (string → string → bool);
}.

Definition opstreeGroup : string := "redis.redis.opstreelabs.in".
Definition opstreeVersions : list string := ["v1beta2"; "v1beta1"].

Definition dataServiceKinds : list dataServiceKind := [
  mkKind "rabbitmq.com" "rabbitmqclusters" "RabbitmqCluster" "rabbitmq" ["v1beta1"] true
    (λ o, nestedInt o 1 ["spec"; "replicas"]) None;
  mkKind opstreeGroup "redis" "Redis" "redis" opstreeVersions false (λ _, 1) None;
  mkKind opstreeGroup "redisreplications" "RedisReplication" "redis" opstreeVersions false
    (λ o, nestedInt o 0 ["spec"; "clusterSize"]) None;
  mkKind opstreeGroup "redisclusters" "RedisCluster" "redis" opstreeVersions true
    (λ o, nestedInt o (nestedInt o 0 ["spec"; "clusterSize"]) ["spec"; "redisLeader"; "replicas"])
    (Some (λ cr sts, bool_decide (sts = cr +:+ "-leader")));
  mkKind opstreeGroup "redissentinels" "RedisSentinel" "redis-sentinel" opstreeVersions true
    (λ o, nestedInt o 0 ["spec"; "clusterSize"]) None].

(** ownedSTS *)
Definition ownedSTS (workloads : list workload) (uid : string) : list workload :=
  List.filter (λ w, bool_decide (w_kind w = "StatefulSet") &&
    match w_controller w with Some r => bool_decide (or_uid r = uid) | None => false end) workloads.

Definition operator_instance (workloads : list workload) (pdbs : list auditPDB) (kind : dataServiceKind) (cr : obj)
    : auditInstance :=
  let sts := List.find (λ s, match k_member kind with None => true | Some m => m (GetName cr) (w_name s) end)
               (ownedSTS workloads (GetUID cr)) in
  mkInstance (GetNamespace cr) (GetName cr) (k_engine kind) (k_kind kind)
    (match sts with Some s => w_name s | None => "" end) (k_replicas kind cr) 0 "" (k_quorum kind) "operator"
    (match sts with Some s => coveringPDBs pdbs (w_ns s) (w_template s) | None => [] end)
    [] (lget (GetAnnotations cr) annotationIgnore).

(** ** The handler *)

Definition instance_less : auditInstance → auditInstance → bool :=
  lex_by i_ns (lex_by i_name (λ x y, str_lt (i_kind x) (i_kind y))).

Record pdb_out := mkPdbOut { po_pdb : auditPDB; po_owners : list auditOwner; po_overlapsWith : list string }.

Record audit := mkAudit {
  au_pdbs : list pdb_out; au_instances : list auditInstance; au_namespaces : gmap string nsOwner;
  au_notInstalled : list string; au_quorumImages : list string;
}.

(** The goroutine of one custom resource: its objects, or [None] when it is not
    installed. *)
Definition list_kind (fuel : nat) (kind : dataServiceKind) : io (result error (option (list obj))) :=
  let! r := ListCustom fuel (k_group kind) (k_resource kind) (k_versions kind) (λ crs o, crs ++ [o]) [] in
  let '((installed, err), crs) := r in
  Ret (match err with
       | Some err => Err err
       | None => Ok (if installed : bool then Some crs else None)
       end).

Definition quorum_images (a : args) : list string :=
  match arg_strs a "quorum_images" with [] => defaultQuorumImages | custom => map ToLower custom end.

(** Step 3: everything joined. *)
Definition join_all (quorumImages : list string) (pdbs : list auditPDB) (workloads : list workload)
    (nsLabels : gmap string labels) (kinds : list (dataServiceKind * option (list obj)))
    (rsDeployment : gmap string string) : audit :=
  let wlIndex := wl_index workloads in
  let out := map (λ p, mkPdbOut p (resolveOwners (a_owners p) rsDeployment wlIndex) (slice_sort str_lt (a_overlaps p))) pdbs in
  let notInstalled := flat_map (λ k, match k.2 with None => [k_resource k.1 +:+ "." +:+ k_group k.1] | Some _ => [] end) kinds in
  let operators := flat_map (λ k, map (operator_instance workloads pdbs k.1) (default [] k.2)) kinds in
  let instances := slice_sort instance_less (operators ++ imageInstances workloads pdbs quorumImages) in
  let namespaces := fold_left (λ (m : gmap string nsOwner) ns, <[ns := newNSOwner (default [] (nsLabels !! ns))]> m)
    (map a_ns pdbs ++ map i_ns instances) ∅ in
  mkAudit out instances namespaces notInstalled quorumImages.

(** The variables the goroutines of a call assign to. *)
Record captured := mkCaptured {
  c_pdbs : list auditPDB; c_workloads : list workload; c_nsLabels : gmap string labels;
  c_crs : list (option (list obj)); c_rsDeployment : gmap string string;
}.
Definition unassigned : captured := mkCaptured [] [] ∅ (map (λ _, None) dataServiceKinds) ∅.

Definition set_pdbs (x : list auditPDB) (c : captured) : captured :=
  mkCaptured x (c_workloads c) (c_nsLabels c) (c_crs c) (c_rsDeployment c).
Definition set_workloads (x : list workload) (c : captured) : captured :=
  mkCaptured (c_pdbs c) x (c_nsLabels c) (c_crs c) (c_rsDeployment c).
Definition set_nsLabels (x : gmap string labels) (c : captured) : captured :=
  mkCaptured (c_pdbs c) (c_workloads c) x (c_crs c) (c_rsDeployment c).
Definition set_crs (i : nat) (x : option (list obj)) (c : captured) : captured :=
  mkCaptured (c_pdbs c) (c_workloads c) (c_nsLabels c) (<[i := x]> (c_crs c)) (c_rsDeployment c).
Definition set_rsDeployment (x : gmap string string) (c : captured) : captured :=
  mkCaptured (c_pdbs c) (c_workloads c) (c_nsLabels c) (c_crs c) x.

(** [g.Go(func() (err error) { v, err = p(); return err })] *)
Definition go {A} (assign : A → captured → captured) (p : io (result error A)) : io (result error (captured → captured)) :=
  let? x := p in Ret (Ok (assign x)).

(** Step 1: independent lists. *)
Definition step1 (fuel : nat) : list (io (result error (captured → captured))) :=
  [go set_pdbs (listPDBs fuel); go set_workloads (listAuditWorkloads fuel); go set_nsLabels (listNamespaceLabels fuel)] ++
  imap (λ i kind, go (set_crs i) (list_kind fuel kind)) dataServiceKinds.

(** Step 2: pods and ReplicaSets in namespaces that have a budget. *)
Definition step2 (fuel : nat) (pdbs : list auditPDB) : list (io (result error (captured → captured))) :=
  [go set_rsDeployment (listReplicaSetDeployments fuel pdbs); go set_pdbs (scanPods fuel pdbs)].

(** The assignments, in an order. *)
Definition assigned (us : list (captured → captured)) (c : captured) : captured := fold_left (λ c u, u c) us c.

Definition joined (a : args) (c : captured) : audit :=
  join_all (quorum_images a) (c_pdbs c) (c_workloads c) (c_nsLabels c) (combine dataServiceKinds (c_crs c)) (c_rsDeployment c).

(** The goroutines of a step run here one after the other, and the first error
    ends the call; [audit_waits] below lets them interleave. *)
Definition handleDisruptionAudit (fuel : nat) (a : args) : io (result error audit) :=
  let? us := in_turn (step1 fuel) in
  let c := assigned us unassigned in
  let? us := in_turn (step2 fuel (c_pdbs c)) in
  Ret (Ok (joined a (assigned us c))).

(** ** list_teams *)

Record project := mkProject { pr_name : string; pr_envLabel : string }.
Record team := mkTeam { tm_team : string; tm_admins : list string; tm_projects : list project }.

Record teams := mkTeams { ts_count : Z; ts_teams : list team }.

Definition read_team (o : obj) : team :=
  mkTeam (GetName o)
    (flat_map (λ raw, match raw with
       | VObj m => let name := str_or_empty (vget m "name") in if decide (name = "") then [] else [name]
       | _ => []
       end) (default [] (NestedSlice o ["spec"; "teamAdmins"])))
    (flat_map (λ raw, match raw with
       | VObj m => [mkProject (str_or_empty (vget m "name")) (str_or_empty (vget m "envLabel"))]
       | _ => []
       end) (default [] (NestedSlice o ["spec"; "projects"]))).

Definition handleListTeams (fuel : nat) : io (result error teams) :=
  let! r := ListCustom fuel "team.snappcloud.io" "teams" ["v1alpha1"] (λ ts o, ts ++ [read_team o]) [] in
  let '((installed, err), ts) := r in
  match err with
  | Some err => Ret (Err err)
  | None =>
      if installed : bool
      then Ret (Ok (mkTeams (Z.of_nat (length ts)) (slice_sort (λ x y, str_lt (tm_team x) (tm_team y)) ts)))
      else Ret (Err (ErrText "teams.team.snappcloud.io is not served on this cluster (team-operator not installed)"))
  end.

End audit.

(** ** Lemmas *)

Lemma elem_of_add {A} `{EqDecision A} (x y : A) l : y ∈ add x l ↔ y = x ∨ y ∈ l.
Proof. unfold add. case_decide; rewrite ?elem_of_app, ?list_elem_of_singleton; naive_solver. Qed.

Lemma NoDup_add {A} `{EqDecision A} (x : A) l : NoDup l → NoDup (add x l).
Proof.
  intros Hl. unfold add. case_decide; [done|]. apply NoDup_app. split; [done|].
  split; [intros y Hy ->%list_elem_of_singleton; done|apply NoDup_singleton].
Qed.

(** A budget without what the scan records on it. *)
Definition blank (p : auditPDB) : auditPDB :=
  mkAuditPDB (a_ns p) (a_name p) (a_minAvailable p) (a_maxUnavailable p) (a_policy p) (a_expected p) (a_healthy p)
    (a_desired p) (a_allowed p) (a_ignore p) (a_selector p) [] [].

Definition owners_at (l : list auditPDB) (i : nat) : list ownerRef := match l !! i with Some p => a_owners p | None => [] end.
Definition overlaps_at (l : list auditPDB) (i : nat) : list string := match l !! i with Some p => a_overlaps p | None => [] end.

Lemma blank_at l l' i : map blank l = map blank l' → blank <$> l !! i = blank <$> l' !! i.
Proof. intros Hl. rewrite <- !list_lookup_fmap. exact (f_equal (lookup i) Hl). Qed.

(** What a scan reads of the budgets is not what it writes. *)
Lemma byNS_blank l l' ns : map blank l = map blank l' → byNS l ns = byNS l' ns.
Proof.
  intros Hl. unfold byNS. assert (length l = length l') as ->.
  { rewrite <- (length_map blank l), Hl. apply length_map. }
  apply filter_ext. intros i. apply (blank_at _ _ i) in Hl.
  destruct (l !! i) as [p|], (l' !! i) as [p'|]; simpl in Hl; try done.
  assert (E : blank p = blank p') by congruence. by rewrite (f_equal a_ns E : a_ns p = a_ns p').
Qed.

Lemma matched_blank l l' pod : map blank l = map blank l' → matched_by l pod = matched_by l' pod.
Proof.
  intros Hl. unfold matched_by. rewrite (byNS_blank l l') by done. apply filter_ext. intros i.
  apply (blank_at _ _ i) in Hl.
  destruct (l !! i) as [p|], (l' !! i) as [p'|]; simpl in Hl; try done.
  assert (E : blank p = blank p') by congruence. by rewrite (f_equal a_selector E : a_selector p = a_selector p').
Qed.

Lemma name_at_blank l l' i : map blank l = map blank l' → name_at l i = name_at l' i.
Proof.
  intros Hl. apply (blank_at _ _ i) in Hl. unfold name_at.
  destruct (l !! i) as [p|], (l' !! i) as [p'|]; simpl in Hl; try done.
  assert (E : blank p = blank p') by congruence. exact (f_equal a_name E).
Qed.

Lemma blank_alter f i l : (∀ p, blank (f p) = blank p) → map blank (alter f i l) = map blank l.
Proof.
  intros Hf. apply list_eq. intros j.
  change (map blank (alter f i l)) with (blank <$> alter f i l). change (map blank l) with (blank <$> l).
  rewrite !list_lookup_fmap.
  destruct (decide (i = j)) as [<-|Hne]; [|by rewrite list_lookup_alter_ne].
  rewrite list_lookup_alter_eq. destruct (l !! i); simpl; [by rewrite Hf|done].
Qed.

Lemma blank_fold {A} (f : list auditPDB → A → list auditPDB) xs l :
  (∀ l x, map blank (f l x) = map blank l) → map blank (fold_left f xs l) = map blank l.
Proof. intros Hf. revert l. induction xs as [|x xs IH]; intros l; simpl; [done|]. by rewrite IH, Hf. Qed.

Lemma mark_blank matched l : map blank (mark_overlaps matched l) = map blank l.
Proof.
  apply blank_fold. intros l' p. apply blank_fold. intros l'' q. case_decide; [by apply blank_alter|done].
Qed.

Lemma scan_pod_blank l pod : map blank (scan_pod l pod) = map blank l.
Proof.
  unfold scan_pod. destruct (_ || _); [done|]. destruct (length (matched_by l pod) =? 0)%nat; [done|].
  set (l1 := fold_left _ _ _). assert (H1 : map blank l1 = map blank l).
  { apply blank_fold. intros l' p. by apply blank_alter. }
  destruct (_ && _); [by rewrite mark_blank|done].
Qed.

(** *** What each update adds *)

Lemma owners_add r p l i ref : (p < length l)%nat →
  (ref ∈ owners_at (alter (add_owner r) p l) i ↔ ref ∈ owners_at l i ∨ (i = p ∧ ref = r)) ∧
  overlaps_at (alter (add_owner r) p l) i = overlaps_at l i.
Proof.
  intros Hp. unfold owners_at, overlaps_at. destruct (decide (p = i)) as [<-|Hne].
  - rewrite list_lookup_alter_eq. apply lookup_lt_is_Some_2 in Hp as [x Hx]. rewrite Hx. simpl.
    rewrite elem_of_add. split; [naive_solver|done].
  - rewrite list_lookup_alter_ne by done. split; [naive_solver|done].
Qed.

Lemma overlaps_add n p l i m : (p < length l)%nat →
  (m ∈ overlaps_at (alter (add_overlap n) p l) i ↔ m ∈ overlaps_at l i ∨ (i = p ∧ m = n)) ∧
  owners_at (alter (add_overlap n) p l) i = owners_at l i.
Proof.
  intros Hp. unfold owners_at, overlaps_at. destruct (decide (p = i)) as [<-|Hne].
  - rewrite list_lookup_alter_eq. apply lookup_lt_is_Some_2 in Hp as [x Hx]. rewrite Hx. simpl.
    rewrite elem_of_add. split; [naive_solver|done].
  - rewrite list_lookup_alter_ne by done. split; [naive_solver|done].
Qed.

Lemma owners_fold r ps l i ref : Forall (λ p, (p < length l)%nat) ps →
  let l' := fold_left (λ l p, alter (add_owner r) p l) ps l in
  (ref ∈ owners_at l' i ↔ ref ∈ owners_at l i ∨ (i ∈ ps ∧ ref = r)) ∧ overlaps_at l' i = overlaps_at l i.
Proof.
  revert l. induction ps as [|p ps IH]; intros l Hps; simpl.
  { rewrite elem_of_nil. split; [tauto|done]. }
  apply Forall_cons in Hps as [Hp Hps]. destruct (owners_add r p l i ref Hp) as [H1 H2].
  destruct (IH (alter (add_owner r) p l)) as [H3 H4]; [by rewrite length_alter|].
  rewrite H3, H4, H1, H2, elem_of_cons. split; [tauto|done].
Qed.

Lemma overlaps_inner p qs l i m : (p < length l)%nat →
  let l' := fold_left (λ l q, if decide (p ≠ q) then alter (add_overlap (name_at l q)) p l else l) qs l in
  (m ∈ overlaps_at l' i ↔ m ∈ overlaps_at l i ∨ (i = p ∧ ∃ q, q ∈ qs ∧ p ≠ q ∧ m = name_at l q)) ∧
  owners_at l' i = owners_at l i ∧ length l' = length l.
Proof.
  revert l. induction qs as [|q qs IH]; intros l Hp; simpl.
  { split; [|done]. split; [tauto|]. by intros [|[_ (q & ?%not_elem_of_nil & _)]]. }
  case_decide as Hpq.
  - destruct (overlaps_add (name_at l q) p l i m Hp) as [H1 H2].
    destruct (IH (alter (add_overlap (name_at l q)) p l)) as (H3 & H4 & H5); [by rewrite length_alter|].
    rewrite H3, H4, H5, H1, H2, length_alter. split; [|done].
    assert (Hn : ∀ j, name_at (alter (add_overlap (name_at l q)) p l) j = name_at l j).
    { intros j. apply name_at_blank. by apply blank_alter. }
    setoid_rewrite Hn. setoid_rewrite elem_of_cons. naive_solver.
  - assert (p = q) as <- by lia.
    destruct (IH l Hp) as (H3 & H4 & H5). rewrite H3, H4, H5. split; [|done].
    setoid_rewrite elem_of_cons. naive_solver.
Qed.

Lemma overlaps_mark qs l i m : Forall (λ p, (p < length l)%nat) qs →
  (m ∈ overlaps_at (mark_overlaps qs l) i ↔
    m ∈ overlaps_at l i ∨ (i ∈ qs ∧ ∃ q, q ∈ qs ∧ i ≠ q ∧ m = name_at l q)) ∧
  owners_at (mark_overlaps qs l) i = owners_at l i.
Proof.
  unfold mark_overlaps. intros Hqs.
  enough (Hg : ∀ ps l', Forall (λ p, (p < length l')%nat) ps → map blank l' = map blank l →
    let l'' := fold_left (λ l p, fold_left (λ l q, if decide (p ≠ q) then alter (add_overlap (name_at l q)) p l else l) qs l) ps l' in
    (m ∈ overlaps_at l'' i ↔ m ∈ overlaps_at l' i ∨ (i ∈ ps ∧ ∃ q, q ∈ qs ∧ i ≠ q ∧ m = name_at l q)) ∧
    owners_at l'' i = owners_at l' i) by exact (Hg qs l Hqs eq_refl).
  induction ps as [|p ps IH]; intros l' Hps Hb; simpl.
  { rewrite elem_of_nil. split; [tauto|done]. }
  apply Forall_cons in Hps as [Hp Hps]. destruct (overlaps_inner p qs l' i m Hp) as (H1 & H2 & H3).
  set (l1 := fold_left _ qs l') in *.
  assert (Hb1 : map blank l1 = map blank l').
  { apply blank_fold. intros l2 q. case_decide; [by apply blank_alter|done]. }
  destruct (IH l1) as [H4 H5]; [by rewrite H3|by rewrite Hb1|]. rewrite H4, H5, H1, H2, elem_of_cons.
  assert (Hn : ∀ q, name_at l' q = name_at l q) by (intros q; by apply name_at_blank).
  setoid_rewrite Hn. split; [|done]. naive_solver.
Qed.

(** *** Scanning pods *)

(** A budget selects a pod of its namespace. *)
Definition covers (p : auditPDB) (pod : Pod) : Prop :=
  a_ns p = Namespace (pod_meta pod) ∧ Matches (a_selector p) (Labels (pod_meta pod)) = true.

(** Pods that have not ended; and those an eviction can be blocked for. *)
Definition counted (pod : Pod) : Prop := pod_phase pod ≠ "Succeeded" ∧ pod_phase pod ≠ "Failed".
Definition blockable (pod : Pod) : Prop :=
  counted pod ∧ pod_phase pod ≠ "Pending" ∧ DeletionTimestamp (pod_meta pod) = None.

Lemma elem_of_byNS l ns i : i ∈ byNS l ns ↔ ∃ p, l !! i = Some p ∧ a_ns p = ns.
Proof.
  unfold byNS. rewrite list_elem_of_In, filter_In, <- list_elem_of_In, elem_of_seq. split.
  - intros [_ Hi]. destruct (l !! i) as [p|]; [|done]. exists p. by apply bool_decide_eq_true in Hi.
  - intros (p & Hp & Hns). pose proof (lookup_lt_Some _ _ _ Hp). rewrite Hp. split; [lia|by apply bool_decide_eq_true].
Qed.

Lemma elem_of_matched l pod i : i ∈ matched_by l pod ↔ ∃ p, l !! i = Some p ∧ covers p pod.
Proof.
  unfold matched_by, covers. rewrite list_elem_of_In, filter_In, <- list_elem_of_In, elem_of_byNS. split.
  - intros [(p & Hp & Hns) Hm]. rewrite Hp in Hm. by exists p.
  - intros (p & Hp & Hns & Hm). rewrite Hp. split; [by exists p|done].
Qed.

Lemma scan_pod_adds l pod i :
  (∀ ref, ref ∈ owners_at (scan_pod l pod) i ↔
    ref ∈ owners_at l i ∨ (counted pod ∧ i ∈ matched_by l pod ∧ ref = pod_ref pod)) ∧
  (∀ m, m ∈ overlaps_at (scan_pod l pod) i ↔
    m ∈ overlaps_at l i ∨
    (blockable pod ∧ i ∈ matched_by l pod ∧ ∃ q, q ∈ matched_by l pod ∧ i ≠ q ∧ m = name_at l q)).
Proof.
  assert (Hlt : Forall (λ p, (p < length l)%nat) (matched_by l pod)).
  { apply Forall_forall. intros p (x & Hx & _)%elem_of_matched. by eapply lookup_lt_Some. }
  unfold scan_pod. destruct (_ || _) eqn:Hskip.
  { assert (Hno : ∀ X : Prop, ¬ (counted pod ∧ i ∈ matched_by l pod ∧ X)).
    { intros X ([Hs Hf] & Hi & _). apply orb_true_iff in Hskip as [Hskip|Hskip].
      - apply orb_true_iff in Hskip as [Hskip|Hskip]; [|by apply bool_decide_eq_true in Hskip].
        apply Nat.eqb_eq, length_zero_iff_nil in Hskip. apply elem_of_matched in Hi as (p & Hp & Hns & _).
        assert (Hb : i ∈ byNS l (Namespace (pod_meta pod))) by (apply elem_of_byNS; by exists p).
        rewrite Hskip in Hb. by apply not_elem_of_nil in Hb.
      - by apply bool_decide_eq_true in Hskip. }
    split; [intros ref|intros m]; (split; [by left|]); intros [Ho|Ho]; try done; exfalso.
    - by eapply Hno.
    - destruct Ho as ([Hc _] & Hi & Hq). by eapply Hno. }
  apply orb_false_iff in Hskip as [Hskip Hf]. apply orb_false_iff in Hskip as [_ Hs].
  apply bool_decide_eq_false in Hs, Hf. assert (Hc : counted pod) by done.
  destruct (Nat.eqb_spec (length (matched_by l pod)) 0) as [H0|H0].
  { apply length_zero_iff_nil in H0. rewrite H0. setoid_rewrite elem_of_nil. split; intros; tauto. }
  set (l1 := fold_left _ _ l).
  assert (Hb1 : map blank l1 = map blank l) by (apply blank_fold; intros; by apply blank_alter).
  assert (Ho1 : ∀ ref, (ref ∈ owners_at l1 i ↔ ref ∈ owners_at l i ∨ (i ∈ matched_by l pod ∧ ref = pod_ref pod)) ∧
    overlaps_at l1 i = overlaps_at l i) by (intros ref; by apply owners_fold).
  destruct (_ && _) eqn:Hmark.
  - assert (Hlt1 : Forall (λ p, (p < length l1)%nat) (matched_by l pod)).
    { assert (length l1 = length l) as ->; [|done]. by rewrite <- (length_map blank l1), Hb1, length_map. }
    apply andb_true_iff in Hmark as [Hmark Hdel]. apply andb_true_iff in Hmark as [_ Hpend].
    apply negb_true_iff, bool_decide_eq_false in Hpend.
    assert (Hbl : blockable pod) by (split; [done|]; split; [done|]; by destruct (DeletionTimestamp _)).
    split; [intros ref|intros m].
    + rewrite (proj2 (overlaps_mark _ l1 i "" Hlt1)), (proj1 (Ho1 ref)). tauto.
    + rewrite (proj1 (overlaps_mark _ l1 i m Hlt1)), (proj2 (Ho1 (pod_ref pod))).
      assert (Hn : ∀ q, name_at l1 q = name_at l q) by (intros q; by apply name_at_blank). setoid_rewrite Hn. tauto.
  - split; [intros ref; rewrite (proj1 (Ho1 ref)); tauto|]. intros m. rewrite (proj2 (Ho1 (pod_ref pod))).
    split; [by left|]. intros [|((_ & Hp & Hd) & Hi & q & Hq & Hne & _)]; [done|]. exfalso.
    rewrite Hd, andb_true_r, bool_decide_false, andb_true_r in Hmark by done. apply Nat.ltb_ge in Hmark.
    destruct (matched_by l pod) as [|x [|y r]]; simpl in Hmark; [by apply not_elem_of_nil in Hi| |lia].
    apply list_elem_of_singleton in Hi, Hq. congruence.
Qed.

Lemma scan_fold pods l i :
  let l' := fold_left scan_pod pods l in
  map blank l' = map blank l ∧
  (∀ ref, ref ∈ owners_at l' i ↔ ref ∈ owners_at l i ∨
    ∃ pod, pod ∈ pods ∧ counted pod ∧ i ∈ matched_by l pod ∧ ref = pod_ref pod) ∧
  (∀ m, m ∈ overlaps_at l' i ↔ m ∈ overlaps_at l i ∨
    ∃ pod, pod ∈ pods ∧ blockable pod ∧ i ∈ matched_by l pod ∧
      ∃ q, q ∈ matched_by l pod ∧ i ≠ q ∧ m = name_at l q).
Proof.
  revert l. induction pods as [|pod pods IH]; intros l; simpl.
  { setoid_rewrite elem_of_nil. split; [done|]. split; intros; naive_solver. }
  destruct (IH (scan_pod l pod)) as (Hb & Ho & Hv). destruct (scan_pod_adds l pod i) as [Ho1 Hv1].
  pose proof (scan_pod_blank l pod) as Hb1.
  assert (Hm : ∀ x, matched_by (scan_pod l pod) x = matched_by l x) by (intros x; by apply matched_blank).
  assert (Hn : ∀ q, name_at (scan_pod l pod) q = name_at l q) by (intros q; by apply name_at_blank).
  split; [by rewrite Hb|]. setoid_rewrite elem_of_cons. split.
  - intros ref. rewrite Ho, Ho1. setoid_rewrite Hm. naive_solver.
  - intros m. rewrite Hv, Hv1. setoid_rewrite Hm. setoid_rewrite Hn. naive_solver.
Qed.

(** A paged list read to its end hands every item to the fold. *)
Lemma list_all_served {A} fuel k what (each : A → object k → A) srv ps ts acc :
  served srv "" ps ts None → (length ts ≤ fuel)%nat →
  ∃ tr, runs (list_all fuel k what each acc) tr (Ok (fold_left each (concat ps) acc)).
Proof.
  intros Hs Hf. eexists. apply runs_bind. eexists _, [], _. split; [reflexivity|].
  split; [by apply (pages_loop_served (List Server k "") (λ o x, x) (do_list Server k "")
    (wrap_err ("list " +:+ what)) each srv fuel "" ps ts None acc (λ o x, do_list_runs _ _ _ _ x) Hs Hf)|done].
Qed.

(** C19: [scanPods] records on each budget exactly the owners of the pods in its
    namespace that it selects and that have not ended, and as overlaps exactly
    the names of the other budgets that select such a pod too, when the pod is
    neither pending nor being deleted, over every page of the cluster's pods. *)
Theorem scanPods_exact fuel pdbs srv ps ts :
  served srv "" ps ts None → (length ts ≤ fuel)%nat →
  ∃ tr pdbs', runs (scanPods fuel pdbs) tr (Ok pdbs') ∧ length pdbs' = length pdbs ∧
  ∀ i p p', pdbs !! i = Some p → pdbs' !! i = Some p' →
    a_name p' = a_name p ∧ a_ns p' = a_ns p ∧
    (∀ ref, ref ∈ a_owners p' ↔ ref ∈ a_owners p ∨
      ∃ pod, pod ∈ concat ps ∧ counted pod ∧ covers p pod ∧ ref = pod_ref pod) ∧
    (∀ m, m ∈ a_overlaps p' ↔ m ∈ a_overlaps p ∨
      ∃ pod j q, pod ∈ concat ps ∧ blockable pod ∧ covers p pod ∧
        j ≠ i ∧ pdbs !! j = Some q ∧ covers q pod ∧ m = a_name q).
Proof.
  intros Hs Hf. destruct (list_all_served fuel KPods "pods" scan_pod srv ps ts pdbs Hs Hf) as [tr Hr].
  exists tr, (fold_left scan_pod (concat ps) pdbs). split; [exact Hr|].
  assert (Hb : map blank (fold_left scan_pod (concat ps) pdbs) = map blank pdbs) by apply (scan_fold _ _ 0).
  split; [by rewrite <- (length_map blank), Hb, length_map|]. intros i p p' Hp Hp'.
  destruct (scan_fold (concat ps) pdbs i) as (_ & Ho & Hv).
  apply (blank_at _ _ i) in Hb. rewrite Hp, Hp' in Hb. simpl in Hb. assert (E : blank p' = blank p) by congruence.
  split; [exact (f_equal a_name E)|]. split; [exact (f_equal a_ns E)|].
  unfold owners_at in Ho. unfold overlaps_at in Hv. rewrite Hp, Hp' in Ho, Hv.
  assert (Hm : ∀ pod, i ∈ matched_by pdbs pod ↔ covers p pod).
  { intros pod. rewrite elem_of_matched, Hp. naive_solver. }
  split; [intros ref; rewrite Ho; by setoid_rewrite Hm|].
  intros m. rewrite Hv. setoid_rewrite Hm. setoid_rewrite elem_of_matched. unfold name_at.
  split; (intros [|Hx]; [by left|right]).
  - destruct Hx as (pod & Hin & Hbl & Hc & q & (x & Hx & Hcx) & Hne & ->). exists pod, q, x. rewrite Hx. naive_solver.
  - destruct Hx as (pod & j & q & Hin & Hbl & Hc & Hne & Hj & Hcq & ->). exists pod.
    split_and!; [done..|]. exists j. rewrite Hj. naive_solver.
Qed.

(** ** Owners do not depend on map order *)

Lemma ordered_unique {A} (less : A → A → bool) l l' : StrictWeak less →
  (∀ x y, x ∈ l → y ∈ l → less x y = false → less y x = false → x = y) →
  l ≡ₚ l' → in_order less l → in_order less l' → l = l'.
Proof.
  intros HW. revert l'. induction l as [|x l IH]; intros l' Hanti Hp Hl Hl'.
  { by apply Permutation_nil in Hp as ->. }
  destruct l' as [|y l']; [by symmetry in Hp; apply Permutation_nil in Hp|].
  apply StronglySorted_inv in Hl as [Hl Hx], Hl' as [Hl' Hy]. rewrite Forall_forall in Hx, Hy.
  assert (x = y) as ->.
  { apply Hanti; [left|rewrite Hp; left| |].
    - assert (Hin : x ∈ y :: l') by (rewrite <- Hp; left). apply elem_of_cons in Hin as [->|Hin]; [|by apply Hy].
      destruct (less y y) eqn:Hyy; [|done]. pose proof (sw_asym _ _ Hyy). congruence.
    - assert (Hin : y ∈ x :: l) by (rewrite Hp; left). apply elem_of_cons in Hin as [->|Hin]; [|by apply Hx].
      destruct (less x x) eqn:Hyy; [|done]. pose proof (sw_asym _ _ Hyy). congruence. }
  f_equal. apply IH; [|by apply Permutation_cons_inv in Hp|done|done].
  intros a b Ha Hb. apply Hanti; by right.
Qed.

Section resolve.
Context `{Unicode, Unstructured, Selectors, SliceSort} (rsDeployment : gmap string string) (wlIndex : gmap string workload).

Definition owner_key (ref : ownerRef) : string :=
  let '(kind, name) := resolved rsDeployment ref in kind +:+ "/" +:+ name.

(** References that share a key, or whose owners share kind and name, are
    reported the same. *)
Definition one_report (refs : list ownerRef) : Prop := ∀ r1 r2, r1 ∈ refs → r2 ∈ refs →
  let o1 := owner_of rsDeployment wlIndex r1 in let o2 := owner_of rsDeployment wlIndex r2 in
  owner_key r1 = owner_key r2 ∨ (ao_kind o1 = ao_kind o2 ∧ ao_name o1 = ao_name o2) → o1 = o2.

Lemma resolve_loop_cons seen r refs : resolve_loop rsDeployment wlIndex seen (r :: refs) =
  if decide (owner_key r ∈ seen) then resolve_loop rsDeployment wlIndex seen refs
  else owner_of rsDeployment wlIndex r :: resolve_loop rsDeployment wlIndex (owner_key r :: seen) refs.
Proof. simpl. unfold owner_key. by destruct (resolved rsDeployment r). Qed.

Lemma resolve_loop_seen seen seen' refs : (∀ k, k ∈ seen ↔ k ∈ seen') →
  resolve_loop rsDeployment wlIndex seen refs = resolve_loop rsDeployment wlIndex seen' refs.
Proof.
  revert seen seen'. induction refs as [|r refs IH]; intros seen seen' Hs; [done|].
  rewrite !resolve_loop_cons. assert (Hd := Hs (owner_key r)). repeat case_decide; try tauto; [by apply IH|].
  f_equal. apply IH. intros k. rewrite !elem_of_cons, Hs. done.
Qed.

Lemma resolve_loop_in seen refs o : o ∈ resolve_loop rsDeployment wlIndex seen refs →
  ∃ r, r ∈ refs ∧ o = owner_of rsDeployment wlIndex r.
Proof.
  revert seen. induction refs as [|r refs IH]; intros seen; [by intros ?%not_elem_of_nil|].
  rewrite resolve_loop_cons. case_decide.
  - intros (r' & ? & ->)%IH. exists r'. split; [by right|done].
  - intros [->|(r' & ? & ->)%IH]%elem_of_cons; [exists r|exists r']; (split; [by constructor|done]).
Qed.

Lemma resolve_loop_perm refs refs' seen : refs ≡ₚ refs' → one_report refs →
  resolve_loop rsDeployment wlIndex seen refs ≡ₚ resolve_loop rsDeployment wlIndex seen refs'.
Proof.
  intros Hp. revert seen. induction Hp as [|r refs refs' _ IH|r1 r2 refs|l1 l2 l3 H12 IH1 _ IH2]; intros seen Hone.
  - done.
  - assert (Hone' : one_report refs) by (intros a b Ha Hb; apply Hone; by right).
    rewrite !resolve_loop_cons. case_decide; [by apply IH|]. constructor. by apply IH.
  - rewrite !resolve_loop_cons. destruct (decide (owner_key r1 = owner_key r2)) as [Heq|Hne].
    + rewrite Heq. assert (Ho : owner_of rsDeployment wlIndex r1 = owner_of rsDeployment wlIndex r2).
      { apply Hone; [right; left|left|by left]. }
      rewrite Ho. repeat case_decide; try done; set_solver.
    + assert (Hsw : resolve_loop rsDeployment wlIndex (owner_key r1 :: owner_key r2 :: seen) refs =
        resolve_loop rsDeployment wlIndex (owner_key r2 :: owner_key r1 :: seen) refs).
      { apply resolve_loop_seen. intros k. rewrite !elem_of_cons. tauto. }
      destruct (decide (owner_key r1 ∈ seen)), (decide (owner_key r2 ∈ seen)); rewrite ?resolve_loop_cons;
        repeat case_decide; try (by set_solver); rewrite ?Hsw; try done; try apply Permutation_swap.
  - rewrite IH1 by done. apply IH2. intros a b Ha Hb. apply Hone; by rewrite H12.
Qed.

#[local] Instance owner_less_weak : StrictWeak owner_less.
Proof. apply lex_by_weak, (weak_on ao_name str_lt str_lt_weak). Qed.

Lemma owner_less_total x y : owner_less x y = false → owner_less y x = false →
  ao_kind x = ao_kind y ∧ ao_name x = ao_name y.
Proof.
  unfold owner_less, lex_by. repeat case_decide; try congruence; intros H1' H2'.
  - split; [done|by apply str_lt_total].
  - exfalso. assert (ao_kind x = ao_kind y); [by apply str_lt_total|done].
Qed.

(** C38: The owners reported for a budget do not depend on the iteration order
    of the map they were gathered in, as long as owners of the same kind and
    name are reported the same. *)
Theorem resolveOwners_order refs refs' : refs ≡ₚ refs' → one_report refs →
  resolveOwners refs rsDeployment wlIndex = resolveOwners refs' rsDeployment wlIndex.
Proof.
  intros Hp Hone. unfold resolveOwners.
  pose proof (resolve_loop_perm refs refs' [] Hp Hone) as Hl.
  apply (ordered_unique owner_less); try apply slice_sort_ordered; try apply _.
  - intros x y Hx Hy Hxy Hyx. rewrite slice_sort_perm in Hx, Hy.
    apply resolve_loop_in in Hx as (r1 & Hr1 & ->), Hy as (r2 & Hr2 & ->).
    apply Hone; [done..|]. right. by apply owner_less_total.
  - by rewrite !slice_sort_perm.
Qed.

End resolve.

(** ** Images *)

Section images.
Context `{Unicode}.

(** An image that is looked at: not an exporter. *)
Definition service_image (img kw : string) : Prop :=
  Contains (imageName img) "exporter" = false ∧ Contains (imageName img) kw = true.

Lemma better_fold name keywords best :
  let e := fold_left (better name) keywords best in
  (String.length best ≤ String.length e)%nat ∧
  (e = best ∨ (e ∈ keywords ∧ Contains name e = true)) ∧
  (∀ kw, kw ∈ keywords → Contains name kw = true → (String.length kw ≤ String.length e)%nat).
Proof.
  revert best. induction keywords as [|k ks IH]; intros best; simpl.
  { split; [done|]. split; [by left|by intros kw ?%not_elem_of_nil]. }
  destruct (IH (better name best k)) as (Hle & He & Hmax).
  assert (Hb : (String.length best ≤ String.length (better name best k))%nat ∧
    (better name best k = best ∨ (better name best k = k ∧ Contains name k = true)) ∧
    (Contains name k = true → (String.length k ≤ String.length (better name best k))%nat)).
  { unfold better. destruct (Nat.ltb_spec (String.length best) (String.length k)), (Contains name k) eqn:Hc; simpl;
      split_and!; auto with lia; try done. }
  destruct Hb as (Hb1 & Hb2 & Hb3). split; [lia|]. split.
  - destruct He as [->|[Hin Hc]]; [destruct Hb2 as [->|[-> Hc]]; [by left|right; split; [by left|done]]|].
    right. split; [by right|done].
  - intros kw [->|Hin]%elem_of_cons Hc; [specialize (Hb3 Hc); lia|by apply Hmax].
Qed.

(** [detectEngine] returns a longest keyword contained in the name of an
    image that is not an exporter, or the empty string when there is none; so "redis-sentinel" wins over "redis". *)
Theorem detectEngine_longest images keywords :
  let e := detectEngine images keywords in
  (e = "" ∨ (e ∈ keywords ∧ ∃ img, img ∈ images ∧ service_image img e)) ∧
  (∀ kw img, kw ∈ keywords → img ∈ images → service_image img kw → (String.length kw ≤ String.length e)%nat).
Proof.
  unfold detectEngine. set (f := λ best img, _).
  enough (Hg : ∀ best, let e := fold_left f images best in (String.length best ≤ String.length e)%nat ∧
    (e = best ∨ (e ∈ keywords ∧ ∃ img, img ∈ images ∧ service_image img e)) ∧
    (∀ kw img, kw ∈ keywords → img ∈ images → service_image img kw → (String.length kw ≤ String.length e)%nat))
    by (destruct (Hg "") as (_ & H1 & H2); split; [exact H1|exact H2]).
  induction images as [|img images IH]; intros best; simpl.
  { split; [done|]. split; [by left|by intros kw img _ ?%not_elem_of_nil]. }
  destruct (IH (f best img)) as (Hle & He & Hmax).
  assert (Hb : let b := f best img in (String.length best ≤ String.length b)%nat ∧
    (b = best ∨ (b ∈ keywords ∧ service_image img b)) ∧
    (∀ kw, kw ∈ keywords → service_image img kw → (String.length kw ≤ String.length b)%nat)).
  { unfold f, service_image. cbv zeta. destruct (Contains (imageName img) "exporter") eqn:Hx.
    - split; [done|]. split; [by left|by intros kw _ []].
    - destruct (better_fold (imageName img) keywords best) as (B1 & B2 & B3). split; [done|]. split.
      + destruct B2 as [->|[? ?]]; [by left|by right].
      + intros kw Hk [_ Hc]. by apply B3. }
  cbv zeta in Hb. destruct Hb as (B1 & B2 & B3). split; [lia|]. split.
  - destruct He as [->|(Hk & i & Hi & Hs)].
    + destruct B2 as [->|[Hk Hs]]; [by left|]. right. split; [done|]. exists img. split; [by left|done].
    + right. split; [done|]. exists i. split; [by right|done].
  - intros kw i Hk [->|Hi]%elem_of_cons Hs; [specialize (B3 kw Hk Hs); lia|by apply (Hmax kw i)].
Qed.

(** *** Bitnami releases *)

Lemma insert_fold {A B K} `{Countable K} (f : A → option (K * B)) (P : K → B → Prop) l m :
  (∀ a k b, a ∈ l → f a = Some (k, b) → P k b) → (∀ k b, m !! k = Some b → P k b) →
  ∀ k b, fold_left (λ (m : gmap K B) a, match f a with Some (k, b) => <[k := b]> m | None => m end) l m !! k = Some b → P k b.
Proof.
  revert m. induction l as [|a l IH]; intros m Hf Hm; simpl; [exact Hm|].
  apply IH; [by intros; eapply Hf; [right|]|]. destruct (f a) as [[k0 b0]|] eqn:Ha; [|exact Hm].
  intros k b. rewrite lookup_insert_Some. intros [[<- <-]|[_ Hk]]; [by eapply Hf; [left|]|by apply Hm].
Qed.

Lemma elem_of_positions (ws : list workload) i w : (i, w) ∈ imap pair ws ↔ ws !! i = Some w.
Proof.
  rewrite list_elem_of_lookup. split.
  - intros [j Hj]. rewrite list_lookup_imap in Hj. destruct (ws !! j) as [x|] eqn:Hx; simpl in Hj; [|done].
    by injection Hj as <- <-.
  - intros Hi. exists i. by rewrite list_lookup_imap, Hi.
Qed.

Definition at_release (ws : list workload) (i : nat) (component k : string) : Prop :=
  ∃ w, ws !! i = Some w ∧ has_component component w = true ∧ release w = k.

Lemma masters_spec ws k m : masters ws !! k = Some m → at_release ws m "master" k.
Proof.
  pose proof (insert_fold (λ iw : nat * workload, if has_component "master" iw.2 then Some (release iw.2, iw.1) else None)
    (λ k m, at_release ws m "master" k) (imap pair ws) ∅) as Hi.
  unfold masters. intros Hk. apply Hi; [|by intros ? ? ?%lookup_empty_Some|].
  - intros [i w] k' m' Hin%elem_of_positions. cbn [fst snd]. destruct (has_component "master" w) eqn:Hc; [|done].
    intros [= <- <-]. by exists w.
  - rewrite <- Hk. f_equal. generalize (∅ : gmap string nat). generalize (imap pair ws). clear.
    induction l as [|[i w] l IH]; intros m0; simpl; [done|]. by destruct (has_component "master" w).
Qed.

Lemma bitnami_spec ws m r : bitnamiReplicas ws !! m = Some r →
  ∃ k, at_release ws m "master" k ∧ at_release ws r "replica" k.
Proof.
  pose proof (insert_fold (λ iw : nat * workload, if has_component "replica" iw.2 then
      match masters ws !! release iw.2 with Some m => Some (m, iw.1) | None => None end else None)
    (λ m r, ∃ k, at_release ws m "master" k ∧ at_release ws r "replica" k) (imap pair ws) ∅) as Hi.
  unfold bitnamiReplicas. intros Hk. apply Hi; [|by intros ? ? ?%lookup_empty_Some|].
  - intros [i w] m' r' Hin%elem_of_positions. cbn [fst snd]. destruct (has_component "replica" w) eqn:Hc; [|done].
    destruct (masters ws !! release w) as [m0|] eqn:Hm; [|done]. intros [= <- <-].
    exists (release w). split; [by apply masters_spec|by exists w].
  - rewrite <- Hk. f_equal. generalize (∅ : gmap nat nat). generalize (imap pair ws). clear.
    induction l as [|[i w] l IH]; intros m0; simpl; [done|]. destruct (has_component "replica" w); [|done].
    by destruct (masters ws !! release w).
Qed.

Lemma component_not_both w c c' : has_component c w = true → has_component c' w = true → c = c'.
Proof.
  unfold has_component. intros [_ H1]%andb_true_iff [_ H2]%andb_true_iff.
  apply bool_decide_eq_true in H1, H2. congruence.
Qed.

(** C20: An image instance stands for a workload no operator controls, with the
    longest keyword of its images; it is a quorum system only as a StatefulSet
    of a quorum engine and otherwise a cache; the read-only replicas it
    reports are another StatefulSet of the same Bitnami release, which is not
    an instance of its own. *)
Theorem imageInstances_sound workloads pdbs quorumImages inst :
  inst ∈ imageInstances workloads pdbs quorumImages →
  ∃ i w, workloads !! i = Some w ∧ w_controller w = None ∧
    i_ns inst = w_ns w ∧ i_name inst = w_name w ∧ i_kind inst = w_kind w ∧ i_replicas inst = w_replicas w ∧
    i_engine inst = detectEngine (w_images w) (cacheEngines ++ quorumImages) ∧ i_engine inst ≠ "" ∧
    (i_quorum inst = true ↔ w_kind w = "StatefulSet" ∧ i_engine inst ∈ quorumImages) ∧
    (i_quorum inst = false → i_engine inst ∈ cacheEngines) ∧
    (i_replicaWorkload inst ≠ "" → ∃ r rw, workloads !! r = Some rw ∧ r ≠ i ∧
      release rw = release w ∧ release w ≠ "" ∧ i_replicaWorkload inst = w_name rw ∧ i_readReplicas inst = w_replicas rw ∧
      image_instance workloads pdbs quorumImages (bitnamiReplicas workloads) (r, rw) = None).
Proof.
  unfold imageInstances. intros ([i w] & Hin%elem_of_positions & Hi)%list_elem_of_omap.
  unfold image_instance in Hi. exists i, w. split; [done|]. destruct (w_controller w); [done|]. simpl in Hi.
  case_bool_decide as Hfold; [done|]. set (e := detectEngine _ _) in *.
  case_bool_decide as He; [done|]. destruct (negb _ && _) eqn:Hq; [done|].
  set (reads := match bitnamiReplicas workloads !! i with Some _ => _ | None => _ end) in Hi.
  assert (Hrw : reads.2 ≠ "" → ∃ r rw, bitnamiReplicas workloads !! i = Some r ∧ workloads !! r = Some rw ∧
    reads = (w_replicas rw, w_name rw)).
  { unfold reads. destruct (bitnamiReplicas workloads !! i) as [r|]; [|done].
    destruct (workloads !! r) as [rw|] eqn:Hr; [|done]. intros _. by exists r, rw. }
  destruct reads as [rr rname]. injection Hi as <-. cbn. cbn [snd] in Hrw. split_and!; try done.
  - rewrite andb_true_iff, !bool_decide_eq_true. done.
  - intros Hf. rewrite Hf in Hq. simpl in Hq. by apply negb_false_iff, bool_decide_eq_true in Hq.
  - intros Hne. destruct (Hrw Hne) as (r & rw & Hb & Hr & [= -> ->]). exists r, rw.
    apply bitnami_spec in Hb as Hk. destruct Hk as (k & (w' & Hw' & Hm & Hrel) & (rw' & Hrw' & Hrep & Hrel')).
    simplify_eq. split_and!; try done.
    + intros ->. simplify_eq. by pose proof (component_not_both _ _ _ Hm Hrep).
    + unfold has_component in Hm. apply andb_true_iff in Hm as [Hm _]. by apply negb_true_iff, bool_decide_eq_false in Hm.
    + unfold image_instance. rewrite (bool_decide_true (map_Exists _ _)); [by rewrite orb_true_r|].
      exists i, r. done.
Qed.

End images.

(** ** Namespaces *)

Section join.
Context `{Unicode, Unstructured, Selectors, SliceSort}.

Lemma insert_all {A} (f : string → A) ns (m : gmap string A) k :
  fold_left (λ (m : gmap string A) x, <[x := f x]> m) ns m !! k = if decide (k ∈ ns) then Some (f k) else m !! k.
Proof.
  revert m. induction ns as [|x ns IH]; intros m.
  - done.
  - cbn [fold_left]. rewrite IH, lookup_insert. repeat case_decide; set_solver.
Qed.

(** The audit has an entry for every namespace of a reported budget or
    instance and for no other, with that namespace's team, environment and
    labels, empty when the namespace has none; instances come in order of
    namespace, name and kind. *)
Theorem join_all_namespaces quorumImages pdbs workloads nsLabels kinds rsDeployment ns :
  let au := join_all quorumImages pdbs workloads nsLabels kinds rsDeployment in
  au_namespaces au !! ns =
    (if decide (ns ∈ map (λ o, a_ns (po_pdb o)) (au_pdbs au) ++ map i_ns (au_instances au))
     then Some (newNSOwner (default [] (nsLabels !! ns))) else None) ∧
  in_order instance_less (au_instances au).
Proof.
  cbn [join_all au_namespaces au_pdbs au_instances]. split.
  - rewrite insert_all, lookup_empty, map_map. done.
  - apply slice_sort_ordered. apply lex_by_weak, lex_by_weak, (weak_on i_kind str_lt str_lt_weak).
Qed.

End join.

(** ** Witnesses *)

Module AuditDemo.
#[local] Existing Instance plain_unicode.
#[local] Existing Instance plain_unstructured.
#[local] Existing Instance plain_selectors.

Definition all_pods : Selector := mkSel (λ _, true) "".
Definition budget (name : string) : auditPDB := mkAuditPDB "ns" name None None "" 1 1 1 0 "" all_pods [] [].
Definition web : Pod :=
  mkPod (mkMeta "web-1" "ns" [] [] "" 0 None (Some (mkOwner "apps/v1" "ReplicaSet" "web-abc" "u1"))) "" [] "Running" "" "" "" [] [].
Definition one_page (tok : string) : result error (list Pod * string) := Ok ([web], "").

Lemma scanPods_exact_witness : ∃ tr pdbs', runs (scanPods 1 [budget "a"; budget "b"]) tr (Ok pdbs') ∧
  ∃ p', pdbs' !! 0%nat = Some p' ∧ "b" ∈ a_overlaps p' ∧ pod_ref web ∈ a_owners p'.
Proof.
  destruct (scanPods_exact 1 [budget "a"; budget "b"] one_page [[web]] [""] ltac:(by constructor) ltac:(simpl; lia))
    as (tr & pdbs' & Hr & Hl & Hp).
  exists tr, pdbs'. split; [exact Hr|]. destruct pdbs' as [|p' rest]; [discriminate Hl|].
  exists p'. split; [reflexivity|].
  destruct (Hp 0%nat (budget "a") p' eq_refl eq_refl) as (_ & _ & Ho & Hv).
  assert (Hc : ∀ n, covers (budget n) web) by (by split).
  assert (Hcnt : counted web) by (by split). split.
  - apply Hv. right. exists web, 1%nat, (budget "b"). split; [by left|]. split; [by split|]. by split_and!.
  - apply Ho. right. exists web. split; [by left|]. by split_and!.
Defined.

Definition rs_of (n : string) : ownerRef := mkRef "ns" "ReplicaSet" n "apps/v1".
Definition to_web : gmap string string := {["ns/web-abc" := "web"; "ns/web-def" := "web"]}.

Lemma resolveOwners_order_witness :
  resolveOwners [rs_of "web-abc"; rs_of "web-def"; rs_of "other"] to_web ∅ =
  resolveOwners [rs_of "other"; rs_of "web-def"; rs_of "web-abc"] to_web ∅.
Proof.
  apply (resolveOwners_order to_web ∅).
  - change [rs_of "other"; rs_of "web-def"; rs_of "web-abc"] with (rev [rs_of "web-abc"; rs_of "web-def"; rs_of "other"]).
    apply Permutation_rev.
  - intros r1 r2 H1 H2. repeat (rewrite elem_of_cons in H1, H2). rewrite !elem_of_nil in H1, H2.
    destruct H1 as [->|[->|[->|[]]]], H2 as [->|[->|[->|[]]]]; vm_compute; intros [Hk|[Hk Hn]];
      (reflexivity || discriminate Hk || discriminate Hn).
Defined.

(** Two controllers of one kind and name in different API groups: which one is
    reported depends on the iteration order. *)
Lemma same_kind_and_name_depends_on_order :
  resolveOwners [mkRef "ns" "Cluster" "x" "a/v1"; mkRef "ns" "Cluster" "x" "b/v1"] ∅ ∅ ≠
  resolveOwners [mkRef "ns" "Cluster" "x" "b/v1"; mkRef "ns" "Cluster" "x" "a/v1"] ∅ ∅.
Proof. vm_compute. discriminate. Qed.

Definition sts (name component : string) (n : Z) : workload :=
  mkWorkload "StatefulSet" "ns" name n ["docker.io/bitnami/redis:7"]
    [(labelInstance, "shop"); (labelAppName, "redis"); (labelComponent, component)] [] None "".

Lemma imageInstances_sound_witness : ∃ inst,
  imageInstances [sts "shop-master" "master" 1; sts "shop-replica" "replica" 3] [] defaultQuorumImages = [inst] ∧
  i_replicaWorkload inst = "shop-replica" ∧ i_engine inst ≠ "".
Proof.
  eexists. split; [vm_compute; reflexivity|]. split; [reflexivity|].
  set (inst := mkInstance _ _ _ _ _ _ _ _ _ _ _ _ _).
  destruct (imageInstances_sound [sts "shop-master" "master" 1; sts "shop-replica" "replica" 3] [] defaultQuorumImages inst)
    as (i & w & H'); [|by apply H'].
  assert (Heq : imageInstances [sts "shop-master" "master" 1; sts "shop-replica" "replica" 3] [] defaultQuorumImages = [inst])
    by (vm_compute; reflexivity).
  rewrite Heq. by left.
Defined.

Example image_names : map imageName ["reg:5000/bitnami/Redis:7.2"; "redis@sha256:ab"; "etcd"] = ["redis"; "redis"; "etcd"].
Proof. by vm_compute. Qed.

Example engines :
  map (λ l, detectEngine l (cacheEngines ++ defaultQuorumImages))
    [["quay.io/x/redis-sentinel:1"]; ["redis"; "oliver006/redis_exporter"]; ["redis_exporter"]; ["nginx"]] =
  ["redis-sentinel"; "redis"; ""; ""].
Proof. by vm_compute. Qed.
End AuditDemo.
