(* ===== verification/DisruptionConc.v ===== *)
(** * The disruption audit's goroutines (internal/mcp/audit.go)

    The two groups of the audit with their goroutines interleaved in any way
    and their assignments made in any order, against
    [Disruption.handleDisruptionAudit], which runs them one after the other. *)

From S2P Require Import Prelude Effects Parallel GoStrings GoTime Value Kube Pages Args Instances Disruption.
Local Open Scope Z_scope.

Section concurrent.
Context `{Unicode, Unstructured, Selectors, GVRText, SliceSort}.

(** A step: the group's outcome, and for a success the variables after the
    assignments in the order the goroutines made them. *)
Definition step_waits (gs : list (io (result error (captured → captured)))) (c : captured)
    (tr : list (event request reply)) (out : result error captured) : Prop :=
  ∃ res, waits gs tr res ∧
    match res with
    | Err e => out = Err e
    | Ok us => ∃ us', us' ≡ₚ us ∧ out = Ok (assigned us' c)
    end.

Definition audit_waits (fuel : nat) (a : args) (tr : list (event request reply)) (out : result error audit) : Prop :=
  ∃ tr1 out1, step_waits (step1 fuel) unassigned tr1 out1 ∧
    match out1 with
    | Err e => tr = tr1 ∧ out = Err e
    | Ok c => ∃ tr2 out2, tr = tr1 ++ tr2 ∧ step_waits (step2 fuel (c_pdbs c)) c tr2 out2 ∧
        out = match out2 with Ok c' => Ok (joined a c') | Err e => Err e end
    end.

(** ** The goroutines write separate variables *)

Definition commute (f g : captured → captured) : Prop := ∀ c, f (g c) = g (f c).

Lemma assigned_perm us us' c : (∀ f g, f ∈ us → g ∈ us → commute f g) → us ≡ₚ us' → assigned us c = assigned us' c.
Proof.
  unfold assigned. intros Hc Hp. revert c. induction Hp as [|f us us' Hp IH|f g us|us1 us2 us3 H12 IH1 H23 IH2]; intros c; cbn.
  - done.
  - apply IH. intros f' g' Hf Hg. apply Hc; by right.
  - rewrite (Hc f g); [done|right; left|left].
  - rewrite IH1 by done. apply IH2. intros f g Hf Hg. apply Hc; by rewrite H12.
Qed.

Lemma go_runs {A} (assign : A → captured → captured) p tr u : runs (go assign p) tr (Ok u) → ∃ x, u = assign x.
Proof. intros [(tr1 & tr2 & x & -> & _ & [-> [= <-]])|(e & _ & ?)]%runs_try; [|done]. by exists x. Qed.

(** What the goroutine at a place of step 1 may assign. *)
Definition step1_writes (i : nat) (u : captured → captured) : Prop :=
  match i with
  | 0%nat => ∃ x, u = set_pdbs x
  | 1%nat => ∃ x, u = set_workloads x
  | 2%nat => ∃ x, u = set_nsLabels x
  | S (S (S k)) => ∃ x, u = set_crs k x
  end.

Lemma step1_commute i j u v : step1_writes i u → step1_writes j v → i ≠ j → commute u v.
Proof.
  destruct i as [|[|[|i]]], j as [|[|[|j]]]; intros [x ->] [y ->] Hij c; try done.
  unfold set_crs. cbn. rewrite list_insert_insert_ne by congruence. done.
Qed.

Lemma step1_runs fuel i p tr u : step1 fuel !! i = Some p → runs p tr (Ok u) → step1_writes i u.
Proof.
  unfold step1. destruct i as [|[|[|i]]]; cbn [app lookup list_lookup]; try (intros [= <-]; apply go_runs).
  intros Hi. apply list_lookup_imap_Some in Hi as (kind & _ & ->). apply go_runs.
Qed.

Lemma results_at {U} (ps : list (io (result error U))) ts us i u : Forall3 (λ p t u, runs p t (Ok u)) ps ts us → us !! i = Some u →
  ∃ p t, ps !! i = Some p ∧ runs p t (Ok u).
Proof. intros Hf Hi. destruct (Forall3_lookup_r _ _ _ _ _ _ Hf Hi) as (p & t & ? & ? & ?). by exists p, t. Qed.

Lemma step1_commutes fuel ts us : Forall3 (λ p t u, runs p t (Ok u)) (step1 fuel) ts us → ∀ f g, f ∈ us → g ∈ us → commute f g.
Proof.
  intros Hf f g [i Hi]%list_elem_of_lookup [j Hj]%list_elem_of_lookup.
  destruct (decide (i = j)) as [->|Hij]; [simplify_eq; done|].
  destruct (results_at _ _ _ _ _ Hf Hi) as (p & t & Hp & Hr), (results_at _ _ _ _ _ Hf Hj) as (p' & t' & Hp' & Hr').
  exact (step1_commute i j f g (step1_runs fuel i p t f Hp Hr) (step1_runs fuel j p' t' g Hp' Hr') Hij).
Qed.

Lemma step2_commutes fuel pdbs ts us : Forall3 (λ p t u, runs p t (Ok u)) (step2 fuel pdbs) ts us → ∀ f g, f ∈ us → g ∈ us → commute f g.
Proof.
  intros Hf f g Hi Hj. unfold step2 in Hf. inversion Hf as [|? t1 u1 ? ? ? Hr1 Hf1]; subst.
  inversion Hf1 as [|? t2 u2 ? ? ? Hr2 Hf2]; subst. inversion Hf2; subst.
  apply go_runs in Hr1 as [x ->]. apply go_runs in Hr2 as [y ->].
  rewrite !elem_of_cons, elem_of_nil in Hi, Hj. destruct_or! Hi; destruct_or! Hj; subst; done.
Qed.

(** A step that succeeds leaves what the goroutines leave one after the other. *)
Lemma step_in_turn gs c tr c' : (∀ ts us, Forall3 (λ p t u, runs p t (Ok u)) gs ts us → ∀ f g, f ∈ us → g ∈ us → commute f g) →
  step_waits gs c tr (Ok c') → ∃ tr' us, tr' ≡ₚ tr ∧ runs (in_turn gs) tr' (Ok us) ∧ c' = assigned us c.
Proof.
  intros Hc ([us|e] & Hw & Hout); [|done]. destruct Hout as (us' & Hp & [= ->]).
  apply waits_ok in Hw as (ts & Htr & Hf). exists (concat ts), us. split_and!; [done|by apply in_turn_runs|].
  symmetry. apply assigned_perm; [by eapply Hc|by symmetry].
Qed.

Lemma in_turn_step gs c tr us : runs (in_turn gs) tr (Ok us) → step_waits gs c tr (Ok (assigned us c)).
Proof. intros Hr%in_turn_waits. exists (Ok us). split; [done|]. by exists us. Qed.

(** C21: Running the audit's goroutines together changes nothing: whatever the
    order of their requests and of their assignments, an audit they complete
    is one that [handleDisruptionAudit] answers with the same requests and
    replies in another order, and every run of [handleDisruptionAudit], a
    failing one included, is one way the goroutines can go. *)
Theorem audit_schedules fuel a tr :
  (∀ out, audit_waits fuel a tr (Ok out) → ∃ tr', tr' ≡ₚ tr ∧ runs (handleDisruptionAudit fuel a) tr' (Ok out)) ∧
  (∀ out, runs (handleDisruptionAudit fuel a) tr out → audit_waits fuel a tr out).
Proof.
  split.
  - intros out (tr1 & [c|e] & Hs1 & Hout); [|by destruct Hout]. destruct Hout as (tr2 & [c'|e] & -> & Hs2 & [= ->]).
    apply step_in_turn in Hs1 as (tr1' & us & Hp1 & Hr1 & ->); [|apply step1_commutes].
    apply step_in_turn in Hs2 as (tr2' & us2 & Hp2 & Hr2 & ->); [|apply step2_commutes].
    exists (tr1' ++ tr2'). split; [by rewrite Hp1, Hp2|]. apply runs_try. left. exists tr1', tr2', us. split_and!; [done..|].
    apply runs_try. left. exists tr2', [], us2. by rewrite app_nil_r.
  - intros out [(tr1 & tr2 & us & -> & Hs1 & Hs2)|(e & Hs1 & ->)]%runs_try.
    + exists tr1, (Ok (assigned us unassigned)). split; [by apply in_turn_step|]. exists tr2.
      apply runs_try in Hs2 as [(tr3 & tr4 & us2 & -> & Hs2 & [-> <-])|(e & Hs2 & ->)]; [rewrite app_nil_r|].
      * exists (Ok (assigned us2 (assigned us unassigned))). split_and!; [done|by apply in_turn_step|done].
      * exists (Err e). split_and!; [done| |done]. exists (Err e). split; [by apply in_turn_waits|done].
    + exists tr, (Err e). split; [|done]. exists (Err e). split; [by apply in_turn_waits|done].
Qed.

End concurrent.

Module AuditConcDemo.
#[local] Existing Instances plain_unicode plain_unstructured plain_selectors plain_gvr_text.

(** An empty cluster. *)
Definition answer (q : request) : reply q :=
  match q with
  | Get _ _ _ _ | DynGet _ _ _ _ | CreateJob _ _ _ => Err (ErrText "no")
  | List _ _ _ _ | DynList _ _ _ _ => Ok ([], "")
  | GetLogs _ _ _ _ | GetRaw _ _ => Ok ""
  | NewClient _ => None
  | ExecPod _ _ _ _ _ _ => mkExec None [] None false
  | Now => 5
  | Tick => false
  end.
Definition world (s : unit) (q : request) : reply q * unit := (answer q, s).

Definition run : option (result error audit * list (event request reply) * unit) :=
  interp world tt (handleDisruptionAudit 1 []).

Lemma audit_schedules_witness : ∃ tr out, run = Some (Ok out, tr, tt) ∧ audit_waits 1 [] tr (Ok out) ∧
  ∃ tr', tr' ≡ₚ tr ∧ runs (handleDisruptionAudit 1 []) tr' (Ok out).
Proof.
  destruct run as [[[[out|e] tr] []]|] eqn:Hr; [|by vm_compute in Hr..].
  exists tr, out. split; [reflexivity|]. pose proof (interp_runs world tt _ _ _ tt Hr) as Hruns.
  destruct (audit_schedules 1 [] tr) as [Hone Hall]. split; [exact (Hall _ Hruns)|exact (Hone _ (Hall _ Hruns))].
Defined.
End AuditConcDemo.
