(* ===== verification/Handlers.v ===== *)
(** * The read-only tools (internal/mcp/handlers.go)

    One definition per handler: the requests it makes and the answer it builds
    from the replies.  An answer is a JSON value, or the record [top_pods]; an
    object field the source sets only sometimes is set by [mset].  A nil slice
    or map, which the encoder prints as null, is [VNil].  Every reading of the
    clock is a request. *)

From S2P Require Import Prelude GoStrings GoTime Value Kube Pages Floats Json Instances Args Redact.
Local Open Scope Z_scope.
Local Open Scope mcp_scope.

Definition defaultListLimit : Z := 100.

Definition vint (n : nat) : value := VInt Kint (Z.of_nat n).

(** A map[string]string, a []string and a []map: null when nil. *)
Definition labels_value (l : labels) : value :=
  match l with [] => VNil | _ => VObj (map (λ e, (e.1, VStr e.2)) l) end.
Definition strings_or_null (l : list string) : value := match l with [] => VNil | _ => VList (map VStr l) end.
Definition list_or_null (l : list value) : value := match l with [] => VNil | _ => VList l end.

Fixpoint mapM_io {A B} (f : A → io B) (l : list A) : io (list B) :=
  match l with
  | [] => Ret []
  | x :: l' => let! y := f x in let! ys := mapM_io f l' in Ret (y :: ys)
  end.

(** ** Times *)

(** The text of an age of [d] nanoseconds. *)
Definition age_text (d : Z) : string :=
  if 48 * Hour <=? d then Itoa (Z.quot (int_Hours d) 24) +:+ "d" +:+ Itoa (Z.rem (int_Hours d) 24) +:+ "h"
  else if Hour <=? d then Itoa (int_Hours d) +:+ "h" +:+ Itoa (Z.rem (int_Minutes d) 60) +:+ "m"
  else if Minute <=? d then Itoa (int_Minutes d) +:+ "m"
  else Itoa (int_Seconds d) +:+ "s".

Definition age (t : Z) : io string :=
  if IsZero t then Ret "" else let! n := now in Ret (age_text (Sub n t)).

Definition eventTime (ev : Event) : Z :=
  if negb (IsZero (ev_last ev)) then ev_last ev
  else if negb (IsZero (ev_time ev)) then ev_time ev
  else CreationTimestamp (ev_meta ev).

(** ** Small renderings *)

Definition quantities (rl : ResourceList) : value :=
  match rl with [] => VNil | _ => VObj (map (λ e, (e.1, VStr (q_text e.2))) rl) end.

(** A missing resource reads as the zero quantity. *)
Definition rl_get (rl : ResourceList) (k : string) : Quantity := default (mkQuantity "0" 0 0) (mget k rl).

Definition containerState (s : ContainerState) : io string :=
  match Running s, Waiting s, Terminated s with
  | Some started, _, _ => let! a := age started in Ret ("Running since " +:+ a +:+ " ago")
  | _, Some (reason, message), _ => Ret ("Waiting (" +:+ reason +:+ "): " +:+ message)
  | _, _, Some (reason, code) => Ret ("Terminated (" +:+ reason +:+ ", exit " +:+ Itoa code +:+ ")")
  | _, _, _ => Ret ""
  end.

Definition deploymentProblem (conditions : list Condition) : string :=
  match List.find (λ c, (bool_decide (c_type c = "Available") || bool_decide (c_type c = "Progressing")) &&
                        negb (bool_decide (c_status c = "True"))) conditions with
  | Some c => c_reason c +:+ ": " +:+ c_message c
  | None => ""
  end.

Definition nodeRoles (node : Node) : list string :=
  let roles := flat_map (λ e, let '(role, ok) := CutPrefix e.1 "node-role.kubernetes.io/" in
    if ok && negb (bool_decide (role = "")) then [role] else []) (Labels (n_meta node)) in
  stable_sort str_lt roles.

(** The reason shown for a container, over the one so far. *)
Definition status_reason (reason : string) (st : ContainerStatus) : string :=
  match Waiting (cs_state st) with
  | Some (r, _) => if decide (r = "") then
      match Terminated (cs_state st) with Some (r', _) => if decide (r' = "") then reason else r' | None => reason end
      else r
  | None => match Terminated (cs_state st) with Some (r', _) => if decide (r' = "") then reason else r' | None => reason end
  end.

Definition pod_reason_text (pod : Pod) : string :=
  let reason := fold_left status_reason (pod_statuses pod) "" in
  if decide (Kube.pod_reason pod = "") then reason else Kube.pod_reason pod.

(** Restarts add up in 32 bits. *)
Definition restarts (pod : Pod) : Z := fold_left (λ n st, int32 (n + cs_restarts st)) (pod_statuses pod) 0.

Definition podSummary (pod : Pod) : io value :=
  let ready := length (List.filter cs_ready (pod_statuses pod)) in
  let reason := pod_reason_text pod in
  let! a := age (CreationTimestamp (pod_meta pod)) in
  let entry := [
    ("name", VStr (Name (pod_meta pod))); ("namespace", VStr (Namespace (pod_meta pod)));
    ("phase", VStr (pod_phase pod));
    ("ready", VStr (Itoa (Z.of_nat ready) +:+ "/" +:+ Itoa (Z.of_nat (length (pod_containers pod)))));
    ("restarts", VInt Kint32 (restarts pod)); ("node", VStr (pod_nodeName pod)); ("age", VStr a)] in
  Ret (VObj (if negb (bool_decide (reason = "")) && negb (bool_decide (reason = "Completed"))
             then mset "reason" (VStr reason) entry else entry)).

Definition condition_full (c : Condition) : value :=
  VObj [("type", VStr (c_type c)); ("status", VStr (c_status c)); ("reason", VStr (c_reason c)); ("message", VStr (c_message c))].

(** ** Pods *)

Section handlers.
Context `{Unicode, Printable, Unstructured, Selectors, GVRText, SliceSort, Quantities}.

Definition handleListPods (a : args) : io (result error value) :=
  let ns := arg_str a "namespace" in
  let limit := clamp_limit (arg_intOr a "limit" defaultListLimit) 500 defaultListLimit in
  let! r := do_list Server KPods ns (mkOpts (arg_str a "selector") (arg_str a "field_selector") limit "") in
  match r with
  | Err err => Ret (Err (wrap_err ("list pods in " +:+ ns) err))
  | Ok (items, _) =>
      let! out := mapM_io podSummary items in
      Ret (Ok (VObj [("namespace", VStr ns); ("count", vint (length out)); ("pods", VList out)]))
  end.

Definition objectEvents (ns kind name : string) (limit : Z) : io (result error (list value)) :=
  let! r := do_list Server KEvents ns
    (mkOpts "" ("involvedObject.kind=" +:+ kind +:+ ",involvedObject.name=" +:+ name) limit "") in
  match r with
  | Err err => Ret (Err err)
  | Ok (items, _) =>
      let! out := mapM_io (λ ev : Event,
        let! a := age (eventTime ev) in
        Ret (VObj [("type", VStr (ev_type ev)); ("reason", VStr (ev_reason ev)); ("message", VStr (ev_message ev));
                   ("count", VInt Kint32 (ev_count ev)); ("last_seen", VStr a)])) items in
      Ret (Ok out)
  end.

(** The status fields of a container, set again by each status of its name. *)
Fixpoint container_statuses (name : string) (sts : list ContainerStatus) (entry : obj) : io obj :=
  match sts with
  | [] => Ret entry
  | st :: sts' =>
      if decide (cs_name st = name) then
        let! state := containerState (cs_state st) in
        let entry := mset "state" (VStr state) (mset "restarts" (VInt Kint32 (cs_restarts st)) (mset "ready" (VBool (cs_ready st)) entry)) in
        let! last := containerState (cs_last st) in
        container_statuses name sts' (if decide (last = "") then entry else mset "last_state" (VStr last) entry)
      else container_statuses name sts' entry
  end.

Definition container_entry (pod : Pod) (ct : Container) : io value :=
  let entry := [("name", VStr (ct_name ct)); ("image", VStr (ct_image ct))] in
  let entry :=
    if (0 <? length (ct_requests ct))%nat || (0 <? length (ct_limits ct))%nat
    then mset "resources" (VObj [("requests", quantities (ct_requests ct)); ("limits", quantities (ct_limits ct))]) entry
    else entry in
  let! entry := container_statuses (ct_name ct) (pod_statuses pod) entry in
  Ret (VObj entry).

Definition condition_entry (c : Condition) : value :=
  let entry := [("type", VStr (c_type c)); ("status", VStr (c_status c))] in
  let entry := if decide (c_reason c = "") then entry else mset "reason" (VStr (c_reason c)) entry in
  VObj (if decide (c_message c = "") then entry else mset "message" (VStr (c_message c)) entry).

Definition handleGetPod (a : args) : io (result error value) :=
  let ns := arg_str a "namespace" in
  let name := arg_str a "name" in
  let! r := do_get Server KPods ns name in
  match r with
  | Err err => Ret (Err (wrap_err ("get pod " +:+ ns +:+ "/" +:+ name) err))
  | Ok pod =>
      let! containers := mapM_io (container_entry pod) (pod_containers pod) in
      let! events := objectEvents ns "Pod" name 10 in
      let! ag := age (CreationTimestamp (pod_meta pod)) in
      Ret (Ok (VObj [
        ("namespace", VStr ns); ("name", VStr name); ("phase", VStr (pod_phase pod)); ("node", VStr (pod_nodeName pod));
        ("pod_ip", VStr (pod_ip pod)); ("qos_class", VStr (pod_qos pod)); ("labels", labels_value (Labels (pod_meta pod)));
        ("age", VStr ag); ("containers", VList containers);
        ("conditions", VList (map condition_entry (pod_conditions pod)));
        ("events", match events with Ok evs => VList evs | Err _ => VNil end)]))
  end.

Definition maxLogBytes : nat := (64 * 1024)%nat.

(** The last [n] bytes. *)
Definition last_bytes (n : nat) (s : string) : string :=
  if (n <? String.length s)%nat then str_drop (String.length s - n) s else s.

Definition handlePodLogs (a : args) : io (result error value) :=
  let ns := arg_str a "namespace" in
  let name := arg_str a "name" in
  let tail := arg_intOr a "tail_lines" 100 in
  let tail := if 2000 <? tail then 2000 else tail in
  let! raw := (call (GetLogs Server ns name (mkLogOptions (arg_str a "container") tail (arg_boolean a "previous")))
                : io (result error string)) in
  Ret (match raw with
       | Err err => Err (wrap_err ("logs for " +:+ ns +:+ "/" +:+ name) err)
       | Ok raw => Ok (VStr (if decide (raw = "") then "(no log output)" else last_bytes maxLogBytes raw))
       end).

(** ** Events *)

Definition event_fields (a : args) : list string :=
  (let o := arg_str a "object" in if decide (o = "") then [] else ["involvedObject.name=" +:+ o]) ++
  (if arg_boolean a "warnings_only" then ["type=Warning"] else []).

Definition handleListEvents (a : args) : io (result error value) :=
  let ns := arg_str a "namespace" in
  let! r := do_list Server KEvents ns (mkOpts "" (Join (event_fields a) ",") defaultListLimit "") in
  match r with
  | Err err => Ret (Err (wrap_err ("list events in " +:+ ns) err))
  | Ok (items, _) =>
      let items := slice_sort (λ x y : Event, eventTime x <? eventTime y) items in
      let! out := mapM_io (λ ev : Event,
        let! ag := age (eventTime ev) in
        Ret (VObj [("type", VStr (ev_type ev)); ("reason", VStr (ev_reason ev));
                   ("object", VStr (ev_kind ev +:+ "/" +:+ ev_name ev)); ("message", VStr (ev_message ev));
                   ("count", VInt Kint32 (ev_count ev)); ("last_seen", VStr ag)])) items in
      Ret (Ok (VObj [("namespace", VStr ns); ("count", vint (length out)); ("events", VList out)]))
  end.

(** ** Workloads *)

Definition fraction (x y : Z) : value := VStr (Itoa x +:+ "/" +:+ Itoa y).

Definition deployment_entry (ns : string) (d : Deployment) : io value :=
  let desired := default 1 (d_replicas d) in
  let! ag := age (CreationTimestamp (d_meta d)) in
  let entry := [("kind", VStr "Deployment"); ("name", VStr (Name (d_meta d))); ("namespace", VStr ns);
    ("ready", fraction (d_ready d) desired); ("upToDate", VInt Kint32 (d_updated d));
    ("available", VInt Kint32 (d_available d)); ("age", VStr ag)] in
  Ret (VObj (if d_ready d <? desired then mset "degraded_reason" (VStr (deploymentProblem (d_conditions d))) entry else entry)).

Definition statefulset_entry (ns : string) (s : StatefulSet) : io value :=
  let! ag := age (CreationTimestamp (s_meta s)) in
  Ret (VObj [("kind", VStr "StatefulSet"); ("name", VStr (Name (s_meta s))); ("namespace", VStr ns);
    ("ready", fraction (s_ready s) (default 1 (s_replicas s))); ("age", VStr ag)]).

Definition daemonset_entry (ns : string) (d : DaemonSet) : io value :=
  let! ag := age (CreationTimestamp (ds_meta d)) in
  Ret (VObj [("kind", VStr "DaemonSet"); ("name", VStr (Name (ds_meta d))); ("namespace", VStr ns);
    ("ready", fraction (ds_ready d) (ds_desired d)); ("age", VStr ag)]).

Definition handleListWorkloads (a : args) : io (result error value) :=
  let ns := arg_str a "namespace" in
  let! deps := do_list Server KDeployments ns no_opts in
  match deps with
  | Err err => Ret (Err (wrap_err ("list deployments in " +:+ ns) err))
  | Ok (deps, _) =>
      let! out1 := mapM_io (deployment_entry ns) deps in
      let! stss := do_list Server KStatefulSets ns no_opts in
      match stss with
      | Err err => Ret (Err (wrap_err ("list statefulsets in " +:+ ns) err))
      | Ok (stss, _) =>
          let! out2 := mapM_io (statefulset_entry ns) stss in
          let! dss := do_list Server KDaemonSets ns no_opts in
          match dss with
          | Err err => Ret (Err (wrap_err ("list daemonsets in " +:+ ns) err))
          | Ok (dss, _) =>
              let! out3 := mapM_io (daemonset_entry ns) dss in
              let out := out1 ++ out2 ++ out3 in
              Ret (Ok (VObj [("namespace", VStr ns); ("count", vint (length out)); ("workloads", list_or_null out)]))
          end
      end
  end.

(** A workload's selector, status and conditions. *)
Definition read_workload (ns kind name : string) : io (result error (option LabelSelector * obj * list Condition)) :=
  let i32 := VInt Kint32 in
  let fail what err := wrap_err ("get " +:+ what +:+ " " +:+ ns +:+ "/" +:+ name) err in
  if decide (kind = "deployment") then
    let! r := do_get Server KDeployments ns name in
    Ret (match r with
         | Err err => Err (fail "deployment" err)
         | Ok d => Ok (d_selector d,
             [("desired", i32 (default 1 (d_replicas d))); ("ready", i32 (d_ready d)); ("updated", i32 (d_updated d));
              ("available", i32 (d_available d)); ("unavailable", i32 (d_unavailable d))], d_conditions d)
         end)
  else if decide (kind = "statefulset") then
    let! r := do_get Server KStatefulSets ns name in
    Ret (match r with
         | Err err => Err (fail "statefulset" err)
         | Ok s => Ok (s_selector s,
             [("desired", i32 (default 1 (s_replicas s))); ("ready", i32 (s_ready s)); ("updated", i32 (s_updated s));
              ("current", i32 (s_current s))], s_conditions s)
         end)
  else if decide (kind = "daemonset") then
    let! r := do_get Server KDaemonSets ns name in
    Ret (match r with
         | Err err => Err (fail "daemonset" err)
         | Ok d => Ok (ds_selector d,
             [("desired", i32 (ds_desired d)); ("ready", i32 (ds_ready d)); ("available", i32 (ds_available d));
              ("misscheduled", i32 (ds_misscheduled d))], ds_conditions d)
         end)
  else Ret (Err (ErrText ("unknown kind " +:+ Quote kind +:+ " (use deployment, statefulset, or daemonset)"))).

(** The summaries of the pods a selector picks; none when it is absent or
    invalid, or the list fails. *)
Definition selected_pods (ns : string) (selector : option LabelSelector) : io (list value) :=
  match selector with
  | None => Ret []
  | Some s =>
      match LabelSelectorAsSelector (Some s) with
      | None => Ret []
      | Some sel =>
          let! r := do_list Server KPods ns (mkOpts (sel_String sel) "" 0 "") in
          match r with Ok (items, _) => mapM_io podSummary items | Err _ => Ret [] end
      end
  end.

Definition handleGetWorkload (a : args) : io (result error value) :=
  let ns := arg_str a "namespace" in
  let kind := ToLower (arg_str a "kind") in
  let name := arg_str a "name" in
  let? w := read_workload ns kind name in
  let '(selector, status, conditions) := w in
  let! pods := selected_pods ns selector in
  Ret (Ok (VObj [("kind", VStr kind); ("namespace", VStr ns); ("name", VStr name); ("status", VObj status);
    ("conditions", list_or_null (map condition_full conditions)); ("pods", list_or_null pods)])).

(** ** Services and routes *)

Definition is_ready (ep : Endpoint) : bool := default false (ep_ready ep).

Definition service_selector (name : string) : ListOptions := mkOpts ("kubernetes.io/service-name=" +:+ name) "" 0 "".

Definition endpointCounts (ns svcName : string) : io (nat * nat) :=
  let! r := do_list Server KEndpointSlices ns (service_selector svcName) in
  Ret (match r with
       | Err _ => (0, 0)%nat
       | Ok (slices, _) =>
           let eps := flat_map sl_endpoints slices in
           (length (List.filter is_ready eps), length (List.filter (λ e, negb (is_ready e)) eps))
       end).

Definition handleListServices (a : args) : io (result error value) :=
  let ns := arg_str a "namespace" in
  let! r := do_list Server KServices ns no_opts in
  match r with
  | Err err => Ret (Err (wrap_err ("list services in " +:+ ns) err))
  | Ok (items, _) =>
      let! out := mapM_io (λ svc : Service,
        let ports := map (λ p, VStr (Itoa (p_port p) +:+ "->" +:+ p_target p +:+ "/" +:+ p_protocol p)) (svc_ports svc) in
        let! (ready, notReady) := endpointCounts ns (Name (svc_meta svc)) in
        Ret (VObj [("name", VStr (Name (svc_meta svc))); ("namespace", VStr ns); ("type", VStr (svc_type svc));
          ("cluster_ip", VStr (svc_clusterIP svc)); ("ports", VList ports);
          ("endpoints_ready", vint ready); ("endpoints_not_ready", vint notReady)])) items in
      Ret (Ok (VObj [("namespace", VStr ns); ("count", vint (length out)); ("services", VList out)]))
  end.

Definition endpoint_entry (ep : Endpoint) : value :=
  let entry := [("addresses", strings_or_null (ep_addresses ep)); ("ready", VBool (is_ready ep))] in
  VObj (match ep_target ep with
        | Some (kind, name) => mset "target" (VStr (kind +:+ "/" +:+ name)) entry
        | None => entry
        end).

Definition handleGetService (a : args) : io (result error value) :=
  let ns := arg_str a "namespace" in
  let name := arg_str a "name" in
  let! svc := do_get Server KServices ns name in
  match svc with
  | Err err => Ret (Err (wrap_err ("get service " +:+ ns +:+ "/" +:+ name) err))
  | Ok svc =>
      let! r := do_list Server KEndpointSlices ns (service_selector name) in
      Ret (match r with
           | Err err => Err (wrap_err ("list endpointslices for " +:+ ns +:+ "/" +:+ name) err)
           | Ok (slices, _) =>
               Ok (VObj [("namespace", VStr ns); ("name", VStr name); ("type", VStr (svc_type svc));
                 ("cluster_ip", VStr (svc_clusterIP svc)); ("selector", labels_value (svc_selector svc));
                 ("endpoints", list_or_null (map endpoint_entry (flat_map sl_endpoints slices)))])
           end)
  end.

Definition routeGVR : GVR := mkGVR "route.openshift.io" "v1" "routes".

Definition admitted_in (ing : value) : option string :=
  match ing with
  | VObj m =>
      match List.find (λ c, match c with VObj c => bool_decide (as_str (vget c "type") = Some "Admitted") | _ => false end)
              (default [] (NestedSlice m ["conditions"])) with
      | Some (VObj c) => Some (fmt_v (vget c "status"))
      | _ => None
      end
  | _ => None
  end.

Definition routeAdmitted (r : obj) : string :=
  match List.find (λ ing, match admitted_in ing with Some _ => true | None => false end)
          (default [] (NestedSlice r ["status"; "ingress"])) with
  | Some ing => default "" (admitted_in ing)
  | None => "Unknown"
  end.

Definition handleListRoutes (a : args) : io (result error value) :=
  let ns := arg_str a "namespace" in
  let! r := do_dynlist Server routeGVR ns no_opts in
  Ret (match r with
       | Err err => Err (wrap_err ("list routes in " +:+ ns +:+ " (OpenShift Route API required)") err)
       | Ok (items, _) =>
           let text o path := VStr (default "" (NestedString o path)) in
           let out := map (λ o, VObj [("name", VStr (GetName o)); ("namespace", VStr ns);
             ("host", text o ["spec"; "host"]); ("service", text o ["spec"; "to"; "name"]);
             ("tls", text o ["spec"; "tls"; "termination"]); ("admitted", VStr (routeAdmitted o))]) items in
           Ok (VObj [("namespace", VStr ns); ("count", vint (length out)); ("routes", VList out)])
       end).

(** ** Storage and quota *)

Definition handleListPVCs (a : args) : io (result error value) :=
  let ns := arg_str a "namespace" in
  let! r := do_list Server KClaims ns no_opts in
  match r with
  | Err err => Ret (Err (wrap_err ("list pvcs in " +:+ ns) err))
  | Ok (items, _) =>
      let! out := mapM_io (λ pvc : Claim,
        let! ag := age (CreationTimestamp (pvc_meta pvc)) in
        Ret (VObj [("name", VStr (Name (pvc_meta pvc))); ("namespace", VStr ns); ("phase", VStr (pvc_phase pvc));
          ("capacity", VStr (match mget "storage" (pvc_capacity pvc) with Some q => q_text q | None => "" end));
          ("storage_class", VStr (default "" (pvc_class pvc))); ("volume", VStr (pvc_volume pvc)); ("age", VStr ag)])) items in
      Ret (Ok (VObj [("namespace", VStr ns); ("count", vint (length out)); ("pvcs", VList out)]))
  end.

Definition quota_entry (q : ResourceQuota) : value :=
  VObj [("name", VStr (rq_name q));
        ("used_vs_hard", VObj (map (λ e, (e.1, VStr (q_text (rl_get (rq_used q) e.1) +:+ " / " +:+ q_text e.2))) (rq_hard q)))].

Definition limit_entry (lr : LimitRange) : value :=
  VObj [("name", VStr (lr_name lr));
        ("limits", VList (map (λ i, VObj [("type", VStr (li_type i)); ("default_limit", quantities (li_default i));
           ("default_request", quantities (li_request i)); ("max", quantities (li_max i))]) (lr_limits lr)))].

Definition handleGetQuota (a : args) : io (result error value) :=
  let ns := arg_str a "namespace" in
  let! quotas := do_list Server KQuotas ns no_opts in
  match quotas with
  | Err err => Ret (Err (wrap_err ("list resourcequotas in " +:+ ns) err))
  | Ok (quotas, _) =>
      let! limits := do_list Server KLimitRanges ns no_opts in
      Ret (match limits with
           | Err err => Err (wrap_err ("list limitranges in " +:+ ns) err)
           | Ok (limits, _) => Ok (VObj [("namespace", VStr ns);
               ("resource_quotas", VList (map quota_entry quotas)); ("limit_ranges", VList (map limit_entry limits))])
           end)
  end.

(** ** Metrics *)

Definition podMetricsGVR : GVR := mkGVR "metrics.k8s.io" "v1beta1" "pods".

(** CPU and memory of the containers so far, in 64 bits. *)
Definition add_usage (u : Z * Z) (raw : value) : Z * Z :=
  match raw with
  | VObj m =>
      let parsed path := match NestedString m path with
                         | Some s => match ParseQuantity s with Ok q => Some q | Err _ => None end
                         | None => None
                         end in
      (match parsed ["usage"; "cpu"] with Some q => int64 (u.1 + q_milli q) | None => u.1 end,
       match parsed ["usage"; "memory"] with Some q => int64 (u.2 + Z.quot (q_value q) (1024 * 1024)) | None => u.2 end)
  | _ => u
  end.

Definition pod_usage (item : obj) : string * Z * Z :=
  let '(cpu, mem) := fold_left add_usage (default [] (NestedSlice item ["containers"])) (0, 0) in (GetName item, cpu, mem).

(** The map handleTopPods returns; each pod is a struct. *)
Record top_pods := mkTop { tp_namespace : string; tp_pods : list (string * Z * Z) }.

Definition handleTopPods (a : args) : io (result error top_pods) :=
  let ns := arg_str a "namespace" in
  let! r := do_dynlist Server podMetricsGVR ns no_opts in
  Ret (match r with
       | Err err => Err (wrap_err ("pod metrics in " +:+ ns +:+ " (metrics-server/metrics.k8s.io required)") err)
       | Ok (items, _) =>
           let out := slice_sort (λ x y : string * Z * Z, y.1.2 <? x.1.2) (map pod_usage items) in
           Ok (mkTop ns out)
       end).

(** ** Nodes *)

(** Readiness and the conditions that are true, as the loop leaves them. *)
Definition node_step (s : string * list string) (c : Condition) : string * list string :=
  if decide (c_type c = "Ready") then (c_status c, s.2)
  else if decide (c_status c = "True") then (s.1, s.2 ++ [c_type c]) else s.

Definition node_entry (node : Node) : io value :=
  let '(ready, pressures) := fold_left node_step (n_conditions node) ("Unknown", []) in
  let! ag := age (CreationTimestamp (n_meta node)) in
  Ret (VObj [("name", VStr (Name (n_meta node))); ("ready", VStr ready); ("roles", strings_or_null (nodeRoles node));
    ("kubelet", VStr (n_kubelet node)); ("cpu", VStr (q_text (rl_get (n_allocatable node) "cpu")));
    ("memory", VStr (q_text (rl_get (n_allocatable node) "memory"))); ("taints", vint (length (n_taints node)));
    ("pressure", strings_or_null pressures); ("age", VStr ag)]).

Definition handleListNodes (a : args) : io (result error value) :=
  let! r := do_list Server KNodes "" no_opts in
  match r with
  | Err err => Ret (Err (wrap_err "list nodes" err))
  | Ok (items, _) =>
      let! out := mapM_io node_entry items in
      Ret (Ok (VObj [("count", vint (length out)); ("nodes", VList out)]))
  end.

Definition handleGetNode (a : args) : io (result error value) :=
  let name := arg_str a "name" in
  let! r := do_get Server KNodes "" name in
  Ret (match r with
       | Err err => Err (wrap_err ("get node " +:+ name) err)
       | Ok node => Ok (VObj [("name", VStr name); ("roles", strings_or_null (nodeRoles node));
           ("conditions", VList (map condition_full (n_conditions node)));
           ("taints", VList (map (λ t, VStr (t.1.1 +:+ "=" +:+ t.1.2 +:+ ":" +:+ t.2)) (n_taints node)));
           ("capacity", quantities (n_capacity node)); ("allocatable", quantities (n_allocatable node));
           ("node_info", VObj [("kubelet", VStr (n_kubelet node)); ("os_image", VStr (n_osImage node));
              ("kernel", VStr (n_kernel node)); ("container_runtime", VStr (n_runtime node))])])
       end).

(** ** Generic reads *)

Definition arg_gvr (a : args) : GVR := mkGVR (arg_str a "group") (arg_str a "version") (arg_str a "resource").

Definition redacted_note : string :=
  "credential-looking values were replaced with [redacted]; the fields are shown so you can say a value is set without revealing it".

(** The object without its noisiest metadata. *)
Definition strip (o : obj) : obj :=
  RemoveNestedField (RemoveNestedField o ["metadata"; "managedFields"])
    ["metadata"; "annotations"; "kubectl.kubernetes.io/last-applied-configuration"].

(** An empty namespace makes the same request as the cluster-scoped client. *)
Definition handleGetResource (a : args) : io (result error value) :=
  let gvr := arg_gvr a in
  let ns := arg_str a "namespace" in
  let name := arg_str a "name" in
  let! r := do_dynget Server gvr ns name in
  Ret (match r with
       | Err err => Err (wrap_err ("get " +:+ gvr_String gvr +:+ " " +:+ Quote name) err)
       | Ok o =>
           let '(o', n) := redactObject (strip o) in
           Ok (if (0 <? n)%nat
               then VObj [("object", VObj o'); ("redacted", vint n); ("note", VStr redacted_note)]
               else VObj o')
       end).

Definition handleListResource (a : args) : io (result error value) :=
  let gvr := arg_gvr a in
  let limit := clamp_limit (arg_intOr a "limit" defaultListLimit) 200 defaultListLimit in
  let! r := do_dynlist Server gvr (arg_str a "namespace")
    (mkOpts (arg_str a "selector") (arg_str a "field_selector") limit "") in
  match r with
  | Err err => Ret (Err (wrap_err ("list " +:+ gvr_String gvr) err))
  | Ok (items, next) =>
      let! out := mapM_io (λ item : obj,
        let! ag := age (GetCreationTimestamp item) in
        Ret (VObj [("kind", VStr (GetKind item)); ("name", VStr (GetName item)); ("namespace", VStr (GetNamespace item)); ("age", VStr ag)])) items in
      let res := [("resource", VStr (gvr_String gvr)); ("count", vint (length out)); ("items", VList out)] in
      Ret (Ok (VObj (if decide (next = "") then res
        else mset "hint" (VStr "more items exist; narrow with namespace, selector or field_selector")
               (mset "truncated" (VBool true) res))))
  end.

(** ** Certificates *)

(** Packages encoding/pem and crypto/x509: a PEM block's type and bytes with
    what follows it, and a parsed certificate. *)
Record certificate := mkCert { subjectCN : string; issuerCN : string; NotBefore : Z; NotAfter : Z; DNSNames : list string }.

Class Certs := {
  pem_Decode : string → option (string * string * string);
  ParseCertificate : string → option certificate;
}.

Context `{Certs}.

(** A block takes at least one byte of the data, so its length is enough fuel. *)
Fixpoint leaf_loop (fuel : nat) (data : string) : option certificate :=
  match fuel with
  | O => None
  | S fuel' =>
      match pem_Decode data with
      | None => None
      | Some (typ, bytes, rest) =>
          if decide (typ = "CERTIFICATE") then ParseCertificate bytes else leaf_loop fuel' rest
      end
  end.
Definition leafCertificate (data : string) : option certificate := leaf_loop (S (String.length data)) data.

(** [int(d.Hours() / 24)] *)
Definition days (d : Z) : Z :=
  let trunc d := ftrunc (fdiv (in_units Hour d) (of_int 24)) in
  if 0 <=? d then trunc d else - trunc (- d).

Definition cert_entry (secret key : string) (c : certificate) : io (Z * value) :=
  let! t1 := now in
  let left := days (Sub (NotAfter c) t1) in
  let! t2 := now in
  let entry := [("secret", VStr secret); ("source", VStr key); ("subject", VStr (subjectCN c)); ("issuer", VStr (issuerCN c));
    ("not_before", VStr (RFC3339 (NotBefore c))); ("not_after", VStr (RFC3339 (NotAfter c)));
    ("days_left", VInt Kint left); ("expired", VBool (NotAfter c <? t2))] in
  let sans := DNSNames c in
  let shown := if (8 <? length sans)%nat
               then take 8 sans ++ ["(+" +:+ Itoa (Z.of_nat (length sans - 8)) +:+ " more)"] else sans in
  Ret (left, VObj (match sans with [] => entry | _ => mset "sans" (VList (map VStr shown)) entry end)).

(** The certificates of one secret, public material only. *)
Definition secret_certs (sec : Secret) : list (string * certificate) :=
  flat_map (λ key, match mget key (sec_data sec) with
    | None => []
    | Some data => if decide (data = "") then [] else
        match leafCertificate data with Some c => [(key, c)] | None => [] end
    end) ["tls.crt"; "ca.crt"].

Definition is_public (key : string) : bool := bool_decide (key ∈ ["tls.crt"; "ca.crt"]).

(** A secret without anything but its public certificates. *)
Definition public_part (sec : Secret) : Secret :=
  mkSecret (sec_name sec) (List.filter (λ e, is_public e.1) (sec_data sec)).

Definition handleListCertificates (a : args) : io (result error value) :=
  let ns := arg_str a "namespace" in
  let! r := do_list Server KSecrets ns no_opts in
  match r with
  | Err err => Ret (Err (wrap_err ("list secrets in " +:+ ns +:+
                     " (certificate read access may not be granted for this namespace)") err))
  | Ok (items, _) =>
      let! out := mapM_io (λ e : string * (string * certificate), cert_entry e.1 e.2.1 e.2.2)
        (flat_map (λ sec, map (pair (sec_name sec)) (secret_certs sec)) items) in
      let out := slice_sort (λ x y : Z * value, x.1 <? y.1) out in
      Ret (Ok (VObj [("namespace", VStr ns); ("count", vint (length out)); ("certificates", list_or_null (map snd out))]))
  end.

End handlers.

(** ** Properties *)

Section properties.
Context `{Unicode, Printable, Unstructured, Selectors, GVRText, SliceSort, Quantities, Certs}.

Lemma runs_do_dynget w g ns name tr r :
  runs (do_dynget w g ns name) tr r ↔ tr = [Effects.Event (DynGet w g ns name) (r : reply (DynGet w g ns name))].
Proof. exact (runs_call (DynGet w g ns name) r tr). Qed.

Lemma inside_scalar m v : inside (VObj m) v → (∀ l, v ≠ VList l) → (∀ o, v ≠ VObj o) → False.
Proof. intros Hin Hl Ho. inversion Hin; subst; naive_solver. Qed.

(** What get_resource answers holds no credential: no field with a sensitive
    name, at any depth, holds anything but nothing, the marker or a structure. *)
Lemma get_resource_harmless o m k x : wf (VObj o) →
  let v := (let '(o', n) := redactObject o in
     if (0 <? n)%nat then VObj [("object", VObj o'); ("redacted", vint n); ("note", VStr redacted_note)] else VObj o') in
  inside (VObj m) v → (k, x) ∈ m → sensitiveKey k = true → harmless x = true.
Proof.
  intros Hwf v Hin Hkx Hk. subst v. destruct (redactObject o) as [o' n] eqn:Ho.
  assert (Hin' : inside (VObj m) (VObj o') → harmless x = true).
  { intros Hi. apply (redacted_harmless o m k x); try done. by rewrite Ho. }
  destruct (0 <? n)%nat; [|auto]. inversion Hin as [| |m0 k' y Hy Hin2]; subst.
  - rewrite !elem_of_cons, elem_of_nil in Hkx. by destruct_or! Hkx; simplify_eq.
  - rewrite !elem_of_cons, elem_of_nil in Hy. destruct_or! Hy; simplify_eq; [auto|..]; exfalso; by eapply inside_scalar.
Qed.

(** get_resource answers no credential: it makes one read, of the object
    asked for, and in what it answers, whether or not it adds the note, no
    field with a sensitive name at any depth holds anything but nothing, the
    marker or a nested structure. *)
Theorem handleGetResource_redacted a tr v : runs (handleGetResource a) tr (Ok v) →
  ∃ o : obj, (let q := DynGet Server (arg_gvr a) (arg_str a "namespace") (arg_str a "name") in
    tr = [Effects.Event q (Ok o : reply q)]) ∧
  (wf (VObj (strip o)) → ∀ m k x, inside (VObj m) v → (k, x) ∈ m → sensitiveKey k = true → harmless x = true).
Proof.
  unfold handleGetResource. rewrite runs_bind. intros (tr1 & tr2 & r & -> & Hq & [-> Hr]).
  apply runs_do_dynget in Hq as ->. destruct r as [o|]; [|done]. exists o. split; [done|].
  intros Hwf m k x Hin. apply (get_resource_harmless (strip o)); [done|].
  by destruct (redactObject (strip o)) as [o' n]; simplify_eq.
Qed.

Lemma mget_filter {A} (P : string → bool) k (m : list (string * A)) : P k = true →
  mget k (List.filter (λ e, P e.1) m) = mget k m.
Proof.
  intros Hk. induction m as [|[k' x] m IH]; simpl; [done|]. case_decide as Heq.
  - subst. rewrite Hk. simpl. by rewrite decide_True.
  - destruct (P k'); simpl; [by rewrite decide_False|done].
Qed.

Lemma secret_certs_public sec : secret_certs (public_part sec) = secret_certs sec.
Proof.
  unfold secret_certs, public_part. cbn [flat_map sec_data].
  by rewrite !(mget_filter is_public) by done.
Qed.

Lemma listed_certs_public items :
  flat_map (λ sec, map (pair (sec_name sec)) (secret_certs sec)) (map public_part items) =
  flat_map (λ sec, map (pair (sec_name sec)) (secret_certs sec)) items.
Proof. induction items as [|sec items IH]; simpl; [done|]. by rewrite secret_certs_public, IH. Qed.

(** The reply of an exchange that lists secrets. *)
Definition secrets_reply (e : event request reply) : option (result error (list Secret * string)) :=
  match e with
  | Effects.Event q r =>
      match q as q return reply q → option (result error (list Secret * string)) with List _ KSecrets _ _ => λ r, Some r | _ => λ _, None end r
  end.

Lemma runs_list_secrets {A} w ns o (f : result error (list Secret * string) → io A) r tr a :
  let q := List w KSecrets ns o in
  runs (bind (do_list w KSecrets ns o) f) (Effects.Event q (r : reply q) :: tr) a ↔ runs (f r) tr a.
Proof.
  intros q. split; [|intros Hr; by exists r, tr]. intros (r' & tr' & Heq & Hr).
  pose proof (f_equal (λ l, secrets_reply <$> head l) Heq) as Hx. injection Hx as ->. by injection Heq as ->.
Qed.

Lemma mapM_only {A B} P (f : A → io B) l : (∀ x, only P (f x)) → only P (mapM_io f l).
Proof.
  intros Hf. induction l as [|x l IH]; simpl; [done|].
  apply only_bind; [done|]. intros y. by apply only_bind.
Qed.

(** C28: list_certificates never lets anything private out: replacing every
    secret by one that holds only its public tls.crt and ca.crt changes
    neither the answer nor any request, so private keys and all other data
    have no influence on them; besides the one list it only reads the clock. *)
Theorem handleListCertificates_public a items next tr r :
  let q := List Server KSecrets (arg_str a "namespace") no_opts in
  (runs (handleListCertificates a) (Effects.Event q (Ok (items, next) : reply q) :: tr) r ↔
   runs (handleListCertificates a) (Effects.Event q (Ok (map public_part items, next) : reply q) :: tr) r) ∧
  (runs (handleListCertificates a) (Effects.Event q (Ok (items, next) : reply q) :: tr) r →
   ∀ e, e ∈ tr → asked e = Now).
Proof.
  intros q. unfold handleListCertificates. subst q. rewrite !runs_list_secrets, listed_certs_public. split; [done|].
  intros Hr e He. refine (only_runs (λ q, q = Now) _ tr r e _ Hr He).
  apply only_bind; [|done]. apply mapM_only. intros x. unfold cert_entry.
  apply only_bind; [by apply only_call|]. intros t1. by apply only_bind; [apply only_call|].
Qed.

Lemma str_split n s : s = str_take n s +:+ str_drop n s.
Proof. revert s. induction n as [|n IH]; intros [|c s]; simpl; [done..|]. by rewrite <- IH. Qed.

Lemma str_drop_length n s : String.length (str_drop n s) = (String.length s - n)%nat.
Proof. revert s. induction n as [|n IH]; intros [|c s]; simpl; [done..|]. by rewrite IH. Qed.

Lemma last_bytes_spec n s : String.length (last_bytes n s) = Nat.min n (String.length s) ∧ ∃ pre, s = pre +:+ last_bytes n s.
Proof.
  unfold last_bytes. destruct (Nat.ltb_spec n (String.length s)) as [Hlt|Hge].
  - split; [rewrite str_drop_length; lia|by eexists; apply str_split].
  - split; [lia|]. by exists "".
Qed.

(** The reply of an exchange that reads a log. *)
Lemma runs_logs w ns name o tr r : runs (call (GetLogs w ns name o) : io (result error string)) tr r ↔
  tr = [Effects.Event (GetLogs w ns name o) (r : reply (GetLogs w ns name o))].
Proof. exact (runs_call (GetLogs w ns name o) r tr). Qed.

(** C29: pod_logs stays small: it asks the server for at most 2000 lines (the
    number asked for when that is less), and answers the last 64 KiB of the log
    it got, exactly, or all of it when it is no longer than that; an empty log
    is said to be empty. *)
Theorem handlePodLogs_bounded a tr v : runs (handlePodLogs a) tr (Ok v) →
  ∃ tail raw text, v = VStr text ∧
    (let q := GetLogs Server (arg_str a "namespace") (arg_str a "name")
       (mkLogOptions (arg_str a "container") tail (arg_boolean a "previous")) in
     tr = [Effects.Event q (Ok raw : reply q)]) ∧
    tail = Z.min (arg_intOr a "tail_lines" 100) 2000 ∧
    (raw = "" → text = "(no log output)") ∧
    (raw ≠ "" → String.length text = Nat.min (64 * 1024) (String.length raw) ∧ ∃ pre, raw = pre +:+ text).
Proof.
  unfold handlePodLogs. rewrite runs_bind. intros (tr1 & tr2 & r & -> & Hq & [-> Hr]).
  apply runs_logs in Hq as ->. destruct r as [raw|]; [|done]. injection Hr as <-.
  eexists _, raw, _. split; [done|]. split; [done|]. split; [destruct (Z.ltb_spec 2000 (arg_intOr a "tail_lines" 100)); lia|].
  destruct (decide (raw = "")) as [->|Hn]; [done|]. split; [done|]. intros _. apply (last_bytes_spec maxLogBytes raw).
Qed.

End properties.

(** ** Witnesses *)

Definition plain_certs : Certs := {| pem_Decode := λ _, None; ParseCertificate := λ _, None |}.

(** The data of a secret is its certificate. *)
Definition data_certs : Certs := {|
  pem_Decode := λ data, Some ("CERTIFICATE", data, "");
  ParseCertificate := λ bytes, Some (mkCert bytes "ca" 0 (10 * 24 * Hour) []);
|}.

Module HandlersDemo.
#[local] Existing Instances plain_unicode plain_printable plain_unstructured
  plain_selectors plain_gvr_text plain_quantities data_certs.

Definition deployment : obj := [("kind", VStr "App"); ("spec", VObj [("password", VStr "hunter2"); ("size", VInt Kint64 3)])].

Definition tls (name : string) : Secret := mkSecret name [("tls.key", "private"); ("tls.crt", "web")].

Definition answer (q : request) : reply q :=
  match q with
  | Get _ _ _ _ | CreateJob _ _ _ => Err (ErrText "no")
  | DynGet _ _ _ _ => Ok deployment
  | List _ KSecrets _ _ => Ok ([tls "a"], "")
  | List _ _ _ _ => Ok ([], "")
  | DynList _ _ _ _ => Ok ([], "")
  | GetLogs _ _ _ _ => Ok "line"
  | GetRaw _ _ => Ok ""
  | NewClient _ => None
  | ExecPod _ _ _ _ _ _ => mkExec None [] None false
  | Now => 0
  | Tick => false
  end.

Definition world (s : unit) (q : request) : reply q * unit := (answer q, s).
Definition ev (q : request) : event request reply := Effects.Event q (answer q).

Definition call_args : args := [("namespace", VStr "ns"); ("name", VStr "web"); ("tail_lines", VInt Kint 5000)].

(** The reply of an exchange that reads one object. *)
Definition object_reply (e : event request reply) : option (result error obj) :=
  match e with
  | Effects.Event q r =>
      match q as q return reply q → option (result error obj) with DynGet _ _ _ _ => λ r, Some r | _ => λ _, None end r
  end.

Definition shown : obj := [("password", VStr redacted); ("size", VInt Kint64 3)].

Lemma handleGetResource_redacted_witness : ∃ v, runs (handleGetResource call_args)
    [ev (DynGet Server (mkGVR "" "" "") "ns" "web")] (Ok v) ∧
  inside (VObj shown) v ∧ harmless (VStr redacted) = true.
Proof.
  eexists. split; [apply (interp_runs world tt _ _ _ tt); vm_compute; reflexivity|].
  assert (Hin : inside (VObj shown) (VObj [("object", VObj [("kind", VStr "App"); ("spec", VObj shown)]);
    ("redacted", VInt Kint 1); ("note", VStr redacted_note)])).
  { eapply inside_obj; [left|]. eapply inside_obj; [right; left|]. constructor. }
  split; [exact Hin|].
  destruct (handleGetResource_redacted call_args [ev (DynGet Server (mkGVR "" "" "") "ns" "web")]
    (VObj [("object", VObj [("kind", VStr "App"); ("spec", VObj shown)]);
      ("redacted", VInt Kint 1); ("note", VStr redacted_note)])) as (o & Heq & Hv).
  - apply (interp_runs world tt _ _ _ tt). vm_compute. reflexivity.
  - apply (f_equal (λ l, object_reply <$> head l)) in Heq. vm_compute in Heq. injection Heq as <-.
    apply (Hv ltac:(vm_compute; repeat constructor; set_solver) shown "password" (VStr redacted)); [exact Hin|left|by vm_compute].
Defined.

Lemma handleListCertificates_public_witness : ∃ r,
  runs (handleListCertificates call_args) [ev (List Server KSecrets "ns" no_opts); ev Now; ev Now] r ∧
  asked (ev Now) = Now.
Proof.
  eexists. split; [apply (interp_runs world tt _ _ _ tt); vm_compute; reflexivity|].
  eapply (proj2 (handleListCertificates_public call_args [tls "a"] "" [ev Now; ev Now] _)); [|left].
  apply (interp_runs world tt _ _ _ tt). vm_compute. reflexivity.
Defined.

Lemma handlePodLogs_bounded_witness : ∃ tail raw text, VStr "line" = VStr text ∧
  tail = 2000 ∧ (raw ≠ "" → String.length text = Nat.min (64 * 1024) (String.length raw)).
Proof.
  destruct (handlePodLogs_bounded call_args
    [ev (GetLogs Server "ns" "web" (mkLogOptions "" 2000 false))] (VStr "line"))
    as (tail & raw & text & Ht & _ & Htail & _ & Hl).
  - apply (interp_runs world tt _ _ _ tt). vm_compute. reflexivity.
  - exists tail, raw, text. split_and!; [exact Ht|exact Htail|]. intros Hn. by apply Hl.
Defined.
End HandlersDemo.
