(* ===== verification/Answers.v ===== *)
(** * The JSON of the tools' answers (internal/mcp)

    What json.MarshalIndent makes of what the handlers return: the fields of a
    struct in the order of their declaration, with the tags and omitempty of
    the source; the keys of a map sorted; a nil slice as null. *)

From S2P Require Import Prelude GoStrings GoTime Value Kube Floats Json Unmarshal NumberText Shortest RoundTrip Policy Disruption Handlers Instances.
Local Open Scope Z_scope.

(** What a handler returns: JSON values, and the structures of some tools. *)
Inductive answer :=
| AnswerValue (v : value)
| AnswerTop (t : top_pods)
| AnswerPolicies (p : policies)
| AnswerReport (r : report)
| AnswerAudit (a : audit)
| AnswerTeams (t : teams).

(** ** Building documents *)

Definition jint (z : Z) : json := JNum (Itoa z).
Definition jstrs (l : list string) : json := JArr (map JStr l).

(** A slice that is nil when nothing was appended to it. *)
Definition jslice (l : list json) : json := match l with [] => JNull | _ => JArr l end.

(** A map: its keys sorted. *)
Definition jmap (m : list (string * json)) : json := JObj (in_key_order m).

(** Fields with omitempty. *)
Definition omit_str (k s : string) : list (string * json) := if decide (s = "") then [] else [(k, JStr s)].
Definition omit_strs (k : string) (l : list string) : list (string * json) := match l with [] => [] | _ => [(k, jstrs l)] end.
Definition omit_int (k : string) (z : Z) : list (string * json) := if z =? 0 then [] else [(k, jint z)].
Definition omit_nil {A} (k : string) (f : A → json) (x : option A) : list (string * json) :=
  match x with None => [] | Some x => [(k, f x)] end.

(** A map's entry that is set only sometimes. *)
Definition entry (k : string) (x : option string) : list (string * json) := omit_nil k JStr x.

(** ** The structures *)

Definition usage_json (u : string * Z * Z) : json :=
  JObj [("pod", JStr u.1.1); ("cpu_millicores", jint u.1.2); ("memory_mi", jint u.2)].

Definition top_json (t : top_pods) : json :=
  jmap [("namespace", JStr (tp_namespace t)); ("count", jint (Z.of_nat (length (tp_pods t))));
        ("pods", JArr (map usage_json (tp_pods t)))].

Definition rule_json (r : rule_out) : json :=
  jmap ([("policy", JStr (r_policy r)); ("rule", JStr (r_rule r)); ("type", JStr (r_type r));
         ("kinds", jslice (map JStr (r_kinds r)));  (* uniq of a nil slice is nil *)
         ("scope", JStr (r_scope r))] ++
        entry "namespace" (r_namespace r) ++ entry "action" (r_action r) ++ entry "message" (r_message r) ++
        entry "check" (r_check r) ++ entry "applies_via" (r_via r) ++ entry "only_if" (r_only_if r) ++
        (if r_exempted r then [("exempted", JStr "a PolicyException exempts this namespace from the rule")] else [])).

Definition policies_json (p : policies) : json :=
  jmap [("namespace", JStr (p_namespace p)); ("kind", JStr (p_kind p)); ("rules", jslice (map rule_json (p_rules p)));
        ("summary", JStr (p_summary p)); ("note", JStr (p_note p))].

Definition intstr_json (x : IntOrString) : json := match x with IntVal z => jint z | StrVal s => JStr s end.

Definition owner_json (o : auditOwner) : json :=
  JObj ([("kind", JStr (ao_kind o)); ("name", JStr (ao_name o))] ++
        omit_str "apiVersion" (ao_apiVersion o) ++ omit_nil "replicas" jint (ao_replicas o) ++
        omit_strs "images" (ao_images o) ++ omit_str "operatorKind" (ao_operatorKind o) ++ omit_str "ignore" (ao_ignore o)).

Definition pdb_json (p : pdb_out) : json :=
  let a := po_pdb p in
  JObj ([("ns", JStr (a_ns a)); ("name", JStr (a_name a))] ++
        omit_nil "minAvailable" intstr_json (a_minAvailable a) ++ omit_nil "maxUnavailable" intstr_json (a_maxUnavailable a) ++
        omit_str "unhealthyPodEvictionPolicy" (a_policy a) ++
        [("expectedPods", jint (a_expected a)); ("currentHealthy", jint (a_healthy a));
         ("desiredHealthy", jint (a_desired a)); ("disruptionsAllowed", jint (a_allowed a));
         ("owners", JArr (map owner_json (po_owners p)))] ++
        omit_strs "overlapsWith" (po_overlapsWith p) ++ omit_str "ignore" (a_ignore a)).

Definition instance_json (i : auditInstance) : json :=
  JObj ([("ns", JStr (i_ns i)); ("name", JStr (i_name i)); ("engine", JStr (i_engine i)); ("kind", JStr (i_kind i))] ++
        omit_str "workload" (i_workload i) ++ [("replicas", jint (i_replicas i))] ++
        omit_int "readReplicas" (i_readReplicas i) ++ omit_str "replicaWorkload" (i_replicaWorkload i) ++
        [("quorum", JBool (i_quorum i)); ("source", JStr (i_source i)); ("pdbs", jstrs (i_pdbs i))] ++
        omit_strs "images" (i_images i) ++ omit_str "ignore" (i_ignore i)).

Definition labels_json (l : labels) : json := jmap (map (λ e, (e.1, JStr e.2)) l).

Definition nsOwner_json (o : nsOwner) : json :=
  JObj (omit_str "team" (no_team o) ++ omit_str "env" (no_env o) ++
        match no_labels o with [] => [] | l => [("labels", labels_json l)] end).

Definition audit_json (a : audit) : json :=
  jmap [("pdbs", JArr (map pdb_json (au_pdbs a))); ("instances", JArr (map instance_json (au_instances a)));
        ("namespaces", jmap (map (λ e, (e.1, nsOwner_json e.2)) (map_to_list (au_namespaces a))));
        ("notInstalled", jstrs (au_notInstalled a)); ("quorumImages", jstrs (au_quorumImages a))].

Definition project_json (p : project) : json := JObj [("name", JStr (pr_name p)); ("envLabel", JStr (pr_envLabel p))].

Definition team_json (t : team) : json :=
  JObj [("team", JStr (tm_team t)); ("admins", jstrs (tm_admins t)); ("projects", JArr (map project_json (tm_projects t)))].

Definition teams_json (t : teams) : json :=
  jmap [("count", jint (ts_count t)); ("teams", JArr (map team_json (ts_teams t)))].

(** A result of a policy report keeps the report's own values. *)
Definition result_json (r : report_result) : option json :=
  policy ← to_json (rr_policy r); rule ← to_json (rr_rule r);
  message ← to_json (rr_message r); severity ← to_json (rr_severity r);
  Some (jmap [("result", JStr (rr_result r)); ("policy", policy); ("rule", rule); ("message", message);
              ("severity", severity); ("kind", JStr (rr_kind r)); ("name", JStr (rr_name r)); ("namespace", JStr (rr_namespace r))]).

Definition report_json (r : report) : option json :=
  results ← mapM result_json (rp_results r);
  Some (jmap [("namespace", JStr (rp_namespace r));
              ("totals", jmap (map (λ e, (e.1, jint e.2)) (map_to_list (rp_totals r))));
              ("results", jslice results); ("truncated", JBool (rp_truncated r))]).

Definition answer_json (a : answer) : option json :=
  match a with
  | AnswerValue v => to_json v
  | AnswerTop t => Some (top_json t)
  | AnswerPolicies p => Some (policies_json p)
  | AnswerReport r => report_json r
  | AnswerAudit a => Some (audit_json a)
  | AnswerTeams t => Some (teams_json t)
  end.

(** The number that keeps an answer from being encoded; the keys of a result
    are in their order. *)
Definition unsupported_answer (a : answer) : option spec_float :=
  match a with
  | AnswerValue v => unsupported v
  | AnswerReport r => first_found (flat_map (λ r, map unsupported [rr_message r; rr_policy r; rr_rule r; rr_severity r]) (rp_results r))
  | _ => None
  end.

(** json.MarshalIndent(out, "", "  ") *)
Definition MarshalIndent (a : answer) : result error string :=
  match answer_json a with Some j => Ok (indented j) | None => Err (ErrText (unsupported_text (unsupported_answer a))) end.

(** ** An answer fails to encode only on a number without a text *)

Lemma result_unsupported r : is_Some (result_json r) ↔
  Forall (λ x, x = None) (map unsupported [rr_message r; rr_policy r; rr_rule r; rr_severity r]).
Proof.
  cbn [map]. rewrite !Forall_cons, <- !to_json_unsupported. unfold result_json.
  destruct (to_json (rr_policy r)), (to_json (rr_rule r)), (to_json (rr_message r)), (to_json (rr_severity r)); cbn;
    (split; [intros []; done || by repeat split; eexists|intros (? & ? & ? & ? & _); done || by eexists || by
      repeat match goal with H : is_Some None |- _ => destruct H end]).
Qed.

Lemma answer_unsupported a : is_Some (answer_json a) ↔ unsupported_answer a = None.
Proof.
  destruct a as [v|t|p|r|au|t]; cbn [answer_json unsupported_answer]; try (by split; [|eexists]); [apply to_json_unsupported|].
  rewrite first_found_none. unfold report_json. induction (rp_results r) as [|x l IH]; [by split; [|eexists]|].
  cbn [flat_map mapM]. rewrite Forall_app, <- IH, <- result_unsupported.
  destruct (result_json x); cbn; [|by split; [intros []|intros [[] _]]].
  destruct (mapM result_json l); cbn; (split; [intros []; done || by repeat split; eexists|intros [_ []]; done || by eexists]).
Qed.

Lemma answer_no_text a f : unsupported_answer a = Some f → float_text f = None.
Proof.
  destruct a as [v|t|p|r|au|t]; cbn [unsupported_answer]; try done; [apply unsupported_no_text|].
  intros (x & _ & Hin)%first_found_in%list_elem_of_In%in_flat_map. apply list_elem_of_In, list_elem_of_fmap in Hin as (v & Hv & _).
  by apply (unsupported_no_text v).
Qed.

Lemma MarshalIndent_error a err : MarshalIndent a = Err err →
  ∃ f, unsupported_answer a = Some f ∧
    (valid_binary 53 1024 f = true → f = S754_nan ∨ ∃ s, f = S754_infinity s) ∧ err = ErrText ("json: unsupported value: " +:+ float_v f).
Proof.
  unfold MarshalIndent. destruct (answer_json a) as [j|] eqn:Hj; [done|]. intros [= <-].
  destruct (unsupported_answer a) as [f|] eqn:Hf; [|].
  { exists f. split_and!; [done| |done]. intros Hv. apply float_text_none; [done|by eapply answer_no_text]. }
 
  apply answer_unsupported in Hf as [? Hf]. by rewrite Hj in Hf.
Qed.

(** ** Every answer can be read *)

Create HintDb mcp_json.

Lemma fits_str n s : fits n (JStr s).
Proof. split; [constructor|cbn; lia]. Qed.

Lemma fits_bool n b : fits n (JBool b).
Proof. split; [constructor|cbn; lia]. Qed.

Lemma fits_int n z : fits n (jint z).
Proof. split; [constructor; unfold number_text; by rewrite number_Itoa|cbn; lia]. Qed.

Lemma fits_weaken n m j : fits n j → (n ≤ m)%nat → fits m j.
Proof. intros [Hn Hl] Hm. split; [done|lia]. Qed.

Lemma fits_map {A} n (f : A → json) l : (∀ x, fits n (f x)) → fits (S n) (JArr (map f l)).
Proof. intros Hf. apply fits_arr, Forall_map, Forall_true, Hf. Qed.

Lemma fits_strs n l : fits (S n) (jstrs l).
Proof. apply fits_map. intros s. apply fits_str. Qed.

Lemma fits_slice n l : Forall (fits n) l → fits (S n) (jslice l).
Proof. intros Hl. destruct l as [|x l]; [split; [constructor|cbn; lia]|by apply fits_arr]. Qed.

Lemma fits_slice_map {A} n (f : A → json) l : (∀ x, fits n (f x)) → fits (S n) (jslice (map f l)).
Proof. intros Hf. apply fits_slice, Forall_map, Forall_true, Hf. Qed.

Lemma fits_jmap n m : Forall (λ e, fits n e.2) m → fits (S n) (jmap m).
Proof. intros Hm. apply fits_obj. unfold in_key_order. by rewrite stable_sort_perm. Qed.

Lemma fits_jmap_map {A} n (f : A → json) (m : list (string * A)) : (∀ x, fits n (f x)) →
  fits (S n) (jmap (map (λ e, (e.1, f e.2)) m)).
Proof. intros Hf. apply fits_jmap, Forall_map, Forall_true. intros e. apply Hf. Qed.

Section fields.
Context (n : nat).
Abbreviation fields := (Forall (λ e : string * json, fits n e.2)).

Lemma fields_omit_str k s : fields (omit_str k s).
Proof. unfold omit_str. case_decide; [constructor|]. constructor; [apply fits_str|constructor]. Qed.

Lemma fields_omit_int k z : fields (omit_int k z).
Proof. unfold omit_int. destruct (z =? 0); [constructor|]. constructor; [apply fits_int|constructor]. Qed.

Lemma fields_omit_nil {A} k (f : A → json) x : (∀ x, fits n (f x)) → fields (omit_nil k f x).
Proof. intros Hf. destruct x; [|constructor]. constructor; [apply Hf|constructor]. Qed.

Lemma fields_entry k x : fields (entry k x).
Proof. apply fields_omit_nil. intros s. apply fits_str. Qed.

Lemma fields_app m m' : fields m → fields m' → fields (m ++ m').
Proof. intros. by apply Forall_app. Qed.

Lemma fields_cons k j m : fits n j → fields m → fields ((k, j) :: m).
Proof. by constructor. Qed.
End fields.

Lemma fields_omit_strs n k l : Forall (λ e, fits (S n) e.2) (omit_strs k l).
Proof. destruct l; constructor; [apply fits_strs|constructor]. Qed.

#[export] Hint Resolve fits_str fits_bool fits_int fits_strs fits_obj fits_jmap fits_slice_map fits_map fits_jmap_map
  fields_omit_str fields_omit_int fields_omit_nil fields_entry fields_app fields_cons fields_omit_strs Forall_nil_2 : mcp_json.

Lemma usage_fits n u : fits (S n) (usage_json u).
Proof. unfold usage_json. auto 10 with mcp_json. Qed.
#[export] Hint Resolve usage_fits : mcp_json.

Lemma top_fits t : fits 9 (top_json t).
Proof. unfold top_json. auto 10 with mcp_json. Qed.

Lemma rule_fits n r : fits (S (S n)) (rule_json r).
Proof. unfold rule_json. destruct (r_exempted r); auto 20 with mcp_json. Qed.

Lemma intstr_fits n x : fits n (intstr_json x).
Proof. destruct x; [apply fits_int|apply fits_str]. Qed.

Lemma owner_fits n o : fits (S (S n)) (owner_json o).
Proof. unfold owner_json. auto 20 with mcp_json. Qed.
#[export] Hint Resolve rule_fits intstr_fits owner_fits : mcp_json.

Lemma pdb_fits n p : fits (S (S (S (S n)))) (pdb_json p).
Proof. unfold pdb_json. auto 20 with mcp_json. Qed.

Lemma instance_fits n i : fits (S (S n)) (instance_json i).
Proof. unfold instance_json. auto 20 with mcp_json. Qed.

Lemma labels_fits n l : fits (S n) (labels_json l).
Proof. apply (fits_jmap_map n JStr). auto with mcp_json. Qed.
#[export] Hint Resolve pdb_fits instance_fits labels_fits : mcp_json.

Lemma nsOwner_fits n o : fits (S (S n)) (nsOwner_json o).
Proof. unfold nsOwner_json. apply fits_obj. repeat apply fields_app; auto with mcp_json. destruct (no_labels o); auto with mcp_json. Qed.

Lemma project_fits n p : fits (S n) (project_json p).
Proof. unfold project_json. auto with mcp_json. Qed.
#[export] Hint Resolve nsOwner_fits project_fits : mcp_json.

Lemma team_fits n t : fits (S (S (S n))) (team_json t).
Proof. unfold team_json. auto 10 with mcp_json. Qed.
#[export] Hint Resolve team_fits : mcp_json.

Lemma policies_fits p : fits 9 (policies_json p).
Proof. unfold policies_json. auto 10 with mcp_json. Qed.

Lemma audit_fits a : fits 9 (audit_json a).
Proof. unfold audit_json. auto 10 with mcp_json. Qed.

Lemma teams_fits t : fits 9 (teams_json t).
Proof. unfold teams_json. auto 10 with mcp_json. Qed.

(** How deep the values of an answer that come from the cluster are. *)
Definition result_depth (r : report_result) : nat :=
  Nat.max (Nat.max (depth (rr_policy r)) (depth (rr_rule r))) (Nat.max (depth (rr_message r)) (depth (rr_severity r))).

Definition answer_depth (a : answer) : nat :=
  match a with
  | AnswerValue v => depth v
  | AnswerReport r => fold_right Nat.max 0%nat (map result_depth (rp_results r))
  | _ => 0%nat
  end.

Lemma value_fits v j n : to_json v = Some j → (depth v ≤ n)%nat → fits n j.
Proof. intros Hj. destruct (to_json_written v j Hj) as [Hf _]. by apply fits_weaken. Qed.

Lemma result_fits r j n : result_json r = Some j → (result_depth r ≤ n)%nat → fits (S n) j.
Proof.
  unfold result_json, result_depth. intros Hj Hd.
  destruct (to_json (rr_policy r)) as [j1|] eqn:H1; [|done]. destruct (to_json (rr_rule r)) as [j2|] eqn:H2; [|done].
  destruct (to_json (rr_message r)) as [j3|] eqn:H3; [|done]. destruct (to_json (rr_severity r)) as [j4|] eqn:H4; [|done].
  injection Hj as <-. eapply (value_fits _ _ n) in H1, H2, H3, H4; [|lia..]. auto 20 with mcp_json.
Qed.

Lemma results_fit l js n : mapM result_json l = Some js → (fold_right Nat.max 0 (map result_depth l) ≤ n)%nat →
  Forall (fits (S n)) js.
Proof.
  intros Hj%mapM_Some. induction Hj as [|r j l js Hr Hl IH]; cbn; [constructor|]. intros Hd.
  constructor; [eapply result_fits; [done|lia]|apply IH; lia].
Qed.

Lemma answer_fits a j : answer_json a = Some j → fits (9 + answer_depth a) j.
Proof.
  destruct a as [v|t|p|r|au|t]; cbn [answer_json answer_depth].
  - intros Hj. eapply value_fits; [done|lia].
  - intros [= <-]. apply top_fits.
  - intros [= <-]. apply policies_fits.
  - unfold report_json. destruct (mapM result_json (rp_results r)) as [js|] eqn:Hjs; [|done]. intros [= <-].
    assert (Hf := results_fit _ _ _ Hjs (Nat.le_refl _)). apply (fits_weaken (S (S (S (answer_depth (AnswerReport r)))))); [|cbn; lia].
    cbn [answer_depth]. apply fits_jmap. repeat apply fields_cons; auto with mcp_json. by apply fits_slice.
  - intros [= <-]. apply audit_fits.
  - intros [= <-]. apply teams_fits.
Qed.

(** The text of an answer reads back as the answer's document. *)
Lemma MarshalIndent_reads a text : MarshalIndent a = Ok text → (9 + answer_depth a ≤ maxNestingDepth)%nat →
  ∃ j, answer_json a = Some j ∧ Unmarshal text = Some (read_back j).
Proof.
  unfold MarshalIndent. intros Hm Hd. destruct (answer_json a) as [j|] eqn:Hj; [|done]. injection Hm as <-. exists j.
  split; [done|]. destruct (answer_fits a j Hj). apply Unmarshal_indented; [done|lia].
Qed.

Lemma MarshalIndent_value v text : MarshalIndent (AnswerValue v) = Ok text → (depth v ≤ maxNestingDepth)%nat → keyed v →
  Unmarshal text = Some (canon v).
Proof.
  unfold MarshalIndent. cbn. intros Hm Hd Hk. destruct (to_json v) as [j|] eqn:Hj; [|done]. injection Hm as <-.
  destruct (to_json_written v j Hj) as [[Hn Hl] Hr]. rewrite <- Hr by done. apply Unmarshal_indented; [done|lia].
Qed.
