(* ===== verification/Tools.v ===== *)
(** * The table of the read-only tools (internal/mcp/tools.go)

    The schema helpers and one definition per entry of [buildTools], in the
    order of the table, with the texts the client is shown.  The theorem is
    that the table and the handlers agree: a handler reads only arguments its
    schema declares, at the type declared. *)

From S2P Require Import Prelude GoStrings GoTime Value Kube Floats Json Args Redact Policy Disruption Handlers Answers Instances Pages.
Local Open Scope Z_scope.
Local Open Scope mcp_scope.

(** A tool's definition, as the table gives it to the MCP library, and its
    handler. *)
Record tool := mkTool {
  t_name : string; t_description : string; t_schema : value;
  t_handler : args → io (result error answer);
}.

(** ** Schemas *)

Definition objSchema (props : obj) (required : list string) : value :=
  let s := [("type", VStr "object"); ("properties", VObj props)] in
  VObj (if (0 <? length required)%nat then mset "required" (VList (map VStr required)) s else s).

Definition str (desc : string) : value := VObj [("type", VStr "string"); ("description", VStr desc)].

Definition strEnum (desc : string) (values : list string) : value :=
  VObj [("type", VStr "string"); ("description", VStr desc); ("enum", VList (map VStr values))].

Definition strArray (desc : string) : value :=
  VObj [("type", VStr "array"); ("items", VObj [("type", VStr "string")]); ("description", VStr desc)].

Definition boolean (desc : string) : value := VObj [("type", VStr "boolean"); ("description", VStr desc)].

Definition integer (desc : string) : value := VObj [("type", VStr "integer"); ("description", VStr desc)].

Definition nsDesc : string := "Kubernetes namespace.".

(** ** The table *)

Section tools.
Context `{Unicode, Printable, Unstructured, Selectors, GVRText, SliceSort, Quantities, Certs}.

Definition answers {A} (wrap : A → answer) (p : io (result error A)) : io (result error answer) :=
  let? a := p in Ret (Ok (wrap a)).

Definition plain (h : args → io (result error value)) : args → io (result error answer) := λ a, answers AnswerValue (h a).

Definition tool_list_pods : tool := mkTool "list_pods"
  "List pods in a namespace with phase, readiness, restarts, node, and a reason when not healthy. Start here for any workload issue."
  (objSchema [("namespace", str nsDesc);
     ("selector", str "Optional label selector (e.g. 'app=web,tier=frontend').");
     ("field_selector", str "Optional field selector (e.g. 'status.phase=Pending' or 'spec.nodeName=node1').");
     ("limit", integer "Max pods to return (default 100).")] ["namespace"])
  (plain handleListPods).

Definition tool_get_pod : tool := mkTool "get_pod"
  "Full diagnostic view of one pod: containers (image, state, restart reason, resources), conditions, QoS, and its recent events."
  (objSchema [("namespace", str nsDesc);
     ("name", str "Pod name.")] ["namespace"; "name"])
  (plain handleGetPod).

Definition tool_pod_logs : tool := mkTool "pod_logs"
  "Fetch container logs from a pod. Use previous=true to read logs from before the last restart (essential for CrashLoopBackOff)."
  (objSchema [("namespace", str nsDesc);
     ("name", str "Pod name.");
     ("container", str "Container name. Defaults to the first container.");
     ("tail_lines", integer "Number of trailing lines (default 100, max 2000).");
     ("previous", boolean "Read logs of the previous (crashed) container instance.")] ["namespace"; "name"])
  (plain handlePodLogs).

Definition tool_list_events : tool := mkTool "list_events"
  "Recent events in a namespace: scheduling failures, image pull errors, OOM kills, probe failures. Filter to one object or warnings only."
  (objSchema [("namespace", str nsDesc);
     ("object", str "Optional involved object name (e.g. a pod or deployment name).");
     ("warnings_only", boolean "Return only Warning events.")] ["namespace"])
  (plain handleListEvents).

Definition tool_list_workloads : tool := mkTool "list_workloads"
  "Deployments, StatefulSets, and DaemonSets in a namespace with ready/desired replica counts. Quickly shows which workload is degraded."
  (objSchema [("namespace", str nsDesc)] ["namespace"])
  (plain handleListWorkloads).

Definition tool_get_workload : tool := mkTool "get_workload"
  "One workload's rollout state: replica counts, conditions (with messages), selector, and its pods' health."
  (objSchema [("namespace", str nsDesc);
     ("kind", strEnum "Workload kind." ["deployment"; "statefulset"; "daemonset"]);
     ("name", str "Workload name.")] ["namespace"; "kind"; "name"])
  (plain handleGetWorkload).

Definition tool_list_services : tool := mkTool "list_services"
  "Services in a namespace with type, cluster IP, ports, and ready endpoint counts (0 ready endpoints = broken service)."
  (objSchema [("namespace", str nsDesc)] ["namespace"])
  (plain handleListServices).

Definition tool_get_service : tool := mkTool "get_service"
  "One service's spec plus its endpoints: which backend addresses are ready/not-ready. Diagnose selector mismatches and unready backends."
  (objSchema [("namespace", str nsDesc);
     ("name", str "Service name.")] ["namespace"; "name"])
  (plain handleGetService).

Definition tool_list_routes : tool := mkTool "list_routes"
  "OpenShift Routes in a namespace: host, target service/port, TLS termination, and admitted status."
  (objSchema [("namespace", str nsDesc)] ["namespace"])
  (plain handleListRoutes).

Definition tool_list_pvcs : tool := mkTool "list_pvcs"
  "PersistentVolumeClaims in a namespace: phase (Pending = unbound), capacity, storage class, bound volume."
  (objSchema [("namespace", str nsDesc)] ["namespace"])
  (plain handleListPVCs).

Definition tool_get_quota : tool := mkTool "get_quota"
  "ResourceQuota usage (hard vs used) and LimitRanges in a namespace. Exhausted quota silently blocks new pods and rollouts."
  (objSchema [("namespace", str nsDesc)] ["namespace"])
  (plain handleGetQuota).

Definition tool_list_policies : tool := mkTool "list_policies"
  "Admission policies (Kyverno) that apply to a kind in a namespace — use it to check a manifest BEFORE it is applied. Each rule shows its action (Enforce: a violating object is rejected; Audit: admitted and reported), message, and check (the rule's pattern, deny conditions or CEL as JSON). Pod rules also apply to Deployments, StatefulSets, Jobs etc. (applies_via). only_if marks a rule that depends on the object's name or labels."
  (objSchema [("namespace", str nsDesc);
     ("kind", str "Kind to check, e.g. Deployment, Service, HTTPProxy. Omit for every kind.")] ["namespace"])
  (λ a, answers AnswerPolicies (handleListPolicies a)).

Definition tool_get_policy_report : tool := mkTool "get_policy_report"
  "Policy violations already reported in a namespace (Kyverno policy reports): failed, errored and warned results per object, worst first, with totals."
  (objSchema [("namespace", str nsDesc)] ["namespace"])
  (λ a, answers AnswerReport (handleGetPolicyReport a)).

Definition tool_top_pods : tool := mkTool "top_pods"
  "Live CPU (millicores) and memory (Mi) usage per pod in a namespace via metrics.k8s.io, sorted by CPU. Compare against requests/limits from get_pod."
  (objSchema [("namespace", str nsDesc)] ["namespace"])
  (λ a, answers AnswerTop (handleTopPods a)).

Definition tool_list_nodes : tool := mkTool "list_nodes"
  "Cluster nodes: readiness, roles, kubelet version, allocatable CPU/memory, taints, and any pressure conditions."
  (objSchema [] [])
  (plain handleListNodes).

Definition tool_get_node : tool := mkTool "get_node"
  "One node in depth: all conditions (memory/disk/PID pressure), taints, capacity vs allocatable, addresses, system info."
  (objSchema [("name", str "Node name.")] ["name"])
  (plain handleGetNode).

Definition tool_list_certificates : tool := mkTool "list_certificates"
  "Certificate expiry report for a namespace: parses the PUBLIC certificate data (tls.crt/ca.crt) of TLS secrets and returns subject, issuer, SANs, notBefore/notAfter, and days until expiry. Never returns private keys. Requires read access to secrets in that namespace (granted only for platform namespaces, e.g. openshift-ingress, openshift-config)."
  (objSchema [("namespace", str nsDesc)] ["namespace"])
  (plain handleListCertificates).

Definition tool_get_resource : tool := mkTool "get_resource"
  "Read any single API object (including CRDs and OpenShift kinds) by group/version/resource plural. Read-only escape hatch, e.g. group='route.openshift.io', version='v1', resource='routes'."
  (objSchema [("group", str "API group ('' for core, e.g. 'apps', 'route.openshift.io').");
     ("version", str "API version (e.g. 'v1').");
     ("resource", str "Resource plural (e.g. 'pods', 'routes', 'ciliumnetworkpolicies').");
     ("namespace", str "Namespace. Omit for cluster-scoped resources.");
     ("name", str "Object name.")] ["version"; "resource"; "name"])
  (plain handleGetResource).

Definition tool_list_resource : tool := mkTool "list_resource"
  "List any resource type (including CRDs and OpenShift kinds) by group/version/resource plural — servicemonitors, podmonitors, prometheusrules, cronjobs, hpa, networkpolicies, httpproxies, argo applications, database clusters and so on. Returns name/namespace/age summaries; filter server-side with namespace, selector or field_selector."
  (objSchema [("group", str "API group ('' for core).");
     ("version", str "API version (e.g. 'v1').");
     ("resource", str "Resource plural.");
     ("namespace", str "Namespace. Omit for cluster-scoped resources.");
     ("selector", str "Optional label selector.");
     ("field_selector", str "Optional field selector, e.g. 'status.phase=Running' — filtered server-side.");
     ("limit", integer "Maximum items to return (default 100, max 200).")] ["version"; "resource"])
  (plain handleListResource).

Definition tool_disruption_audit (fuel : nat) : tool := mkTool "disruption_audit"
  "Cluster-wide drain-safety inventory, no namespace argument. Returns every PodDisruptionBudget (minAvailable/maxUnavailable, unhealthyPodEvictionPolicy, the controller-computed expectedPods/currentHealthy/desiredHealthy/disruptionsAllowed, the owning workloads with replicas and images, and the other PDBs selecting the same pods); every data-service instance — RabbitmqCluster and opstree Redis CRs, plus plain Deployments/StatefulSets whose image is redis, rabbitmq or a quorum system — with replicas, whether it holds a quorum, and the PDBs covering it; the team/environment of each namespace involved; and the CRDs not installed on this cluster. Facts only: which of these is a problem is for the caller to decide."
  (objSchema [("quorum_images", strArray "Image keywords that mark a StatefulSet as a quorum system (default: rabbitmq, etcd, zookeeper, kafka, consul, nats, mongo, redis-sentinel, elasticsearch).")] [])
  (λ a, answers AnswerAudit (handleDisruptionAudit fuel a)).

Definition tool_list_teams (fuel : nat) : tool := mkTool "list_teams"
  "SnappCloud teams (team.snappcloud.io Team CRs): each team's admins and its namespaces with their environment (production/staging)."
  (objSchema [] [])
  (λ _, answers AnswerTeams (handleListTeams fuel)).

(** [fuel] bounds the pages of one cluster-wide list. *)
Definition buildTools (fuel : nat) : list tool :=
  [tool_list_pods; tool_get_pod; tool_pod_logs; tool_list_events; tool_list_workloads; tool_get_workload; tool_list_services; tool_get_service; tool_list_routes; tool_list_pvcs; tool_get_quota; tool_list_policies; tool_get_policy_report; tool_top_pods; tool_list_nodes; tool_get_node; tool_list_certificates; tool_get_resource; tool_list_resource; tool_disruption_audit fuel; tool_list_teams fuel].

End tools.

(** ** What a schema declares *)

Definition properties (schema : value) : obj := obj_or_nil (vget (obj_or_nil schema) "properties").

Definition required (schema : value) : list string := arg_strs (obj_or_nil schema) "required".

Definition prop_type (schema : value) (k : string) : option string :=
  p ← mget k (properties schema); as_str (vget (obj_or_nil p) "type").

(** JSON Schema's types, on decoded values; any number passes for an integer. *)
Definition has_type (ty : string) (v : value) : bool :=
  match v with
  | VStr _ => bool_decide (ty = "string")
  | VBool _ => bool_decide (ty = "boolean")
  | VFloat _ | VInt _ _ => bool_decide (ty = "integer")
  | VList _ => bool_decide (ty = "array")
  | _ => false
  end.

(** The arguments that are declared, with the type declared. *)
Definition declared (schema : value) (a : args) : args :=
  List.filter (λ e, match prop_type schema e.1 with Some ty => has_type ty e.2 | None => false end) a.

Lemma vget_declared schema a k ty : NoDup (mkeys a) → prop_type schema k = Some ty →
  vget (declared schema a) k = if has_type ty (vget a k) then vget a k else VNil.
Proof.
  intros Hn Hk. unfold vget. induction a as [|[k' v] a IH]; [done|].
  apply NoDup_cons in Hn as [Hk' Hn]. specialize (IH Hn). cbn [declared List.filter fst snd mget].
  destruct (decide (k' = k)) as [->|Hne].
  - rewrite Hk. simpl default. destruct (has_type ty v) eqn:Hv; cbn [mget].
    + by rewrite decide_True.
    + assert (Hnone : mget k (declared schema a) = None); [|unfold declared in Hnone; by rewrite Hnone].
      destruct (mget k (declared schema a)) as [w|] eqn:Hw; [|done]. exfalso. apply Hk'.
      apply mget_In in Hw. unfold declared in Hw. rewrite list_elem_of_In, filter_In in Hw.
      destruct Hw as [Hw _]. apply list_elem_of_In in Hw. by apply (list_elem_of_fmap_2 fst) in Hw.
  - destruct (match prop_type schema k' with Some _ => _ | None => _ end); [|exact IH].
    cbn [mget]. by rewrite decide_False.
Qed.

Section read.
Context (schema : value) (a : args) (Ha : NoDup (mkeys a)).

Lemma arg_str_declared k : prop_type schema k = Some "string" → arg_str (declared schema a) k = arg_str a k.
Proof. intros Hk. unfold arg_str. rewrite (vget_declared _ _ _ _ Ha Hk). by destruct (vget a k). Qed.

Lemma arg_boolean_declared k : prop_type schema k = Some "boolean" → arg_boolean (declared schema a) k = arg_boolean a k.
Proof. intros Hk. unfold arg_boolean. rewrite (vget_declared _ _ _ _ Ha Hk). by destruct (vget a k). Qed.

Lemma arg_strs_declared k : prop_type schema k = Some "array" → arg_strs (declared schema a) k = arg_strs a k.
Proof. intros Hk. unfold arg_strs. rewrite (vget_declared _ _ _ _ Ha Hk). by destruct (vget a k). Qed.

Lemma arg_intOr_declared k def : prop_type schema k = Some "integer" →
  arg_intOr (declared schema a) k def = arg_intOr a k def.
Proof. intros Hk. unfold arg_intOr. rewrite (vget_declared _ _ _ _ Ha Hk). by destruct (vget a k). Qed.

End read.

(** ** The handlers read what the schemas declare *)

(** One entry of the table: unfold the tool and its handler, and drop the
    restriction from every argument it reads. *)
Tactic Notation "reads_declared" reference(t) reference(h) :=
  unfold t, plain, h, event_fields, joined, quorum_images, arg_gvr; cbn [t_handler t_schema];
  rewrite ?arg_str_declared, ?arg_boolean_declared, ?arg_strs_declared, ?arg_intOr_declared by first [assumption|reflexivity];
  reflexivity.

Section agreement.
Context `{Unicode, Printable, Unstructured, Selectors, GVRText, SliceSort, Quantities, Certs}.

Lemma table_declared fuel a : NoDup (mkeys a) →
  Forall (λ t, t_handler t (declared (t_schema t) a) = t_handler t a) (buildTools fuel).
Proof.
  intros Ha. unfold buildTools. repeat apply Forall_cons_2; [..|by apply Forall_nil_2].
  - reads_declared tool_list_pods handleListPods.
  - reads_declared tool_get_pod handleGetPod.
  - reads_declared tool_pod_logs handlePodLogs.
  - reads_declared tool_list_events handleListEvents.
  - reads_declared tool_list_workloads handleListWorkloads.
  - reads_declared tool_get_workload handleGetWorkload.
  - reads_declared tool_list_services handleListServices.
  - reads_declared tool_get_service handleGetService.
  - reads_declared tool_list_routes handleListRoutes.
  - reads_declared tool_list_pvcs handleListPVCs.
  - reads_declared tool_get_quota handleGetQuota.
  - reads_declared tool_list_policies handleListPolicies.
  - reads_declared tool_get_policy_report handleGetPolicyReport.
  - reads_declared tool_top_pods handleTopPods.
  - reads_declared tool_list_nodes handleListNodes.
  - reads_declared tool_get_node handleGetNode.
  - reads_declared tool_list_certificates handleListCertificates.
  - reads_declared tool_get_resource handleGetResource.
  - reads_declared tool_list_resource handleListResource.
  - reads_declared tool_disruption_audit handleDisruptionAudit.
  - reads_declared tool_list_teams handleListTeams.
Qed.

(** Required arguments are declared, as strings. *)
Definition requires_declared (t : tool) : bool :=
  forallb (λ k, bool_decide (prop_type (t_schema t) k = Some "string")) (required (t_schema t)).

(** C16: The tool table and the handlers agree.  A handler of the table reads
    only arguments that its tool's schema declares, at the JSON type declared
    for them: leaving out every other argument, and every argument of another
    type, changes nothing of what the handler asks for or answers.  What a
    schema requires it also declares, as a string, and no two tools have the
    same name. *)
Theorem handlers_read_schema fuel t a : t ∈ buildTools fuel → NoDup (mkeys a) →
  t_handler t (declared (t_schema t) a) = t_handler t a ∧
  (∀ k, k ∈ required (t_schema t) → prop_type (t_schema t) k = Some "string") ∧
  NoDup (map t_name (buildTools fuel)).
Proof.
  intros Ht Ha. split; [|split].
  - by apply (proj1 (Forall_forall _ _) (table_declared fuel a Ha) t).
  - assert (Hr : forallb requires_declared (buildTools fuel) = true) by reflexivity.
    rewrite forallb_forall in Hr. specialize (Hr t (proj1 (list_elem_of_In _ _) Ht)).
    unfold requires_declared in Hr. rewrite forallb_forall in Hr.
    intros k Hk%list_elem_of_In%Hr. by apply bool_decide_eq_true in Hk.
  - by apply (bool_decide_unpack _); vm_compute.
Qed.

End agreement.

(** ** Witness: a call of list_pods with one argument that is not declared and
    one of another type *)

Module ToolsDemo.
#[local] Existing Instances plain_unicode plain_printable plain_unstructured
  plain_selectors plain_gvr_text plain_quantities data_certs.

Definition demo_args : args :=
  [("namespace", VStr "ns"); ("limit", VStr "all"); ("owner", VStr "ann"); ("selector", VStr "app=web")].

Lemma handlers_read_schema_witness :
  declared (t_schema tool_list_pods) demo_args = [("namespace", VStr "ns"); ("selector", VStr "app=web")] ∧
  t_handler tool_list_pods [("namespace", VStr "ns"); ("selector", VStr "app=web")] = t_handler tool_list_pods demo_args.
Proof.
  split; [reflexivity|].
  apply (handlers_read_schema 3 tool_list_pods demo_args); [left|].
  by apply (bool_decide_unpack _); vm_compute.
Defined.
End ToolsDemo.
