(* ===== verification/Server.v ===== *)
(** * The tool server (internal/mcp/server.go)

    The wrapper that runs one of the tools of [Tools]: decode the arguments, go
    through the cache, render the answer; and the server the tools are
    registered with.  The concurrent calls of the cache's [do] are modelled in
    [CacheConc]; here a call goes through it alone, or one after the other.
    The MCP library is the interface [SDK]. *)

From S2P Require Import Prelude Parallel GoStrings GoTime Value Kube Pages Floats Json Unmarshal NumberText RoundTrip Instances Args Redact Cache Policy Disruption Handlers Answers Tools.
Local Open Scope Z_scope.
Local Open Scope mcp_scope.

(** CallToolResult: one text, and whether it is an error. *)
Record call_result := mkCallResult { cr_text : string; cr_isError : bool }.
Definition textResult (text : string) : call_result := mkCallResult text false.
Definition errResult (err : error) : call_result := mkCallResult (error_text err) true.

(** An HTTP request, with the headers the source reads (empty when absent),
    and a response. *)
Record http_request := mkHttp { hr_path : string; hr_authorization : string; hr_remote_user : string; hr_body : string }.
Record http_response := mkResponse { hs_status : Z; hs_body : string }.

Section server.
Context `{Unicode, Printable, Unstructured, Selectors, GVRText, SliceSort, Quantities, Certs}.

(** The NUL byte between the tool name and the raw arguments. *)
Definition nul : string := String (z_byte 0) "".

Definition cache_key (t : tool) (raw : string) : string := t_name t +:+ nul +:+ raw.

(** The function passed to [cache.do]. *)
Definition tool_fn (t : tool) (raw : string) : io (result error string) :=
  let? out := t_handler t (call_args raw) in
  Ret (match out with
       | AnswerValue (VStr s) => Ok s
       | _ => match MarshalIndent out with
              | Ok b => Ok b
              | Err merr => Err (wrap_err "marshal result" merr)
              end
       end).

(** [c.get] reads the clock only for a key it holds. *)
Definition cache_get (key : string) (c : resultCache) : io (option string * resultCache) :=
  match items c !! key with
  | None => Ret (None, c)
  | Some _ =>
      let! t := now in
      let '((v, ok), c') := Cache.get t key c in
      Ret (if ok : bool then Some v else None, c')
  end.

(** [c.do] as a call that meets no other call of its key goes through it:
    [group.Do] then runs the function.  [CacheConc] has the interleavings. *)
Definition cache_do (key : string) (fn : io (result error string)) (c : resultCache)
    : io (result error string * resultCache) :=
  let! (v, c) := cache_get key c in
  match v with
  | Some v => Ret (Ok v, c)
  | None =>
      let! (v, c) := cache_get key c in
      match v with
      | Some v => Ret (Ok v, c)
      | None =>
          let! r := fn in
          match r with
          | Err err => Ret (Err err, c)
          | Ok out => let! t := now in Ret (Ok out, Cache.put t key out c)
          end
      end
  end.

(** What the client gets for the outcome of [cache.do]. *)
Definition call_outcome (r : result error string) : call_result :=
  match r with Ok text => textResult text | Err err => errResult err end.

(** The function [addTool] registers, on the raw arguments. *)
Definition call_tool (t : tool) (raw : string) (c : resultCache) : io (call_result * resultCache) :=
  let! (r, c') := cache_do (cache_key t raw) (tool_fn t raw) c in Ret (call_outcome r, c').

(** ** The MCP library *)

(** What [AddTool] registers: a tool's name, and the function that answers a
    call from its X-Remote-User header, if headers are there, and its raw
    arguments.  [S] is what the server's tools share. *)
Record registered (S : Type) := mkRegistered {
  rt_name : string;
  rt_description : string;
  rt_schema : value;
  rt_call : option string → string → S → io (call_result * S);
}.
#[global] Arguments mkRegistered {S} _ _ _ _.
#[global] Arguments rt_description {S} _.
#[global] Arguments rt_schema {S} _.
#[global] Arguments rt_name {S} _.
#[global] Arguments rt_call {S} _ _ _ _.

(** A server of the library: what it says of itself, and its tools. *)
Record mcp_server (S : Type) := mkMCPServer {
  ms_name : string; ms_version : string; ms_instructions : string; ms_tools : list (registered S);
}.
#[global] Arguments mkMCPServer {S} _ _ _ _.
#[global] Arguments ms_name {S} _.
#[global] Arguments ms_version {S} _.
#[global] Arguments ms_instructions {S} _.
#[global] Arguments ms_tools {S} _.

Definition instructions : string :=
  "You are a Kubernetes/OpenShift observability assistant. All tools are strictly
read-only: you inspect cluster state, explain what is wrong, and recommend fixes
for the user to apply — you never change anything.

Investigation workflows:
1. Unhealthy app: list_pods (check phase/ready/restarts/reason) -> get_pod (container
   states, conditions, recent events) -> pod_logs (previous=true after crashes).
2. Rollout stuck: get_workload (conditions, ready vs desired) -> list_events
   (warnings) -> get_quota (quota exhaustion blocks new pods).
3. Service unreachable: get_service (selector + endpoint readiness; 0 ready
   endpoints = selector mismatch or pods not ready) -> list_pods with the selector.
4. Route/ingress (OpenShift): list_routes (host, target service, admitted status).
5. Pending pods: get_pod events (FailedScheduling reason), list_nodes/get_node
   (pressure conditions, allocatable), get_quota.
6. Resource hunger: top_pods (live CPU/memory) vs container requests/limits in get_pod.
7. Drain blockers and fragile data services (cluster-wide, cluster-admins):
   disruption_audit lists every PDB with its computed status, owning workloads
   and overlapping PDBs, plus every RabbitMQ/Redis/quorum-system instance with
   its replica count and covering PDBs. list_teams maps teams to admins and
   namespaces.
8. Before a manifest is applied, or when one was rejected: list_policies with the
   namespace and kind gives every admission rule that applies, Enforce (rejects) or
   Audit (reports), with its check. Compare the manifest against each; only_if
   marks rules that depend on the object's labels or name. get_policy_report shows
   violations already recorded in the namespace. The authoritative check is a
   server-side dry run (oc apply --dry-run=server), which the user runs.
9. Anything else (CRDs, OpenShift objects): get_resource / list_resource with the
   exact group/version/resource plural. Available read-only beyond the core kinds:
   batch (cronjobs, jobs), autoscaling (horizontalpodautoscalers),
   autoscaling.k8s.io (verticalpodautoscalers), policy (poddisruptionbudgets),
   networking.k8s.io (networkpolicies), projectcontour.io (httpproxies),
   cilium.io (ciliumnetworkpolicies, ciliumendpoints), monitoring.coreos.com and
   operator.victoriametrics.com scrape/rule DEFINITIONS (servicemonitors,
   podmonitors, prometheusrules, probes, vmrules, vmservicescrapes,
   vmpodscrapes, vmprobes), argoproj.io
   (applications, appprojects, rollouts), cert-manager.io (certificates,
   certificaterequests), quota.openshift.io, s3.snappcloud.io, and the main
   managed data services (postgresql.cnpg.io, kafka.strimzi.io, rabbitmq.com
   rabbitmqclusters, databases.spotahome.com redisfailovers,
   psmdb.percona.com).

   Not reachable, by design: secrets; monitoring operator INSTANCE kinds
   (Prometheus, Alertmanager, VMAgent, VMAlert — their specs can carry inline
   credentials); ClusterIssuers; and the long tail of data-service CRDs. If a
   kind is refused, say so plainly and suggest " +:+ quote +:+ "oc get" +:+ quote +:+ " — do not retry it.

Tips:
- Always pass namespace where the tool accepts it.
- get_resource replaces credential-looking VALUES with [redacted] and reports how
  many. The field is still shown, so report what you see: " +:+ quote +:+ "DB_PASSWORD is set
  inline (value hidden)" +:+ quote +:+ " is useful and correct; do not say the value is empty or
  unset, and never try to obtain it another way.
- pod_logs previous=true shows logs from before the last crash — essential for
  CrashLoopBackOff.
- Events expire quickly (~1h); absence of events does not mean absence of problems.
- Summaries omit unchanged/healthy detail; drill into a single object for depth.".

(** (s *Server) addTool *)
Definition addTool (t : tool) : registered resultCache :=
  mkRegistered (t_name t) (t_description t) (t_schema t) (λ _, call_tool t).

(** The read-only server: its tools share the cache. *)
Definition NewServer (version : string) (fuel : nat) : mcp_server resultCache :=
  mkMCPServer "openshift-mcp" version instructions (map addTool (buildTools fuel)).

(** The cache NewServer makes. *)
Definition new_server_cache : resultCache := newResultCache (5 * Second) 512.

(** Calls one after the other. *)
Fixpoint serve_calls (cs : list (tool * string)) (c : resultCache) : io (list call_result) :=
  match cs with
  | [] => Ret []
  | (t, raw) :: cs' =>
      let! (r, c') := call_tool t raw c in
      let! rs := serve_calls cs' c' in
      Ret (r :: rs)
  end.

(** ** Every tool only reads *)

(** A read made as the server itself. *)
Definition own_read (q : request) : Prop := reads q = true ∧ (who q = None ∨ who q = Some Server).

Lemma only_mapM {A B} P (f : A → io B) l : (∀ x, only P (f x)) → only P (mapM_io f l).
Proof.
  intros Hf. induction l as [|x l IH]; simpl; [done|].
  apply only_bind; [done|]. intros y. by apply only_bind.
Qed.

Lemma only_pages {A X} P (req : ListOptions → io (result error (list X * string))) fail (each : A → X → A) fuel acc :
  (∀ o, only P (req o)) → only P (ListPages fuel (list_page req fail each) acc).
Proof.
  intros Hr. unfold ListPages. generalize (mkOpts "" "" PageSize "") as o. revert acc.
  induction fuel as [|fuel IH]; intros acc o; [done|]. cbn [pages_loop]. apply only_bind.
  - apply only_bind; [apply Hr|]. by intros [[]|].
  - intros [[next|e] acc']; [|done]. case_decide; [done|apply IH].
Qed.

Lemma only_list_all {A} P fuel k what (each : A → object k → A) acc :
  (∀ o, P (List Server k "" o)) → only P (list_all fuel k what each acc).
Proof. intros HP. apply only_bind; [|done]. apply only_pages. intros o. by apply only_call, HP. Qed.

Lemma only_custom {A} P fuel group resource versions (each : A → obj → A) acc :
  (∀ g o, P (DynList Server g "" o)) → only P (ListCustom fuel group resource versions each acc).
Proof.
  intros HP. revert acc. induction versions as [|v vs IH]; intros acc; simpl; [done|].
  apply only_bind; [apply only_pages; intros o; by apply only_call, HP|].
  intros [[e|] acc']; [|done]. destruct (IsNotFound e); [apply IH|done].
Qed.

End server.

Create HintDb mcp_reads.

(** Solves [only own_read p] by following [p]; the parts proved before are
    hints. *)
Ltac own_reads :=
  repeat first
    [ done
    | solve [auto 1 with mcp_reads nocore]
    | apply only_call; split; [reflexivity|by (left + right)]
    | apply only_mapM; intros ?
    | apply only_list_all; intros ?; split; [reflexivity|by right]
    | apply only_custom; intros ? ?; split; [reflexivity|by right]
    | apply only_try; [|intros ?]
    | apply only_bind; [|intros ?]
    | progress cbv beta zeta
    | case_match ].

Section parts.
Context `{Unicode, Printable, Unstructured, Selectors, GVRText, SliceSort, Quantities, Certs}.

Lemma age_reads t : only own_read (age t).
Proof. unfold age, now. own_reads. Qed.
#[local] Hint Resolve age_reads : mcp_reads.

Lemma podSummary_reads pod : only own_read (podSummary pod).
Proof. unfold podSummary. own_reads. Qed.
#[local] Hint Resolve podSummary_reads : mcp_reads.

Lemma containerState_reads s : only own_read (containerState s).
Proof. unfold containerState. own_reads. Qed.
#[local] Hint Resolve containerState_reads : mcp_reads.

Lemma container_reads name sts entry : only own_read (container_statuses name sts entry).
Proof. revert entry. induction sts as [|st sts IH]; intros entry; cbn [container_statuses]; own_reads; apply IH. Qed.

Lemma exemptions_reads gvrs ns l kind : only own_read (exemptions_in gvrs ns l kind).
Proof. induction gvrs as [|g gvrs IH]; cbn [exemptions_in]; unfold do_dynlist; own_reads; apply IH. Qed.

Lemma kind_reads fuel kind : only own_read (list_kind fuel kind).
Proof. unfold list_kind. own_reads. Qed.

Lemma objectEvents_reads ns kind name limit : only own_read (objectEvents ns kind name limit).
Proof. unfold objectEvents, do_list. own_reads. Qed.

Lemma endpointCounts_reads ns name : only own_read (endpointCounts ns name).
Proof. unfold endpointCounts, do_list. own_reads. Qed.

Lemma selected_pods_reads ns sel : only own_read (selected_pods ns sel).
Proof. unfold selected_pods, do_list. own_reads. Qed.

Lemma read_workload_reads ns kind name : only own_read (read_workload ns kind name).
Proof. unfold read_workload, do_get. own_reads. Qed.

Lemma node_reads node : only own_read (node_entry node).
Proof. unfold node_entry. own_reads. Qed.

End parts.

#[export] Hint Resolve age_reads podSummary_reads container_reads exemptions_reads kind_reads
  objectEvents_reads endpointCounts_reads selected_pods_reads read_workload_reads node_reads : mcp_reads.

(** The handler of one row of the table. *)
Tactic Notation "handler_reads" reference(h) :=
  unfold plain, answers, h, do_list, do_get, do_dynget, do_dynlist, now; own_reads.

Section tools.
Context `{Unicode, Printable, Unstructured, Selectors, GVRText, SliceSort, Quantities, Certs}.

Lemma plain_reads a :
  only own_read (handleListPods a) ∧ only own_read (handleGetPod a) ∧ only own_read (handlePodLogs a) ∧
  only own_read (handleListEvents a) ∧ only own_read (handleListWorkloads a) ∧ only own_read (handleGetWorkload a) ∧
  only own_read (handleListServices a) ∧ only own_read (handleGetService a) ∧ only own_read (handleListRoutes a) ∧
  only own_read (handleListPVCs a) ∧ only own_read (handleGetQuota a) ∧ only own_read (handleTopPods a) ∧
  only own_read (handleListNodes a) ∧ only own_read (handleGetNode a) ∧ only own_read (handleListCertificates a) ∧
  only own_read (handleGetResource a) ∧ only own_read (handleListResource a).
Proof.
  split_and!.
  - handler_reads handleListPods.
  - handler_reads handleGetPod.
  - handler_reads handlePodLogs.
  - handler_reads handleListEvents.
  - handler_reads handleListWorkloads.
  - handler_reads handleGetWorkload.
  - handler_reads handleListServices.
  - handler_reads handleGetService.
  - handler_reads handleListRoutes.
  - handler_reads handleListPVCs.
  - handler_reads handleGetQuota.
  - handler_reads handleTopPods.
  - handler_reads handleListNodes.
  - handler_reads handleGetNode.
  - handler_reads handleListCertificates.
  - handler_reads handleGetResource.
  - handler_reads handleListResource.
Qed.

Lemma policy_reads a : only own_read (handleListPolicies a) ∧ only own_read (handleGetPolicyReport a).
Proof. split; [handler_reads handleListPolicies|handler_reads handleGetPolicyReport]. Qed.

Lemma steps_read fuel pdbs : Forall (only own_read) (step1 fuel) ∧ Forall (only own_read) (step2 fuel pdbs).
Proof.
  split; [|repeat constructor; unfold go; [handler_reads listReplicaSetDeployments|handler_reads scanPods]].
  apply Forall_app. split.
  - repeat constructor; unfold go; [handler_reads listPDBs|handler_reads listAuditWorkloads|handler_reads listNamespaceLabels].
  - apply Forall_lookup. intros i p (kind & _ & ->)%list_lookup_imap_Some. unfold go. own_reads.
Qed.

Lemma audit_reads fuel a : only own_read (handleDisruptionAudit fuel a) ∧ only own_read (handleListTeams fuel).
Proof.
  split; [|handler_reads handleListTeams]. apply only_try; [apply only_in_turn, (steps_read fuel [])|]. intros us.
  apply only_try; [apply only_in_turn, steps_read|done].
Qed.

Lemma tool_fn_reads fuel t raw : t ∈ buildTools fuel → only own_read (tool_fn t raw).
Proof.
  intros Ht. apply only_try; [|done]. generalize (call_args raw). intros a.
  pose proof (plain_reads a) as Hp. pose proof (policy_reads a) as Hq. pose proof (audit_reads fuel a) as Hr.
  destruct_and!. unfold buildTools in Ht. rewrite !elem_of_cons, elem_of_nil in Ht.
  destruct_or! Ht; try done; subst t; by apply only_try.
Qed.

Lemma cache_get_reads k c : only own_read (cache_get k c).
Proof. unfold cache_get, now. own_reads. Qed.

Lemma cache_do_reads k fn c : only own_read fn → only own_read (cache_do k fn c).
Proof. intros Hf. unfold cache_do, now. pose proof cache_get_reads. own_reads; auto. Qed.

Lemma call_tool_reads fuel t raw c : t ∈ buildTools fuel → only own_read (call_tool t raw c).
Proof. intros Ht. apply only_bind; [by eapply cache_do_reads, tool_fn_reads|]. by intros []. Qed.

(** C2: The endpoint of the read-only tools never writes: whatever the tool,
    its raw arguments, the cache and the answers of the cluster, every request
    a call makes only reads, and is made as the server itself. *)
Theorem tools_read_only fuel t raw c tr r e :
  t ∈ buildTools fuel → runs (call_tool t raw c) tr r → e ∈ tr → own_read (asked e).
Proof. intros Ht. apply only_runs. by eapply call_tool_reads. Qed.

(** ** The cache never mixes up calls *)

Lemma tool_names fuel : NoDup (map t_name (buildTools fuel)) ∧
  Forall (λ t, lacks (z_byte 0) (t_name t) = true) (buildTools fuel).
Proof. split; [|by repeat constructor]. by apply (bool_decide_unpack _); vm_compute. Qed.

(** Tool names have no NUL byte, so a key determines the tool and the
    arguments. *)
Lemma cache_key_inj fuel t t' raw raw' : t ∈ buildTools fuel → t' ∈ buildTools fuel →
  cache_key t raw = cache_key t' raw' → t = t' ∧ raw = raw'.
Proof.
  destruct (tool_names fuel) as [Hn Hl]. rewrite Forall_forall in Hl. intros Ht Ht' Hk.
  apply (f_equal (λ s, Cut s nul)) in Hk. unfold cache_key, nul in Hk. simpl String.append in Hk.
  rewrite !Cut_byte in Hk by auto. injection Hk as Hname ->. split; [|done].
  apply list_elem_of_lookup in Ht as [i Hi], Ht' as [j Hj].
  assert (i = j) as ->; [|congruence].
  apply (NoDup_lookup (map t_name (buildTools fuel)) i j (t_name t) Hn);
    rewrite list_lookup_fmap; [by rewrite Hi|by rewrite Hj, Hname].
Qed.

(** A run of the tool on the arguments, within an exchange. *)
Definition ran (tr : list (event request reply)) (t : tool) (raw : string) (out : result error string) : Prop :=
  ∃ tr1 tr2 tr3, tr = tr1 ++ tr2 ++ tr3 ∧ runs (tool_fn t raw) tr2 out.

Lemma ran_app h1 tr h2 t raw out : ran tr t raw out → ran (h1 ++ tr ++ h2) t raw out.
Proof.
  intros (tr1 & tr2 & tr3 & -> & Hr). exists (h1 ++ tr1), tr2, (tr3 ++ h2). split; [|done]. by rewrite <- !app_assoc.
Qed.

(** Every entry of the cache is what its tool answered to its arguments. *)
Definition own (fuel : nat) (h : list (event request reply)) (c : resultCache) : Prop :=
  cache_ok c ∧ ∀ e, e ∈ entries c → ∃ t raw, t ∈ buildTools fuel ∧ key e = cache_key t raw ∧ ran h t raw (Ok (val e)).

Lemma own_more fuel h tr c : own fuel h c → own fuel (h ++ tr) c.
Proof.
  intros [Hok He]. split; [done|]. intros e (t & raw & Ht & Hk & Hr)%He. exists t, raw.
  split_and!; [done..|]. by apply (ran_app [] h tr).
Qed.

Lemma cache_get_own fuel h t raw c tr v c' : own fuel h c → t ∈ buildTools fuel →
  runs (cache_get (cache_key t raw) c) tr (v, c') →
  own fuel (h ++ tr) c' ∧ ∀ text, v = Some text → ran (h ++ tr) t raw (Ok text).
Proof.
  intros Ho Ht. unfold cache_get. case_match; [|intros [-> [= <- <-]]; split; [by apply own_more|done]].
  rewrite runs_bind. intros (tr1 & tr2 & now & -> & _ & Hr).
  destruct Ho as [Hok He], (get_entries now (cache_key t raw) c Hok) as (Hok' & Hsub & Hv).
  destruct (Cache.get now (cache_key t raw) c) as [[v0 ok] c0]. destruct Hr as [-> [= <- <-]].
  cbn [fst snd] in *. split.
  - apply own_more. split; [done|]. auto.
  - intros text Htext. destruct ok; simplify_eq. destruct (Hv _ eq_refl) as (e & Hin & Hk & <-).
    apply He in Hin as (t' & raw' & Ht' & Hk' & Hr). rewrite Hk in Hk'.
    apply (cache_key_inj fuel) in Hk' as [<- <-]; [|done..]. by apply (ran_app [] h).
Qed.

Lemma call_own fuel h t raw c tr r c' : own fuel h c → t ∈ buildTools fuel →
  runs (call_tool t raw c) tr (r, c') →
  own fuel (h ++ tr) c' ∧ ∃ out, ran (h ++ tr) t raw out ∧ r = call_outcome out.
Proof.
  intros Ho Ht. unfold call_tool, cache_do. rewrite runs_bind. intros (tr1 & tr2 & [out c1] & -> & Hr & [-> [= <- <-]]).
  rewrite app_nil_r. cut (own fuel (h ++ tr1) c1 ∧ ran (h ++ tr1) t raw out); [naive_solver|].
  apply runs_bind in Hr as (tra & trb & [v ca] & -> & Ha & Hr).
  apply (cache_get_own fuel h) in Ha as [Hoa Hva]; [|done..]. rewrite (app_assoc h).
  destruct v as [v|]; [destruct Hr as [-> [= <- <-]]; rewrite app_nil_r; eauto|].
  apply runs_bind in Hr as (trc & trd & [v cc] & -> & Hc & Hr).
  apply (cache_get_own fuel (h ++ tra)) in Hc as [Hoc Hvc]; [|done..]. rewrite (app_assoc (h ++ tra)).
  destruct v as [v|]; [destruct Hr as [-> [= <- <-]]; rewrite app_nil_r; eauto|].
  apply runs_bind in Hr as (tre & trf & out' & -> & He & Hr).
  assert (Hran : ran ((h ++ tra) ++ trc ++ tre ++ trf) t raw out').
  { exists ((h ++ tra) ++ trc), tre, trf. split; [by rewrite <- !app_assoc|done]. }
  destruct out' as [text|err].
  - apply runs_bind in Hr as (trg & trh & now & -> & _ & [-> [= <- <-]]). rewrite app_nil_r in *.
    rewrite <- (app_assoc (h ++ tra)). split; [|done].
    destruct Hoc as [Hok Hent], (put_entries now (cache_key t raw) text cc Hok) as [Hok' Hput].
    split; [done|]. intros e [[Hk Hv]|Hin]%Hput; [subst; eauto|].
    apply (own_more fuel ((h ++ tra) ++ trc) (tre ++ trg) cc) in Hin; [|by split].
    by rewrite <- (app_assoc (h ++ tra)) in Hin.
  - destruct Hr as [-> [= <- <-]]. rewrite app_nil_r in *. rewrite <- (app_assoc (h ++ tra)).
    split; [|done]. rewrite (app_assoc (h ++ tra)). by apply own_more.
Qed.

Lemma serve_own fuel h cs c tr rs : own fuel h c → Forall (λ e, e.1 ∈ buildTools fuel) cs →
  runs (serve_calls cs c) tr rs →
  ∀ i t raw, cs !! i = Some (t, raw) → ∃ out, rs !! i = Some (call_outcome out) ∧ ran (h ++ tr) t raw out.
Proof.
  revert h c tr rs. induction cs as [|[t0 raw0] cs IH]; intros h c tr rs Ho Hcs; [done|].
  cbn [serve_calls]. rewrite runs_bind. intros (tr1 & tr2 & [r c'] & -> & Hc & Hr).
  apply runs_bind in Hr as (tr3 & tr4 & rs' & -> & Hr & [-> <-]). rewrite app_nil_r.
  inversion Hcs as [|? ? Ht Hcs']; subst. apply (call_own fuel h) in Hc as [Ho' (out & Hran & ->)]; [|done..].
  intros [|i] t raw; simpl.
  - intros [= <- <-]. exists out. split; [done|]. rewrite app_assoc. by apply (ran_app [] (h ++ tr1)).
  - rewrite app_assoc. eapply IH; eauto.
Qed.

(** The cache never mixes up calls: in any sequence of calls on a new
    server, every call is answered with what that very tool answered to those
    very arguments in a run within the sequence, its error included; no two
    tools or arguments share a cache key. *)
Theorem answers_are_own fuel cs tr rs i t raw :
  Forall (λ e, e.1 ∈ buildTools fuel) cs → runs (serve_calls cs new_server_cache) tr rs → cs !! i = Some (t, raw) →
  ∃ out, rs !! i = Some (call_outcome out) ∧
    ∃ tr1 tr2 tr3, tr = tr1 ++ tr2 ++ tr3 ∧ runs (tool_fn t raw) tr2 out.
Proof.
  intros Hcs Hr Hi. refine (serve_own fuel [] cs new_server_cache tr rs _ Hcs Hr i t raw Hi).
  split; [by apply new_ok|]. by intros e ?%not_elem_of_nil.
Qed.

(** C14: What a tool answers can be read.  When a call succeeds, its text is the
    string the handler returned, or JSON that reads back as what the handler
    returned, in the handler's own run: the document of the answer, and for a
    JSON value the value itself with its integers as float64s, its strings
    valid UTF-8 and its keys sorted.  When it fails, the handler failed with
    that very error, or returned a number among its values that is NaN or
    infinite, which the error names.  The bound is the decoder's limit on nesting. *)
Theorem answer_reads_back t raw tr r : runs (tool_fn t raw) tr r →
  match r with
  | Ok text =>
      runs (t_handler t (call_args raw)) tr (Ok (AnswerValue (VStr text))) ∨
      ∃ out, runs (t_handler t (call_args raw)) tr (Ok out) ∧
        ((9 + answer_depth out ≤ maxNestingDepth)%nat →
          (∃ j, answer_json out = Some j ∧ Unmarshal text = Some (read_back j)) ∧
          ∀ v, out = AnswerValue v → keyed v → Unmarshal text = Some (canon v))
  | Err err =>
      runs (t_handler t (call_args raw)) tr (Err err) ∨
      ∃ out f, runs (t_handler t (call_args raw)) tr (Ok out) ∧ unsupported_answer out = Some f ∧
        (valid_binary 53 1024 f = true → f = S754_nan ∨ ∃ s, f = S754_infinity s) ∧
        error_text err = "marshal result: json: unsupported value: " +:+ float_v f
  end.
Proof.
  unfold tool_fn. rewrite runs_try. intros [(tr1 & tr2 & out & -> & Ho & [-> Hout])|(e & He & ->)]; [|by left].
  rewrite app_nil_r. subst r.
  assert (Hc : (∃ s, out = AnswerValue (VStr s)) ∨
    match out with AnswerValue (VStr s) => Ok s | _ => match MarshalIndent out with
      | Ok b => Ok b | Err merr => Err (wrap_err "marshal result" merr) end end =
    match MarshalIndent out with Ok b => Ok b | Err merr => Err (wrap_err "marshal result" merr) end).
  { destruct out as [[| | | |s| |]| | | | |]; [..|]; try by right. left. by eexists. }
  destruct Hc as [[s ->]|Hm]; [by left|]. rewrite Hm. clear Hm. destruct (MarshalIndent out) as [text|err] eqn:Hm; right.
  - exists out. split; [done|]. intros Hd. split; [by apply MarshalIndent_reads|]. intros v -> Hk.
    apply MarshalIndent_value; [done|cbn in Hd; lia|done].
  - apply MarshalIndent_error in Hm as (f & Hf & Ht & ->). exists out, f. split_and!; [done..|]. by cbn; rewrite sapp_nil_r.
Qed.

End tools.

(** Package mcp of the Go SDK: the stateless streamable HTTP handler, and a run
    over stdin and stdout.  Both talk to the cluster only through the functions
    of the tools registered with the server, which the handler gives the
    request's own headers or none, and the run over stdio none. *)
Class SDK := {
  ServeHTTP : ∀ {S}, mcp_server S → http_request → S → io (http_response * S);
  ServeHTTP_only : ∀ S (P : request → Prop) (server : mcp_server S) r s,
    (∀ t header raw s', t ∈ ms_tools server → header = None ∨ header = Some (hr_remote_user r) →
      only P (rt_call t header raw s')) →
    only P (ServeHTTP server r s);
  Run : ∀ {S}, mcp_server S → S → io (option error);
  Run_only : ∀ S (P : request → Prop) (server : mcp_server S) s,
    (∀ t raw s', t ∈ ms_tools server → only P (rt_call t None raw s')) →
    only P (Run server s);
}.

Section transports.
Context `{Unicode, Printable, Unstructured, Selectors, GVRText, SliceSort, Quantities, Certs, SDK} (version : string) (fuel : nat).

(** (s *Server) RunStdio: one client, until it leaves or the context ends. *)
Definition RunStdio : io (option error) := Run (NewServer version fuel) new_server_cache.

(** (s *Server) HTTPHandler: each request on its own, over the cache. *)
Definition HTTPHandler (req : http_request) (c : resultCache) : io (http_response * resultCache) :=
  ServeHTTP (NewServer version fuel) req c.

Lemma RunStdio_reads : only own_read RunStdio.
Proof. apply Run_only. intros t raw c' (t' & -> & Ht)%list_elem_of_fmap. by eapply call_tool_reads. Qed.

Lemma HTTPHandler_reads req c : only own_read (HTTPHandler req c).
Proof.
  apply ServeHTTP_only. intros t header raw c' (t' & -> & Ht)%list_elem_of_fmap _. by eapply call_tool_reads.
Qed.

End transports.

(** ** Concrete interfaces and witnesses *)

(** The text of arguments that name one pod. *)
Definition pod_args : string :=
  Eval vm_compute in default "" (@Marshal (VObj [("namespace", VStr "ns"); ("name", VStr "web-0")])).


(** One call: the body is the tool's name. *)
Definition serve_one {S} (server : mcp_server S) (r : http_request) (s : S) : io (http_response * S) :=
  match List.find (λ t, bool_decide (rt_name t = hr_body r)) (ms_tools server) with
  | None => Ret (mkResponse 404 "no such tool", s)
  | Some t => let! (out, s') := rt_call t (Some (hr_remote_user r)) pod_args s in Ret (mkResponse 200 (cr_text out), s')
  end.

(** Every tool once. *)
Definition run_all {S} (server : mcp_server S) (s : S) : io (option error) :=
  let! _ := (fix go (ts : list (registered S)) (s : S) : io S :=
    match ts with
    | [] => Ret s
    | t :: ts' => let! (_, s') := rt_call t None pod_args s in go ts' s'
    end) (ms_tools server) s in
  Ret None.

#[refine] Definition plain_sdk : SDK := {| ServeHTTP := @serve_one; Run := @run_all |}.
Proof.
  - intros S P server r s Ht. unfold serve_one.
    destruct (find _ (ms_tools server)) as [t|] eqn:Hf; [|done]. apply find_some in Hf as [Hin _].
    apply only_bind; [apply Ht; [by apply list_elem_of_In|by right]|]. by intros [].
  - intros S P server s Ht. apply only_bind; [|done]. destruct server as [n v i ts]. cbn in *. revert s.
    induction ts as [|t ts IH]; intros s; [done|]. apply only_bind; [apply Ht; left|].
    intros [_ s']. apply IH. intros t' raw s'' Hin. apply Ht. by right.
Defined.

Module ServerDemo.
#[local] Existing Instances plain_unicode plain_printable plain_unstructured
  plain_selectors plain_gvr_text plain_quantities plain_certs.

Definition answer (q : request) : reply q :=
  match q with
  | Get _ _ _ _ | DynGet _ _ _ _ | CreateJob _ _ _ => Err (ErrText "no")
  | List _ _ _ _ => Ok ([], "")
  | DynList _ _ _ _ => Ok ([], "")
  | GetLogs _ _ _ _ => Ok "line"
  | GetRaw _ _ => Ok ""
  | NewClient _ => None
  | ExecPod _ _ _ _ _ _ => mkExec None [] None false
  | Now => 5
  | Tick => false
  end.

Definition world (s : unit) (q : request) : reply q * unit := (answer q, s).
Definition ev (q : request) : event request reply := Effects.Event q (answer q).

Definition pod_logs : tool := tool_pod_logs.

Lemma pod_logs_in : pod_logs ∈ buildTools 3.
Proof. do 2 right. left. Qed.

(** Two calls with the same arguments: one read of the log. *)
Definition logs_read : event request reply := ev (GetLogs Server "ns" "web-0" (mkLogOptions "" 100 false)).

Lemma two_calls_run : runs (serve_calls [(pod_logs, pod_args); (pod_logs, pod_args)] new_server_cache)
  [logs_read; ev Now; ev Now] [textResult "line"; textResult "line"].
Proof. apply (interp_runs world tt _ _ _ tt). vm_compute. reflexivity. Qed.

Lemma answers_are_own_witness : ∃ tr1 tr2 tr3, [logs_read; ev Now; ev Now] = tr1 ++ tr2 ++ tr3 ∧
  ∃ out, runs (tool_fn pod_logs pod_args) tr2 out.
Proof.
  destruct (answers_are_own 3 [(pod_logs, pod_args); (pod_logs, pod_args)] _ _ 1 pod_logs pod_args
    ltac:(repeat constructor; exact pod_logs_in) two_calls_run eq_refl) as (out & _ & tr1 & tr2 & tr3 & Heq & Hr).
  exists tr1, tr2, tr3. split; [exact Heq|]. by exists out.
Defined.

(** No services: the text that is sent, and the values it holds. *)
Definition no_services : string :=
  Eval vm_compute in default "" (indented <$> to_json (VObj [("namespace", VStr "ns"); ("count", VInt Kint 0); ("services", VList [])])).

Lemma services_run : runs (tool_fn tool_list_services pod_args) [ev (List Server KServices "ns" no_opts)] (Ok no_services).
Proof. apply (interp_runs world tt _ _ _ tt). vm_compute. reflexivity. Qed.

Lemma answer_reads_back_witness :
  runs (t_handler tool_list_services (call_args pod_args)) [ev (List Server KServices "ns" no_opts)] (Ok (AnswerValue (VStr no_services))) ∨
  ∃ out, (9 + answer_depth out ≤ maxNestingDepth)%nat → ∃ j, answer_json out = Some j ∧ Unmarshal no_services = Some (read_back j).
Proof.
  destruct (answer_reads_back tool_list_services pod_args _ (Ok no_services) services_run) as [Hs|(out & _ & Hout)]; [left; exact Hs|].
  right. exists out. intros Hd. apply (Hout Hd).
Defined.

Example services_read : Unmarshal no_services =
  Some (VObj [("count", VFloat (S754_zero false)); ("namespace", VStr "ns"); ("services", VList [])]).
Proof. vm_compute. reflexivity. Qed.

Lemma tools_read_only_witness : own_read (asked logs_read).
Proof.
  destruct (interp world tt (call_tool pod_logs pod_args new_server_cache)) as [[[r tr] s]|] eqn:Hi; [|by vm_compute in Hi].
  apply (tools_read_only 3 pod_logs pod_args new_server_cache tr r logs_read pod_logs_in).
  - exact (interp_runs world tt _ _ _ s Hi).
  - vm_compute in Hi. injection Hi as <- <- <-. left.
Defined.
End ServerDemo.
