(* ===== verification/EndToEnd.v ===== *)
(** * What a client of get_resource reads

    The parts joined along the whole way of an answer: the object the API
    server returns is redacted ([Redact]), built into an answer ([Handlers]),
    written as JSON ([Answers]) and read back by the client ([Unmarshal]). *)

From S2P Require Import Prelude GoStrings GoTime Value Kube Floats Json Unmarshal NumberText RoundTrip Instances Args Redact Pages Handlers Answers Tools Server.
Local Open Scope Z_scope.
Local Open Scope mcp_scope.

(** ** Redaction keeps the shape of an object *)

Section shape.
Context `{Unicode}.

Lemma keyed_wf v : keyed v → wf v.
Proof.
  induction v as [| | | | |l IH|m IH] using value_ind; intros Hk; inversion Hk as [| | | | |? Hl|? Hn _ Hm]; subst;
    try constructor; try done; rewrite Forall_forall in *; eauto.
Qed.

Lemma keyed_mask v : keyed v → keyed (mask v).
Proof.
  induction v as [| | | | |l IH|m IH] using value_ind; intros Hk; try done; inversion Hk as [| | | | |? Hl|? Hn Hs Hm]; subst;
    rewrite Forall_forall in *.
  - rewrite mask_list. constructor. apply Forall_map, Forall_forall. intros x Hx.
    destruct (mask_elem_is x) as [-> | [_ [s ->]]]; [auto|constructor].
  - rewrite mask_obj. constructor.
    + unfold mkeys. by rewrite map_map.
    + apply Forall_map, Forall_forall. intros e He. cbn. by apply Hs.
    + apply Forall_map, Forall_forall. intros e He. cbn. destruct (mask_field_is m e) as [-> | [_ [s ->]]]; [auto|constructor].
Qed.

Lemma depth_list l : depth (VList l) = S (fold_right Nat.max 0%nat (map depth l)).
Proof. done. Qed.

Lemma depth_mask v : (depth (mask v) ≤ depth v)%nat.
Proof.
  induction v as [| | | | |l IH|m IH] using value_ind; try done.
  - rewrite mask_list, !depth_list. apply le_n_S. rewrite map_map. apply fold_max_le, Forall_forall. intros x Hx.
    rewrite Forall_forall in IH. pose proof (proj1 (fold_max_le depth l _) (Nat.le_refl _)) as Hd. rewrite Forall_forall in Hd.
    specialize (Hd x Hx). destruct (mask_elem_is x) as [-> | [_ [s ->]]]; [specialize (IH x Hx); lia|cbn; lia].
  - rewrite mask_obj, !depth_obj. apply le_n_S. unfold depth_fields. rewrite map_map. apply fold_max_le, Forall_forall. intros e He.
    rewrite Forall_forall in IH. pose proof (proj1 (fold_max_le (λ e : string * value, depth e.2) m _) (Nat.le_refl _)) as Hd.
    rewrite Forall_forall in Hd. specialize (Hd e He). cbn.
    destruct (mask_field_is m e) as [-> | [_ [s ->]]]; [specialize (IH e He); lia|cbn; lia].
Qed.

(** The objects of what is read are those of what was written. *)
Lemma canon_inside m v : inside (VObj m) (canon v) →
  ∃ m0, inside (VObj m0) v ∧ m = in_key_order (map (λ e, (e.1, canon e.2)) m0).
Proof.
  induction v as [| |k z| | |l IH|m0 IH] using value_ind; cbn [canon]; intros Hin; try by inversion Hin.
  - exfalso. destruct (int_value z) eqn:Hz; try by inversion Hin; unfold int_value in *; destruct (nearest _ _ _).
  - inversion Hin as [|? y Hy Hin'|]; subst. apply list_elem_of_fmap in Hy as (x & -> & Hx). rewrite Forall_forall in IH.
    destruct (IH x Hx Hin') as (m1 & H1 & ->). exists m1. split; [by eapply inside_list|done].
  - inversion Hin as [| |? k y Hy Hin']; subst; [exists m0; split; [constructor|done]|].
    unfold in_key_order in Hy. rewrite stable_sort_in in Hy. apply list_elem_of_fmap in Hy as ([k' x] & [= -> ->] & Hx).
    rewrite Forall_forall in IH. destruct (IH _ Hx Hin') as (m1 & H1 & ->). exists m1. split; [by eapply inside_obj|done].
Qed.

Lemma harmless_canon v : harmless v = true → harmless (canon v) = true.
Proof.
  destruct v; try done. cbn. rewrite !orb_true_iff, !bool_decide_eq_true.
  intros [-> | ->]; [left; done|right; vm_compute; done].
Qed.

Lemma harmless_read v : (∀ m k x, inside (VObj m) v → (k, x) ∈ m → sensitiveKey k = true → harmless x = true) →
  ∀ m k x, inside (VObj m) (canon v) → (k, x) ∈ m → sensitiveKey k = true → harmless x = true.
Proof.
  intros Hv m k x (m0 & Hin & ->)%canon_inside Hx Hk. unfold in_key_order in Hx. rewrite stable_sort_in in Hx.
  apply list_elem_of_fmap in Hx as ([k' x'] & [= -> ->] & Hx). by eapply harmless_canon, Hv.
Qed.

(** What get_resource answers about an object. *)
Definition resource_answer (o : obj) : value :=
  let '(o', n) := redactObject o in
  if (0 <? n)%nat then VObj [("object", VObj o'); ("redacted", vint n); ("note", VStr redacted_note)] else VObj o'.

Lemma resource_answer_shape o : keyed (VObj o) →
  keyed (resource_answer o) ∧ (depth (resource_answer o) ≤ S (depth (VObj o)))%nat.
Proof.
  intros Hk. pose proof (keyed_wf _ Hk) as Hw. unfold resource_answer. rewrite redactObject_spec by done.
  pose proof (keyed_mask _ Hk) as Hm. pose proof (depth_mask (VObj o)) as Hd. rewrite mask_obj in Hm, Hd.
  set (o' := map (λ e, (e.1, mask_field o e)) o) in *. clearbody o'.
  destruct (0 <? hidden_count (VObj o))%nat; [|split; [done|lia]]. split.
  - constructor; [by apply (bool_decide_unpack _); vm_compute|by repeat constructor|].
    apply Forall_cons_2; [exact Hm|repeat constructor].
  - rewrite depth_obj. unfold depth_fields. cbn [map fold_right snd].
    change (depth (vint _)) with 0%nat. change (depth (VStr _)) with 0%nat. lia.
Qed.

End shape.

(** ** The client of get_resource *)

Section client.
Context `{Unicode, Printable, Unstructured, Selectors, GVRText, SliceSort, Quantities, Certs}.

(** The one request of a call. *)
Definition read_of (a : args) : request := DynGet Server (arg_gvr a) (arg_str a "namespace") (arg_str a "name").

(** The successful calls: the object that was read, and what is made of it. *)
Lemma get_resource_run a tr v : runs (handleGetResource a) tr (Ok v) ↔
  ∃ o : obj, tr = [Effects.Event (read_of a) (Ok o : reply (read_of a))] ∧ v = resource_answer (strip o).
Proof.
  unfold handleGetResource. rewrite runs_bind. split.
  - intros (tr1 & tr2 & r & -> & Hq & [-> Hr]). apply runs_do_dynget in Hq as ->. destruct r as [o|]; [|done].
    exists o. split; [done|]. unfold resource_answer. by destruct (redactObject (strip o)) as [o' n]; simplify_eq.
  - intros (o & -> & ->). eexists [_], [], (Ok o). split_and!; [done|by apply runs_do_dynget|]. split; [done|].
    unfold resource_answer. by destruct (redactObject (strip o)).
Qed.

Lemma resource_answer_obj o : ∃ m, resource_answer o = VObj m.
Proof. unfold resource_answer. destruct (redactObject o) as [o' n]. destruct (0 <? n)%nat; by eexists. Qed.

Lemma get_resource_text raw tr text : runs (tool_fn tool_get_resource raw) tr (Ok text) ↔
  ∃ o : obj, tr = [Effects.Event (read_of (call_args raw)) (Ok o : reply (read_of (call_args raw)))] ∧
    MarshalIndent (AnswerValue (resource_answer (strip o))) = Ok text.
Proof.
  unfold tool_fn. rewrite runs_try. cbn [t_handler tool_get_resource]. unfold plain, answers. split.
  - intros [(tr1 & tr2 & out & -> & Ho & [-> Hout])|(e & _ & ?)]; [|done]. rewrite app_nil_r.
    apply runs_try in Ho as [(tra & trb & v & -> & Hv & [-> [= <-]])|(e & _ & ?)]; [|done].
    rewrite app_nil_r. apply get_resource_run in Hv as (o & -> & ->). exists o. split; [done|].
    destruct (resource_answer_obj (strip o)) as [m Hm]. rewrite Hm in *. by destruct (MarshalIndent _); simplify_eq.
  - intros (o & -> & Hm). left. eexists [_], [], _. split_and!; [done| |].
    + apply runs_try. left. eexists [_], [], _. split_and!; [done| |by split].
      apply get_resource_run. by exists o.
    + split; [done|]. destruct (resource_answer_obj (strip o)) as [m Ho]. rewrite Ho in *. by rewrite Hm.
Qed.

(** C7: What a client of get_resource reads holds no credential.  When a call
    succeeds, whatever its raw arguments, the one request it made read the
    object asked for, and its text would be the same, byte for byte, if every
    credential of that object had been another, whatever managed fields and
    last-applied configuration it had: the text tells nothing about them.  And
    when the object has distinct keys without a broken character and is nested
    less deep than the JSON decoder accepts, the text parses, and in the value
    that a client gets no field with a sensitive name, at any depth, holds a
    number, a boolean or any string but the empty one and the marker.  A list
    or an object may stand there; the strings of such a list and the fields of
    such an object are credentials by their own names and shapes only. *)
Theorem get_resource_seen raw tr text : runs (tool_fn tool_get_resource raw) tr (Ok text) →
  ∃ o : obj, tr = [Effects.Event (read_of (call_args raw)) (Ok o : reply (read_of (call_args raw)))] ∧
    (∀ o', wf (VObj (strip o)) → wf (VObj (strip o')) → twin (VObj (strip o)) (VObj (strip o')) →
      runs (tool_fn tool_get_resource raw)
        [Effects.Event (read_of (call_args raw)) (Ok o' : reply (read_of (call_args raw)))] (Ok text)) ∧
    (keyed (VObj (strip o)) → (depth (VObj (strip o)) < maxNestingDepth)%nat →
      ∃ v, Unmarshal text = Some v ∧
        ∀ m k x, inside (VObj m) v → (k, x) ∈ m → sensitiveKey k = true → harmless x = true).
Proof.
  intros (o & -> & Hm)%get_resource_text. exists o. split; [done|]. split.
  - intros o' Hw Hw' Ht. apply get_resource_text. exists o'. split; [done|].
    unfold resource_answer in *. by rewrite <- (twin_redacted _ _ Hw Hw' Ht).
  - intros Hk Hd. destruct (resource_answer_shape _ Hk) as [Hk' Hd'].
    exists (canon (resource_answer (strip o))). split; [by apply MarshalIndent_value; [|lia|]|].
    apply harmless_read. intros m k x. by apply get_resource_harmless, keyed_wf.
Qed.

End client.

(** ** Witness: an application with a password and a size *)

Module SeenDemo.
#[local] Existing Instances plain_unicode plain_printable plain_unstructured
  plain_selectors plain_gvr_text plain_quantities data_certs.

Definition read_app : event request reply := HandlersDemo.ev (DynGet Server (mkGVR "" "" "") "ns" "web-0").

Definition seen_text : string :=
  Eval vm_compute in
    match interp HandlersDemo.world tt (tool_fn tool_get_resource pod_args) with Some (Ok text, _, _) => text | _ => "" end.

Definition seen : value :=
  VObj [("note", VStr redacted_note);
        ("object", VObj [("kind", VStr "App"); ("spec", VObj [("password", VStr redacted); ("size", VFloat (S754_finite false 6755399441055744 (-51)))])]);
        ("redacted", VFloat (S754_finite false 4503599627370496 (-52)))].

Example seen_reads : Unmarshal seen_text = Some seen.
Proof. vm_compute. reflexivity. Qed.

(** The application with its credential changed. *)
Definition other_app : obj := [("kind", VStr "App"); ("spec", VObj [("password", VInt Kint64 7); ("size", VInt Kint64 3)])].

Lemma get_resource_seen_witness : runs (tool_fn tool_get_resource pod_args)
    [Effects.Event (read_of (call_args pod_args)) (Ok other_app : reply (read_of (call_args pod_args)))] (Ok seen_text) ∧
  harmless (VStr redacted) = true.
Proof.
  assert (Hr : runs (tool_fn tool_get_resource pod_args) [read_app] (Ok seen_text)).
  { apply (interp_runs HandlersDemo.world tt _ _ _ tt). vm_compute. reflexivity. }
  destruct (get_resource_seen pod_args _ _ Hr) as (o & Heq & Htwin & Hv).
  apply (f_equal (λ l, HandlersDemo.object_reply <$> head l)) in Heq. vm_compute in Heq. injection Heq as <-.
  split.
  { apply Htwin; [apply wf_check_sound; vm_compute; reflexivity..|]. vm_compute strip.
    constructor. twin_fields. constructor. twin_fields. }
  destruct Hv as (v & Hu & Hs).
  - vm_compute. constructor; [apply (bool_decide_unpack _); vm_compute; reflexivity|by repeat constructor|].
    apply Forall_cons_2; [constructor|]. apply Forall_cons_2; [|constructor].
    constructor; [apply (bool_decide_unpack _); vm_compute; reflexivity|by repeat constructor|by repeat constructor].
  - apply Nat.leb_le. vm_compute. reflexivity.
  - rewrite seen_reads in Hu. injection Hu as <-.
    eapply (Hs [("password", VStr redacted); ("size", VFloat (S754_finite false 6755399441055744 (-51)))] "password");
      [|left|by vm_compute].
    eapply inside_obj; [right; left|]. eapply inside_obj; [right; left|]. constructor.
Defined.
End SeenDemo.
