(* ===== verification/DebugServer.v ===== *)
(** * The debug endpoint (internal/mcp/debug.go)

    The tools that drive a debug pod runner, the function each is registered
    as, the JSON of their answers, and the bearer token in front of them.  [debugRunner] is the source's
    interface; [runner] is the instance the program uses.  Logging is not
    modelled. *)

From S2P Require Import Prelude GoStrings GoTime Value Kube Floats Json Unmarshal NumberText RoundTrip Instances Args Redact Groups DebugPod Answers Tools Server.
From S2P Require Import Pages.
Local Open Scope Z_scope.
Local Open Scope mcp_scope.

(** The interface debugRunner; [S] is what an implementation keeps. *)
Record debugRunner (S : Type) := mkDebugRunner {
  dr_Start : string → string → string → S → io (result error Started * S);
  dr_Exec : string → string → string → string → Z → S → io ((string * option error) * S);
  dr_Finish : string → string → string → S → io (option error * S);
  dr_List : string → string → S → io (result error (list listed) * S);
}.
#[global] Arguments mkDebugRunner {S} _ _ _ _.
#[global] Arguments dr_Start {S} _ _ _ _ _.
#[global] Arguments dr_Exec {S} _ _ _ _ _ _ _.
#[global] Arguments dr_Finish {S} _ _ _ _ _.
#[global] Arguments dr_List {S} _ _ _ _.

(** What a debug tool answers. *)
Inductive debug_answer :=
| DebugStarted (s : Started)
| DebugText (s : string)
| DebugPods (ns : string) (pods : list listed).

(** The process's time zone: the seconds east of UTC at an instant. *)
Class LocalZone := { zone_offset : Z → Z }.

Section answers.
Context `{LocalZone}.

Definition time_json (t : Z) : option string := Time_MarshalJSON (zone_offset t) t.

Definition started_json (s : Started) : option json :=
  expires ← time_json (sd_expiresAt s);
  Some (JObj ([("namespace", JStr (sd_namespace s)); ("job", JStr (sd_job s)); ("pod", JStr (sd_pod s))] ++
    omit_str "node" (sd_node s) ++
    [("image", JStr (sd_image s)); ("expires_at", JStr expires); ("note", JStr (sd_note s))])).

Definition listed_json (p : listed) : option json :=
  started ← time_json (ls_started p);
  Some (jmap [("pod", JStr (ls_pod p)); ("job", JStr (ls_job p)); ("phase", JStr (ls_phase p)); ("node", JStr (ls_node p));
              ("started", JStr started); ("reason", JStr (ls_reason p))]).

Definition debug_json (a : debug_answer) : option json :=
  match a with
  | DebugStarted s => started_json s
  | DebugText s => Some (JStr s)
  | DebugPods ns pods => ps ← mapM listed_json pods; Some (jmap [("namespace", JStr ns); ("pods", jslice ps)])
  end.

End answers.

Record debugTool (S : Type) := mkDebugTool {
  dt_name : string;
  dt_description : string;
  dt_schema : value;
  dt_run : string → args → S → io (result error debug_answer * S);
}.
#[global] Arguments mkDebugTool {S} _ _ _ _.
#[global] Arguments dt_name {S} _.
#[global] Arguments dt_description {S} _.
#[global] Arguments dt_schema {S} _.
#[global] Arguments dt_run {S} _ _ _ _.

Section debug_tools.
Context {S : Type} (r : debugRunner S).

Definition debugTools : list (debugTool S) := [
  mkDebugTool "debug_pod_start"
    "Start a short-lived debug pod in a namespace, as the user, with network tools (curl, dig, nc). Only after the user approved it. It sees the network as that namespace's pods do."
    (objSchema [("namespace", str nsDesc); ("reason", str "What the pod is for, one sentence; recorded on the pod.")]
      ["namespace"; "reason"]) (λ user a s,
    let! (out, s') := dr_Start r user (arg_str a "namespace") (arg_str a "reason") s in
    Ret (match out with Ok st => Ok (DebugStarted st) | Err e => Err e end, s'));
  mkDebugTool "debug_pod_exec"
    "Run one shell command in a debug pod you started (debug_pod_start) and return its output. Non-zero exit codes are returned with the output."
    (objSchema [("namespace", str nsDesc); ("pod", str "Debug pod name from debug_pod_start.");
       ("command", str "Shell command, e.g. 'dig +short api.example.svc' or 'curl -sv -m 5 http://svc:8080/healthz'.");
       ("timeout_seconds", integer "Command time limit (default and max set by the server).")]
      ["namespace"; "pod"; "command"]) (λ user a s,
    let! (out, s') := dr_Exec r user (arg_str a "namespace") (arg_str a "pod") (arg_str a "command")
      (int64 (arg_intOr a "timeout_seconds" 0 * Second)) s in
    Ret (match out.2 with None => Ok (DebugText out.1) | Some e => Err e end, s'));
  mkDebugTool "debug_pod_finish"
    "Finish a debug pod when the investigation is done: it exits and is deleted automatically."
    (objSchema [("namespace", str nsDesc); ("pod", str "Debug pod name.")] ["namespace"; "pod"]) (λ user a s,
    let! (err, s') := dr_Finish r user (arg_str a "namespace") (arg_str a "pod") s in
    Ret (match err with
         | Some e => Err e
         | None => Ok (DebugText "Finished: the pod exits now and is deleted automatically.")
         end, s'));
  mkDebugTool "debug_pod_list"
    "List the debug pods you started in a namespace that still exist."
    (objSchema [("namespace", str nsDesc)] ["namespace"]) (λ user a s,
    let! (pods, s') := dr_List r user (arg_str a "namespace") s in
    Ret (match pods with Ok pods => Ok (DebugPods (arg_str a "namespace") pods) | Err e => Err e end, s'))].

Context `{Unicode, LocalZone}.

(** The caller a request names, or nobody. *)
Definition debug_user (header : option string) : string := TrimSpace (default "" header).

Definition debug_outcome (out : result error debug_answer) : call_result :=
  match out with
  | Err err => errResult err
  | Ok (DebugText s) => textResult s
  | Ok out => textResult (default "" (indented <$> debug_json out))  (* the error is dropped *)
  end.

(** (s *DebugServer) add: the function registered for a tool. *)
Definition add_debug (t : debugTool S) : registered S :=
  mkRegistered (dt_name t) (dt_description t) (dt_schema t) (λ header raw s,
    let! (out, s') := dt_run t (debug_user header) (call_args raw) s in Ret (debug_outcome out, s')).

Definition debugInstructions : string :=
  "Debug pods: a short-lived pod in a tenant namespace, created as the user
(impersonated), so their own access decides. Use one only after the user approved it.
Flow: debug_pod_start -> debug_pod_exec (one command per call) -> debug_pod_finish.
Always finish the pod when done; it is also removed automatically at its deadline.
The pod has no extra capabilities: no ping or tcpdump. Use curl, dig, nc, openssl.".

Definition NewDebugServer (version : string) : mcp_server S :=
  mkMCPServer "openshift-mcp-debug" version debugInstructions (map add_debug debugTools).

Context `{SDK}.

(** subtle.ConstantTimeCompare is 1 on equal contents; http.Error ends the
    message with a newline. *)
Definition DebugHTTPHandler (version token : string) (req : http_request) (s : S) : io (http_response * S) :=
  if bool_decide (token = "") || negb (bool_decide (hr_authorization req = "Bearer " +:+ token))
  then Ret (mkResponse 401 ("unauthorized" +:+ newline), s)
  else ServeHTTP (NewDebugServer version) req s.

End debug_tools.

(** The runner of package debugpod as the interface's implementation; [fuel]
    bounds the polls of one Start. *)
Definition runner `{Unicode, SliceSort} (fuel : nat) (cfg : Config) : debugRunner groupCache :=
  mkDebugRunner (λ user ns reason g, Start cfg fuel g user ns reason)
    (λ user ns pod command timeout g, Exec cfg g user ns pod command timeout)
    (λ user ns pod g, Finish g user ns pod)
    (λ user ns g, ListPods g user ns).

(** ** Lemmas *)

(** As [Tools.handlers_read_schema], for the debug tools. *)
Lemma debug_tools_read_schema {S} (r : debugRunner S) t user a s : t ∈ debugTools r → NoDup (mkeys a) →
  dt_run t user (declared (dt_schema t) a) s = dt_run t user a s.
Proof.
  unfold debugTools. rewrite !elem_of_cons, elem_of_nil. intros Ht Ha. destruct_or! Ht; try done; subst t;
    cbn [dt_run dt_schema];
    by rewrite ?arg_str_declared, ?arg_intOr_declared by first [assumption|reflexivity].
Qed.

(** The JSON of a debug answer can be read. *)
Section readable.
Context `{LocalZone}.

Lemma listed_fits n p j : listed_json p = Some j → fits (S n) j.
Proof. unfold listed_json. destruct (time_json _); [|done]. intros [= <-]. auto 10 with mcp_json. Qed.

Lemma debug_answer_fits a j : debug_json a = Some j → fits 9 j.
Proof.
  destruct a as [s|s|ns pods]; cbn [debug_json].
  - unfold started_json. destruct (time_json _); [|done]. intros [= <-]. auto 10 with mcp_json.
  - intros [= <-]. apply fits_str.
  - destruct (mapM listed_json pods) as [ps|] eqn:Hps; [|done]. intros [= <-].
    apply fits_jmap. repeat apply fields_cons; auto with mcp_json. apply fits_slice.
    apply mapM_Some in Hps. induction Hps; constructor; [by eapply listed_fits|done].
Qed.

Lemma debug_answer_reads a j : debug_json a = Some j → Unmarshal (indented j) = Some (read_back j).
Proof. intros [Hn Hl]%debug_answer_fits. apply Unmarshal_indented; [done|]. etrans; [exact Hl|]. apply Nat.leb_le. by vm_compute. Qed.
End readable.

Section facts.
Context `{Unicode, SliceSort}.

(** What an operation may ask for on behalf of [user]: nothing at all unless
    the user is a person. *)
Definition on_behalf (user : string) (q : request) : Prop := speaks_for user q ∧ person (TrimSpace user).

Lemma perform_on_behalf cfg fuel g user op : only (on_behalf user) (perform cfg fuel g user op).
Proof.
  destruct (decide (person (TrimSpace user))) as [Hp|Hn].
  - eapply only_weaken; [|apply perform_speaks]. intros q Hq. by split.
  - rewrite perform_refuses by done. done.
Qed.

Lemma runner_on_behalf cfg fuel user :
  let r := runner fuel cfg in
  (∀ ns reason g, only (on_behalf user) (dr_Start r user ns reason g)) ∧
  (∀ ns pod command timeout g, only (on_behalf user) (dr_Exec r user ns pod command timeout g)) ∧
  (∀ ns pod g, only (on_behalf user) (dr_Finish r user ns pod g)) ∧
  (∀ ns g, only (on_behalf user) (dr_List r user ns g)).
Proof.
  split_and!; intros; eapply only_bind_inv.
  - exact (perform_on_behalf cfg fuel g user (OpStart ns reason)).
  - exact (perform_on_behalf cfg fuel g user (OpExec ns pod command timeout)).
  - exact (perform_on_behalf cfg fuel g user (OpFinish ns pod)).
  - exact (perform_on_behalf cfg fuel g user (OpList ns)).
Qed.

Context `{LocalZone}.

(** Every tool of the debug server asks on behalf of the user its header names. *)
Lemma debug_tool_on_behalf version cfg fuel t header raw g : t ∈ ms_tools (NewDebugServer (runner fuel cfg) version) →
  only (on_behalf (debug_user header)) (rt_call t header raw g).
Proof.
  destruct (runner_on_behalf cfg fuel (debug_user header)) as (Hs & He & Hf & Hl).
  unfold NewDebugServer, debugTools. cbn [map ms_tools]. rewrite !elem_of_cons, elem_of_nil. intros Ht.
  destruct_or! Ht; try done; subst t; cbn [rt_call add_debug dt_run]; (apply only_bind; [|by intros []]);
    (apply only_bind; [auto|by intros []]).
Qed.

Context `{SDK}.

(** A request with another Authorization header gets 401 and has no effect. *)
Lemma bad_token version token req cfg fuel g : token = "" ∨ hr_authorization req ≠ "Bearer " +:+ token →
  DebugHTTPHandler (runner fuel cfg) version token req g = Ret (mkResponse 401 ("unauthorized" +:+ newline), g).
Proof. intros Ht. unfold DebugHTTPHandler. destruct Ht; repeat case_bool_decide; try done. Qed.

Lemma good_token version token req cfg fuel g :
  only (λ q, (token ≠ "" ∧ hr_authorization req = "Bearer " +:+ token) ∧
             (on_behalf (TrimSpace (hr_remote_user req)) q))
    (DebugHTTPHandler (runner fuel cfg) version token req g).
Proof.
  unfold DebugHTTPHandler. repeat case_bool_decide; cbn [orb negb]; try done.
  apply ServeHTTP_only. intros t header raw g' Ht Hh.
  eapply only_weaken; [|by apply (debug_tool_on_behalf version cfg fuel)]. intros q Hq. split; [done|].
  destruct Hh as [->| ->]; [|done]. by destruct Hq as [_ [Hn _]].
Qed.

End facts.

Definition utc : LocalZone := {| zone_offset := λ _, 0 |}.
