(* ===== verification/Answered.v ===== *)
(** * Every call of a tool is answered

    The loops of the program that depend on the cluster are the paged lists and
    the polls of a starting pod; they have fuel.  Here a call of any tool of
    either endpoint is shown to be answered, unless the API server goes on
    continuing one list, or the ticker of one start goes on ticking; and with
    fuel enough for an answer, more fuel does not change it. *)

From S2P Require Import Prelude Parallel GoStrings GoTime Value Kube Pages Floats Json Unmarshal NumberText RoundTrip Instances Args Redact Cache Groups DebugPod Policy Disruption Handlers Answers Tools Server DebugServer.
Local Open Scope Z_scope.
Local Open Scope mcp_scope.

(** ** What keeps a call waiting *)

(** A request for a page: the list without its token, and the token. *)
Definition page_of (q : request) : option (request * string) :=
  match q with
  | List w k ns o => Some (List w k ns (with_continue "" o), Continue o)
  | DynList w g ns o => Some (DynList w g ns (with_continue "" o), Continue o)
  | _ => None
  end.

Definition next_token {X} (r : result error (list X * string)) : option string :=
  match r with Ok (_, next) => Some next | Err _ => None end.

(** The token a page was answered with. *)
Definition token_of (e : event request reply) : option string :=
  match asked e as q return reply q → option string with
  | List _ _ _ _ => next_token
  | DynList _ _ _ _ => next_token
  | _ => λ _, None
  end (replied e).

(** Pages of the list [l] from a token on, each asked for with the token of the
    one before it, none the last. *)
Inductive unfinished (l : request) : string → list (event request reply) → Prop :=
| unfinished_none tok : unfinished l tok []
| unfinished_page tok e next es :
    page_of (asked e) = Some (l, tok) → token_of e = Some next → next ≠ "" →
    unfinished l next es → unfinished l tok (e :: es).

(** [n] pages of one list from its start, with more to come. *)
Definition long_list (n : nat) (es : list (event request reply)) : Prop :=
  ∃ l, unfinished l "" es ∧ length es = n.

(** The ticks of a context that has not ended. *)
Definition is_tick (e : event request reply) : bool :=
  match asked e as q return reply q → bool with Tick => negb | _ => λ _, false end (replied e).

Definition ticks (es : list (event request reply)) : nat := length (List.filter is_tick es).

Lemma ticks_app es es' : ticks (es ++ es') = (ticks es + ticks es')%nat.
Proof. unfold ticks. by rewrite List.filter_app, length_app. Qed.

(** ** Loops *)

Section loops.
Context {A X : Type} (mk : ListOptions → request) (req : ListOptions → io (result error (list X * string))).
Context (fail : error → error) (each : A → X → A).
Hypothesis Hends : ∀ o tr, ¬ gives_up (req o) tr.
Hypothesis Hreq : ∀ o tr x, runs (req o) tr x →
  ∃ e, tr = [e] ∧ page_of (asked e) = Some (mk (with_continue "" o), Continue o) ∧ token_of e = next_token x.

Lemma pages_loop_unless fuel tok acc tr :
  gives_up (pages_loop fuel (list_page req fail each) (mkOpts "" "" PageSize tok) acc) tr →
  unfinished (mk (mkOpts "" "" PageSize "")) tok tr ∧ length tr = fuel.
Proof.
  revert tok acc tr. induction fuel as [|fuel IH]; intros tok acc tr; cbn [pages_loop].
  { intros ->. split; [constructor|done]. }
  intros [[Hg|(? & ? & [[]|] & _ & _ & [])]%gives_up_bind|(tr1 & tr2 & [x acc'] & -> & Hr & Hg)]%gives_up_bind; [by apply Hends in Hg|].
  apply runs_bind in Hr as (tr3 & tr4 & y & -> & (e & -> & Hp & Ht)%Hreq & Hy).
  destruct y as [[items next]|err]; destruct Hy as [-> [= <- <-]]; [|done].
  destruct (decide (next = "")) as [|Hn]; [done|]. apply IH in Hg as [Hu Hl].
  split; [by econstructor|cbn; by rewrite Hl].
Qed.

Lemma ListPages_unless fuel acc : answers_unless (long_list fuel) (ListPages fuel (list_page req fail each) acc).
Proof. intros tr [Hu Hl]%pages_loop_unless. exists [], tr. split; [done|]. by exists (mk (mkOpts "" "" PageSize "")). Qed.

End loops.

Lemma pages_loop_approx {A} (list : page_fn A) fuel fuel' o acc : (fuel ≤ fuel')%nat →
  approx (pages_loop fuel list o acc) (pages_loop fuel' list o acc).
Proof.
  revert fuel' o acc. induction fuel as [|fuel IH]; intros [|fuel'] o acc Hf; try constructor; [lia|].
  cbn [pages_loop]. apply approx_bind; [done|]. intros [[next|e] acc']; [|done].
  case_decide; [done|]. apply IH. lia.
Qed.

Lemma list_all_unless {A} fuel k what (each : A → object k → A) acc :
  answers_unless (long_list fuel) (list_all fuel k what each acc).
Proof.
  apply unless_bind; [|intros; apply unless_ret]. apply (ListPages_unless (List Server k "")).
  - by intros o tr (r & tr' & -> & []).
  - intros o tr x ->%runs_do_list. by eexists.
Qed.

Lemma list_all_approx {A} fuel fuel' k what (each : A → object k → A) acc : (fuel ≤ fuel')%nat →
  approx (list_all fuel k what each acc) (list_all fuel' k what each acc).
Proof. intros Hf. apply approx_bind; [by apply pages_loop_approx|done]. Qed.

Section custom.
Context `{GVRText}.

Lemma ListCustom_unless {A} fuel group resource versions (each : A → obj → A) acc :
  answers_unless (long_list fuel) (ListCustom fuel group resource versions each acc).
Proof.
  revert acc. induction versions as [|v vs IH]; intros acc; cbn [ListCustom]; [apply unless_ret|].
  apply unless_bind.
  - apply (ListPages_unless (DynList Server (mkGVR group v resource) "")).
    + by intros o tr (r & tr' & -> & []).
    + intros o tr x ->%runs_do_dynlist. by eexists.
  - intros [[e|] acc']; [|apply unless_ret]. destruct (IsNotFound e); [apply IH|apply unless_ret].
Qed.

Lemma ListCustom_approx {A} fuel fuel' group resource versions (each : A → obj → A) acc : (fuel ≤ fuel')%nat →
  approx (ListCustom fuel group resource versions each acc) (ListCustom fuel' group resource versions each acc).
Proof.
  intros Hf. revert acc. induction versions as [|v vs IH]; intros acc; cbn [ListCustom]; [done|].
  apply approx_bind; [by apply pages_loop_approx|]. intros [[e|] acc']; [|done]. by destruct (IsNotFound e).
Qed.

End custom.

Section groups.
Context {E U : Type}.

Lemma in_turn_unless P (ps : list (io (result E U))) : Forall (answers_unless P) ps → answers_unless P (in_turn ps).
Proof.
  induction 1 as [|p ps Hp _ IH]; cbn [in_turn]; [apply unless_ret|].
  apply unless_try; [done|]. intros u. apply unless_try; [done|]. intros us. apply unless_ret.
Qed.

Lemma in_turn_approx (ps ps' : list (io (result E U))) : Forall2 approx ps ps' → approx (in_turn ps) (in_turn ps').
Proof.
  induction 1 as [|p p' ps ps' Hp _ IH]; cbn [in_turn]; [done|].
  apply approx_try; [done|]. intros u. by apply approx_try.
Qed.

End groups.

Lemma mapM_unless {A B} P (f : A → io B) l : (∀ x, answers_unless P (f x)) → answers_unless P (mapM_io f l).
Proof.
  intros Hf. induction l as [|x l IH]; simpl; [apply unless_ret|].
  apply unless_bind; [done|]. intros y. apply unless_bind; [done|]. intros ys. apply unless_ret.
Qed.

(** ** The handlers *)

Create HintDb mcp_unless.
#[export] Hint Resolve list_all_unless ListCustom_unless : mcp_unless.

(** Solves [answers_unless P p] by following [p]; the parts proved before are
    hints. *)
Ltac solve_unless :=
  repeat first
    [ apply unless_ret
    | solve [auto 1 with mcp_unless nocore]
    | exact (unless_call _ _)
    | apply mapM_unless; intros ?
    | apply unless_try; [|intros ?]
    | apply unless_bind; [|intros ?]
    | progress cbv beta zeta
    | case_match ].

Section parts.
Context `{Unicode, Printable, Unstructured, Selectors, GVRText, SliceSort, Quantities, Certs}.
Context (P : list (event request reply) → Prop).

Lemma age_unless t : answers_unless P (age t).
Proof. unfold age, now. solve_unless. Qed.
#[local] Hint Resolve age_unless : mcp_unless.

Lemma podSummary_unless pod : answers_unless P (podSummary pod).
Proof. unfold podSummary. solve_unless. Qed.

Lemma containerState_unless s : answers_unless P (containerState s).
Proof. unfold containerState. solve_unless. Qed.
#[local] Hint Resolve containerState_unless : mcp_unless.

Lemma container_unless name sts entry : answers_unless P (container_statuses name sts entry).
Proof. revert entry. induction sts as [|st sts IH]; intros entry; cbn [container_statuses]; solve_unless; apply IH. Qed.

Lemma exemptions_unless gvrs ns l kind : answers_unless P (exemptions_in gvrs ns l kind).
Proof. induction gvrs as [|g gvrs IH]; cbn [exemptions_in]; unfold do_dynlist; solve_unless; apply IH. Qed.

Lemma objectEvents_unless ns kind name limit : answers_unless P (objectEvents ns kind name limit).
Proof. unfold objectEvents, do_list. solve_unless. Qed.

Lemma endpointCounts_unless ns name : answers_unless P (endpointCounts ns name).
Proof. unfold endpointCounts, do_list. solve_unless. Qed.

Lemma selected_pods_unless ns sel : answers_unless P (selected_pods ns sel).
Proof. unfold selected_pods, do_list. solve_unless. Qed.

Lemma read_workload_unless ns kind name : answers_unless P (read_workload ns kind name).
Proof. unfold read_workload, do_get. solve_unless. Qed.

Lemma node_unless node : answers_unless P (node_entry node).
Proof. unfold node_entry. solve_unless. Qed.

End parts.

#[export] Hint Resolve age_unless podSummary_unless container_unless exemptions_unless
  objectEvents_unless endpointCounts_unless selected_pods_unless read_workload_unless node_unless : mcp_unless.

Create HintDb mcp_approx.
#[export] Hint Resolve list_all_approx ListCustom_approx : mcp_approx.

(** Solves [approx p p'] where [p'] differs in the fuel of some lists. *)
Ltac solve_approx :=
  repeat first
    [ reflexivity
    | solve [auto 2 with mcp_approx nocore]
    | apply in_turn_approx
    | apply approx_try; [|intros ?]
    | apply approx_bind; [|intros ?]
    | case_match ].

(** The handler of one row of the table. *)
Tactic Notation "handler_unless" reference(h) :=
  unfold plain, answers, h, do_list, do_get, do_dynget, do_dynlist, now; solve_unless.

Section tools.
Context `{Unicode, Printable, Unstructured, Selectors, GVRText, SliceSort, Quantities, Certs}.

Lemma plain_unless P a :
  answers_unless P (handleListPods a) ∧ answers_unless P (handleGetPod a) ∧ answers_unless P (handlePodLogs a) ∧
  answers_unless P (handleListEvents a) ∧ answers_unless P (handleListWorkloads a) ∧ answers_unless P (handleGetWorkload a) ∧
  answers_unless P (handleListServices a) ∧ answers_unless P (handleGetService a) ∧ answers_unless P (handleListRoutes a) ∧
  answers_unless P (handleListPVCs a) ∧ answers_unless P (handleGetQuota a) ∧ answers_unless P (handleTopPods a) ∧
  answers_unless P (handleListNodes a) ∧ answers_unless P (handleGetNode a) ∧ answers_unless P (handleListCertificates a) ∧
  answers_unless P (handleGetResource a) ∧ answers_unless P (handleListResource a).
Proof.
  split_and!.
  - handler_unless handleListPods.
  - handler_unless handleGetPod.
  - handler_unless handlePodLogs.
  - handler_unless handleListEvents.
  - handler_unless handleListWorkloads.
  - handler_unless handleGetWorkload.
  - handler_unless handleListServices.
  - handler_unless handleGetService.
  - handler_unless handleListRoutes.
  - handler_unless handleListPVCs.
  - handler_unless handleGetQuota.
  - handler_unless handleTopPods.
  - handler_unless handleListNodes.
  - handler_unless handleGetNode.
  - handler_unless handleListCertificates.
  - handler_unless handleGetResource.
  - handler_unless handleListResource.
Qed.

Lemma policy_unless P a : answers_unless P (handleListPolicies a) ∧ answers_unless P (handleGetPolicyReport a).
Proof. split; [handler_unless handleListPolicies|handler_unless handleGetPolicyReport]. Qed.

Lemma steps_unless fuel pdbs :
  Forall (answers_unless (long_list fuel)) (step1 fuel) ∧ Forall (answers_unless (long_list fuel)) (step2 fuel pdbs).
Proof.
  split; [apply Forall_app; split|].
  - repeat constructor; unfold go, listPDBs, listAuditWorkloads, listNamespaceLabels; solve_unless.
  - apply Forall_lookup. intros i p (kind & _ & ->)%list_lookup_imap_Some. unfold go, list_kind.
    solve_unless.
  - repeat constructor; unfold go, listReplicaSetDeployments, scanPods; solve_unless.
Qed.

Lemma audit_unless fuel a :
  answers_unless (long_list fuel) (handleDisruptionAudit fuel a) ∧ answers_unless (long_list fuel) (handleListTeams fuel).
Proof.
  split; [|unfold handleListTeams; solve_unless].
  apply unless_try; [apply in_turn_unless, (steps_unless fuel [])|]. intros us.
  apply unless_try; [apply in_turn_unless, steps_unless|]. intros us'. apply unless_ret.
Qed.

Lemma tool_fn_unless fuel t raw : t ∈ buildTools fuel → answers_unless (long_list fuel) (tool_fn t raw).
Proof.
  intros Ht. apply unless_try; [|intros; apply unless_ret]. generalize (call_args raw). intros a.
  pose proof (plain_unless (long_list fuel) a) as Hp. pose proof (policy_unless (long_list fuel) a) as Hq.
  pose proof (audit_unless fuel a) as Hr. destruct_and!.
  unfold buildTools in Ht. rewrite !elem_of_cons, elem_of_nil in Ht.
  destruct_or! Ht; try done; subst t; by apply unless_try; [|intros; apply unless_ret].
Qed.

Lemma call_tool_unless fuel t raw c : t ∈ buildTools fuel → answers_unless (long_list fuel) (call_tool t raw c).
Proof.
  intros Ht. pose proof (tool_fn_unless fuel t raw Ht). unfold call_tool, cache_do, cache_get, now. solve_unless; done.
Qed.

(** *** More fuel *)

Lemma steps_approx fuel fuel' pdbs : (fuel ≤ fuel')%nat →
  Forall2 approx (step1 fuel) (step1 fuel') ∧ Forall2 approx (step2 fuel pdbs) (step2 fuel' pdbs).
Proof.
  intros Hf. split; [apply Forall2_app|].
  - unfold go, listPDBs, listAuditWorkloads, listNamespaceLabels. repeat constructor; solve_approx.
  - apply Forall2_same_length_lookup. split; [by rewrite !length_imap|]. intros i p p'.
    intros (kind & Hk & ->)%list_lookup_imap_Some (kind' & Hk' & ->)%list_lookup_imap_Some. simplify_eq.
    unfold go, list_kind. solve_approx.
  - unfold step2, go, listReplicaSetDeployments, scanPods. repeat constructor; solve_approx.
Qed.

(** A row of the table with more fuel. *)
Definition same_tool (t t' : tool) : Prop :=
  t_name t = t_name t' ∧ ∀ a, approx (t_handler t a) (t_handler t' a).

Lemma table_approx fuel fuel' : (fuel ≤ fuel')%nat → Forall2 same_tool (buildTools fuel) (buildTools fuel').
Proof.
  intros Hf. assert (Hr : ∀ t, same_tool t t) by by split.
  repeat (apply Forall2_cons; split; [try apply Hr|]); [..|constructor].
  - split; [done|]. intros a. cbn [t_handler tool_disruption_audit]. unfold answers, handleDisruptionAudit.
    solve_approx; [by apply (steps_approx _ _ [])|by apply steps_approx].
  - split; [done|]. intros a. cbn [t_handler tool_list_teams]. unfold answers, handleListTeams. solve_approx.
Qed.

Lemma call_tool_approx t t' raw c : same_tool t t' → approx (call_tool t raw c) (call_tool t' raw c).
Proof.
  intros [Hn Ha]. unfold call_tool, cache_do, cache_key. rewrite <- Hn. apply approx_bind; [|done].
  apply approx_bind; [done|]. intros [[v|] c1]; [done|]. apply approx_bind; [done|]. intros [[v|] c2]; [done|].
  apply approx_bind; [|done]. by apply approx_try.
Qed.

End tools.

(** ** The debug pods *)

Section debug.
Context `{Unicode, SliceSort} (cfg : Config).

Lemma events_unless P w ns kind name reasons : answers_unless P (events w ns kind name reasons).
Proof. unfold events, do_list. solve_unless. Qed.
#[local] Hint Resolve events_unless : mcp_unless.

Lemma look_unless P w ns job : answers_unless P (look w ns job).
Proof. unfold look, do_list. solve_unless. Qed.

Lemma waitRunning_unless fuel w ns job : answers_unless (λ es, (fuel ≤ ticks es)%nat) (waitRunning cfg fuel w ns job).
Proof.
  intros tr Hg. exists [], tr. split; [done|]. revert tr Hg. induction fuel as [|fuel IH]; intros tr; [lia|].
  cbn [waitRunning]. intros [Hg|(tr1 & tr2 & seen & -> & _ & Hg)]%gives_up_bind.
  { by destruct (look_unless (λ _, False) w ns job tr Hg) as (? & ? & _ & []). }
  rewrite ticks_app. destruct seen as [out|]; [done|].
  destruct Hg as ([] & tr3 & -> & Hg); [done|]. apply IH in Hg. unfold ticks in *. cbn. lia.
Qed.
#[local] Hint Resolve waitRunning_unless : mcp_unless.

Lemma caller_unless P g user : answers_unless P (caller g user).
Proof. unfold caller, groupsFor, impersonating, now. solve_unless. Qed.
#[local] Hint Resolve caller_unless : mcp_unless.

Lemma with_caller_unless {A} P g user (fail : error → A) (f : identity → io A) :
  (∀ w, answers_unless P (f w)) → answers_unless P (with_caller g user fail f).
Proof. intros Hf. unfold with_caller. solve_unless; auto. Qed.

Lemma exec_unless P w ns pod cmd limit out : answers_unless P (remoteExec w ns pod cmd limit out).
Proof. unfold remoteExec. solve_unless. Qed.
#[local] Hint Resolve exec_unless : mcp_unless.

Lemma owned_unless P w user ns pod : answers_unless P (owned w user ns pod).
Proof. unfold owned, do_get. solve_unless. Qed.
#[local] Hint Resolve owned_unless : mcp_unless.

Lemma runner_unless fuel user :
  let r := runner fuel cfg in let P := λ es, (fuel ≤ ticks es)%nat in
  (∀ ns reason g, answers_unless P (dr_Start r user ns reason g)) ∧
  (∀ ns pod command timeout g, answers_unless P (dr_Exec r user ns pod command timeout g)) ∧
  (∀ ns pod g, answers_unless P (dr_Finish r user ns pod g)) ∧
  (∀ ns g, answers_unless P (dr_List r user ns g)).
Proof.
  split_and!; intros; cbn [runner dr_Start dr_Exec dr_Finish dr_List].
  - apply with_caller_unless. intros w. unfold start_as. solve_unless.
  - unfold Exec. case_match; [apply unless_ret|]. apply with_caller_unless. intros w. unfold exec_as. solve_unless.
  - apply with_caller_unless. intros w. unfold finish_as. solve_unless.
  - apply with_caller_unless. intros w. unfold list_as, do_list. solve_unless.
Qed.

Lemma waitRunning_approx fuel fuel' w ns job : (fuel ≤ fuel')%nat →
  approx (waitRunning cfg fuel w ns job) (waitRunning cfg fuel' w ns job).
Proof.
  revert fuel'. induction fuel as [|fuel IH]; intros [|fuel'] Hf; [constructor|constructor|lia|].
  cbn [waitRunning]. apply approx_bind; [done|]. intros [out|]; [done|].
  apply approx_bind; [done|]. intros []; [done|]. apply IH. lia.
Qed.

Lemma Start_approx fuel fuel' g user ns reason : (fuel ≤ fuel')%nat →
  approx (Start cfg fuel g user ns reason) (Start cfg fuel' g user ns reason).
Proof.
  intros Hf. pose proof (waitRunning_approx fuel fuel') as Hw. unfold Start, with_caller, start_as. solve_approx; auto.
Qed.

End debug.

(** ** Calls of the registered tools *)

(** The same row of two tables, the second with more fuel. *)
Definition same_registered {S} (t t' : registered S) : Prop :=
  rt_name t = rt_name t' ∧ ∀ header raw c, approx (rt_call t header raw c) (rt_call t' header raw c).

(** Every call of every tool of a server has an outcome in an environment, with
    the fuel [n] and with any more the same. *)
Definition settled {S W} (servers : nat → mcp_server S) (env : W → ∀ q, reply q * W) (s : W) (n : nat) : Prop :=
  ∀ i t0, ms_tools (servers n) !! i = Some t0 → ∀ header raw c, ∃ out,
  ∀ fuel, (n ≤ fuel)%nat → ∃ t, ms_tools (servers fuel) !! i = Some t ∧ rt_name t = rt_name t0 ∧
    interp env s (rt_call t header raw c) = Some out.

Lemma settled_intro {S W} (servers : nat → mcp_server S) (env : W → ∀ q, reply q * W) s n P :
  (∀ fuel, (n ≤ fuel)%nat → Forall2 same_registered (ms_tools (servers n)) (ms_tools (servers fuel))) →
  (∀ t header raw c, t ∈ ms_tools (servers n) → answers_unless P (rt_call t header raw c)) →
  (∀ tr1 tr2, follows env s (tr1 ++ tr2) → ¬ P tr2) → settled servers env s n.
Proof.
  intros Hsame Hans Henv i t0 Ht header raw c.
  assert (t0 ∈ ms_tools (servers n)) as Hin by (by eapply list_elem_of_lookup_2).
  destruct (unless_answers P env s _ (Hans t0 header raw c Hin) Henv) as [out Hout].
  exists out. intros fuel Hf. destruct (Forall2_lookup_l _ _ _ _ _ (Hsame fuel Hf) Ht) as (t & Ht' & Hn & Ha).
  exists t. split; [done|]. split; [done|]. exact (approx_interp env s _ _ _ (Ha header raw c) Hout).
Qed.

Section servers.
Context `{Unicode, Printable, Unstructured, Selectors, GVRText, SliceSort, Quantities, Certs, LocalZone}.
Context (version : string) (cfg : Config) {W : Type} (env : W → ∀ q, reply q * W) (s : W).

Lemma servers_alike n fuel : (n ≤ fuel)%nat →
  Forall2 same_registered (ms_tools (NewServer version n)) (ms_tools (NewServer version fuel)) ∧
  Forall2 same_registered (ms_tools (NewDebugServer (runner n cfg) version)) (ms_tools (NewDebugServer (runner fuel cfg) version)).
Proof.
  intros Hf. split.
  - cbn [NewServer ms_tools]. apply Forall2_fmap. eapply Forall2_impl; [by apply (table_approx n fuel)|].
    intros t t' Ht. split; [apply Ht|]. intros header raw c. by apply call_tool_approx.
  - cbn [NewDebugServer debugTools ms_tools map]. repeat (apply Forall2_cons; split); [.. |constructor]; split; try done.
    intros header raw g. cbn [rt_call add_debug dt_run]. apply approx_bind; [|done]. apply approx_bind; [|done].
    by apply Start_approx.
Qed.

(** C13: Every call of a tool is answered, whatever its arguments and the state
    of its server.  For the read-only tools it is enough that no list of the
    cluster goes on for [n] pages, each continued by the next; for the debug
    tools, that the context of a start ends before [n] ticks.  Then [n] rounds
    of the program's loops are enough for every tool, and what the call
    exchanges and answers is the same for any larger number. *)
Theorem tools_answer n :
  ((∀ tr es, follows env s (tr ++ es) → ¬ long_list n es) → settled (NewServer version) env s n) ∧
  ((∀ tr, follows env s tr → (ticks tr < n)%nat) →
    settled (λ fuel, NewDebugServer (runner fuel cfg) version) env s n).
Proof.
  split; intros Henv.
  - eapply settled_intro; [intros; by apply servers_alike| |exact Henv].
    intros t header raw c (t' & -> & Ht)%list_elem_of_fmap. by apply call_tool_unless.
  - eapply (settled_intro _ _ _ _ (λ es, (n ≤ ticks es)%nat)); [intros; by apply servers_alike| |].
    + intros t header raw g. destruct (runner_unless cfg n (debug_user header)) as (Hs & He & Hf & Hl).
      unfold NewDebugServer, debugTools. cbn [map ms_tools]. rewrite !elem_of_cons, elem_of_nil. intros Ht.
      destruct_or! Ht; try done; subst t; cbn [rt_call add_debug dt_run];
        (apply unless_bind; [apply unless_bind; [auto|]|]; intros []; apply unless_ret).
    + intros tr1 tr2 Hf. specialize (Henv _ Hf). rewrite ticks_app in Henv. lia.
Qed.

End servers.

(** ** Witness *)

Module AnsweredDemo.
#[local] Existing Instances plain_unicode plain_printable plain_unstructured
  plain_selectors plain_gvr_text plain_quantities plain_certs utc.

(** Pods come in pages "", "a" and "b", and a pending pod's context ends after
    four ticks. *)
Definition world (s : nat) (q : request) : reply q * nat :=
  match q as q return reply q * nat with
  | List _ KPods _ o =>
      (if decide (Continue o = "") then Ok ([], "a") else if decide (Continue o = "a") then Ok ([], "b") else Ok ([], ""), s)
  | q => DebugPod.Demo.pending s q
  end.

(** What follows each page. *)
Lemma world_token s e next : (world s (asked e)).1 = replied e → token_of e = Some next → next ≠ "" →
  ∃ l, (page_of (asked e) = Some (l, "") ∧ next = "a") ∨ (page_of (asked e) = Some (l, "a") ∧ next = "b").
Proof.
  destruct e as [q r]. cbn [asked replied]. intros <-. unfold token_of.
  destruct q as [|w k ns [ls fs lim tok]| | | | | | | | |]; cbn; try done; [|by intros [= <-]].
  destruct k; try (by intros [= <-]). cbn. repeat case_decide; subst; cbn; intros [= <-]; [by eauto|by eauto|done].
Qed.

Lemma world_pages s tr es : follows world s (tr ++ es) → ¬ long_list 3 es.
Proof.
  intros [_ [s' Hf]]%follows_app (l & Hu & Hl).
  destruct Hu as [|tok1 e1 n1 es Hp1 Ht1 Hn1 Hu]; [done|]. destruct Hf as [He1 Hf].
  destruct Hu as [|tok2 e2 n2 es Hp2 Ht2 Hn2 Hu]; [done|]. destruct Hf as [He2 Hf].
  destruct Hu as [|tok3 e3 n3 es Hp3 Ht3 Hn3 Hu]; [done|]. destruct Hf as [He3 Hf].
  apply (world_token _ _ _ He1) in Ht1 as [? Ht1]; [|done]. apply (world_token _ _ _ He2) in Ht2 as [? Ht2]; [|done].
  apply (world_token _ _ _ He3) in Ht3 as [? Ht3]; [|done]. naive_solver.
Qed.

Lemma world_ticks s tr : follows world s tr → (ticks tr ≤ s)%nat.
Proof.
  unfold ticks. revert s. induction tr as [|[q r] tr IH]; intros s; [cbn; lia|].
  cbn [follows asked replied]. intros [<- Hf%IH].
  destruct q as [|w k ns o| | | | | | | | |]; cbn in *; try lia; [destruct k; cbn in *; lia|].
  destruct s; cbn in *; lia.
Qed.

Lemma tools_answer_witness :
  settled (NewServer "v1") world 4%nat 3 ∧
  settled (λ fuel, NewDebugServer (runner fuel DebugPod.Demo.config) "v1") world 4%nat 5.
Proof.
  split.
  - apply (tools_answer "v1" DebugPod.Demo.config world 4%nat 3). apply world_pages.
  - apply (tools_answer "v1" DebugPod.Demo.config world 4%nat 5). intros tr Hf%world_ticks. lia.
Defined.

End AnsweredDemo.
