(* ===== verification/ServerConc.v ===== *)
(** * Calls of the read-only tools at the same time (internal/mcp/server.go)

    The HTTP server answers every request in a goroutine of its own, and they
    share the cache.  Here the goroutines of [CacheConc] run the tools of
    [Server]: a call is a goroutine inside [resultCache.do], the function it may
    run is its tool's, one request to the cluster at a time, and the requests of
    all goroutines interleave. *)

From S2P Require Import CacheConc Prelude Parallel GoStrings GoTime Value Kube Pages Floats Json Unmarshal NumberText RoundTrip Instances Args Redact Cache Policy Disruption Handlers Answers Tools Server Groups DebugPod DebugServer Answered.
Local Open Scope Z_scope.
Local Open Scope mcp_scope.

Section server.
Context `{Unicode, Printable, Unstructured, Selectors, GVRText, SliceSort, Quantities, Certs} (fuel : nat).

(** The group's decision, by the contract of singleflight. *)
Context (admits : gmap string nat → string → bool) (admits_spec : ∀ fl k, admits fl k = true ↔ fl !! k = None).

Abbreviation trace := (list (event request reply)).

(** The goroutines inside [do], the call each one answers, what its function
    has exchanged so far and what is left of it, and everything that was
    exchanged with the cluster. *)
Record serving := mkServing {
  conc : CacheConc.state (error := error);
  asked_for : gmap nat (tool * string);
  functions : gmap nat (trace * io (result error string));
  history : trace;
}.

Definition start : serving := mkServing (CacheConc.initial new_server_cache) ∅ ∅ [].

(** A step of a call that is being answered: one inside [do], a request of its
    function and the reply, or the function's return. *)
Inductive inside : serving → serving → Prop :=
| serve_move g c s :
    is_Some (CacheConc.threads (conc s) !! g) → CacheConc.step admits g (conc s) c →
    CacheConc.log c = CacheConc.log (conc s) →
    inside s (mkServing c (asked_for s) (functions s) (history s))
| serve_ask g k n tr q (f : reply q → io (result error string)) r s :
    CacheConc.threads (conc s) !! g = Some (k, CacheConc.Computing n) → functions s !! g = Some (tr, Call q f) →
    inside s (mkServing (conc s) (asked_for s) (<[g := (tr ++ [Effects.Event q r], f r)]> (functions s))
      (history s ++ [Effects.Event q r]))
| serve_return g k n tr res c s :
    CacheConc.threads (conc s) !! g = Some (k, CacheConc.Computing n) → functions s !! g = Some (tr, Ret res) →
    CacheConc.step admits g (conc s) c → CacheConc.log c = CacheConc.log (conc s) ++ [(k, res)] →
    inside s (mkServing c (asked_for s) (functions s) (history s)).

Inductive serve_step : serving → serving → Prop :=
| serve_call g t raw s :
    t ∈ buildTools fuel → CacheConc.threads (conc s) !! g = None →
    serve_step s (mkServing (CacheConc.with_thread g (cache_key t raw) CacheConc.Enter (conc s))
      (<[g := (t, raw)]> (asked_for s)) (<[g := ([], tool_fn t raw)]> (functions s)) (history s))
| serve_inside s s' : inside s s' → serve_step s s'.

(** ** What every reachable state satisfies *)

(** A run of the tool on the arguments, among what was exchanged. *)
Definition ran_in (h : trace) (t : tool) (raw : string) (res : result error string) : Prop :=
  ∃ tr, runs (tool_fn t raw) tr res ∧ tr `sublist_of` h.

Record serving_ok (s : serving) : Prop := {
  ok_conc : CacheConc.inv (conc s);
  ok_threads : ∀ g k p, CacheConc.threads (conc s) !! g = Some (k, p) →
    ∃ t raw, asked_for s !! g = Some (t, raw) ∧ t ∈ buildTools fuel ∧ k = cache_key t raw;
  ok_running : ∀ g, is_Some (CacheConc.threads (conc s) !! g) → is_Some (functions s !! g);
  ok_functions : ∀ g tr p, functions s !! g = Some (tr, p) → is_Some (CacheConc.threads (conc s) !! g) ∧
    tr `sublist_of` history s ∧ ∃ t raw, asked_for s !! g = Some (t, raw) ∧ leads (tool_fn t raw) tr p;
  ok_log : ∀ k res, (k, res) ∈ CacheConc.log (conc s) →
    ∃ t raw, t ∈ buildTools fuel ∧ k = cache_key t raw ∧ ran_in (history s) t raw res;
}.

(** A goroutine's step leaves the others where they are, keeps its key and goes
    on in [do]. *)
Lemma conc_threads g (c c' : CacheConc.state (error := error)) : CacheConc.step admits g c c' → is_Some (CacheConc.threads c !! g) →
  ∃ k p p', CacheConc.threads c !! g = Some (k, p) ∧ CacheConc.threads c' = <[g := (k, p')]> (CacheConc.threads c) ∧
    (CacheConc.rank p' < CacheConc.rank p)%nat.
Proof. intros Hs [x Hx]. destruct Hs; simplify_eq; eexists _, _, _; (split; [done|split; [done|cbn; lia]]). Qed.

Lemma ran_in_more h h' t raw res : ran_in h t raw res → ran_in (h ++ h') t raw res.
Proof. intros (tr & Hr & Hs). exists tr. split; [done|]. by apply sublist_inserts_r. Qed.

Lemma start_ok : serving_ok start.
Proof.
  split; cbn.
  - by apply CacheConc.inv_initial.
  - by intros; simplify_map_eq.
  - by intros g []; simplify_map_eq.
  - by intros; simplify_map_eq.
  - by intros k res ?%not_elem_of_nil.
Qed.

(** A goroutine that is inside [do] keeps its call. *)
Lemma threads_kept g (c c' : CacheConc.state (error := error)) g' k p : CacheConc.step admits g c c' →
  is_Some (CacheConc.threads c !! g) → CacheConc.threads c' !! g' = Some (k, p) →
  ∃ p', CacheConc.threads c !! g' = Some (k, p').
Proof.
  intros Hs Hg. destruct (conc_threads g c c' Hs Hg) as (k0 & p0 & p1 & Hg0 & -> & _). destruct (decide (g' = g)) as [->|Hng].
  - rewrite lookup_insert_eq. intros [= <- <-]. by eexists.
  - rewrite lookup_insert_ne by done. by eexists.
Qed.

Lemma threads_grow g (c c' : CacheConc.state (error := error)) g' : CacheConc.step admits g c c' →
  is_Some (CacheConc.threads c !! g) → is_Some (CacheConc.threads c !! g') → is_Some (CacheConc.threads c' !! g').
Proof.
  intros Hs Hg Hg'. destruct (conc_threads g c c' Hs Hg) as (k0 & p0 & p1 & Hg0 & -> & _).
  destruct (decide (g' = g)) as [->|Hng]; [by rewrite lookup_insert_eq|by rewrite lookup_insert_ne].
Qed.

(** A step inside [do] that logs nothing, or what the goroutine's tool
    answered. *)
Lemma serving_ok_move s g c : serving_ok s → is_Some (CacheConc.threads (conc s) !! g) → CacheConc.step admits g (conc s) c →
  (∀ k res, (k, res) ∈ CacheConc.log c → (k, res) ∈ CacheConc.log (conc s) ∨
    ∃ t raw, t ∈ buildTools fuel ∧ k = cache_key t raw ∧ ran_in (history s) t raw res) →
  serving_ok (mkServing c (asked_for s) (functions s) (history s)).
Proof.
  intros [Hc Ht Hn Hf Hl] Hg Hs Hlog. split; cbn.
  - eapply CacheConc.inv_step; [exact admits_spec|exact Hc|by exists g].
  - intros g' k p Hg'. destruct (threads_kept g _ _ g' k p Hs Hg Hg') as [p' Hp']. by eapply Ht.
  - intros g' [[k p] Hg']. destruct (threads_kept g _ _ g' k p Hs Hg Hg') as [p' Hp']. apply Hn. by eexists.
  - intros g' tr p (Hg' & Hr)%Hf. split; [|done]. by eapply threads_grow.
  - intros k res [Hin|Hr]%Hlog; [by apply Hl|done].
Qed.

Lemma serving_ok_ask s g tr q (f : reply q → io (result error string)) r : serving_ok s → functions s !! g = Some (tr, Call q f) →
  serving_ok (mkServing (conc s) (asked_for s) (<[g := (tr ++ [Effects.Event q r], f r)]> (functions s))
    (history s ++ [Effects.Event q r])).
Proof.
  intros [Hc Ht Hn Hf Hl] Hfn. split; cbn; [done|done| | |].
  - intros g' Hg'. destruct (decide (g' = g)) as [->|Hng]; [by rewrite lookup_insert_eq|rewrite lookup_insert_ne by done; by apply Hn].
  - intros g' tr' p. destruct (decide (g' = g)) as [->|Hng].
    + rewrite lookup_insert_eq. intros [= <- <-]. destruct (Hf g tr _ Hfn) as (Hg & Hsub & t & raw & Ha & Hle).
      split_and!; [done|by apply sublist_app|]. exists t, raw. split; [done|]. by constructor.
    + rewrite lookup_insert_ne by done. intros (Hg & Hsub & Hr)%Hf. split_and!; [done| |done]. by apply sublist_inserts_r.
  - intros k res (t & raw & Hin & Hk & Hr)%Hl. exists t, raw. split_and!; [done|done|]. by apply ran_in_more.
Qed.

Lemma serving_ok_call s g t raw : serving_ok s → t ∈ buildTools fuel → CacheConc.threads (conc s) !! g = None →
  serving_ok (mkServing (CacheConc.with_thread g (cache_key t raw) CacheConc.Enter (conc s))
    (<[g := (t, raw)]> (asked_for s)) (<[g := ([], tool_fn t raw)]> (functions s)) (history s)).
Proof.
  intros [Hc Ht Hn Hf Hl] Hin Hg. split; cbn; [| | | |done].
  - eapply CacheConc.inv_step; [exact admits_spec|exact Hc|exists g]. by constructor.
  - intros g' k p. destruct (decide (g' = g)) as [->|Hng].
    + rewrite !lookup_insert_eq. intros [= <- <-]. by exists t, raw.
    + rewrite !lookup_insert_ne by done. apply Ht.
  - intros g'. destruct (decide (g' = g)) as [->|Hng]; [by rewrite !lookup_insert_eq|].
    rewrite !lookup_insert_ne by done. apply Hn.
  - intros g' tr p. destruct (decide (g' = g)) as [->|Hng].
    + rewrite !lookup_insert_eq. intros [= <- <-]. split_and!; [done|apply sublist_nil_l|].
      exists t, raw. split; [done|constructor].
    + rewrite !lookup_insert_ne by done. apply Hf.
Qed.

Lemma serving_ok_inside s s' : serving_ok s → inside s s' → serving_ok s'.
Proof.
  intros Hok Hs. destruct Hs as [g c s Hg Hs Hlog|g k n tr q f r s Hg Hfn|g k n tr res c s Hg Hfn Hs Hlog].
  - apply (serving_ok_move _ g); [done..|]. rewrite Hlog. by left.
  - by apply serving_ok_ask.
  - apply (serving_ok_move _ g); [done|by eexists|done|]. rewrite Hlog.
    intros k' res' [Hin|[= -> ->]%list_elem_of_singleton]%elem_of_app; [by left|right].
    destruct (ok_functions _ Hok _ _ _ Hfn) as (_ & Hsub & t & raw & Ha & Hle%leads_ret).
    destruct (ok_threads _ Hok _ _ _ Hg) as (t' & raw' & Ha' & Hin & ->). simplify_eq.
    exists t, raw. split_and!; [done|done|]. by exists tr.
Qed.

Lemma serving_ok_step s s' : serving_ok s → serve_step s s' → serving_ok s'.
Proof. intros Hok Hs. destruct Hs as [g t raw s Hin Hg|s s' Hi]; [by apply serving_ok_call|by eapply serving_ok_inside]. Qed.

Lemma reached_ok s : rtc serve_step start s → serving_ok s.
Proof. intros Hr. pose proof start_ok as Hok. induction Hr as [|x y z Hxy _ IH]; [done|]. by eapply IH, serving_ok_step. Qed.

(** C10: Answers are never mixed up between calls that run at the same time.
    Whatever the number of calls and the order in which they, their requests
    and the cluster's replies interleave, a call that has returned got what its
    own tool answered to its own arguments: the outcome of a run of that tool
    on them, on replies that came before the answer, in their order. *)
Theorem concurrent_answers_own s g t raw k res : rtc serve_step start s →
  asked_for s !! g = Some (t, raw) → CacheConc.threads (conc s) !! g = Some (k, CacheConc.Finished res) →
  ∃ tr, runs (tool_fn t raw) tr res ∧ tr `sublist_of` history s.
Proof.
  intros Hok%reached_ok Ha Hg. destruct (ok_threads _ Hok _ _ _ Hg) as (t' & raw' & Ha' & Hin & ->). simplify_eq.
  pose proof (CacheConc.inv_phases _ (ok_conc _ Hok) _ _ _ Hg) as Hlog. cbn in Hlog.
  destruct (ok_log _ Hok _ _ Hlog) as (t2 & raw2 & Hin2 & Hk & Hr).
  by apply (cache_key_inj fuel) in Hk as [<- <-].
Qed.

(** ** Calls come to an end *)

(** What a goroutine has left: the steps of [do], and its function. *)
Definition remaining : Type := nat * io (result error string).

Definition less_remaining (y x : remaining) : Prop := (y.1 < x.1)%nat ∨ (y.1 = x.1 ∧ next_of y.2 x.2).

Lemma less_remaining_wf : well_founded less_remaining.
Proof.
  intros [n p]. revert p. induction n as [n IHn] using (well_founded_induction lt_wf). intros p.
  induction (next_of_wf p) as [p _ IHp]. constructor. intros [m q] [Hm|[Hm Hq]]; cbn in *; [by apply IHn|].
  subst m. by apply IHp.
Qed.

Definition left_of (x : string * CacheConc.phase (error := error)) (y : trace * io (result error string)) : remaining := (CacheConc.rank x.2, y.2).

Definition all_remaining (s : serving) : gmap nat remaining := map_zip_with left_of (CacheConc.threads (conc s)) (functions s).

Lemma inside_less s s' : serving_ok s → inside s s' → one_down less_remaining (all_remaining s') (all_remaining s).
Proof.
  assert (Hmove : ∀ g c, serving_ok s → is_Some (CacheConc.threads (conc s) !! g) → CacheConc.step admits g (conc s) c →
    one_down less_remaining (all_remaining (mkServing c (asked_for s) (functions s) (history s))) (all_remaining s)).
  { intros g c Hok Hg Hs. destruct (ok_running _ Hok g Hg) as [[tr p] Hf].
    destruct (conc_threads g _ _ Hs Hg) as (k & p0 & p1 & Hg0 & Ht & Hr).
    exists g, (CacheConc.rank p0, p), (CacheConc.rank p1, p). split_and!; [|by left|].
    - apply map_lookup_zip_with_Some. by exists (k, p0), (tr, p).
    - unfold all_remaining. cbn [conc functions]. rewrite Ht, <- (insert_id (functions s) g (tr, p) Hf) at 1.
      symmetry. exact (map_insert_zip_with left_of _ _ g (k, p1) (tr, p)). }
  intros Hok Hs. destruct Hs as [g c s Hg Hs _|g k n tr q f r s Hg Hf|g k n tr res c s Hg Hf Hs _].
  - by apply (Hmove g).
  - exists g, (left_of (k, CacheConc.Computing n) (tr, Call q f)), (left_of (k, CacheConc.Computing n) (tr ++ [Effects.Event q r], f r)).
    split_and!; [|right; split; [done|by exists r]|].
    + apply map_lookup_zip_with_Some. by exists (k, CacheConc.Computing n), (tr, Call q f).
    + unfold all_remaining. cbn [conc functions]. rewrite <- (insert_id (CacheConc.threads (conc s)) g _ Hg) at 1.
      symmetry. exact (map_insert_zip_with left_of _ _ g (k, CacheConc.Computing n) (tr ++ [Effects.Event q r], f r)).
  - apply (Hmove g); [done|by eexists|done].
Qed.

Lemma inside_acc s : serving_ok s → Acc (λ s2 s1, inside s1 s2) s.
Proof.
  intros Hok. pose proof (one_down_wf _ less_remaining_wf (all_remaining s)) as Hacc.
  remember (all_remaining s) as m eqn:Hm. revert s Hok Hm. induction Hacc as [m _ IH]. intros s Hok ->.
  constructor. intros s' Hs. eapply IH; [by apply inside_less|by eapply serving_ok_inside|done].
Qed.

(** Some reply to every request. *)
Definition no_reply (q : request) : reply q :=
  match q with
  | Get _ _ _ _ | List _ _ _ _ | DynGet _ _ _ _ | DynList _ _ _ _ | GetLogs _ _ _ _ | GetRaw _ _ | CreateJob _ _ _ => Err (ErrText "")
  | NewClient _ => None
  | ExecPod _ _ _ _ _ _ => mkExec None [] None false
  | Now => 0
  | Tick => true
  end.

(** Where a call has not returned, a goroutine can go on, or one's function is
    out of fuel. *)
Lemma goes_on s g k p : serving_ok s → CacheConc.threads (conc s) !! g = Some (k, p) → ¬ CacheConc.finished p →
  (∃ s', inside s s') ∨ ∃ g' tr, functions s !! g' = Some (tr, OutOfFuel).
Proof.
  intros Hok Hg Hp. destruct (CacheConc.some_moves admits admits_spec _ _ _ _ (ok_conc _ Hok) Hg Hp) as [c (g' & Hg' & Hs)].
  assert (Hl : CacheConc.log c = CacheConc.log (conc s) ∨ ∃ k n, CacheConc.threads (conc s) !! g' = Some (k, CacheConc.Computing n))
    by (destruct Hs; eauto).
  destruct Hl as [Hl|(k' & n & Hc)]; [left; eexists; by apply (serve_move g' c)|].
  destruct (ok_running _ Hok g' Hg') as [[tr [res|q f|]] Hf]; [left|left|right; by eexists _, _].
  - destruct res as [out|e]; eexists; (eapply serve_return; [exact Hc|exact Hf| |]);
      [by apply CacheConc.step_fn_ok|done|by apply CacheConc.step_fn_err|done].
  - eexists. by apply (serve_ask g' k' n tr q f (no_reply q)).
Qed.

(** C12: Calls come to an end, however many there are at once and in whatever
    order they, their requests and the replies interleave: the calls that are
    being answered cannot go on for ever, and when none of them can go on every
    call has returned.  There is no deadlock and no livelock in the cache and
    the collapsing of calls, also when the cluster answers with errors.  The
    exception is a list of the cluster of which [fuel] pages were read, each
    continued by the next. *)
Theorem calls_end s : rtc serve_step start s →
  Acc (λ s2 s1, inside s1 s2) s ∧
  ∀ s', rtc inside s s' → (∀ s'', ¬ inside s' s'') →
    CacheConc.all_finished (conc s') ∨ ∃ es, long_list fuel es ∧ es `sublist_of` history s'.
Proof.
  intros Hok%reached_ok. split; [by apply inside_acc|]. intros s' Hs Hstuck.
  assert (Hok' : serving_ok s') by (induction Hs as [|x y z Hxy _ IH]; [done|]; apply IH; [by eapply serving_ok_inside|done]).
  destruct (decide (map_Forall (λ _ x, CacheConc.rank (error := error) x.2 = 0%nat) (CacheConc.threads (conc s')))) as [Hall|Hsome]; [left|right].
  - intros g k p Hg%Hall. by destruct p.
  - apply map_not_Forall in Hsome as (g & [k p] & Hg & Hp); [|apply _].
    assert (Hnf : ¬ CacheConc.finished p) by (intros Hfin; apply Hp; by destruct p).
    destruct (goes_on s' g k p Hok' Hg Hnf) as [[s'' Hi]|(g' & tr & Hf)]; [by apply Hstuck in Hi|].
    destruct (ok_functions _ Hok' _ _ _ Hf) as ([[k' p'] Hg'] & Hsub & t & raw & Ha & Hle).
    destruct (ok_threads _ Hok' _ _ _ Hg') as (t' & raw' & Ha' & Hin & _). simplify_eq.
    pose proof (leads_gives_up _ _ _ [] Hle eq_refl) as Hgu. rewrite app_nil_r in Hgu.
    destruct (tool_fn_unless fuel _ raw Hin _ Hgu) as (tr1 & es & -> & Hes). exists es. split; [done|].
    etrans; [|exact Hsub]. by apply sublist_inserts_l.
Qed.

(** ** Calls one after the other are one order of the goroutines *)

Abbreviation phase_of s g := (CacheConc.threads (conc s) !! g).

(** From [s] goroutine [g] gets to a phase, the cache to [c], the group to [fl]
    and its function to [f], while the other goroutines stay where they are. *)
Definition gets_to (s : serving) (g : nat) (k : string) (p : CacheConc.phase) (c : resultCache) (fl : gmap string nat)
    (f : option (trace * io (result error string))) (tr : trace) (s' : serving) : Prop :=
  rtc serve_step s s' ∧ CacheConc.threads (conc s') = <[g := (k, p)]> (CacheConc.threads (conc s)) ∧
  CacheConc.cache (conc s') = c ∧ CacheConc.flights (conc s') = fl ∧ functions s' !! g = f ∧
  asked_for s' = asked_for s ∧ history s' = history s ++ tr.

Lemma gets_to_move s g k p p' (c : CacheConc.state (error := error)) : phase_of s g = Some (k, p) →
  CacheConc.step admits g (conc s) c → CacheConc.log c = CacheConc.log (conc s) →
  CacheConc.threads c = <[g := (k, p')]> (CacheConc.threads (conc s)) →
  ∃ s', gets_to s g k p' (CacheConc.cache c) (CacheConc.flights c) (functions s !! g) [] s'.
Proof.
  intros Hg Hs Hl Ht. exists (mkServing c (asked_for s) (functions s) (history s)).
  split_and!; cbn; try done; [|by rewrite app_nil_r].
  apply rtc_once, serve_inside. by apply (serve_move g).
Qed.

Lemma gets_to_trans s g k p c fl f tr s' p' c' fl' f' tr' s'' : gets_to s g k p c fl f tr s' →
  gets_to s' g k p' c' fl' f' tr' s'' → gets_to s g k p' c' fl' f' (tr ++ tr') s''.
Proof.
  intros (Hr & Ht & _ & _ & _ & Ha & Hh) (Hr' & Ht' & Hc & Hfl & Hf & Ha' & Hh'). split_and!; try congruence.
  - by etrans.
  - by rewrite Ht', Ht, insert_insert_eq.
  - by rewrite Hh', Hh, app_assoc.
Qed.

Lemma gets_to_phase s g k p c fl f tr s' : gets_to s g k p c fl f tr s' → phase_of s' g = Some (k, p).
Proof. intros (_ & -> & _). by rewrite lookup_insert_eq. Qed.

(** The end of a call that leads: its result is published. *)
Lemma publish s g k n res : phase_of s g = Some (k, CacheConc.Returning n res) →
  ∃ s' f, gets_to s g k (CacheConc.Finished res) (CacheConc.cache (conc s)) (delete k (CacheConc.flights (conc s))) f [] s'.
Proof.
  intros Hg. destruct (gets_to_move s g k (CacheConc.Returning n res) (CacheConc.Finished res) (CacheConc.close_call g k n res (conc s)))
    as [s' Hs]; [done|by apply CacheConc.step_publish|done|done|]. by exists s', (functions s !! g).
Qed.

(** The requests of a function that runs alone. *)
Lemma function_asks s g k n tr0 p tr res : phase_of s g = Some (k, CacheConc.Computing n) →
  functions s !! g = Some (tr0, p) → runs p tr res →
  ∃ s', gets_to s g k (CacheConc.Computing n) (CacheConc.cache (conc s)) (CacheConc.flights (conc s))
    (Some (tr0 ++ tr, Ret res)) tr s'.
Proof.
  intros Hg. revert s tr0 tr Hg. induction p as [x|q f IH|]; intros s tr0 tr Hg Hf; cbn; [| |done].
  - intros [-> ->]. exists s. split_and!; rewrite ?app_nil_r; try done. by rewrite insert_id.
  - intros (r & tr' & -> & Hr). set (s1 := mkServing (conc s) (asked_for s)
      (<[g := (tr0 ++ [Effects.Event q r], f r)]> (functions s)) (history s ++ [Effects.Event q r])).
    destruct (IH r s1 (tr0 ++ [Effects.Event q r]) tr') as [s' Hs']; [done|by cbn; rewrite lookup_insert_eq|done|].
    exists s'. destruct Hs' as (Hsteps & Ht & Hc & Hfl & Hfn & Ha & Hh). cbn in Hh. rewrite <- app_assoc in Hfn, Hh.
    split_and!; try done. eapply rtc_l; [|exact Hsteps]. apply serve_inside. by eapply serve_ask.
Qed.

Lemma function_done s g k n tr res p : phase_of s g = Some (k, CacheConc.Computing n) → functions s !! g = Some (tr, Ret res) →
  CacheConc.step admits g (conc s) (CacheConc.with_thread g k p (CacheConc.with_log (k, res) (conc s))) →
  ∃ s', gets_to s g k p (CacheConc.cache (conc s)) (CacheConc.flights (conc s)) (functions s !! g) [] s'.
Proof.
  intros Hg Hf Hs. eexists (mkServing _ (asked_for s) (functions s) (history s)).
  split_and!; [apply rtc_once, serve_inside; by eapply serve_return|done..|by rewrite app_nil_r].
Qed.

(** A function that runs alone, to the end of its call. *)
Lemma function_returns s g k n tr0 p tr res now : phase_of s g = Some (k, CacheConc.Computing n) →
  functions s !! g = Some (tr0, p) → runs p tr res →
  ∃ s' f, gets_to s g k (CacheConc.Finished res)
    (match res with Ok out => Cache.put now k out (CacheConc.cache (conc s)) | Err _ => CacheConc.cache (conc s) end)
    (delete k (CacheConc.flights (conc s))) f tr s'.
Proof.
  intros Hg Hf Hr. destruct (function_asks s g k n tr0 p tr res Hg Hf Hr) as [s1 G1].
  pose proof (gets_to_phase _ _ _ _ _ _ _ _ _ G1) as Hg1. pose proof G1 as (_ & _ & Hc1 & Hfl1 & Hfn1 & _ & _).
  rewrite <- Hc1, <- Hfl1, <- (app_nil_r tr).
  assert (∃ s2 f, gets_to s1 g k (CacheConc.Returning n res)
    (match res with Ok out => Cache.put now k out (CacheConc.cache (conc s1)) | Err _ => CacheConc.cache (conc s1) end)
    (CacheConc.flights (conc s1)) f [] s2) as (s2 & f2 & G2).
  { destruct res as [out|e].
    - destruct (function_done s1 g k n _ _ (CacheConc.Storing n out) Hg1 Hfn1) as [s2 G2]; [by apply CacheConc.step_fn_ok|].
      pose proof (gets_to_phase _ _ _ _ _ _ _ _ _ G2) as Hg2. pose proof G2 as (_ & _ & Hc2 & Hfl2 & _).
      destruct (gets_to_move s2 g k _ (CacheConc.Returning n (Ok out)) _ Hg2 (CacheConc.step_put _ _ k n out now _ Hg2)) as [s3 G3];
        [done..|].
      cbn in G3. rewrite Hc2, Hfl2 in G3. exists s3, (functions s2 !! g).
      by eapply (gets_to_trans _ _ _ _ _ _ _ [] _ _ _ _ _ []).
    - destruct (function_done s1 g k n _ _ (CacheConc.Returning n (Err e)) Hg1 Hfn1) as [s2 G2]; [by apply CacheConc.step_fn_err|].
      by exists s2, (functions s1 !! g). }
  pose proof G2 as (_ & _ & Hc2 & Hfl2 & _).
  destruct (publish s2 g k n res) as (s3 & f & G3); [by eapply gets_to_phase|].
  exists s3, f. rewrite Hc2, Hfl2 in G3. eapply gets_to_trans; [exact G1|].
  by eapply (gets_to_trans _ _ _ _ _ _ _ [] _ _ _ _ _ []).
Qed.

Lemma lone_get key c tr v c' : runs (cache_get key c) tr (v, c') →
  ∃ now x, Cache.get now key c = ((x, bool_decide (is_Some v)), c') ∧ (v = None ∨ v = Some x).
Proof.
  unfold cache_get. destruct (items c !! key) as [el|] eqn:Hel.
  - intros (now & tr' & -> & Hr). cbn in Hr. destruct (Cache.get now key c) as [[x ok] c1] eqn:Hg.
    destruct Hr as [_ [= <- <-]]. exists now, x. destruct ok; auto.
  - intros [_ [= <- <-]]. exists 0, "". split; [|by left]. unfold Cache.get. by rewrite Hel.
Qed.

(** A miss, and the group admits the goroutine. *)
Lemma lone_opens s g k now x c : phase_of s g = Some (k, CacheConc.Enter) → CacheConc.flights (conc s) !! k = None →
  Cache.get now k (CacheConc.cache (conc s)) = ((x, false), c) →
  ∃ s' n, gets_to s g k (CacheConc.Leading n) c (<[k := n]> (CacheConc.flights (conc s))) (functions s !! g) [] s'.
Proof.
  intros Hg Hfl Hget.
  destruct (gets_to_move s g k _ CacheConc.Missed _ Hg (CacheConc.step_miss _ _ k now x c _ Hg Hget)) as [s1 G1]; [done..|].
  pose proof (gets_to_phase _ _ _ _ _ _ _ _ _ G1) as Hg1. pose proof G1 as (_ & _ & Hc1 & Hfl1 & Hfn1 & _).
  assert (Hadm : admits (CacheConc.flights (conc s1)) k = true) by (apply admits_spec; by rewrite Hfl1).
  destruct (gets_to_move s1 g k _ (CacheConc.Leading (CacheConc.next_call (conc s1))) _ Hg1
    (CacheConc.step_lead _ _ k _ Hg1 Hadm)) as [s2 G2]; [done..|].
  exists s2, (CacheConc.next_call (conc s1)). cbn in G2. rewrite Hc1, Hfl1, Hfn1 in G2.
  by eapply (gets_to_trans _ _ _ _ _ _ _ [] _ _ _ _ _ []).
Qed.

(** The function passed to the group's [Do], alone: the second look into the
    cache, the tool, and the new entry. *)
Lemma lone_leads s g k n fn tr out c' : phase_of s g = Some (k, CacheConc.Leading n) → functions s !! g = Some ([], fn) →
  runs (let! (v, c) := cache_get k (CacheConc.cache (conc s)) in
        match v with
        | Some v => Ret (Ok v, c)
        | None => let! r := fn in
            match r with Err err => Ret (Err err, c) | Ok out => let! t := now in Ret (Ok out, Cache.put t k out c) end
        end) tr (out, c') →
  ∃ s' f tr', gets_to s g k (CacheConc.Finished out) c' (delete k (CacheConc.flights (conc s))) f tr' s' ∧ tr' `sublist_of` tr.
Proof.
  intros Hg Hfn. rewrite runs_bind. intros (tra & trb & [v c1] & -> & Ha & Hr).
  apply lone_get in Ha as (now & x & Hget & Hv). destruct v as [v|]; cbn in Hget.
  - destruct Hr as [-> [= <- <-]]. destruct Hv as [|[= ->]]; [done|].
    destruct (gets_to_move s g k _ (CacheConc.Returning n (Ok x)) _ Hg (CacheConc.step_lead_hit _ _ k n now x c1 _ Hg Hget))
      as [s1 G1]; [done..|]. pose proof G1 as (_ & _ & Hc1 & Hfl1 & _).
    destruct (publish s1 g k _ _ (gets_to_phase _ _ _ _ _ _ _ _ _ G1)) as (s2 & f & G2). rewrite Hc1, Hfl1 in G2.
    exists s2, f, []. split; [|apply sublist_nil_l]. by eapply (gets_to_trans _ _ _ _ _ _ _ [] _ _ _ _ _ []).
  - destruct (gets_to_move s g k _ (CacheConc.Computing n) _ Hg (CacheConc.step_lead_miss _ _ k n now x c1 _ Hg Hget))
      as [s1 G1]; [done..|].
    pose proof (gets_to_phase _ _ _ _ _ _ _ _ _ G1) as Hg1. pose proof G1 as (_ & _ & Hc1 & Hfl1 & Hfn1 & _).
    rewrite Hfn in Hfn1. apply runs_bind in Hr as (tre & trf & res & -> & He & Hr).
    assert (∃ t, out = res ∧ c' = match res with Ok out => Cache.put t k out c1 | Err _ => c1 end) as (t & -> & ->).
    { destruct res as [text|err]; [|destruct Hr as [_ [= <- <-]]; by exists 0].
      destruct Hr as (t & tr2 & _ & _ & [= <- <-]). by exists t. }
    destruct (function_returns s1 g k n [] fn tre res t Hg1 Hfn1 He) as (s2 & f & G2). rewrite Hc1, Hfl1 in G2.
    exists s2, f, tre. split; [by eapply (gets_to_trans _ _ _ _ _ _ _ [])|]. by apply sublist_inserts_l, sublist_inserts_r.
Qed.

(** A goroutine that meets no other call of its key goes through [do] as
    [cache_do] says. *)
Lemma lone_do s g k fn tr out c' : phase_of s g = Some (k, CacheConc.Enter) → functions s !! g = Some ([], fn) →
  CacheConc.flights (conc s) !! k = None → runs (cache_do k fn (CacheConc.cache (conc s))) tr (out, c') →
  ∃ s' f tr', gets_to s g k (CacheConc.Finished out) c' (CacheConc.flights (conc s)) f tr' s' ∧ tr' `sublist_of` tr.
Proof.
  intros Hg Hfn Hfl. unfold cache_do. rewrite runs_bind. intros (tra & trb & [v c1] & -> & Ha & Hr).
  apply lone_get in Ha as (now & x & Hget & Hv). destruct v as [v|]; cbn in Hget.
  - destruct Hr as [-> [= <- <-]]. destruct Hv as [|[= ->]]; [done|].
    destruct (gets_to_move s g k _ (CacheConc.Finished (Ok x)) _ Hg (CacheConc.step_hit _ _ k now x c1 _ Hg Hget)) as [s1 G1];
      [done..|]. exists s1, (functions s !! g), []. split; [exact G1|apply sublist_nil_l].
  - destruct (lone_opens s g k now x c1 Hg Hfl Hget) as (s1 & n & G1).
    pose proof G1 as (_ & _ & Hc1 & Hfl1 & Hfn1 & _). rewrite Hfn in Hfn1. rewrite <- Hc1 in Hr.
    destruct (lone_leads s1 g k n fn trb out c' (gets_to_phase _ _ _ _ _ _ _ _ _ G1) Hfn1 Hr) as (s2 & f & tr' & G2 & Hsub).
    rewrite Hfl1, delete_insert_id in G2 by done. exists s2, f, tr'. split; [by eapply (gets_to_trans _ _ _ _ _ _ _ [])|].
    by apply sublist_inserts_l.
Qed.

(** One more call, with nothing in flight. *)
Lemma lone_call s g t raw tr out c' : t ∈ buildTools fuel → phase_of s g = None → CacheConc.flights (conc s) = ∅ →
  runs (cache_do (cache_key t raw) (tool_fn t raw) (CacheConc.cache (conc s))) tr (out, c') →
  ∃ s' tr', rtc serve_step s s' ∧
    CacheConc.threads (conc s') = <[g := (cache_key t raw, CacheConc.Finished out)]> (CacheConc.threads (conc s)) ∧
    CacheConc.cache (conc s') = c' ∧ CacheConc.flights (conc s') = ∅ ∧
    asked_for s' = <[g := (t, raw)]> (asked_for s) ∧ history s' = history s ++ tr' ∧ tr' `sublist_of` tr.
Proof.
  intros Ht Hg Hfl Hr. set (s1 := mkServing (CacheConc.with_thread g (cache_key t raw) CacheConc.Enter (conc s))
    (<[g := (t, raw)]> (asked_for s)) (<[g := ([], tool_fn t raw)]> (functions s)) (history s)).
  destruct (lone_do s1 g (cache_key t raw) (tool_fn t raw) tr out c') as (s' & f & tr' & (Hs & Hth & Hc & Hf & _ & Ha & Hh) & Hsub).
  - cbn. by rewrite lookup_insert_eq.
  - cbn. by rewrite lookup_insert_eq.
  - cbn. by rewrite Hfl.
  - done.
  - cbn in Hth, Hf. rewrite insert_insert_eq in Hth. rewrite Hfl in Hf. exists s', tr'. split_and!; try done.
    eapply rtc_l; [by apply serve_call|exact Hs].
Qed.

(** The calls [cs], by the goroutines from [n] on. *)
Lemma calls_in_order n s cs tr rs : (∀ g, (n ≤ g)%nat → phase_of s g = None) → CacheConc.flights (conc s) = ∅ →
  Forall (λ e, e.1 ∈ buildTools fuel) cs → runs (serve_calls cs (CacheConc.cache (conc s))) tr rs →
  ∃ s' tr', rtc serve_step s s' ∧ history s' = history s ++ tr' ∧ tr' `sublist_of` tr ∧
    (∀ g, (g < n)%nat → phase_of s' g = phase_of s g ∧ asked_for s' !! g = asked_for s !! g) ∧
    ∀ i t raw, cs !! i = Some (t, raw) → asked_for s' !! (n + i)%nat = Some (t, raw) ∧
      ∃ k out, phase_of s' (n + i)%nat = Some (k, CacheConc.Finished out) ∧ rs !! i = Some (call_outcome out).
Proof.
  revert n s tr rs. induction cs as [|[t raw] cs IH]; intros n s tr rs Hfree Hfl Hcs; cbn [serve_calls].
  { intros [-> <-]. exists s, []. rewrite app_nil_r. split_and!; try done. }
  rewrite runs_bind. intros (tr1 & tr2 & [r c1] & -> & Hc & Hr). inversion Hcs as [|? ? Ht Hcs']; subst.
  unfold call_tool in Hc. apply runs_bind in Hc as (tr3 & tr4 & [out c2] & -> & Hdo & [-> [= <- <-]]).
  apply runs_bind in Hr as (tr5 & tr6 & rs' & -> & Hr & [-> <-]). rewrite !app_nil_r.
  destruct (lone_call s n t raw tr3 out c2 Ht (Hfree n (le_n n)) Hfl Hdo) as (s1 & t1 & Hs1 & Hth1 & Hc1 & Hf1 & Ha1 & Hh1 & Hsub1).
  rewrite <- Hc1 in Hr. destruct (IH (S n) s1 tr5 rs') as (s2 & t2 & Hs2 & Hh2 & Hsub2 & Hold & Hnew); [|done|done|done|].
  { intros g Hg. rewrite Hth1, lookup_insert_ne by lia. apply Hfree. lia. }
  exists s2, (t1 ++ t2). split_and!.
  - by etrans.
  - by rewrite Hh2, Hh1, app_assoc.
  - by apply sublist_app.
  - intros g Hg. destruct (Hold g ltac:(lia)) as [-> ->]. by rewrite Hth1, Ha1, !lookup_insert_ne by lia.
  - intros [|i] t' raw'; cbn.
    + intros [= <- <-]. rewrite Nat.add_0_r. destruct (Hold n ltac:(lia)) as [-> ->].
      rewrite Hth1, Ha1, !lookup_insert_eq. split; [done|]. by eexists _, _.
    + intros Hi. replace (n + S i)%nat with (S n + i)%nat by lia. by apply Hnew.
Qed.

(** C11: The calls that a client makes one after the other are one of the ways
    the goroutines can go: whenever a sequence of calls of a new server has its
    answers, there is a schedule in which the i-th goroutine makes the i-th call
    and returns what the i-th answer shows, and the requests of the functions
    come in the order of the sequence. *)
Theorem calls_are_schedule cs tr rs : Forall (λ e, e.1 ∈ buildTools fuel) cs →
  runs (serve_calls cs new_server_cache) tr rs →
  ∃ s, rtc serve_step start s ∧ history s `sublist_of` tr ∧
    ∀ i t raw, cs !! i = Some (t, raw) → asked_for s !! i = Some (t, raw) ∧
      ∃ k out, CacheConc.threads (conc s) !! i = Some (k, CacheConc.Finished out) ∧ rs !! i = Some (call_outcome out).
Proof.
  intros Hcs Hr. destruct (calls_in_order 0 start cs tr rs) as (s & tr' & Hs & Hh & Hsub & _ & Hnew); [done..|].
  exists s. split_and!; [done|by rewrite Hh|exact Hnew].
Qed.

End server.

(** ** Witnesses *)

Module ServerConcDemo.
#[local] Existing Instances plain_unicode plain_printable plain_unstructured
  plain_selectors plain_gvr_text plain_quantities plain_certs.
Import ServerDemo.

Abbreviation steps := (serve_step 3 CacheConc.one_at_a_time).
Abbreviation conc_state := (CacheConc.state (error := error)).

(** Steps inside [do] that log nothing. *)
Definition quiet (c c' : conc_state) : Prop :=
  ∃ g, is_Some (CacheConc.threads c !! g) ∧ CacheConc.step CacheConc.one_at_a_time g c c' ∧ CacheConc.log c' = CacheConc.log c.

Lemma quiet_steps c c' a f h : rtc quiet c c' → rtc steps (mkServing c a f h) (mkServing c' a f h).
Proof.
  induction 1 as [c|c c1 c' (g & Hg & Hs & Hl) _ IH]; [done|]. eapply rtc_l; [|exact IH]. apply serve_inside. by apply (serve_move _ g).
Qed.

(** pod_logs makes one request. *)
Lemma logs_fn : ∃ q f r, tool_fn pod_logs pod_args = Call q f ∧ f r = Ret (Ok "line").
Proof.
  assert (Hr : runs (tool_fn pod_logs pod_args) [logs_read] (Ok "line"))
    by (apply (interp_runs world tt _ _ _ tt); vm_compute; reflexivity).
  destruct (tool_fn pod_logs pod_args) as [x|q f|]; [by destruct Hr| |done].
  destruct Hr as (r & tr & [= _ <-] & Hr). exists q, f, r. split; [done|].
  destruct (f r) as [x|q' f'|]; [by destruct Hr as [_ ->]|by destruct Hr as (? & ? & ? & _)|done].
Qed.

(** Two calls with one key meet: the second joins the group's call of the
    first. *)
Section joined.
Context (k : string).

Definition both_in : conc_state :=
  CacheConc.with_thread 1 k CacheConc.Enter (CacheConc.with_thread 0 k CacheConc.Enter (CacheConc.initial new_server_cache)).

Definition in_flight : conc_state := CacheConc.mkState new_server_cache {[k := 0%nat]} {[0%nat := (k, None)]}
  (<[0%nat := (k, CacheConc.Computing 0)]> {[1%nat := (k, CacheConc.Waiting 0)]}) 1 [].

Definition returned (c : conc_state) : conc_state :=
  CacheConc.with_thread 0 k (CacheConc.Storing 0 "line") (CacheConc.with_log (k, Ok "line") c).

Lemma joins : rtc quiet both_in in_flight.
Proof.
  assert (Hg : get 5 k new_server_cache = (("", false), new_server_cache)) by reflexivity.
  unfold both_in, in_flight. set (c := new_server_cache) in *.
  eapply rtc_l; [exists 0%nat; split_and!; [by eexists|by eapply (CacheConc.step_miss _ _ k 5)|done]|].
  eapply rtc_l; [exists 1%nat; split_and!; [by eexists|by eapply (CacheConc.step_miss _ _ k 5)|done]|].
  eapply rtc_l; [exists 0%nat; split_and!; [by eexists|by apply (CacheConc.step_lead _ _ k)|done]|].
  assert (Hfl : ({[k := 0%nat]} : gmap string nat) !! k = Some 0%nat) by apply lookup_singleton_eq.
  eapply rtc_l; [exists 1%nat; split_and!; [by eexists|apply (CacheConc.step_join _ _ k 0); [done| |exact Hfl]|done]|].
  { apply bool_decide_eq_false. cbn. by rewrite lookup_insert_eq. }
  eapply rtc_l; [exists 0%nat; split_and!; [by eexists|by eapply (CacheConc.step_lead_miss _ _ k 0 5)|done]|].
  apply rtc_refl.
Qed.

(** The first one's result is stored and published, and the second wakes up. *)
Lemma both_return : ∃ c, rtc quiet (returned in_flight) c ∧
  CacheConc.threads c !! 1%nat = Some (k, CacheConc.Finished (Ok "line")).
Proof.
  eexists. split.
  - eapply rtc_l; [exists 0%nat; split_and!; [by eexists|by apply (CacheConc.step_put _ _ k 0 "line" 6)|done]|].
    eapply rtc_l; [exists 0%nat; split_and!; [by eexists|by apply (CacheConc.step_publish _ _ k 0 (Ok "line"))|done]|].
    eapply rtc_l; [exists 1%nat; split_and!; [by eexists|by apply (CacheConc.step_wake _ _ k 0 k (Ok "line"))|done]|].
    apply rtc_refl.
  - done.
Qed.

End joined.

Lemma joined_call : ∃ s, rtc steps start s ∧ asked_for s !! 1%nat = Some (pod_logs, pod_args) ∧
  CacheConc.threads (conc s) !! 1%nat = Some (cache_key pod_logs pod_args, CacheConc.Finished (Ok "line")).
Proof.
  destruct logs_fn as (q & f & r & Hcall & Hret). pose proof pod_logs_in as Hin.
  pose proof (joins (cache_key pod_logs pod_args)) as Hjoins.
  destruct (both_return (cache_key pod_logs pod_args)) as (c & Hc & Hth).
  eexists (mkServing c _ _ _). split; [|split; [|exact Hth]].
  - eapply rtc_l; [apply (serve_call 3 _ 0 pod_logs pod_args); [exact Hin|reflexivity]|].
    eapply rtc_l; [apply (serve_call 3 _ 1 pod_logs pod_args); [exact Hin|reflexivity]|].
    cbn [start conc asked_for functions history]. etrans; [apply quiet_steps, Hjoins|].
    eapply rtc_l; [eapply serve_inside, (serve_ask _ 0 _ 0 _ q f r); cbn [conc functions]|].
    + reflexivity.
    + by rewrite lookup_insert_ne, lookup_insert_eq, Hcall by done.
    + cbn [conc asked_for functions history].
      eapply rtc_l; [eapply serve_inside, (serve_return _ 0 _ 0 _ (Ok "line") (returned _ _)); cbn [conc functions]|].
      * reflexivity.
      * by rewrite lookup_insert_eq, Hret.
      * by apply CacheConc.step_fn_ok.
      * reflexivity.
      * cbn [conc asked_for functions history]. apply quiet_steps, Hc.
  - cbn [asked_for]. by rewrite lookup_insert_eq.
Qed.

Lemma concurrent_answers_own_witness : ∃ s tr, rtc steps start s ∧
  runs (tool_fn pod_logs pod_args) tr (Ok "line") ∧ tr `sublist_of` history s.
Proof.
  destruct joined_call as (s & Hs & Ha & Hg).
  destruct (concurrent_answers_own 3 CacheConc.one_at_a_time CacheConc.one_at_a_time_spec s 1 pod_logs pod_args _ (Ok "line")
    Hs Ha Hg) as (tr & Hr & Hsub). by exists s, tr.
Defined.

Lemma calls_are_schedule_witness : ∃ s, rtc steps start s ∧ history s `sublist_of` [logs_read; ev Now; ev Now] ∧
  ∃ k, CacheConc.threads (conc s) !! 1%nat = Some (k, CacheConc.Finished (Ok "line")).
Proof.
  destruct (calls_are_schedule 3 CacheConc.one_at_a_time CacheConc.one_at_a_time_spec
    [(pod_logs, pod_args); (pod_logs, pod_args)] _ _ ltac:(repeat constructor; exact pod_logs_in) two_calls_run)
    as (s & Hs & Hsub & Hall).
  exists s. split; [exact Hs|]. split; [exact Hsub|].
  destruct (Hall 1%nat pod_logs pod_args eq_refl) as (_ & k & [x|e] & Hk & Ho); [|discriminate Ho].
  injection Ho as <-. by exists k.
Defined.

(** A state with two calls in it, and one with none. *)
Lemma calls_end_witness : ∃ s, is_Some (asked_for s !! 1%nat) ∧ Acc (λ s2 s1, inside CacheConc.one_at_a_time s1 s2) s ∧
  (CacheConc.all_finished (conc start) ∨ ∃ es, long_list 3 es ∧ es `sublist_of` history start).
Proof.
  destruct joined_call as (s & Hs & Ha & _). exists s. split; [rewrite Ha; by eexists|]. split.
  - exact (proj1 (calls_end 3 CacheConc.one_at_a_time CacheConc.one_at_a_time_spec s Hs)).
  - refine (proj2 (calls_end 3 CacheConc.one_at_a_time CacheConc.one_at_a_time_spec start (rtc_refl _ _)) start (rtc_refl _ _) _).
    intros s' Hi. inversion Hi as [g c ? Hg|g k n tr q f r ? Hg|g k n tr res c ? Hg]; subst; cbn in Hg;
      [by destruct Hg as [? Hg]|done|done].
Defined.

End ServerConcDemo.
