(* ===== verification/Client.v ===== *)
(** * Building the Kubernetes clients (internal/k8s/client.go)

    The settings read from the environment, the choice of a connection, and
    the two clients made from it.  client-go is an interface: how it finds a
    connection, and what it makes of one. *)

From S2P Require Import Prelude GoStrings GoTime Value Floats Kube Args.
Local Open Scope Z_scope.

(** ** Settings of the Kubernetes client *)

Record k8s_Config := mkK8sConfig { Kubeconfig : string; Context_ : string; Timeout : Z; QPS : spec_float; Burst : Z }.

(** 50 as a float32. *)
Definition fifty : spec_float := S754_finite false 13107200 (-18).

Section settings.
Context (Getenv : string → string).

(** [v := os.Getenv(name)] read by [parse] over a default when it is set. *)
Definition env_or {A} (name : string) (parse : string → option A) (dst : A) : A :=
  let v := Getenv name in if decide (v = "") then dst else default dst (parse v).

Definition positive (f : spec_float) : bool := SFltb (S754_zero false) f.

Definition k8s_ConfigFromEnv : k8s_Config :=
  mkK8sConfig
    (env_or "K8S_KUBECONFIG" Some "") (env_or "K8S_CONTEXT" Some "")
    (env_or "K8S_TIMEOUT" ParseDuration (30 * Second))
    (env_or "K8S_QPS" (λ v, match ParseFloat32 v with Some f => if positive f then Some f else None | None => None end) fifty)
    (env_or "K8S_BURST" (λ v, match Atoi v with Some n => if 0 <? n then Some n else None | None => None end) 100).

End settings.

(** ** client-go *)

(** rest.Config: the fields the source sets, over the connection [rc_base]
    (address, credentials, TLS) that client-go loaded. *)
Record rest_Config (B : Type) := mkRest {
  rc_base : B; rc_Timeout : Z; rc_QPS : spec_float; rc_Burst : Z;
  rc_AcceptContentTypes : string; rc_ContentType : string;
}.
#[global] Arguments mkRest {B} _ _ _ _ _ _.
#[global] Arguments rc_base {B} _.
#[global] Arguments rc_Timeout {B} _.
#[global] Arguments rc_QPS {B} _.
#[global] Arguments rc_Burst {B} _.
#[global] Arguments rc_AcceptContentTypes {B} _.
#[global] Arguments rc_ContentType {B} _.

(** What client-go finds where the program runs: the service account's
    connection, and the one a kubeconfig gives for an explicit path (the
    default files when empty) and a context (the current one when empty).
    [kubernetes_NewForConfig] and [dynamic_NewForConfig] make clients. *)
Class ClientGo := {
  connection : Type;
  clientset : Type;
  dynamic_client : Type;
  InClusterConfig : result error (rest_Config connection);
  ClientConfig : string → string → result error (rest_Config connection);
  kubernetes_NewForConfig : rest_Config connection → result error clientset;
  dynamic_NewForConfig : rest_Config connection → result error dynamic_client;
}.

Section client.
Context `{ClientGo} (Getenv : string → string).

Record Client := mkClient { Clientset : clientset; Dynamic : dynamic_client; Rest : rest_Config connection }.

(** A kubeconfig or a context was asked for. *)
Definition explicit (cfg : k8s_Config) : bool :=
  negb (bool_decide (Kubeconfig cfg = "")) || negb (bool_decide (Context_ cfg = "")).

Definition restConfig (cfg : k8s_Config) : result error (rest_Config connection) :=
  if explicit cfg then ClientConfig (Kubeconfig cfg) (Context_ cfg)
  else match InClusterConfig with Ok rc => Ok rc | Err _ => ClientConfig "" "" end.

(** The base config with the settings. *)
Definition with_settings (cfg : k8s_Config) (rc : rest_Config connection) : rest_Config connection :=
  mkRest (rc_base rc) (Timeout cfg) (QPS cfg) (Burst cfg) (rc_AcceptContentTypes rc) (rc_ContentType rc).

Definition protobuf : string := "application/vnd.kubernetes.protobuf".

(** The copy the typed client is made from. *)
Definition typedCfg (rc : rest_Config connection) : rest_Config connection :=
  mkRest (rc_base rc) (rc_Timeout rc) (rc_QPS rc) (rc_Burst rc) (protobuf +:+ ",application/json") protobuf.

(** [New(nil)] reads the environment. *)
Definition New (given : option k8s_Config) : result error Client :=
  let cfg := default (k8s_ConfigFromEnv Getenv) given in
  match restConfig cfg with
  | Err err => Err (wrap_err "build rest config" err)
  | Ok rc =>
      let restCfg := with_settings cfg rc in
      match kubernetes_NewForConfig (typedCfg restCfg) with
      | Err err => Err (wrap_err "create kubernetes client" err)
      | Ok cs =>
          match dynamic_NewForConfig restCfg with
          | Err err => Err (wrap_err "create dynamic client" err)
          | Ok dyn => Ok (mkClient cs dyn restCfg)
          end
      end
  end.

(** Which connection is used: the kubeconfig asked for, and only it; else the
    service account's; else the default kubeconfig. *)
Inductive chosen (cfg : k8s_Config) (rc : rest_Config connection) : Prop :=
| chosen_explicit : explicit cfg = true → ClientConfig (Kubeconfig cfg) (Context_ cfg) = Ok rc → chosen cfg rc
| chosen_cluster : explicit cfg = false → InClusterConfig = Ok rc → chosen cfg rc
| chosen_default e : explicit cfg = false → InClusterConfig = Err e → ClientConfig "" "" = Ok rc → chosen cfg rc.

Lemma restConfig_chosen cfg rc : restConfig cfg = Ok rc ↔ chosen cfg rc.
Proof.
  unfold restConfig. split.
  - destruct (explicit cfg) eqn:He; [by apply chosen_explicit|].
    destruct InClusterConfig as [rc'|e] eqn:Hi; [intros [= ->]; by apply chosen_cluster|by apply (chosen_default _ _ e)].
  - intros [He Hc | He Hc | e He Hi Hc]; rewrite He; [done|by rewrite Hc|by rewrite Hi].
Qed.

(** C18: The clients [New] builds: all of them use one connection, the one the
    settings choose, with the settings' timeout, rate and burst; the typed
    client alone speaks protobuf, and the config kept for acting as a caller
    is the one the dynamic client was made from.  [New] fails exactly when no
    connection is found or a client cannot be made from it. *)
Theorem New_clients given c :
  let cfg := default (k8s_ConfigFromEnv Getenv) given in
  New given = Ok c ↔
  ∃ rc, chosen cfg rc ∧ Rest c = with_settings cfg rc ∧ dynamic_NewForConfig (Rest c) = Ok (Dynamic c) ∧
    kubernetes_NewForConfig
      (mkRest (rc_base rc) (Timeout cfg) (QPS cfg) (Burst cfg) (protobuf +:+ ",application/json") protobuf) = Ok (Clientset c).
Proof.
  intros cfg. setoid_rewrite <- restConfig_chosen. unfold New. fold cfg. split.
  - destruct (restConfig cfg) as [rc|] eqn:Hr; [|done].
    destruct (kubernetes_NewForConfig _) as [cs|] eqn:Hk; [|done].
    destruct (dynamic_NewForConfig _) as [dyn|] eqn:Hd; [|done]. intros [= <-]. by exists rc.
  - intros (rc & -> & Hr & Hd & Hk). change (kubernetes_NewForConfig (typedCfg (with_settings cfg rc)) = Ok (Clientset c)) in Hk.
    rewrite Hk, <- Hr, Hd. by destruct c.
Qed.

End client.

(** A cluster without a kubeconfig: the connection is its name. *)
Definition in_cluster : ClientGo := {|
  connection := string; clientset := rest_Config string; dynamic_client := rest_Config string;
  InClusterConfig := Ok (mkRest "service account" 0 (S754_zero false) 0 "" "");
  ClientConfig := λ path _, Err (ErrText ("no kubeconfig " +:+ path));
  kubernetes_NewForConfig := Ok; dynamic_NewForConfig := Ok;
|}.

Module ClientDemo.
#[local] Existing Instance in_cluster.

(** A rate is taken when it is a positive number; an infinite one counts. *)
Example rates : map (λ v, QPS (k8s_ConfigFromEnv (λ name, if decide (name = "K8S_QPS") then v else ""))) ["12.5"; "0"; "-3"; "many"; "Inf"; "NaN"; "1e39"] =
  [S754_finite false 13107200 (-20); fifty; fifty; fifty; S754_infinity false; fifty; fifty].
Proof. by vm_compute. Qed.

Definition env (name : string) : string := "".

Definition settings : k8s_Config := mkK8sConfig "" "" (30 * Second) fifty 100.

Example in_cluster_client : ∃ c, New env (Some settings) = Ok c ∧ rc_base (Rest c) = "service account" ∧
  rc_ContentType (Clientset c) = protobuf ∧ rc_ContentType (Dynamic c) = "" ∧ rc_Burst (Dynamic c) = 100.
Proof. by eexists. Qed.

Example explicit_not_found : New (λ name, if decide (name = "K8S_KUBECONFIG") then "/kc" else "") None =
  Err (wrap_err "build rest config" (ErrText "no kubeconfig /kc")).
Proof. reflexivity. Qed.
End ClientDemo.
