(* ===== verification/Main.v ===== *)
(** * The program (cmd/openshift-mcp/main.go, internal/version/version.go)

    What is started for the flags and the environment, the HTTP server with
    its routes and limits, what stands before the debug endpoint, and the exit
    status.  Paths are matched as net/http's ServeMux matches patterns without
    wildcards, on a clean path.  Logging is not modelled; [Shutdown] has
    the signals and the end of the process. *)

From S2P Require Import Prelude GoStrings GoTime Value Kube Pages Floats Json Instances Args Redact Cache Client Groups DebugPod Handlers Answers Server DebugServer.
Local Open Scope Z_scope.
Local Open Scope mcp_scope.

(** ** Settings *)

Section settings.
Context (Getenv : string → string).

Definition readinessTimeout : Z :=
  env_or Getenv "READINESS_TIMEOUT"
    (λ v, match ParseDuration v with Some d => if 0 <? d then Some d else None | None => None end) (10 * Second).

End settings.

Section program.
Context `{Unicode, Printable, Unstructured, Selectors, GVRText, SliceSort, Quantities, Certs}.
Context `{LocalZone, SDK, ClientGo}.

(** The build's version information. *)
Context (Version_ Commit Date : string).

Definition version_String : string := Version_ +:+ " (commit " +:+ Commit +:+ ", built " +:+ Date +:+ ")".

(** The debug endpoint, when it is enabled: its configuration and token. *)
Definition debugServer (Getenv : string → string) : result error (option (Config * string)) :=
  match ConfigFromEnv Getenv with
  | (_, Some err) => Err err
  | (cfg, None) =>
      if Enabled cfg then
        let token := Getenv "DEBUG_POD_TOKEN" in
        if (String.length token <? 32)%nat
        then Err (ErrText "DEBUG_POD_TOKEN must be at least 32 characters when debug pods are enabled")
        else Ok (Some (cfg, token))
      else Ok None
  end.

(** http.Error *)
Definition http_error (code : Z) (text : string) : http_response := mkResponse code (text +:+ newline).

Definition readyz : io http_response :=
  let! r := (call (GetRaw Server "/version") : io (result error string)) in
  Ret (match r with Err _ => http_error 503 "kubernetes api unavailable" | Ok _ => mkResponse 200 "" end).

Definition version_page : http_response :=
  mkResponse 200 (match Marshal (VObj [("version", VStr version_String)]) with Some b => b +:+ newline | None => "" end).

(** The handlers of runHTTP. *)
Definition serve (fuel : nat) (dbg : option (Config * string)) (req : http_request) (s : resultCache * groupCache)
    : io (http_response * (resultCache * groupCache)) :=
  let path := hr_path req in
  if decide (path = "/healthz") then Ret (mkResponse 200 "", s)
  else if decide (path = "/readyz") then let! out := readyz in Ret (out, s)
  else if decide (path = "/version") then Ret (version_page, s)
  else if decide (path = "/mcp") then
    let! (out, c) := HTTPHandler version_String fuel req s.1 in Ret (out, (c, s.2))
  else
    match dbg with
    | Some (cfg, token) =>
        if decide (path = "/debug/mcp") then
          let! (out, g) := DebugHTTPHandler (runner fuel cfg) version_String token req s.2 in Ret (out, (s.1, g))
        else Ret (http_error 404 "not found", s)
    | None => Ret (http_error 404 "not found", s)
    end.

(** What the server starts with: an empty cache, and the runner's group cache. *)
Definition initial_state : resultCache * groupCache := (new_server_cache, newGroupCache (5 * Minute)).

(** The http.Server of runHTTP, less its handler. *)
Record http_Server := mkHttpServer { hs_Addr : string; hs_ReadHeaderTimeout : Z; hs_IdleTimeout : Z; hs_MaxHeaderBytes : Z }.

Definition http_settings (addr : string) : http_Server := mkHttpServer addr (5 * Second) (120 * Second) (Z.shiftl 1 20).

(** What main does once the program is set up: serve stdin and stdout, or HTTP
    at an address. *)
Inductive program :=
| Stdio (run : io (option error))
| HTTP (settings : http_Server) (handler : http_request → resultCache * groupCache → io (http_response * (resultCache * groupCache))).

(** main, on its flags and environment; an error ends it with status 1. *)
Definition main (mcpMode : bool) (httpAddr : string) (fuel : nat) (Getenv : string → string) : result error program :=
  match New Getenv (Some (k8s_ConfigFromEnv Getenv)) with
  | Err err => Err err
  | Ok _ =>
      if mcpMode then Ok (Stdio (RunStdio version_String fuel))
      else match debugServer Getenv with
           | Err err => Err err
           | Ok dbg => Ok (HTTP (http_settings httpAddr) (serve fuel dbg))
           end
  end.

(** The exit status when serving ends with [err]: not a failure when a signal
    ended it. *)
Definition exit_status (err : option error) (signalled : bool) : Z :=
  match err with Some _ => if signalled then 0 else 1 | None => 0 end.

(** ** Properties *)

Lemma debugServer_token Getenv cfg token : debugServer Getenv = Ok (Some (cfg, token)) →
  Getenv "DEBUG_POD_ENABLED" = "true" ∧ token = Getenv "DEBUG_POD_TOKEN" ∧ (32 ≤ String.length token)%nat.
Proof.
  unfold debugServer. destruct (ConfigFromEnv Getenv) as [cfg' [e|]] eqn:Hc; [done|].
  destruct (Enabled cfg') eqn:He; [|done]. destruct (Nat.ltb_spec (String.length (Getenv "DEBUG_POD_TOKEN")) 32); [done|].
  intros [= <- <-]. split_and!; [|done..]. unfold ConfigFromEnv in Hc.
  repeat (let x := fresh in destruct (quantity _ _ _ _) as [? x] in Hc).
  repeat (destruct (duration _ _ _ _) in Hc). destruct (max_output _ _ _) in Hc.
  injection Hc as <- _. cbn [Enabled] in He. by apply bool_decide_eq_true in He.
Qed.

(** What the debug endpoint may do for a request. *)
Definition authorised (Getenv : string → string) (req : http_request) (q : request) : Prop :=
  hr_path req = "/debug/mcp" ∧ Getenv "DEBUG_POD_ENABLED" = "true" ∧
  (32 ≤ String.length (Getenv "DEBUG_POD_TOKEN"))%nat ∧
  hr_authorization req = "Bearer " +:+ Getenv "DEBUG_POD_TOKEN" ∧
  on_behalf (TrimSpace (hr_remote_user req)) q.

Lemma serve_guarded fuel Getenv dbg req s : debugServer Getenv = Ok dbg →
  only (λ q, own_read q ∨ authorised Getenv req q) (serve fuel dbg req s).
Proof.
  intros Hd. unfold serve. case_decide; [done|]. case_decide.
  { apply only_bind; [|done]. unfold readyz. apply only_bind; [|done]. apply only_call. left. split; [done|by right]. }
  case_decide; [done|]. case_decide.
  { apply only_bind; [|by intros []]. eapply only_weaken; [|apply HTTPHandler_reads]. by left. }
  destruct dbg as [[cfg token]|]; [|done]. case_decide as Hp; [|done].
  apply debugServer_token in Hd as (He & -> & Hl). apply only_bind; [|by intros []].
  eapply only_weaken; [|apply good_token]. intros q [[_ Ha] Hq]. right. by split_and!.
Qed.

(** C1: Nothing but an authorised debug call writes.  Whatever the flags and
    the environment the program starts with, the requests it gets and the
    cluster's answers: over stdin and stdout every API request is a read as
    the server's own account; over HTTP it is such a read, or it is made for a
    request to /debug/mcp that carries the configured token of at least 32
    characters while debug pods are enabled, on behalf of the person in
    X-Remote-User. *)
Theorem debug_endpoint_guarded mcpMode addr fuel Getenv p : main mcpMode addr fuel Getenv = Ok p →
  match p with
  | Stdio run => ∀ tr out e, runs run tr out → e ∈ tr → own_read (asked e)
  | HTTP _ handler => ∀ req s tr out e, runs (handler req s) tr out → e ∈ tr →
      own_read (asked e) ∨ authorised Getenv req (asked e)
  end.
Proof.
  unfold main. destruct (New _ _); [|done]. destruct mcpMode; [intros [= <-] tr out e; apply only_runs, RunStdio_reads|].
  destruct (debugServer Getenv) as [dbg|] eqn:Hd; [|done]. intros [= <-] req s tr out e.
  apply (only_runs (λ q, own_read q ∨ authorised Getenv req q)). by apply serve_guarded.
Qed.

End program.

(** ** Witness: ann lists her debug pods *)

Module MainDemo.
#[local] Existing Instances plain_unicode plain_printable plain_unstructured
  plain_selectors plain_gvr_text plain_quantities plain_certs plain_sdk utc in_cluster.

Definition token : string := "0123456789abcdef0123456789abcdef".

Definition env (name : string) : string :=
  if decide (name = "DEBUG_POD_ENABLED") then "true"
  else if decide (name = "DEBUG_POD_IMAGE") then "tools"
  else if decide (name = "DEBUG_POD_TOKEN") then token else "".

Definition call : http_request := mkHttp "/debug/mcp" ("Bearer " +:+ token) " ann " "debug_pod_list".

Definition listing : request := List Demo.ann KPods "ns" (mkOpts (LabelDebug +:+ "=true") "" 0 "").

Definition trace : list (event request reply) :=
  [Demo.ev Now; Demo.ev (GetRaw Server groups_path); Demo.ev Now; Demo.ev (NewClient Demo.ann); Demo.ev listing].

Abbreviation started := (main "dev" "none" "unknown").

Lemma call_run : ∃ settings handler out, started false ":8080" 3 env = Ok (HTTP settings handler) ∧ runs (handler call initial_state) trace out.
Proof.
  eexists _, _, _. split; [reflexivity|]. apply (interp_runs Demo.world tt _ _ _ tt). vm_compute. reflexivity.
Qed.

Lemma debug_endpoint_guarded_witness : authorised env call (asked (Demo.ev listing)).
Proof.
  destruct call_run as (settings & handler & out & Hm & Hr).
  destruct (debug_endpoint_guarded "dev" "none" "unknown" false ":8080" 3 env (HTTP settings handler) Hm
    call initial_state trace out (Demo.ev listing) Hr) as [[_ Hw]|Ha];
    [do 4 right; left|destruct Hw; discriminate|exact Ha].
Defined.

(** Without the token nothing is asked; with a short token nothing starts. *)
Example refused : ∃ settings handler, started false ":8080" 3 env = Ok (HTTP settings handler) ∧
  handler (mkHttp "/debug/mcp" "Bearer guess" "ann" "debug_pod_list") initial_state =
  Ret (mkResponse 401 ("unauthorized" +:+ newline), initial_state).
Proof. eexists _, _. split; [reflexivity|]. vm_compute. reflexivity. Qed.

Example short_token : is_ok (started false ":8080" 3 (λ name, if decide (name = "DEBUG_POD_TOKEN") then "short" else env name)) = false.
Proof. reflexivity. Qed.

(** Over stdio the debug settings are not even read. *)
Example stdio : is_ok (started true "" 3 (λ name, if decide (name = "DEBUG_POD_TOKEN") then "short" else env name)) = true.
Proof. reflexivity. Qed.
End MainDemo.
