(* ===== verification/Shutdown.v ===== *)
(** * How the HTTP server stops (cmd/openshift-mcp/main.go, the end of runHTTP)

    The two goroutines of runHTTP after the server is set up: the one that
    waits for a signal and shuts the server down, and the main one in
    [ListenAndServe].  What they do and what happens to them is a sequence of
    events, [step] says which event can come next and what it changes.  Of
    net/http's Server the documented contract is used: [ListenAndServe]
    returns as soon as [Shutdown] is called, [Shutdown] takes no new requests
    and returns when none is being answered or its context ends, [Close] drops
    every connection, and the end of the process drops them too. *)

From S2P Require Import Prelude GoStrings GoTime Kube Main.
Local Open Scope Z_scope.

(** The main goroutine, from the call of [ListenAndServe] on. *)
Inductive main_goroutine :=
| Listening
| Returned (err : error)
| Ended (status : Z) (message : string).

(** The goroutine that runHTTP starts. *)
Inductive closer_goroutine :=
| Waiting
| Draining (deadline : Z)
| Drained (err : option error)
| Finished.

Definition is_waiting (g : closer_goroutine) : bool := match g with Waiting => true | _ => false end.

(** The process: the clock, whether the context of the signals is done, the
    goroutines, and of the server whether it is shutting down and which
    requests are being answered, were answered and were cut off. *)
Record process := mkProcess {
  clock : Z; ctx_done : bool; at_main : main_goroutine; at_closer : closer_goroutine;
  inShutdown : bool; active : list nat; answered : list nat; cut_off : list nat
}.

Definition started (now : Z) : process := mkProcess now false Listening Waiting false [] [] [].

Inductive happening :=
| Signal
| Tick (d : Z)
| Arrive (r : nat)
| Answer (r : nat)
| ListenFails (err : error)
| StartShutdown
| ListenReturns
| ShutdownReturns (err : option error)
| CloserEnds
| MainEnds.

Definition ErrServerClosed : error := ErrText "http: Server closed".
Definition DeadlineExceeded : error := ErrText "context deadline exceeded".
Definition shutdownTimeout : Z := 10 * Second.

Definition set_main (g : main_goroutine) (p : process) : process :=
  mkProcess (clock p) (ctx_done p) g (at_closer p) (inShutdown p) (active p) (answered p) (cut_off p).
Definition set_closer (g : closer_goroutine) (p : process) : process :=
  mkProcess (clock p) (ctx_done p) (at_main p) g (inShutdown p) (active p) (answered p) (cut_off p).
Definition set_requests (a o c : list nat) (p : process) : process :=
  mkProcess (clock p) (ctx_done p) (at_main p) (at_closer p) (inShutdown p) a o c.

(** The open requests are cut off. *)
Definition without_requests (p : process) : process := set_requests [] (answered p) (cut_off p ++ active p) p.

(** [_ = hs.Close()] *)
Definition hs_Close (p : process) : process := without_requests p.

(** Server.Shutdown returns: nothing is being answered, with the error of
    closing the listener if there is one, or its context has ended. *)
Definition shutdown_result (deadline : Z) (p : process) (err : option error) : bool :=
  bool_decide (active p = []) || ((deadline <=? clock p) && bool_decide (error_text <$> err = Some (error_text DeadlineExceeded))).

Definition serve_failed (err : error) : string := "http server: " +:+ error_text err.

(** [if err := hs.ListenAndServe(); err != nil && ctx.Err() == nil { ... os.Exit(1) }],
    then the message and the return from main; the process ends, and every
    connection with it. *)
Definition main_ends (err : error) (p : process) : process :=
  let status := exit_status (Some err) (ctx_done p) in
  without_requests (set_main (Ended status (if status =? 0 then "shutting down" else serve_failed err)) p).

(** [if err := hs.Shutdown(shutdownCtx); err != nil { ... _ = hs.Close() }] *)
Definition closer_ends (err : option error) (p : process) : process :=
  set_closer Finished (match err with Some _ => hs_Close p | None => p end).

Definition running (p : process) : bool := match at_main p with Ended _ _ => false | _ => true end.

Definition step (e : happening) (p : process) : option process :=
  if negb (running p) then None
  else match e, at_main p, at_closer p with
  | Signal, _, _ =>
      Some (mkProcess (clock p) true (at_main p) (at_closer p) (inShutdown p) (active p) (answered p) (cut_off p))
  | Tick d, _, _ =>
      if 0 <? d then Some (mkProcess (clock p + d) (ctx_done p) (at_main p) (at_closer p) (inShutdown p) (active p) (answered p) (cut_off p))
      else None
  | Arrive r, Listening, _ =>
      if inShutdown p || bool_decide (r ∈ active p ++ answered p ++ cut_off p) then None
      else Some (set_requests (active p ++ [r]) (answered p) (cut_off p) p)
  | Answer r, _, _ =>
      if bool_decide (r ∈ active p)
      then Some (set_requests (filter (λ r', r' ≠ r) (active p)) (answered p ++ [r]) (cut_off p) p)
      else None
  | ListenFails err, Listening, _ => if inShutdown p then None else Some (set_main (Returned err) p)
  | StartShutdown, _, Waiting =>
      if ctx_done p
      then Some (mkProcess (clock p) true (at_main p) (Draining (clock p + shutdownTimeout)) true (active p) (answered p) (cut_off p))
      else None
  | ListenReturns, Listening, _ => if inShutdown p then Some (set_main (Returned ErrServerClosed) p) else None
  | ShutdownReturns err, _, Draining deadline =>
      if shutdown_result deadline p err then Some (set_closer (Drained err) p) else None
  | CloserEnds, _, Drained err => Some (closer_ends err p)
  | MainEnds, Returned err, _ => Some (main_ends err p)
  | _, _, _ => None
  end.

Fixpoint happens (es : list happening) (p : process) : option process :=
  match es with [] => Some p | e :: es' => match step e p with Some p' => happens es' p' | None => None end end.

(** What the two goroutines do themselves, once the context is done. *)
Definition own (e : happening) : bool :=
  match e with StartShutdown | ListenReturns | ShutdownReturns _ | CloserEnds | MainEnds => true | _ => false end.

(** ** Reachable states *)

Lemma happens_app es es' p : happens (es ++ es') p = (p' ← happens es p; happens es' p').
Proof. revert p. induction es as [|e es IH]; intros p; cbn; [done|]. by destruct (step e p). Qed.

Lemma happens_ind (now : Z) (P : list happening → process → Prop) :
  P [] (started now) →
  (∀ es p e p', P es p → step e p = Some p' → P (es ++ [e]) p') →
  ∀ es p, happens es (started now) = Some p → P es p.
Proof.
  intros H0 Hs es. induction es as [|e es IH] using rev_ind; intros p.
  { by intros [= <-]. }
  rewrite happens_app. destruct (happens es (started now)) as [q'|]; [|done]. cbn.
  destruct (step e q') as [p'|] eqn:He; [|done]. intros [= <-]. eauto.
Qed.

(** One case for each event that can come next. *)
Ltac step_cases Hs :=
  unfold step, running in Hs; cbn [at_main at_closer ctx_done clock inShutdown active answered cut_off] in Hs;
  repeat (case_match; try discriminate Hs); simplify_eq/=.

(** What one event does to the context, the closer and the main goroutine. *)
Definition is_signal (e : happening) : bool := match e with Signal => true | _ => false end.

Lemma step_context e p p' : step e p = Some p' → ctx_done p' = ctx_done p || is_signal e.
Proof. destruct p as [clk [] m c sh a o x]; intros Hs; step_cases Hs; by repeat case_match. Qed.

Definition shutting (p : process) : Prop :=
  inShutdown p = negb (is_waiting (at_closer p)) ∧ (inShutdown p = true → ctx_done p = true).

Lemma step_shutting e p p' : shutting p → step e p = Some p' → shutting p'.
Proof. destruct p as [clk d m c sh a o x]; intros [Hc Hd] Hs; cbn in *; step_cases Hs; try done; by destruct err. Qed.

Definition returns (e : happening) (p : process) (err : error) : Prop :=
  e = ListenFails err ∨ (inShutdown p = true ∧ err = ErrServerClosed).

Lemma step_main e p p' : step e p = Some p' →
  at_main p' = at_main p ∨ (∃ err, at_main p' = Returned err ∧ returns e p err) ∨
  (∃ err, at_main p = Returned err ∧ p' = main_ends err p).
Proof.
  unfold returns. destruct p as [clk d m c sh a o x]; intros Hs; step_cases Hs; eauto 6; [eauto 8|left; by destruct err..].
Qed.

(** How far the goroutines have come, for a sequence of events. *)
Record progress (es : list happening) (p : process) : Prop := {
  pr_signal : ctx_done p = true ↔ Signal ∈ es;
  pr_shutting : shutting p;
  pr_returned err : at_main p = Returned err → ctx_done p = true ∨ ListenFails err ∈ es;
  pr_ended st m : at_main p = Ended st m →
    (st = 0 ∧ m = "shutting down" ∧ ctx_done p = true) ∨
    (st = 1 ∧ ctx_done p = false ∧ ∃ err, m = serve_failed err ∧ ListenFails err ∈ es)
}.

Lemma step_running e p p' : step e p = Some p' → running p = true.
Proof. unfold step. by destruct (running p). Qed.

Lemma reach_progress now es p : happens es (started now) = Some p → progress es p.
Proof.
  revert es p. apply (happens_ind now progress).
  { split; try done; split; try done. by intros ?%not_elem_of_nil. }
  intros es p e p' [Hsig Hsh Hr He] Hs. pose proof (step_context _ _ _ Hs) as Hd.
  assert (Hin : ∀ e', e' ∈ es ++ [e] ↔ e' ∈ es ∨ e' = e) by (intros; rewrite elem_of_app, list_elem_of_singleton; done).
  split; [|by eapply step_shutting|..].
  - rewrite Hd, orb_true_iff, Hsig, Hin. destruct e; cbn; intuition congruence.
  - intros err Hm. rewrite Hd, orb_true_iff, Hin.
    destruct (step_main _ _ _ Hs) as [Heq|[(err' & Heq & Hret)|(err' & _ & ->)]]; [| |done].
    { rewrite Heq in Hm. destruct (Hr err Hm); tauto. }
    rewrite Heq in Hm. injection Hm as ->. destruct Hret as [->|[Hi _]]; [by do 2 right|].
    left. left. by apply Hsh.
  - intros st m Hm. apply step_running in Hs as Hrun.
    destruct (step_main _ _ _ Hs) as [Heq|[(err' & Heq & _)|(err' & Heq & ->)]]; [|congruence|].
    { rewrite Heq in Hm. unfold running in Hrun. by rewrite Hm in Hrun. }
    revert Hm. unfold main_ends, exit_status. cbn [at_main without_requests set_main set_requests ctx_done].
    destruct (ctx_done p) eqn:Hc; intros [= <- <-]; [by left|right].
    split_and!; [done..|]. exists err'. rewrite Hin. destruct (Hr _ Heq); [done|]. auto.
Qed.

(** The time that passed in a sequence of events, and since Shutdown was
    called. *)
Definition elapsed (es : list happening) : Z := foldr (λ e t, match e with Tick d => d + t | _ => t end) 0 es.

Lemma elapsed_snoc es e : elapsed (es ++ [e]) = elapsed es + match e with Tick d => d | _ => 0 end.
Proof. unfold elapsed. induction es as [|e' es IH]; cbn; [destruct e; lia|]. destruct e'; rewrite ?IH; lia. Qed.

(** The grace was used up: Shutdown was called, and ten seconds went by. *)
Definition grace_over (es : list happening) : Prop :=
  ∃ es1 es2, es = es1 ++ StartShutdown :: es2 ∧ shutdownTimeout ≤ elapsed es2.

Lemma grace_over_snoc es e : (∀ d, e = Tick d → 0 < d) → grace_over es → grace_over (es ++ [e]).
Proof.
  intros He (es1 & es2 & -> & Ht). exists es1, (es2 ++ [e]). split; [by rewrite <- app_assoc|].
  rewrite elapsed_snoc. destruct e; try lia. specialize (He d eq_refl). lia.
Qed.

(** Shutdown was called, and what its deadline is. *)
Definition draining_since (es : list happening) (deadline now : Z) : Prop :=
  ∃ es1 es2, es = es1 ++ StartShutdown :: es2 ∧ deadline + elapsed es2 = now + shutdownTimeout.

Lemma draining_snoc es e deadline now now' : now' = now + match e with Tick d => d | _ => 0 end →
  draining_since es deadline now → draining_since (es ++ [e]) deadline now'.
Proof.
  intros -> (es1 & es2 & -> & Ht). exists es1, (es2 ++ [e]). split; [by rewrite <- app_assoc|]. rewrite elapsed_snoc. lia.
Qed.

Lemma draining_over es deadline now : draining_since es deadline now → deadline ≤ now → grace_over es.
Proof. intros (es1 & es2 & -> & Ht) Hd. exists es1, es2. split; [done|lia]. Qed.

(** What Shutdown returned: no error, the failure of a listener when nothing
    was being answered, or the end of its context. *)
Definition drained_well (es : list happening) (p : process) (err : option error) : Prop :=
  active p = [] ∨ (is_Some err ∧ grace_over es).

(** The work of the closer goroutine, for a sequence of events. *)
Record closing (es : list happening) (p : process) : Prop := {
  cl_draining d : at_closer p = Draining d → draining_since es d (clock p);
  cl_drained err : at_closer p = Drained err → drained_well es p err;
  cl_finished : at_closer p = Finished → active p = [];
  cl_shut : inShutdown p = negb (is_waiting (at_closer p));
  cl_cut : running p = true → cut_off p ≠ [] → grace_over es;
}.

Lemma step_clock e p p' : step e p = Some p' →
  clock p' = clock p + (match e with Tick d => d | _ => 0 end) ∧ ∀ d, e = Tick d → 0 < d.
Proof.
  destruct p as [clk d m c sh a o x]; intros Hs; step_cases Hs; split; try done; try (destruct err; cbn); try lia;
    by intros ? [= <-]; apply Z.ltb_lt.
Qed.

Lemma step_closer e p p' : step e p = Some p' →
  at_closer p' = at_closer p ∨
  (e = StartShutdown ∧ p' = mkProcess (clock p) true (at_main p) (Draining (clock p + shutdownTimeout)) true (active p) (answered p) (cut_off p)) ∨
  (∃ d err, e = ShutdownReturns err ∧ at_closer p = Draining d ∧ shutdown_result d p err = true ∧ p' = set_closer (Drained err) p) ∨
  (∃ err, at_closer p = Drained err ∧ p' = closer_ends err p).
Proof. destruct p as [clk d m c sh a o x]; intros Hs; step_cases Hs; eauto 10. Qed.

(** A server that is shutting down takes no new request. *)
Lemma step_active e p p' : step e p = Some p' → inShutdown p = true → active p = [] → active p' = [].
Proof.
  destruct p as [clk d m c sh a o x]; intros Hs Hi Ha; cbn in Hi, Ha; subst; step_cases Hs; try done; by destruct err.
Qed.

Lemma step_shut e p p' : step e p = Some p' → inShutdown p = negb (is_waiting (at_closer p)) →
  inShutdown p' = negb (is_waiting (at_closer p')).
Proof. destruct p as [clk d m c sh a o x]; intros Hs Hsh; cbn in Hsh; step_cases Hs; try done; by destruct err. Qed.

(** Requests are cut off by Close, and by the end of the process. *)
Lemma step_cut e p p' : step e p = Some p' → running p' = true →
  cut_off p' = cut_off p ∨ ∃ err, at_closer p = Drained err ∧ cut_off p' = cut_off p ++ active p.
Proof. destruct p as [clk d m c sh a o x]; intros Hs Hr; step_cases Hs; eauto; destruct err; eauto. Qed.

Lemma shutdown_result_well es d p err : draining_since es d (clock p) → shutdown_result d p err = true →
  active p = [] ∨ (is_Some err ∧ grace_over es).
Proof.
  unfold shutdown_result. rewrite orb_true_iff, andb_true_iff, !bool_decide_eq_true, Z.leb_le.
  intros Hd [Ha|[Hc He]]; [by left|right]. split; [by destruct err|by eapply draining_over].
Qed.

Lemma reach_closing now es p : happens es (started now) = Some p → closing es p.
Proof.
  revert es p. apply (happens_ind now closing); [by split|].
  intros es p e p' [Hdr Hdd Hf Hsh Hcut] Hs.
  destruct (step_clock _ _ _ Hs) as [Hclk Htick]. pose proof (step_active _ _ _ Hs) as Hact.
  pose proof (step_shut _ _ _ Hs Hsh) as Hsh'. pose proof (step_cut _ _ _ Hs) as Hcut'.
  assert (Hover : grace_over es → grace_over (es ++ [e])) by (by apply grace_over_snoc).
  assert (Hcuts : running p' = true → cut_off p' ≠ [] → grace_over (es ++ [e])).
  { intros Hr Hc. apply Hover. destruct (Hcut' Hr) as [Heq|(err & Hc' & Hx)].
    - apply Hcut; [by eapply step_running|by rewrite <- Heq].
    - destruct (Hdd _ Hc') as [Ha|[_ Hg]]; [|done]. apply Hcut; [by eapply step_running|]. by rewrite Hx, Ha, app_nil_r in Hc. }
  destruct (step_closer _ _ _ Hs) as [Heq|[[-> ->]|[(d & err & -> & Hc & Hres & ->)|(err & Hc & ->)]]]; split; try done.
  - rewrite Heq. intros d Hd%Hdr. by eapply draining_snoc.
  - rewrite Heq. intros err Hd. destruct (Hdd _ Hd) as [Ha|[He Hg]]; [left|right; split; [done|by apply Hover]].
    apply Hact; [by rewrite Hsh, Hd|done].
  - rewrite Heq. intros Hd. apply Hact; [by rewrite Hsh, Hd|by apply Hf].
  - intros d [= <-]. exists es, []. split; [done|]. cbn. lia.
  - intros err' [= <-]. destruct (shutdown_result_well es d p err (Hdr _ Hc) Hres) as [Ha|[He Hg]]; [by left|right].
    split; [done|by apply Hover].
  - intros _. destruct err as [e'|]; [done|]. by destruct (Hdd _ Hc) as [Ha|[[? [=]] _]].
Qed.

(** What the goroutines have left to do once the context is done. *)
Definition main_left (g : main_goroutine) : nat := match g with Listening => 2 | Returned _ => 1 | Ended _ _ => 0 end.
Definition closer_left (g : closer_goroutine) : nat :=
  match g with Waiting => 3 | Draining _ => 2 | Drained _ => 1 | Finished => 0 end.
Definition left_to_do (p : process) : nat := main_left (at_main p) + closer_left (at_closer p).

Lemma own_decreases e p p' : own e = true → step e p = Some p' → S (left_to_do p') = left_to_do p.
Proof. destruct p as [clk d m c sh a o x]; intros Ho Hs; step_cases Hs; unfold left_to_do; cbn; try lia; by destruct err. Qed.

Lemma own_bounded es p p' : forallb own es = true → happens es p = Some p' → (length es ≤ left_to_do p)%nat.
Proof.
  revert p. induction es as [|e es IH]; intros p; cbn; [lia|]. intros [Ho Hes]%andb_true_iff.
  destruct (step e p) as [q'|] eqn:He; [|done]. intros Hh. apply own_decreases in He; [|done].
  specialize (IH _ Hes Hh). lia.
Qed.

(** The events by which the main goroutine ends after a signal. *)
Definition ending (p : process) : list happening :=
  match at_main p with
  | Listening => (if inShutdown p then [] else [StartShutdown]) ++ [ListenReturns; MainEnds]
  | Returned _ => [MainEnds]
  | Ended _ _ => []
  end.

Lemma ending_ends p : shutting p → ctx_done p = true → running p = true →
  ∃ p', happens (ending p) p = Some p' ∧ at_main p' = Ended 0 "shutting down" ∧
    clock p' = clock p ∧ cut_off p' = cut_off p ++ active p.
Proof.
  destruct p as [clk d m c sh a o x]. intros [Hc _] Hd Hrun. cbn in Hc, Hd. subst d.
  destruct m as [|err|]; [|by eexists|done].
  destruct c; cbn in Hc; subst sh; by eexists.
Qed.

(** ** Properties *)

(** C31: The exit status.  However signals, requests and the two goroutines
    interleave, a process that has ended has status 0, says that it is shutting
    down and was sent a signal, or has status 1 because the listener failed,
    names that failure, and no signal came. *)
Theorem exit_status_decided now es p st m : happens es (started now) = Some p → at_main p = Ended st m →
  (st = 0 ∧ m = "shutting down" ∧ Signal ∈ es) ∨
  (st = 1 ∧ Signal ∉ es ∧ ∃ err, m = serve_failed err ∧ ListenFails err ∈ es).
Proof.
  intros [Hsig _ _ He]%reach_progress Hm. destruct (He _ _ Hm) as [(-> & -> & Hd)|(-> & Hd & Hx)]; [left|right].
  - by rewrite <- Hsig.
  - by rewrite <- Hsig, Hd.
Qed.

(** C30: A signal ends the process.  In every state that is reached after a
    signal, the goroutines can go on until the process has ended with status 0,
    in at most three steps of their own, whatever they have done so far and
    without anything else happening; and they never take more than five steps
    of their own, so nothing they do goes on for ever. *)
Theorem signal_ends now es p : happens es (started now) = Some p → Signal ∈ es → running p = true →
  (∃ es' p', forallb own es' = true ∧ (length es' ≤ 3)%nat ∧ happens es' p = Some p' ∧ at_main p' = Ended 0 "shutting down") ∧
  (∀ es' p', forallb own es' = true → happens es' p = Some p' → (length es' ≤ 5)%nat).
Proof.
  intros [Hsig Hsh _ _]%reach_progress Hs Hrun. apply Hsig in Hs. split.
  - destruct (ending_ends p Hsh Hs Hrun) as (p' & Hp & Hm & _). exists (ending p), p'. split_and!; try done.
    all: unfold ending; by destruct (at_main p), (inShutdown p); cbn; try lia.
  - intros es' p' Ho Hp. apply own_bounded in Hp; [|done]. etrans; [exact Hp|].
    unfold left_to_do. destruct (at_main p), (at_closer p); cbn; lia.
Qed.

(** C32: What the goroutine that shuts the server down achieves.  However
    signals, requests, time and the two goroutines interleave: once it is done
    no request is being answered any more, because Shutdown waited for them or
    Close, after Shutdown failed, dropped them; and as long as the process
    runs, a request has been cut off only when the ten seconds of grace after
    the call of Shutdown were over. *)
Theorem closer_leaves_none now es p : happens es (started now) = Some p →
  (at_closer p = Finished → active p = []) ∧ (running p = true → cut_off p ≠ [] → grace_over es).
Proof. intros Hp%reach_closing. split; apply Hp. Qed.

(** The ten seconds are not given.  Whenever a signal finds requests being
    answered, the goroutines alone can end the process at that instant and cut
    them off: main does not wait for Shutdown. *)
Lemma grace_not_given now es p : happens es (started now) = Some p → Signal ∈ es → running p = true →
  ∃ es' p', forallb own es' = true ∧ happens es' p = Some p' ∧ running p' = false ∧
    clock p' = clock p ∧ cut_off p' = cut_off p ++ active p.
Proof.
  intros [Hsig Hsh _ _]%reach_progress Hs Hrun. apply Hsig in Hs.
  destruct (ending_ends p Hsh Hs Hrun) as (p' & Hp & Hm & Hc & Hx). exists (ending p), p'.
  split_and!; [|done| |done..].
  - unfold ending. by destruct (at_main p), (inShutdown p).
  - unfold running. by rewrite Hm.
Qed.

(** ** Witnesses: a signal while a request is being answered *)

Module ShutdownDemo.

Definition before : list happening := [Arrive 1; Arrive 2; Answer 1; Signal].
Definition abrupt : list happening := before ++ [StartShutdown; ListenReturns; MainEnds].

Example abrupt_cuts : happens abrupt (started 0) =
  Some (mkProcess 0 true (Ended 0 "shutting down") (Draining (10 * Second)) true [] [1%nat] [2%nat]).
Proof. reflexivity. Qed.

(** The order that the grace was meant for is possible too. *)
Example graceful : cut_off <$> happens (before ++ [StartShutdown; Tick Second; Answer 2; ShutdownReturns None; CloserEnds; ListenReturns; MainEnds]) (started 0) = Some [].
Proof. reflexivity. Qed.

Example port_taken : at_main <$> happens [ListenFails (ErrText "address already in use"); MainEnds] (started 0) =
  Some (Ended 1 "http server: address already in use").
Proof. reflexivity. Qed.

Definition forcing : list happening := before ++ [StartShutdown; Tick (10 * Second); ShutdownReturns (Some DeadlineExceeded); CloserEnds].

Definition forced : process :=
  Eval vm_compute in default (started 0) (happens forcing (started 0)).

Example forced_cuts : cut_off forced = [2%nat] ∧ running forced = true.
Proof. split; reflexivity. Qed.

Lemma exit_status_decided_witness : Signal ∈ abrupt.
Proof.
  destruct (exit_status_decided 0 abrupt _ 0 "shutting down" abrupt_cuts eq_refl) as [(_ & _ & H)|(H & _)];
    [exact H|discriminate].
Defined.

Lemma signal_ends_witness : ∃ es' p', forallb own es' = true ∧
  happens es' (default (started 0) (happens before (started 0))) = Some p' ∧ at_main p' = Ended 0 "shutting down".
Proof.
  destruct (signal_ends 0 before _ eq_refl) as [(es' & p' & Ho & _ & Hh & Hm) _];
    [do 3 right; left|reflexivity|].
  exists es', p'. split; [exact Ho|]. split; [exact Hh|exact Hm].
Defined.

Lemma closer_leaves_none_witness : active forced = [] ∧ grace_over forcing.
Proof.
  assert (Hp : happens forcing (started 0) = Some forced) by reflexivity.
  destruct (closer_leaves_none 0 forcing forced Hp) as [Hf Hc].
  split; [by apply Hf|]. apply Hc; [reflexivity|discriminate].
Defined.

End ShutdownDemo.
